(** * ChatGPT UI Trimmer: the content script's reconciliation engine

    A shallow embedding of [content.js] (Chromium variant with collapse
    toggles) and of [clampKeepLastN] as shared with [popup.js].

    - JavaScript values that reach [clampKeepLastN] are a small tagged union;
      [String(value)] and [Number.parseInt(_, 10)] are written out, including
      the rounding of the parsed integer to an IEEE double.
    - The DOM is a forest of element and text nodes.  Every element carries
      an identity ([nid]), which stands for the JavaScript object reference:
      the script holds references, the model holds identities and looks
      them up in the current document.
    - [COLLAPSE_STATE] is a pair of finite maps from identity key to bool.
    - DOM exceptions and storage failures are results of an error monad. *)

From Stdlib Require Import ZArith Lia Ascii String List.
From stdpp Require Import base decidable option list strings gmap pretty.

Local Open Scope Z_scope.

(* ===================================================================== *)
(** * JavaScript values and numbers *)
(* ===================================================================== *)

Module JS.

(** A JavaScript Number as far as this script meets one: not-a-number, an
    infinity, or a finite value that is an integer.  (Fractions never arise:
    the only producer is [parseInt].) *)
Inductive number : Type :=
| NaN
| Inf (negative : bool)
| Fin (z : Z).

(** The values that the popup form, the message channel and the storage
    area hand to the script.  [JInt z] is the Number that the integer
    literal [z] denotes: the double nearest to [z], which is [z] itself
    below 2^53. *)
Inductive value : Type :=
| JUndefined
| JNull
| JBool (b : bool)
| JInt (z : Z)
| JNaN
| JInfinity (negative : bool)
| JStr (s : string).

(** [Boolean(value)]. *)
Definition Boolean (v : value) : bool :=
  match v with
  | JUndefined | JNull | JNaN => false
  | JBool b => b
  | JInt z => negb (z =? 0)
  | JInfinity _ => true
  | JStr s => negb (String.eqb s "")
  end.

(** Code units are the characters of a [string]; the white space of
    [StrWhiteSpaceChar] in that range is TAB, LF, VT, FF, CR, SP and NBSP. *)
Definition isWhiteSpace (c : ascii) : bool :=
  let n := nat_of_ascii c in
  ((9 <=? n)%nat && (n <=? 13)%nat) || (n =? 32)%nat || (n =? 160)%nat.

Definition digitValue (c : ascii) : option Z :=
  let n := Z.of_nat (nat_of_ascii c) in
  if (48 <=? n) && (n <=? 57) then Some (n - 48) else None.

Fixpoint trimStart (s : string) : string :=
  match s with
  | String.String c rest => if isWhiteSpace c then trimStart rest else s
  | EmptyString => s
  end.

(** The longest prefix of decimal digits, accumulated left to right:
    [None] when the prefix is empty. *)
Fixpoint digits (acc : option Z) (s : string) : option Z :=
  match s with
  | String.String c rest =>
      match digitValue c with
      | Some d => digits (Some (10 * default 0 acc + d)) rest
      | None => acc
      end
  | EmptyString => acc
  end.

(** The mathematical integer that [parseInt(s, 10)] reads, before its
    conversion to a Number: strip white space, take one sign, read
    digits. *)
Definition parseMathInt (s : string) : option Z :=
  let t := trimStart s in
  match t with
  | String.String "-" rest => Z.opp <$> digits None rest
  | String.String "+" rest => digits None rest
  | _ => digits None t
  end.

(** Conversion of a mathematical integer to the nearest double, ties to
    even: 53 bits of precision, overflow to an infinity from
    2^1024 - 2^970 on. *)
Definition roundNat (m : Z) : number :=
  if m <? 2 ^ 53 then Fin m
  else
    let e := Z.log2 m - 52 in
    let q := Z.shiftr m e in
    let r := m - Z.shiftl q e in
    let half := Z.shiftl 1 (e - 1) in
    let q' := if (half <? r) || ((half =? r) && Z.odd q) then q + 1 else q in
    let v := Z.shiftl q' e in
    if 2 ^ 1024 <=? v then Inf false else Fin v.

Definition toNumber (z : Z) : number :=
  if 0 <=? z then roundNat z
  else match roundNat (- z) with
       | Fin v => Fin (- v)
       | Inf _ => Inf true
       | NaN => NaN
       end.

(** Whether the mathematical integer [v] converts to the double [x]. *)
Definition convertsTo (v x : Z) : bool :=
  match roundNat v with
  | Fin w => w =? x
  | _ => false
  end.

(** The shortest decimal that converts to the double [x], an integer of
    at least 2^53, as [Number::toString] chooses it: the multiples of
    [10 ^ p] next to [x] are tried for falling [p], so that the first
    that converts to [x] has the fewest digits before its zeros; of two
    that do, the closer one is taken, and the one with the even last
    digit if they are equally close. *)
Fixpoint shortestFrom (fuel : nat) (p : Z) (x : Z) : Z :=
  match fuel with
  | O => x
  | S fuel =>
      let lo := x / 10 ^ p * 10 ^ p in
      let hi := lo + 10 ^ p in
      match convertsTo lo x, convertsTo hi x with
      | true, true =>
          if x - lo <? hi - x then lo
          else if hi - x <? x - lo then hi
          else if Z.even (lo / 10 ^ p) then lo else hi
      | true, false => lo
      | false, true => hi
      | false, false => shortestFrom fuel (p - 1) x
      end
  end.

Definition decimalLength (x : Z) : Z := Z.of_nat (String.length (pretty x)).

Definition shortest (x : Z) : Z :=
  shortestFrom (Z.to_nat (decimalLength x)) (decimalLength x - 1) x.

Fixpoint dropZeros (fuel : nat) (v : Z) : Z :=
  match fuel with
  | O => v
  | S fuel => if v mod 10 =? 0 then dropZeros fuel (v / 10) else v
  end.

(** [Number::toString] for a double that is a positive integer: plain
    digits below 2^53; from there on the digits of the shortest decimal,
    followed by zeros while there are at most 21 digits in all, and in
    exponent form beyond. *)
Definition positiveToString (x : Z) : string :=
  if x <? 2 ^ 53 then pretty x
  else
    let v := shortest x in
    let n := decimalLength v in
    if n <=? 21 then pretty v
    else
      match pretty (dropZeros (Z.to_nat n) v) with
      | String.String d EmptyString =>
          String.String d ("e+" +:+ pretty (n - 1))
      | String.String d rest =>
          String.String d ("." +:+ rest +:+ "e+" +:+ pretty (n - 1))
      | EmptyString => EmptyString
      end.

Definition numberToString (n : number) : string :=
  match n with
  | NaN => "NaN"
  | Inf false => "Infinity"
  | Inf true => "-Infinity"
  | Fin z =>
      if Z.abs z <? 2 ^ 53 then pretty z
      else if z <? 0 then "-" +:+ positiveToString (- z)
      else positiveToString z
  end.

(** [String(value)]. *)
Definition String (v : value) : string :=
  match v with
  | JUndefined => "undefined"
  | JNull => "null"
  | JBool true => "true"
  | JBool false => "false"
  | JInt z => numberToString (toNumber z)
  | JNaN => "NaN"
  | JInfinity false => "Infinity"
  | JInfinity true => "-Infinity"
  | JStr s => s
  end.

(** [Number.parseInt(s, 10)]. *)
Definition parseInt (s : string) : number :=
  match parseMathInt s with
  | Some z => toNumber z
  | None => NaN
  end.

Definition isFinite (n : number) : bool :=
  match n with Fin _ => true | _ => false end.

(** [Math.max] and [Math.min] of a finite integer and a Number. *)
Definition Math_max (a : Z) (n : number) : number :=
  match n with
  | NaN => NaN
  | Inf false => Inf false
  | Inf true => Fin a
  | Fin z => Fin (Z.max a z)
  end.

Definition Math_min (a : Z) (n : number) : number :=
  match n with
  | NaN => NaN
  | Inf false => Fin a
  | Inf true => Inf true
  | Fin z => Fin (Z.min a z)
  end.

End JS.

(* ===================================================================== *)
(** * Settings *)
(* ===================================================================== *)

Record Settings : Type := mkSettings {
  keepLastN : Z;
  minimalUi : bool;
  collapseOwnMessages : bool;
  collapseCodeBlocks : bool
}.

Definition DEFAULT_SETTINGS : Settings :=
  {| keepLastN := 6; minimalUi := true;
     collapseOwnMessages := true; collapseCodeBlocks := true |}.

Definition minKeepLastN : Z := 1.
Definition maxKeepLastN : Z := 500.

(** [clampKeepLastN(value)]: the same function in [content.js] and
    [popup.js]. *)
Definition clampKeepLastN (v : JS.value) : Z :=
  let parsed := JS.parseInt (JS.String v) in
  if negb (JS.isFinite parsed) then keepLastN DEFAULT_SETTINGS
  else
    match JS.Math_min maxKeepLastN (JS.Math_max minKeepLastN parsed) with
    | JS.Fin r => r
    | _ => keepLastN DEFAULT_SETTINGS
    end.

(* ===================================================================== *)
(** * The document *)
(* ===================================================================== *)

Module Dom.

(** What an element node carries besides its children.  [nid] is the
    identity of the node object; [html] says whether it is an instance of
    [HTMLElement]; [classes] is its [classList]; [attrs] holds every other
    attribute, [id] included. *)
Record edata : Type := mkElem {
  nid : nat;
  tag : string;
  html : bool;
  attrs : gmap string string;
  classes : gset string
}.

#[local] Unset Elimination Schemes.
Inductive node : Type :=
| Text (s : string)
| Elem (e : edata) (kids : list node).
#[local] Set Elimination Schemes.

(** The children of the [Document] node, in order. *)
Abbreviation forest := (list node).

Definition nodeId (n : node) : option nat :=
  match n with Elem e _ => Some (nid e) | Text _ => None end.

Definition isNode (x : nat) (n : node) : bool :=
  bool_decide (nodeId n = Some x).

(** Elements of a subtree in document order (preorder), each with its
    children. *)
Fixpoint elems (n : node) : list (edata * list node) :=
  match n with
  | Text _ => []
  | Elem e ks => (e, ks) :: flat_map elems ks
  end.

Definition elemsF (f : forest) : list (edata * list node) := flat_map elems f.

Definition ids (f : forest) : list nat := (λ p, nid p.1) <$> elemsF f.

(** Dereferencing: the element with identity [x] in the document. *)
Definition lookup (x : nat) (f : forest) : option (edata * list node) :=
  head (filter (λ p, nid p.1 = x) (elemsF f)).

Definition getAttribute (f : forest) (x : nat) (name : string) : option string :=
  lookup x f ≫= λ p, attrs p.1 !! name.

Definition hasClass (f : forest) (x : nat) (c : string) : bool :=
  match lookup x f with
  | Some p => bool_decide (c ∈ classes p.1)
  | None => false
  end.

Definition isHTMLElement (f : forest) (x : nat) : bool :=
  match lookup x f with Some p => html p.1 | None => false end.

(** [a.contains(x)]: [x] is [a] or one of its descendants. *)
Definition contains (f : forest) (a x : nat) : bool :=
  match lookup a f with
  | Some p => bool_decide (x ∈ nid p.1 :: ids p.2)
  | None => false
  end.

(** Selectors are predicates on the element's own data. *)
Definition selector := edata → bool.

Definition querySelectorAll (sel : selector) (f : forest) : list nat :=
  (λ p, nid p.1) <$> filter (λ p, sel p.1 = true) (elemsF f).

Definition querySelector (sel : selector) (f : forest) : option nat :=
  head (querySelectorAll sel f).

(** [element.querySelectorAll]: descendants only; [elementsIn] gives the
    elements themselves, [querySelectorAllIn] their identities. *)
Definition elementsIn (f : forest) (x : nat) (sel : selector)
    : list (edata * list node) :=
  match lookup x f with
  | Some p => filter (λ q, sel q.1 = true) (elemsF p.2)
  | None => []
  end.

Definition querySelectorAllIn (f : forest) (x : nat) (sel : selector) : list nat :=
  (λ p, nid p.1) <$> elementsIn f x sel.

Definition querySelectorIn (f : forest) (x : nat) (sel : selector) : option nat :=
  head (querySelectorAllIn f x sel).

Definition byId (i : string) : selector :=
  λ e, bool_decide (attrs e !! "id" = Some i).

Definition getElementById (i : string) (f : forest) : option nat :=
  querySelector (byId i) f.

Definition childIds (ks : list node) : list nat := omap nodeId ks.

(** The element one of whose children is [x]. *)
Definition parentOf (f : forest) (x : nat) : option (edata * list node) :=
  head (filter (λ p, x ∈ childIds p.2) (elemsF f)).

(** [x.parentElement]. *)
Definition parentElement (f : forest) (x : nat) : option nat :=
  (λ p, nid p.1) <$> parentOf f x.

(** The child list in which [x] sits: the top level, or its parent's. *)
Definition siblings (f : forest) (x : nat) : option (list node) :=
  if bool_decide (x ∈ childIds f) then Some f
  else snd <$> parentOf f x.

Fixpoint after (x : nat) (l : list node) : option node :=
  match l with
  | [] => None
  | n :: rest => if isNode x n then head rest else after x rest
  end.

(** [x.nextSibling], a node of any kind. *)
Definition nextSibling (f : forest) (x : nat) : option node :=
  siblings f x ≫= after x.

(** [x.closest(sel)]: the innermost of [x] and its ancestors that matches. *)
Definition closest (f : forest) (x : nat) (sel : selector) : option nat :=
  last ((λ p, nid p.1) <$>
        filter (λ p, sel p.1 = true ∧ x ∈ nid p.1 :: ids p.2) (elemsF f)).

(** [document.documentElement] and [document.body]. *)
Definition documentElement (f : forest) : option nat := head (childIds f).

Definition isBody (n : node) : bool :=
  match n with
  | Elem e _ => html e && bool_decide (tag e = "body" ∨ tag e = "frameset")
  | Text _ => false
  end.

Definition body (f : forest) : option nat :=
  r ← documentElement f;
  p ← lookup r f;
  if html p.1 && bool_decide (tag p.1 = "html")
  then n ← head (filter (λ n, isBody n = true) p.2); nodeId n
  else None.

(** ** Mutation *)

(** Every mutation rewrites the data of some elements and the child lists
    of some elements: [gd] acts on an element's data, [gk] on the child
    list of the element named by its first argument ([None]: the document
    itself). *)
Section Rewrite.
Variable gd : edata → edata.
Variable gk : option nat → list node → list node.

Fixpoint rewrite (n : node) : node :=
  match n with
  | Text s => Text s
  | Elem e ks => Elem (gd e) (gk (Some (nid e)) (map rewrite ks))
  end.

Definition rewriteF (f : forest) : forest := gk None (map rewrite f).
End Rewrite.

(** Change the data of element [x]. *)
Definition update (x : nat) (g : edata → edata) : forest → forest :=
  rewriteF (λ e, if decide (nid e = x) then g e else e) (λ _ ks, ks).

Definition withClasses (h : gset string → gset string) (e : edata) : edata :=
  mkElem (nid e) (tag e) (html e) (attrs e) (h (classes e)).

Definition withAttrs (h : gmap string string → gmap string string) (e : edata) : edata :=
  mkElem (nid e) (tag e) (html e) (h (attrs e)) (classes e).

(** [x.classList.toggle(c, force)], [x.classList.remove(c)]. *)
Definition classList_toggle (x : nat) (c : string) (force : bool) : forest → forest :=
  update x (withClasses (λ cs, if force then {[c]} ∪ cs else cs ∖ {[c]})).

Definition classList_remove (x : nat) (c : string) : forest → forest :=
  update x (withClasses (λ cs, cs ∖ {[c]})).

(** [x.setAttribute(name, v)], [x.removeAttribute(name)]. *)
Definition setAttribute (x : nat) (name v : string) : forest → forest :=
  update x (withAttrs (insert name v)).

Definition removeAttribute (x : nat) (name : string) : forest → forest :=
  update x (withAttrs (delete name)).

Definition textNodes (s : string) : list node :=
  if decide (s = "") then [] else [Text s].

(** Change the child list of element [h]. *)
Definition atKids (h : nat) (K : list node → list node) : forest → forest :=
  rewriteF (λ e, e) (λ p ks, if decide (p = Some h) then K ks else ks).

(** [x.textContent = s]: the children become one text node. *)
Definition set_textContent (x : nat) (s : string) : forest → forest :=
  atKids x (λ _, textNodes s).

(** [x.remove()]. *)
Definition remove (x : nat) : forest → forest :=
  rewriteF (λ e, e) (λ _ ks, filter (λ n, isNode x n = false) ks).

(** Put [new] in front of the child [ref] of a child list. *)
Fixpoint insertAt (ref : nat) (new : node) (l : list node) : list node :=
  match l with
  | [] => []
  | n :: rest =>
      if isNode ref n then new :: n :: rest else n :: insertAt ref new rest
  end.

Definition place (host ref : nat) (new : node) : forest → forest :=
  atKids host (insertAt ref new).

Inductive dres : Type :=
| Done (f : forest)
| Raise (err : string).

(** [host.insertBefore(new, ref)] for a node [new] that is in the document
    or detached: the pre-insertion checks of the DOM standard, then the
    node leaves its old place and enters before [ref]. *)
Definition insertBefore (host : nat) (new : edata * list node) (ref : nat)
    (f : forest) : dres :=
  if bool_decide (host ∈ nid new.1 :: ids new.2) then
    Raise "HierarchyRequestError: The new child element contains the parent."
  else if negb (bool_decide (parentElement f ref = Some host)) then
    Raise "NotFoundError: The node before which the new node is to be inserted is not a child of this node."
  else if decide (nid new.1 = ref) then Done f
  else Done (place host ref (Elem new.1 new.2) (remove (nid new.1) f)).

(** [host.appendChild(new)] and [host.prepend(new)] for a node just
    created. *)
Definition appendChild (host : nat) (new : node) : forest → forest :=
  atKids host (λ ks, ks ++ [new]).

Definition prepend (host : nat) (new : node) : forest → forest :=
  atKids host (cons new).

(** [x.textContent], read: the text of the descendants, in order. *)
Fixpoint textOf (n : node) : string :=
  match n with
  | Text s => s
  | Elem _ ks => String.concat "" (map textOf ks)
  end.

Definition textContent (f : forest) (x : nat) : option string :=
  (λ p, String.concat "" (map textOf p.2)) <$> lookup x f.

End Dom.

(* ===================================================================== *)
(** * The content script *)
(* ===================================================================== *)

Import Dom.

Module SELECTORS.
(** [article[data-testid^="conversation-turn-"]] *)
Definition conversationTurnsPrimary : selector := λ e,
  bool_decide (tag e = "article") &&
  match attrs e !! "data-testid" with
  | Some v => String.prefix "conversation-turn-" v
  | None => false
  end.
(** [article[data-turn-id][data-turn]] *)
Definition conversationTurnsFallback : selector := λ e,
  bool_decide (tag e = "article") &&
  bool_decide (is_Some (attrs e !! "data-turn-id")) &&
  bool_decide (is_Some (attrs e !! "data-turn")).
(** [[data-message-author-role="user"]] *)
Definition userRoleContainer : selector := λ e,
  bool_decide (attrs e !! "data-message-author-role" = Some "user").
Definition codeBlocks : selector := λ e, bool_decide (tag e = "pre").
Definition threadRoot : selector := byId "thread".
Definition mainRoot : selector := λ e, bool_decide (tag e = "main").
Definition article : selector := λ e, bool_decide (tag e = "article").
(** [button.<className>] *)
Definition buttonWithClass (className : string) : selector := λ e,
  bool_decide (tag e = "button") && bool_decide (className ∈ classes e).
(** [.<className>] *)
Definition withClass (className : string) : selector := λ e,
  bool_decide (className ∈ classes e).
End SELECTORS.

Module IDS.
Definition styleTag : string := "cgpt-trimmer-style".
Definition banner : string := "cgpt-trimmer-banner".
End IDS.

Module CLASSES.
Definition hiddenTurn : string := "cgpt-trimmer-hidden".
Definition minimalUi : string := "cgpt-trimmer-minimal-ui".
Definition messageToggle : string := "cgpt-trimmer-message-toggle".
Definition codeToggle : string := "cgpt-trimmer-code-toggle".
Definition collapsedUserMessage : string := "cgpt-trimmer-collapsed-user-message".
Definition collapsedCodeBlock : string := "cgpt-trimmer-collapsed-code-block".
End CLASSES.

Module ATTRS.
Definition messageKey : string := "data-cgpt-trimmer-message-key".
Definition codeKey : string := "data-cgpt-trimmer-code-key".
(* a literal in [setTurnHidden], named here *)
Definition hidden : string := "data-cgpt-trimmer-hidden".
End ATTRS.

Module LABELS.
Definition showMyMessage : string := "Show my message".
Definition hideMyMessage : string := "Hide my message".
Definition showCode : string := "Show code".
Definition hideCode : string := "Hide code".
End LABELS.

(** The style sheet that [ensureStyleTag] injects: the template literal
    of the source, line by line, with its indentation; the text begins
    with a line feed and ends with the blanks before the closing
    quote. *)
Definition newline : string := String (ascii_of_nat 10) EmptyString.

Definition quote : string := String (ascii_of_nat 34) EmptyString.

Definition styleLines : list string :=
  [ EmptyString;
    "      ." +:+ CLASSES.hiddenTurn +:+ " {";
    "        display: none !important;";
    "      }";
    EmptyString;
    "      #" +:+ IDS.banner +:+ " {";
    "        margin: 8px auto 12px auto;";
    "        padding: 8px 12px;";
    "        max-width: 48rem;";
    "        border-radius: 10px;";
    "        border: 1px solid rgba(127, 127, 127, 0.35);";
    "        background: rgba(127, 127, 127, 0.08);";
    "        color: inherit;";
    "        font-size: 12px;";
    "        line-height: 1.35;";
    "        opacity: 0.9;";
    "      }";
    EmptyString;
    "      ." +:+ CLASSES.messageToggle +:+ ",";
    "      ." +:+ CLASSES.codeToggle +:+ " {";
    "        display: inline-flex;";
    "        align-items: center;";
    "        gap: 6px;";
    "        margin: 4px 0 6px 0;";
    "        padding: 4px 8px;";
    "        border-radius: 8px;";
    "        border: 1px solid rgba(127, 127, 127, 0.35);";
    "        background: rgba(127, 127, 127, 0.08);";
    "        color: inherit;";
    "        font-size: 11px;";
    "        line-height: 1.2;";
    "        cursor: pointer;";
    "        user-select: none;";
    "      }";
    EmptyString;
    "      ." +:+ CLASSES.messageToggle +:+ ":hover,";
    "      ." +:+ CLASSES.codeToggle +:+ ":hover {";
    "        background: rgba(127, 127, 127, 0.14);";
    "      }";
    EmptyString;
    "      ." +:+ CLASSES.collapsedUserMessage +:+ " {";
    "        display: none !important;";
    "      }";
    EmptyString;
    "      ." +:+ CLASSES.collapsedCodeBlock +:+ " {";
    "        display: none !important;";
    "      }";
    EmptyString;
    "      html." +:+ CLASSES.minimalUi +:+ " {";
    "        --sidebar-width: 0px !important;";
    "      }";
    EmptyString;
    "      html." +:+ CLASSES.minimalUi +:+ " #stage-slideover-sidebar {";
    "        display: none !important;";
    "        width: 0 !important;";
    "        min-width: 0 !important;";
    "        border: 0 !important;";
    "      }";
    EmptyString;
    "      html." +:+ CLASSES.minimalUi +:+ " [data-testid=" +:+ quote +:+ "share-chat-button" +:+ quote +:+ "],";
    "      html." +:+ CLASSES.minimalUi +:+ " [data-testid=" +:+ quote +:+ "conversation-options-button" +:+ quote +:+ "] {";
    "        display: none !important;";
    "      }";
    EmptyString;
    "      html." +:+ CLASSES.minimalUi +:+ " [data-skip-to-content] {";
    "        display: none !important;";
    "      }";
    "    " ].

Definition styleText : string := String.concat newline styleLines.

(** ** State and effects *)

(** What [chrome.storage.sync] holds under the four keys ([None]: the key
    is not stored), and whether a call into the storage API throws. *)
Record Storage : Type := mkStorage {
  st_keepLastN : option JS.value;
  st_minimalUi : option JS.value;
  st_collapseOwnMessages : option JS.value;
  st_collapseCodeBlocks : option JS.value;
  st_fault : option string
}.

Record State : Type := mkState {
  document : forest;
  nextId : nat;                      (* identity of the next node created *)
  messages : gmap string bool;       (* COLLAPSE_STATE.messages *)
  codeBlocks : gmap string bool;     (* COLLAPSE_STATE.codeBlocks *)
  storage : Storage;
  treeWrites : nat                   (* writes to child lists so far *)
}.

(** A computation either returns or throws; either way it leaves a state
    behind. *)
Inductive outcome (A : Type) : Type :=
| Ok (a : A) (s : State)
| Throw (err : string) (s : State).
Arguments Ok {A} a s.
Arguments Throw {A} err s.

Definition M (A : Type) : Type := State → outcome A.

Definition ret {A} (a : A) : M A := λ s, Ok a s.
Definition throw {A} (err : string) : M A := λ s, Throw err s.
Definition bind {A B} (m : M A) (k : A → M B) : M B := λ s,
  match m s with
  | Ok a s' => k a s'
  | Throw err s' => Throw err s'
  end.

Declare Scope eff_scope.
Notation "'let*' x ':=' m 'in' k" := (bind m (λ x, k))
  (at level 10, x binder, m at level 100, k at level 200) : eff_scope.
Notation "m ';;' k" := (bind m (λ _, k))
  (at level 100, k at level 200, right associativity) : eff_scope.
Local Open Scope eff_scope.

Definition finalState {A} (o : outcome A) : State :=
  match o with Ok _ s => s | Throw _ s => s end.

Definition getDocument : M forest := λ s, Ok (document s) s.

Definition setDocument (f : forest) : State → State := λ s,
  mkState f (nextId s) (messages s) (codeBlocks s) (storage s) (treeWrites s).

(** A write to a child list has been made: it queues a mutation record
    of type [childList] for the observers of the document. *)
Definition written (s : State) : State :=
  mkState (document s) (nextId s) (messages s) (codeBlocks s) (storage s)
    (S (treeWrites s)).

(** A DOM call that changes classes or attributes and cannot throw. *)
Definition dom (g : forest → forest) : M unit := λ s,
  Ok tt (setDocument (g (document s)) s).

(** A DOM call that changes a child list and cannot throw. *)
Definition domTree (g : forest → forest) : M unit := λ s,
  Ok tt (written (setDocument (g (document s)) s)).

(** A DOM call that changes a child list and can throw. *)
Definition domTry (g : forest → dres) : M unit := λ s,
  match g (document s) with
  | Done f => Ok tt (written (setDocument f s))
  | Raise err => Throw err s
  end.

(** [document.createElement(tagName)]: a detached HTML element with a new
    identity. *)
Definition createElement (tagName : string) : M edata := λ s,
  Ok (mkElem (nextId s) tagName true ∅ ∅)
     (mkState (document s) (S (nextId s)) (messages s) (codeBlocks s) (storage s)
        (treeWrites s)).

Fixpoint forEach {A} (l : list A) (body : A → M unit) : M unit :=
  match l with
  | [] => ret tt
  | a :: rest => body a ;; forEach rest body
  end.

(** [for (let index = start; ...; index += 1)] over an array. *)
Fixpoint forIndex {A} (index : nat) (l : list A) (body : nat → A → M unit)
    : M unit :=
  match l with
  | [] => ret tt
  | a :: rest => body index a ;; forIndex (S index) rest body
  end.

(** ** Settings *)

Definition storedOr (d : JS.value) (o : option JS.value) : JS.value :=
  default d o.

(** [loadSettings()]: [chrome.storage.sync.get(DEFAULT_SETTINGS, ...)]
    fills in the defaults for the keys that are absent. *)
Definition loadSettings : M Settings := λ s,
  match st_fault (storage s) with
  | Some err => Throw err s
  | None =>
      let st := storage s in
      Ok {| keepLastN :=
              clampKeepLastN
                (storedOr (JS.JInt (keepLastN DEFAULT_SETTINGS)) (st_keepLastN st));
            minimalUi :=
              JS.Boolean
                (storedOr (JS.JBool (minimalUi DEFAULT_SETTINGS)) (st_minimalUi st));
            collapseOwnMessages :=
              JS.Boolean
                (storedOr (JS.JBool (collapseOwnMessages DEFAULT_SETTINGS))
                          (st_collapseOwnMessages st));
            collapseCodeBlocks :=
              JS.Boolean
                (storedOr (JS.JBool (collapseCodeBlocks DEFAULT_SETTINGS))
                          (st_collapseCodeBlocks st)) |} s
  end.

(** [saveSettings(value)] for a full settings object. *)
Definition saveSettings (v : Settings) : M unit := λ s,
  match st_fault (storage s) with
  | Some err => Throw err s
  | None =>
      Ok tt (mkState (document s) (nextId s) (messages s) (codeBlocks s)
               (mkStorage (Some (JS.JInt (keepLastN v)))
                          (Some (JS.JBool (minimalUi v)))
                          (Some (JS.JBool (collapseOwnMessages v)))
                          (Some (JS.JBool (collapseCodeBlocks v)))
                          (st_fault (storage s)))
               (treeWrites s))
  end.

(** ** Turns, banner, hidden markers *)

(** [ensureStyleTag()]. *)
Definition ensureStyleTag : M unit :=
  let* f := getDocument in
  match getElementById IDS.styleTag f with
  | Some _ => ret tt
  | None =>
      let* style := createElement "style" in
      let style := withAttrs (insert "id" IDS.styleTag) style in
      match documentElement f with
      | Some root =>
          domTree (appendChild root (Elem style (textNodes styleText)))
      | None => throw "TypeError: Cannot read properties of null (reading 'appendChild')"
      end
  end.

(** [getConversationTurns()]. *)
Definition getConversationTurns (f : forest) : list nat :=
  let turns := querySelectorAll SELECTORS.conversationTurnsPrimary f in
  let turns :=
    if decide (length turns = 0%nat)
    then querySelectorAll SELECTORS.conversationTurnsFallback f
    else turns in
  let threadRoot := querySelector SELECTORS.threadRoot f in
  let turns :=
    match threadRoot with
    | Some root => filter (λ element, contains f root element = true) turns
    | None => turns
    end in
  filter (λ element, isHTMLElement f element = true) turns.

(** [getBannerHost(turns)]. *)
Definition getBannerHost (f : forest) (turns : list nat) : option nat :=
  match head turns ≫= parentElement f with
  | Some host => Some host
  | None =>
      match querySelector SELECTORS.threadRoot f with
      | Some threadRoot =>
          if isHTMLElement f threadRoot then Some threadRoot
          else
            match querySelector SELECTORS.mainRoot f with
            | Some mainRoot =>
                if isHTMLElement f mainRoot then Some mainRoot else body f
            | None => body f
            end
      | None =>
          match querySelector SELECTORS.mainRoot f with
          | Some mainRoot =>
              if isHTMLElement f mainRoot then Some mainRoot else body f
          | None => body f
          end
      end
  end.

(** [removeBanner()]. *)
Definition removeBanner : M unit :=
  let* f := getDocument in
  match getElementById IDS.banner f with
  | Some existing => domTree (remove existing)
  | None => ret tt
  end.

Definition bannerText (hiddenCount totalCount keepLastN : Z) : string :=
  pretty hiddenCount +:+ " older messages hidden. Showing the last "
    +:+ pretty keepLastN +:+ " turns (" +:+ pretty totalCount +:+ " total).".

(** [updateBanner(hiddenCount, totalCount, keepLastN, turns)]. *)
Definition updateBanner (hiddenCount totalCount keepLastN : Z)
    (turns : list nat) : M unit :=
  if bool_decide (hiddenCount ≤ 0)%Z then removeBanner
  else
    let* f := getDocument in
    match getBannerHost f turns with
    | None => ret tt
    | Some host =>
        let* banner :=
          match getElementById IDS.banner f with
          | Some banner => ret banner
          | None =>
              let* banner := createElement "div" in
              let banner :=
                withAttrs (insert "aria-live" "polite")
                  (withAttrs (insert "role" "status")
                     (withAttrs (insert "id" IDS.banner) banner)) in
              match head turns with
              | Some first => domTry (insertBefore host (banner, []) first)
              | None => domTree (prepend host (Elem banner []))
              end ;;
              ret (nid banner)
          end in
        domTree
          (set_textContent banner (bannerText hiddenCount totalCount keepLastN))
    end.

(** [setTurnHidden(turn, hidden)]. *)
Definition setTurnHidden (turn : nat) (hidden : bool) : M unit :=
  dom (classList_toggle turn CLASSES.hiddenTurn hidden) ;;
  if hidden then dom (setAttribute turn ATTRS.hidden "1")
  else dom (removeAttribute turn ATTRS.hidden).

(** [showAllTurns()]. *)
Definition showAllTurns : M unit :=
  let* f := getDocument in
  let turns := getConversationTurns f in
  forEach turns (λ turn, setTurnHidden turn false) ;;
  removeBanner.

(** [applyMinimalUi(enabled)]. *)
Definition applyMinimalUi (enabled : bool) : M unit :=
  let* f := getDocument in
  match documentElement f with
  | Some root => dom (classList_toggle root CLASSES.minimalUi enabled)
  | None => throw "TypeError: Cannot read properties of null (reading 'classList')"
  end.

(** ** Collapse toggles *)

Definition truthy (o : option string) : option string :=
  match o with
  | Some s => if decide (s = "") then None else Some s
  | None => None
  end.

(** [getTurnKey(turn, index)]. *)
Definition getTurnKey (f : forest) (turn : nat) (index : nat) : string :=
  match truthy (getAttribute f turn "data-testid") with
  | Some testId => testId
  | None =>
      match truthy (getAttribute f turn "data-turn-id") with
      | Some turnId => "turn-id:" +:+ turnId
      | None =>
          match truthy (getAttribute f turn "data-turn") with
          | Some genericTurn => "turn:" +:+ genericTurn
          | None => "turn-index:" +:+ pretty index
          end
      end
  end.

(** [findUserMessageNode(turn)]. *)
Definition findUserMessageNode (f : forest) (turn : nat) : option nat :=
  match querySelectorIn f turn SELECTORS.userRoleContainer with
  | Some node => if isHTMLElement f node then Some node else None
  | None => None
  end.

(** [findChildButtonByKey(root, className, attributeName, key)]: the
    button element found, with its children. *)
Definition findChildButtonByKey (f : forest) (root : nat)
    (className attributeName key : string) : option (edata * list node) :=
  let buttons := elementsIn f root (SELECTORS.buttonWithClass className) in
  head (filter
          (λ button, html button.1 = true
                     ∧ attrs button.1 !! attributeName = Some key)
          buttons).

Definition String_bool (b : bool) : string := if b then "true" else "false".

(** [setMessageCollapsed(messageNode, button, collapsed)]. *)
Definition setMessageCollapsed (messageNode button : nat) (collapsed : bool)
    : M unit :=
  dom (classList_toggle messageNode CLASSES.collapsedUserMessage collapsed) ;;
  dom (setAttribute button "aria-expanded" (String_bool (negb collapsed))) ;;
  domTree (set_textContent button
         (if collapsed then LABELS.showMyMessage else LABELS.hideMyMessage)).

Definition setMessages (m : gmap string bool) : M unit := λ s,
  Ok tt (mkState (document s) (nextId s) m (codeBlocks s) (storage s)
           (treeWrites s)).

Definition setCodeBlocks (m : gmap string bool) : M unit := λ s,
  Ok tt (mkState (document s) (nextId s) (messages s) m (storage s)
           (treeWrites s)).

Definition getMessages : M (gmap string bool) := λ s, Ok (messages s) s.
Definition getCodeBlocks : M (gmap string bool) := λ s, Ok (codeBlocks s) s.

(** The click listener that [ensureMessageToggle] puts on a new button; it
    closes over [messageNode], [button] and [messageKey]. *)
Definition messageToggleClick (messageNode button : nat) (messageKey : string)
    : M unit :=
  let* m := getMessages in
  let current := bool_decide (m !! messageKey = Some true) in
  let next := negb current in
  setMessages (<[messageKey := next]> m) ;;
  setMessageCollapsed messageNode button next.

Definition nextSiblingIs (f : forest) (x ref : nat) : bool :=
  match nextSibling f x with
  | Some n => isNode ref n
  | None => false
  end.

(** [ensureMessageToggle(turn, messageNode, messageKey)]. *)
Definition ensureMessageToggle (turn messageNode : nat) (messageKey : string)
    : M unit :=
  let* f := getDocument in
  let host := default turn (parentElement f messageNode) in
  let* button :=
    match findChildButtonByKey f turn CLASSES.messageToggle ATTRS.messageKey
            messageKey with
    | Some button =>
        (if negb (bool_decide (parentElement f (nid button.1) = Some host))
            || negb (nextSiblingIs f (nid button.1) messageNode)
         then domTry (insertBefore host button messageNode)
         else ret tt) ;;
        ret (nid button.1)
    | None =>
        let* button := createElement "button" in
        let button :=
          withAttrs (insert ATTRS.messageKey messageKey)
            (withClasses (λ _, {[CLASSES.messageToggle]})
               (withAttrs (insert "type" "button") button)) in
        (* a button just created has no parent *)
        domTry (insertBefore host (button, []) messageNode) ;;
        ret (nid button)
    end in
  let* m := getMessages in
  (if negb (bool_decide (is_Some (m !! messageKey)))
   then setMessages (<[messageKey := true]> m) else ret tt) ;;
  let* m := getMessages in
  setMessageCollapsed messageNode button (bool_decide (m !! messageKey = Some true)).

(** [cleanupMessageCollapsers()]. *)
Definition cleanupMessageCollapsers : M unit :=
  let* f := getDocument in
  forEach (querySelectorAll (SELECTORS.buttonWithClass CLASSES.messageToggle) f)
    (λ button, domTree (remove button)) ;;
  let* f := getDocument in
  forEach (querySelectorAll (SELECTORS.withClass CLASSES.collapsedUserMessage) f)
    (λ node, dom (classList_remove node CLASSES.collapsedUserMessage)).

(** [applyMessageCollapsers(turns, enabled)]. *)
Definition applyMessageCollapsers (turns : list nat) (enabled : bool) : M unit :=
  if negb enabled then cleanupMessageCollapsers
  else
    forIndex 0 turns (λ index turn,
      let* f := getDocument in
      match findUserMessageNode f turn with
      | None => ret tt
      | Some messageNode =>
          let messageKey := getTurnKey f turn index +:+ "::user-message" in
          ensureMessageToggle turn messageNode messageKey
      end).

(** [setCodeCollapsed(preElement, button, collapsed)]. *)
Definition setCodeCollapsed (preElement button : nat) (collapsed : bool)
    : M unit :=
  dom (classList_toggle preElement CLASSES.collapsedCodeBlock collapsed) ;;
  dom (setAttribute button "aria-expanded" (String_bool (negb collapsed))) ;;
  domTree (set_textContent button
         (if collapsed then LABELS.showCode else LABELS.hideCode)).

(** The click listener of a code toggle. *)
Definition codeToggleClick (preElement button : nat) (codeKey : string)
    : M unit :=
  let* m := getCodeBlocks in
  let current := bool_decide (m !! codeKey = Some true) in
  let next := negb current in
  setCodeBlocks (<[codeKey := next]> m) ;;
  setCodeCollapsed preElement button next.

(** [ensureCodeToggle(preElement, codeKey)]. *)
Definition ensureCodeToggle (preElement : nat) (codeKey : string) : M unit :=
  let* f := getDocument in
  match parentElement f preElement with
  | None => ret tt
  | Some host =>
      let* button :=
        match findChildButtonByKey f host CLASSES.codeToggle ATTRS.codeKey
                codeKey with
        | Some button =>
            (if negb (bool_decide (parentElement f (nid button.1) = Some host))
                || negb (nextSiblingIs f (nid button.1) preElement)
             then domTry (insertBefore host button preElement)
             else ret tt) ;;
            ret (nid button.1)
        | None =>
            let* button := createElement "button" in
            let button :=
              withAttrs (insert ATTRS.codeKey codeKey)
                (withClasses (λ _, {[CLASSES.codeToggle]})
                   (withAttrs (insert "type" "button") button)) in
            domTry (insertBefore host (button, []) preElement) ;;
            ret (nid button)
        end in
      let* m := getCodeBlocks in
      (if negb (bool_decide (is_Some (m !! codeKey)))
       then setCodeBlocks (<[codeKey := true]> m) else ret tt) ;;
      let* m := getCodeBlocks in
      setCodeCollapsed preElement button (bool_decide (m !! codeKey = Some true))
  end.

(** [cleanupCodeCollapsers()]. *)
Definition cleanupCodeCollapsers : M unit :=
  let* f := getDocument in
  forEach (querySelectorAll (SELECTORS.buttonWithClass CLASSES.codeToggle) f)
    (λ button, domTree (remove button)) ;;
  let* f := getDocument in
  forEach (querySelectorAll (SELECTORS.withClass CLASSES.collapsedCodeBlock) f)
    (λ node, dom (classList_remove node CLASSES.collapsedCodeBlock)).

(** The inner loop of [applyCodeCollapsers]: [codeIndex] counts the blocks
    that are HTML elements. *)
Fixpoint forPreBlocks (turnKey : string) (codeIndex : nat) (preBlocks : list nat)
    : M unit :=
  match preBlocks with
  | [] => ret tt
  | preBlock :: rest =>
      let* f := getDocument in
      if negb (isHTMLElement f preBlock) then forPreBlocks turnKey codeIndex rest
      else
        let codeKey := turnKey +:+ "::code-block:" +:+ pretty codeIndex in
        ensureCodeToggle preBlock codeKey ;;
        forPreBlocks turnKey (S codeIndex) rest
  end.

(** [applyCodeCollapsers(turns, enabled)]. *)
Definition applyCodeCollapsers (turns : list nat) (enabled : bool) : M unit :=
  if negb enabled then cleanupCodeCollapsers
  else
    forIndex 0 turns (λ turnIndex turn,
      let* f := getDocument in
      let turnKey := getTurnKey f turn turnIndex in
      let preBlocks := querySelectorAllIn f turn SELECTORS.codeBlocks in
      forPreBlocks turnKey 0 preBlocks).

(** [applyCollapsibleFeatures(turns, settings)]. *)
Definition applyCollapsibleFeatures (turns : list nat) (settings : Settings)
    : M unit :=
  applyMessageCollapsers turns (collapseOwnMessages settings) ;;
  applyCodeCollapsers turns (collapseCodeBlocks settings).

(** ** The reconciliation pass *)

Record ApplyResult : Type := mkApplyResult {
  hiddenCount : Z;
  totalCount : Z;
  resultKeepLastN : Z
}.

(** [applyTrimming()] from its [await] on, when the storage has
    answered. *)
Definition applyTrimmingResumed : M ApplyResult :=
  let* settings := loadSettings in
  let* f := getDocument in
  let turns := getConversationTurns f in
  applyMinimalUi (minimalUi settings) ;;
  if decide (length turns = 0%nat) then
    removeBanner ;;
    ret (mkApplyResult 0 0 (keepLastN settings))
  else
    let hiddenCount := Z.max 0 (Z.of_nat (length turns) - keepLastN settings) in
    forIndex 0 turns (λ index turn,
      let shouldHide := bool_decide (Z.of_nat index < hiddenCount)%Z in
      setTurnHidden turn shouldHide) ;;
    applyCollapsibleFeatures turns settings ;;
    updateBanner hiddenCount (Z.of_nat (length turns)) (keepLastN settings) turns ;;
    ret (mkApplyResult hiddenCount (Z.of_nat (length turns)) (keepLastN settings)).

(** [applyTrimming()]. *)
Definition applyTrimming : M ApplyResult :=
  ensureStyleTag ;; applyTrimmingResumed.

(** ** The capturing click listener of [attachGlobalListeners] *)

(** The listener, run for a click whose target is the element [target]. *)
Definition onDocumentClick (target : nat) : M unit :=
  let* f := getDocument in
  match closest f target (SELECTORS.buttonWithClass CLASSES.messageToggle) with
  | Some _ => ret tt
  | None =>
      match closest f target SELECTORS.article with
      | None => ret tt
      | Some turn =>
          if negb (isHTMLElement f turn) then ret tt
          else
            match findUserMessageNode f turn with
            | None => ret tt
            | Some messageNode =>
                if negb (hasClass f messageNode CLASSES.collapsedUserMessage)
                then ret tt
                else
                  match querySelectorIn f turn
                          (SELECTORS.buttonWithClass CLASSES.messageToggle) with
                  | None => ret tt
                  | Some button =>
                      if negb (isHTMLElement f button) then ret tt
                      else
                        let* m := getMessages in
                        match truthy (getAttribute f button ATTRS.messageKey) with
                        | Some messageKey =>
                            setMessages (<[messageKey := false]> m)
                        | None => ret tt
                        end ;;
                        setMessageCollapsed messageNode button false
                  end
            end
      end
  end.

(** ** Messages from the popup *)

Inductive Message : Type :=
| TRIMMER_APPLY (keepLastN minimalUi collapseOwnMessages collapseCodeBlocks : JS.value)
| TRIMMER_SHOW_ALL
| TRIMMER_STATUS
| OtherMessage.

(** A response object: the properties it has. *)
Record Response : Type := mkResponse {
  r_ok : bool;
  r_hiddenCount : option Z;
  r_totalCount : option Z;
  r_keepLastN : option Z;
  r_error : option string
}.

(** What one run of the [onMessage] listener, together with the promise
    chain it starts, leaves behind: the state, the responses passed to
    [sendResponse] in order, and the exception, if any, that left the
    listener or stayed unhandled in the chain. *)
Record Handled : Type := mkHandled {
  h_state : State;
  h_responses : list Response;
  h_escaped : option string
}.

Definition onMessage (message : Message) (s : State) : Handled :=
  match message with
  | TRIMMER_APPLY kN mUi cOwn cCode =>
      let nextSettings :=
        {| keepLastN := clampKeepLastN kN;
           minimalUi := JS.Boolean mUi;
           collapseOwnMessages := JS.Boolean cOwn;
           collapseCodeBlocks := JS.Boolean cCode |} in
      match (saveSettings nextSettings ;; applyTrimming) s with
      | Ok result s' =>
          mkHandled s'
            [mkResponse true (Some (hiddenCount result)) (Some (totalCount result))
               (Some (resultKeepLastN result)) None]
            None
      | Throw error s' =>
          mkHandled s' [mkResponse false None None None (Some error)] None
      end
  | TRIMMER_SHOW_ALL =>
      match showAllTurns s with
      | Ok _ s' => mkHandled s' [mkResponse true (Some 0) None None None] None
      | Throw error s' => mkHandled s' [] (Some error)
      end
  | TRIMMER_STATUS =>
      let turns := getConversationTurns (document s) in
      let hiddenCount :=
        length (filter (λ turn, hasClass (document s) turn CLASSES.hiddenTurn = true)
                       turns) in
      mkHandled s
        [mkResponse true (Some (Z.of_nat hiddenCount))
           (Some (Z.of_nat (length turns))) None None]
        None
  | OtherMessage => mkHandled s [] None
  end.

(* ===================================================================== *)
(** * Specification vocabulary *)
(* ===================================================================== *)

(** [clampKeepLastN] as the settings contract words it: parse the value as
    an integer, clamp to [1, 500], default 6 when no integer can be read. *)
Definition spec_clampKeepLastN (v : JS.value) : Z :=
  match JS.parseMathInt (JS.String v) with
  | Some z => Z.min 500 (Z.max 1 z)
  | None => 6
  end.

(** From this magnitude on an integer rounds to an infinity. *)
Definition doubleOverflow : Z := 2 ^ 1024 - 2 ^ 970.

(** A property of every element of a forest, given its data and its
    children. *)
Definition allElems (Q : edata → list node → Prop) (f : forest) : Prop :=
  ∀ e ks, (e, ks) ∈ elemsF f → Q e ks.

(** What a rewrite makes of one element. *)
Definition rewriteP (gd : edata → edata) (gk : option nat → list node → list node)
    (p : edata * list node) : edata * list node :=
  (gd p.1, gk (Some (nid p.1)) (map (rewrite gd gk) p.2)).

(** What the three kinds of mutation make of one element. *)
Definition updateP (x : nat) (g : edata → edata) : edata * list node → edata * list node :=
  rewriteP (λ e, if decide (nid e = x) then g e else e) (λ _ ks, ks).

Definition atKidsP (h : nat) (K : list node → list node)
    : edata * list node → edata * list node :=
  rewriteP (λ e, e) (λ p ks, if decide (p = Some h) then K ks else ks).

Definition removeP (x : nat) : edata * list node → edata * list node :=
  rewriteP (λ e, e) (λ _ ks, filter (λ n, isNode x n = false) ks).

(** Element [b] has no element below it, wherever it occurs. *)
Definition leaf (b : nat) (f : forest) : Prop :=
  allElems (λ e ks, nid e = b → elemsF ks = []) f.

(** ** Host page and engine artefacts

    The names the script reserves for what it creates: the two toggle
    classes on buttons, and the identifiers of the banner and of the style
    sheet.  An element using one of them is [reserved]; every other element
    belongs to the host page. *)
Definition isToggle (e : edata) : bool :=
  bool_decide (tag e = "button")
  && (bool_decide (CLASSES.messageToggle ∈ classes e)
      || bool_decide (CLASSES.codeToggle ∈ classes e)).

Definition reserved (e : edata) : bool :=
  isToggle e
  || bool_decide (attrs e !! "id" = Some IDS.banner)
  || bool_decide (attrs e !! "id" = Some IDS.styleTag).

Definition hostNode (n : node) : option nat :=
  match n with
  | Elem e _ => if reserved e then None else Some (nid e)
  | Text _ => None
  end.

(** The host page's elements in document order, and per element the host
    elements below it and directly below it. *)
Definition hostElems (f : forest) : list (edata * list node) :=
  filter (λ p, reserved p.1 = false) (elemsF f).

Definition hostIds (f : forest) : list nat := (λ p, nid p.1) <$> hostElems f.

Definition hostChildIds (ks : list node) : list nat := omap hostNode ks.

Definition hostView (f : forest) : list (edata * list nat * list nat) :=
  (λ p, (p.1, hostIds p.2, hostChildIds p.2)) <$> hostElems f.

(** Reserved names are used the way the script uses them: such an element
    has no element below it, is neither an [article] nor a [pre] nor a
    user-message container, a toggle button has no [id]; and no reserved
    element is a child of the document node itself. *)
Definition artefact (e : edata) (ks : list node) : Prop :=
  elemsF ks = [] ∧ tag e ≠ "article" ∧ tag e ≠ "pre"
  ∧ attrs e !! "data-message-author-role" = None
  ∧ (isToggle e = true → attrs e !! "id" = None).

Definition tidy (f : forest) : Prop :=
  allElems (λ e ks, reserved e = true → artefact e ks) f
  ∧ Forall (λ n, hostNode n = nodeId n) f.

(** At most one element carries the banner's identifier. *)
Definition singleBanner (f : forest) : Prop :=
  (length (querySelectorAll (byId IDS.banner) f) ≤ 1)%nat.

(** Identities are unique and below the allocation counter. *)
Definition wellFormed (s : State) : Prop :=
  NoDup (ids (document s)) ∧ ∀ x, x ∈ ids (document s) → (x < nextId s)%nat.

(** Data that differ at most in what the script sets on host elements: the
    hidden, collapsed and minimal-UI classes and the hidden attribute. *)
Definition engineClasses : gset string :=
  {[ CLASSES.hiddenTurn; CLASSES.minimalUi;
     CLASSES.collapsedUserMessage; CLASSES.collapsedCodeBlock ]}.

Definition sameCore (e e' : edata) : Prop :=
  nid e' = nid e ∧ tag e' = tag e ∧ html e' = html e
  ∧ (∀ name, name ≠ ATTRS.hidden → name ≠ "aria-expanded"
       → attrs e' !! name = attrs e !! name)
  ∧ (∀ c, c ∉ engineClasses → c ∈ classes e' ↔ c ∈ classes e).

(** The same, and the hidden markers agree too. *)
Definition sameHidden (e e' : edata) : Prop :=
  sameCore e e'
  ∧ (CLASSES.hiddenTurn ∈ classes e' ↔ CLASSES.hiddenTurn ∈ classes e)
  ∧ attrs e' !! ATTRS.hidden = attrs e !! ATTRS.hidden.

(** Two documents show the same host page, up to [R] on the data. *)
Definition sameHost (R : edata → edata → Prop) (f f' : forest) : Prop :=
  Forall2 (λ v v', R v.1.1 v'.1.1 ∧ v.1.2 = v'.1.2 ∧ v.2 = v'.2)
          (hostView f) (hostView f')
  ∧ hostChildIds f' = hostChildIds f.

(** [x] names an element of the host page. *)
Definition isHost (f : forest) (x : nat) : Prop :=
  ∃ e ks, lookup x f = Some (e, ks) ∧ reserved e = false.

(** A selector that reserved elements never match, and that does not look
    at what the script sets on host elements. *)
Definition structural (sel : selector) : Prop :=
  (∀ e ks, reserved e = true → artefact e ks → sel e = false)
  ∧ (∀ e e', sameCore e e' → sel e' = sel e).

(** A state whose document is well formed and tidy. *)
Definition Good (s : State) : Prop := wellFormed s ∧ tidy (document s).

(** What every action of the script does to a good state, as far as the
    host page can tell: the state stays good, the host page looks the same
    up to [R], storage and the banner are as they were; identities are
    only handed out, and writes to child lists only counted up. *)
Definition step (R : edata → edata → Prop) (s s' : State) : Prop :=
  Good s'
  ∧ sameHost R (document s) (document s')
  ∧ (nextId s ≤ nextId s' ∧ treeWrites s ≤ treeWrites s')%nat
  ∧ storage s' = storage s
  ∧ querySelectorAll (byId IDS.banner) (document s')
    = querySelectorAll (byId IDS.banner) (document s).

(** [m] run in [s] returns, with a result and a state that satisfy [Q]. *)
Definition runs {A} (m : M A) (s : State) (Q : A → State → Prop) : Prop :=
  ∃ a s', m s = Ok a s' ∧ Q a s'.

(** The data of a toggle button as the script creates it: class [c], key
    attribute [a] with value [k]. *)
Definition newToggle (n : nat) (c a k : string) : edata :=
  withAttrs (insert a k)
    (withClasses (λ _, {[c]}) (withAttrs (insert "type" "button")
       (mkElem n "button" true ∅ ∅))).

(** The part that [ensureMessageToggle] and [ensureCodeToggle] have in
    common: find the button with class [c] whose attribute [a] is [k] below
    [scope], or create it, and see that it sits right before [ref] in
    [host]. *)
Definition ensureButton (c a k : string) (host ref scope : nat) : M nat :=
  let* f := getDocument in
  match findChildButtonByKey f scope c a k with
  | Some button =>
      (if negb (bool_decide (parentElement f (nid button.1) = Some host))
          || negb (nextSiblingIs f (nid button.1) ref)
       then domTry (insertBefore host button ref)
       else ret tt) ;;
      ret (nid button.1)
  | None =>
      let* button := createElement "button" in
      let button :=
        withAttrs (insert a k)
          (withClasses (λ _, {[c]})
             (withAttrs (insert "type" "button") button)) in
      domTry (insertBefore host (button, []) ref) ;;
      ret (nid button)
  end.

(** The shape that [cleanupMessageCollapsers] and [cleanupCodeCollapsers]
    share: remove the buttons of class [c], then clear the marker class
    [cc]. *)
Definition cleanupOf (c cc : string) : M unit :=
  let* f := getDocument in
  forEach (querySelectorAll (SELECTORS.buttonWithClass c) f)
    (λ button, domTree (remove button)) ;;
  let* f := getDocument in
  forEach (querySelectorAll (SELECTORS.withClass cc) f)
    (λ node, dom (classList_remove node cc)).

(** A [step] that may add or remove the banner. *)
Definition hostStep (R : edata → edata → Prop) (s s' : State) : Prop :=
  Good s'
  ∧ sameHost R (document s) (document s')
  ∧ (nextId s ≤ nextId s' ∧ treeWrites s ≤ treeWrites s')%nat
  ∧ storage s' = storage s.

(** The hidden markers of a turn: class and attribute, both present or
    both absent. *)
Definition marked (hidden : bool) (e : edata) : Prop :=
  (CLASSES.hiddenTurn ∈ classes e ↔ hidden = true)
  ∧ attrs e !! ATTRS.hidden = (if hidden then Some "1" else None).

(** The data of the style element and of a banner as the script creates
    them. *)
Definition newStyle (n : nat) : edata :=
  withAttrs (insert "id" IDS.styleTag) (mkElem n "style" true ∅ ∅).

Definition newBanner (n : nat) : edata :=
  withAttrs (insert "aria-live" "polite")
    (withAttrs (insert "role" "status")
       (withAttrs (insert "id" IDS.banner) (mkElem n "div" true ∅ ∅))).

(** The first turn, if there is one, is the child of an element. *)
Definition firstTurnPlaced (f : forest) : Prop :=
  ∀ first, head (getConversationTurns f) = Some first →
           is_Some (parentElement f first).

(** [m], run in [s], leaves a state related to [s] by [Rel], whether it
    returns or throws. *)
Definition keeps (Rel : State → State → Prop) {A} (m : M A) (s : State) : Prop :=
  Rel s (finalState (m s)).

(** The collapse-state maps and the storage are the same. *)
Definition sameMaps (s s' : State) : Prop :=
  messages s' = messages s ∧ codeBlocks s' = codeBlocks s
  ∧ storage s' = storage s.

(** The storage is the same; every entry of the collapse-state maps is
    still there, with its value. *)
Definition mapsGrow (s s' : State) : Prop :=
  messages s ⊆ messages s' ∧ codeBlocks s ⊆ codeBlocks s'
  ∧ storage s' = storage s.

(** The two hidden markers of an element agree. *)
Definition consistent (e : edata) : Prop :=
  CLASSES.hiddenTurn ∈ classes e ↔ attrs e !! ATTRS.hidden = Some "1".

(** The toggle buttons of two documents are the same elements, with the
    same data and children. *)
Definition sameToggles (f f' : forest) : Prop :=
  ∀ x e ks, isToggle e = true →
            (lookup x f = Some (e, ks) ↔ lookup x f' = Some (e, ks)).

(** Reading a host view: the entry of one identity, and the identities that
    a selector matches. *)
Definition lookupV (y : nat) (v : list (edata * list nat * list nat))
    : option (edata * list nat * list nat) :=
  head (filter (λ a, nid a.1.1 = y) v).

Definition qsaV (sel : selector) (v : list (edata * list nat * list nat)) : list nat :=
  (λ a, nid a.1.1) <$> filter (λ a, sel a.1.1 = true) v.

(** A relation on data that keeps the identity. *)
Definition R_nid (R : edata → edata → Prop) : Prop := ∀ e e', R e e' → nid e' = nid e.

Abbreviation stepH := (step sameHidden).
Abbreviation stepC := (step sameCore).

(** Induction on a node with the induction hypothesis for every child. *)
Section Induction.
Variable P : node → Prop.
Hypothesis Htext : ∀ s, P (Text s).
Hypothesis Helem : ∀ e ks, Forall P ks → P (Elem e ks).

Fixpoint node_ind' (n : node) : P n :=
  match n with
  | Text s => Htext s
  | Elem e ks =>
      Helem e ks
        ((fix go (l : list node) : Forall P l :=
            match l with
            | [] => List.Forall_nil P
            | k :: r => @List.Forall_cons _ P k r (node_ind' k) (go r)
            end) ks)
  end.
End Induction.

(** ** Checking the hypotheses on a concrete state *)

Definition artefactb (e : edata) (ks : list node) : bool :=
  match elemsF ks with [] => true | _ => false end
  && bool_decide (tag e ≠ "article") && bool_decide (tag e ≠ "pre")
  && bool_decide (attrs e !! "data-message-author-role" = None)
  && implb (isToggle e) (bool_decide (attrs e !! "id" = None)).

Definition tidyb (f : forest) : bool :=
  forallb (λ p, implb (reserved p.1) (artefactb p.1 p.2)) (elemsF f)
  && forallb (λ n, bool_decide (hostNode n = nodeId n)) f.

Definition goodb (s : State) : bool :=
  bool_decide (NoDup (ids (document s)))
  && forallb (λ x, bool_decide (x < nextId s)%nat) (ids (document s))
  && tidyb (document s).

(** ** A small conversation page *)

Definition el (i : nat) (t : string) (a : list (string * string))
    (ks : list node) : node :=
  Elem (mkElem i t true (list_to_map a) ∅) ks.

(** A turn: an [article] with a message container that holds some text
    and one code block. *)
Definition exampleTurn (i : nat) (n : string) (user : bool) : node :=
  el i "article" [("data-testid", "conversation-turn-" +:+ n)]
    [ el (i + 1) "div" []
        [ el (i + 2) "div"
            [("data-message-author-role", if user then "user" else "assistant")]
            [ Text "hello"; el (i + 3) "pre" [] [Text "code"] ] ] ].

Definition exampleDocument : forest :=
  [ el 1 "html" []
      [ el 2 "head" [] [];
        el 3 "body" []
          [ el 4 "main" []
              [ el 5 "div" [("id", "thread")]
                  [ exampleTurn 10 "1" true;
                    exampleTurn 20 "2" false;
                    exampleTurn 30 "3" true ] ] ] ] ].

(** The page before the script has run, with a stored keep count of 2;
    and the page after one reconciliation pass. *)
Definition exampleState : State :=
  mkState exampleDocument 100 ∅ ∅
    (mkStorage (Some (JS.JInt 2)) None None None None) 0.

Definition exampleTrimmed : State := finalState (applyTrimming exampleState).

(** The page after that pass, when the host page has since dropped the
    toggle of the first user message (the button 101) from its article;
    and when the host page has instead renumbered the third turn, and
    another pass has run. *)
Definition exampleUntoggled : State :=
  setDocument (remove 101 (document exampleTrimmed)) exampleTrimmed.

Definition exampleRenumbered : State :=
  finalState
    (applyTrimming
       (setDocument
          (setAttribute 30 "data-testid" "conversation-turn-4"
             (document exampleTrimmed))
          exampleTrimmed)).

(* ===================================================================== *)
(** * Scheduling: timers, the observer, the listeners *)
(* ===================================================================== *)

Module TIMING.
Definition applyDebounceMs : Z := 120.
Definition initialApplyMs : Z := 0.
Definition loadApplyMs : Z := 50.
Definition visibleApplyMs : Z := 80.
Definition storageApplyMs : Z := 50.
End TIMING.

(** The script in its page: the state that the reconciliation works on,
    and what the script keeps for scheduling.  [timers] are the pending
    timeouts that the script has set, with their delays; [nextTimer] is
    the identifier that the next [setTimeout] returns.  [observer] is
    [None] before a [MutationObserver] is made, [Some None] for one that
    observes nothing and [Some (Some root)] for one that observes the
    subtree of [root].  The listener fields count the listeners that the
    script has added; [errors] are the calls of [console.error], each
    with its label and the error passed. *)
Record Page : Type := mkPage {
  content : State;
  applyTimer : option nat;
  timers : gmap nat Z;
  nextTimer : nat;
  observer : option (option nat);
  listenersAttached : bool;
  clickListeners : nat;
  loadListeners : nat;
  visibilityListeners : nat;
  storageListeners : nat;
  messageListeners : nat;
  errors : list (string * string)
}.

Definition withContent (s : State) (pg : Page) : Page :=
  mkPage s (applyTimer pg) (timers pg) (nextTimer pg) (observer pg)
    (listenersAttached pg) (clickListeners pg) (loadListeners pg)
    (visibilityListeners pg) (storageListeners pg) (messageListeners pg)
    (errors pg).

(** [window.clearTimeout(id)]: nothing happens for [null] and for an
    identifier that is not pending. *)
Definition clearTimeout (id : option nat) (pg : Page) : Page :=
  mkPage (content pg) (applyTimer pg)
    (match id with Some i => delete i (timers pg) | None => timers pg end)
    (nextTimer pg) (observer pg)
    (listenersAttached pg) (clickListeners pg) (loadListeners pg)
    (visibilityListeners pg) (storageListeners pg) (messageListeners pg)
    (errors pg).

(** [scheduleApply(delayMs)]: the callback of the timeout is always the
    same, one reconciliation pass with its error logged, so a pending
    timeout is recorded by its delay alone. *)
Definition scheduleApply (delayMs : Z) (pg : Page) : Page :=
  let pg := clearTimeout (applyTimer pg) pg in
  let id := nextTimer pg in
  mkPage (content pg) (Some id) (<[id := delayMs]> (timers pg)) (S id)
    (observer pg)
    (listenersAttached pg) (clickListeners pg) (loadListeners pg)
    (visibilityListeners pg) (storageListeners pg) (messageListeners pg)
    (errors pg).

Inductive MutationType : Type := childList | attributes | characterData.

#[global] Instance MutationType_eq_dec : EqDecision MutationType.
Proof. solve_decision. Defined.

(** The callback of the [MutationObserver]. *)
Fixpoint onMutations (mutations : list MutationType) (pg : Page) : Page :=
  match mutations with
  | [] => pg
  | childList :: _ => scheduleApply TIMING.applyDebounceMs pg
  | _ :: rest => onMutations rest pg
  end.

(** What the script itself has written reaches its observer as well.
    When a task of the script has run, an observer that observes is
    called with the child-list records of the writes to child lists
    since the task began, when [treeWrites] was [before]; it is not
    called when there is none, and however many there are it schedules
    one pass.  The observer observes the root element with its subtree,
    and the elements of a document are all below its root, so that every
    write that [treeWrites] counts is one that it records.  Writes from
    before [observe] is called are not recorded: [init] appends the
    style element before it starts the observer. *)
Definition observed (before : nat) (pg : Page) : Page :=
  match observer pg with
  | Some (Some _) =>
      onMutations (replicate (treeWrites (content pg) - before) childList) pg
  | _ => pg
  end.

(** Whether the observer of the page observes anything. *)
Definition observing (pg : Page) : bool :=
  match observer pg with
  | Some (Some _) => true
  | _ => false
  end.

(** [applyTrimming()] called in the page: the page it leaves, and the
    error if it throws.  The call runs up to the [await] in the task
    that makes it, and from there on in a later one, so the observer is
    told twice: what [ensureStyleTag] has written, and what the rest of
    the pass has.  The two tasks are taken as one step. *)
Definition applyTrimmingIn (pg : Page) : Page * option string :=
  match ensureStyleTag (content pg) with
  | Throw error s' =>
      (observed (treeWrites (content pg)) (withContent s' pg), Some error)
  | Ok _ s1 =>
      let pg1 := observed (treeWrites (content pg)) (withContent s1 pg) in
      match applyTrimmingResumed s1 with
      | Ok _ s' => (observed (treeWrites s1) (withContent s' pg1), None)
      | Throw error s' =>
          (observed (treeWrites s1) (withContent s' pg1), Some error)
      end
  end.

(** The timeout [id] fires: if it is pending, it is no longer, and its
    callback runs [applyTrimming().catch(console.error)]. *)
Definition timerFires (id : nat) (pg : Page) : Page :=
  match timers pg !! id with
  | None => pg
  | Some _ =>
      let pg :=
        mkPage (content pg) (applyTimer pg) (delete id (timers pg))
          (nextTimer pg) (observer pg)
          (listenersAttached pg) (clickListeners pg) (loadListeners pg)
          (visibilityListeners pg) (storageListeners pg)
          (messageListeners pg) (errors pg) in
      match applyTrimmingIn pg with
      | (pg, None) => pg
      | (pg, Some error) =>
          mkPage (content pg) (applyTimer pg) (timers pg) (nextTimer pg)
            (observer pg)
            (listenersAttached pg) (clickListeners pg) (loadListeners pg)
            (visibilityListeners pg) (storageListeners pg)
            (messageListeners pg)
            (errors pg ++ [("[ChatGPT UI Trimmer] applyTrimming failed:", error)])
      end
  end.

(** The listener of [chrome.runtime.onMessage], run in the page: the
    state it leaves is that of [onMessage].  For [TRIMMER_APPLY] the
    pass runs in tasks of its own once the settings are saved; the other
    messages are handled in the task of the listener. *)
Definition onMessageIn (message : Message) (pg : Page) : Page :=
  match message with
  | TRIMMER_APPLY kN mUi cOwn cCode =>
      let nextSettings :=
        {| keepLastN := clampKeepLastN kN;
           minimalUi := JS.Boolean mUi;
           collapseOwnMessages := JS.Boolean cOwn;
           collapseCodeBlocks := JS.Boolean cCode |} in
      match saveSettings nextSettings (content pg) with
      | Ok _ s' => (applyTrimmingIn (withContent s' pg)).1
      | Throw _ s' => withContent s' pg
      end
  | _ =>
      observed (treeWrites (content pg))
        (withContent (h_state (onMessage message (content pg))) pg)
  end.

(** [startObserver()]. *)
Definition startObserver (pg : Page) : Page :=
  match observer pg with
  | Some _ => pg
  | None =>
      let f := document (content pg) in
      let root :=
        match documentElement f with Some r => Some r | None => body f end in
      mkPage (content pg) (applyTimer pg) (timers pg) (nextTimer pg)
        (Some root)
        (listenersAttached pg) (clickListeners pg) (loadListeners pg)
        (visibilityListeners pg) (storageListeners pg) (messageListeners pg)
        (errors pg)
  end.

(** [attachGlobalListeners()]. *)
Definition attachGlobalListeners (pg : Page) : Page :=
  if listenersAttached pg then pg
  else
    mkPage (content pg) (applyTimer pg) (timers pg) (nextTimer pg)
      (observer pg) true (S (clickListeners pg)) (loadListeners pg)
      (visibilityListeners pg) (storageListeners pg) (messageListeners pg)
      (errors pg).

(** The listener of [chrome.storage.onChanged]: [changes] are the keys of
    the change object. *)
Definition onStorageChanged (changes : list string) (areaName : string)
    (pg : Page) : Page :=
  if negb (String.eqb areaName "sync") then pg
  else if bool_decide ("keepLastN" ∈ changes)
          || bool_decide ("minimalUi" ∈ changes)
          || bool_decide ("collapseOwnMessages" ∈ changes)
          || bool_decide ("collapseCodeBlocks" ∈ changes)
  then scheduleApply TIMING.storageApplyMs pg
  else pg.

(** [init()]: the page it leaves, and the exception if it throws. *)
Definition init (pg : Page) : Page * option string :=
  match ensureStyleTag (content pg) with
  | Throw error s' => (withContent s' pg, Some error)
  | Ok _ s' =>
      let pg := withContent s' pg in
      let pg := attachGlobalListeners pg in
      let pg := startObserver pg in
      let pg := scheduleApply TIMING.initialApplyMs pg in
      (mkPage (content pg) (applyTimer pg) (timers pg) (nextTimer pg)
         (observer pg) (listenersAttached pg) (clickListeners pg)
         (S (loadListeners pg)) (S (visibilityListeners pg))
         (S (storageListeners pg)) (messageListeners pg) (errors pg),
       None)
  end.

(** The script is evaluated in a page with state [s]: its variables get
    their initial values, the message listener is added, [init()] runs. *)
Definition start (s : State) : Page * option string :=
  init (mkPage s None ∅ 1 None false 0 0 0 0 1 []).

(** What can happen to the page afterwards.  [Mutations] is a batch of
    records of what the host page has changed; what the script itself
    writes is delivered by [observed] when its task has run.
    [StorageChanged] is the event of the storage, whoever has saved.
    [Click] is a click as the listener on the document sees it, which is
    added for the capturing phase and so runs before any other; the
    listeners of the toggles are [messageToggleClick] and
    [codeToggleClick]. *)
Inductive Event : Type :=
| Mutations (records : list MutationType)
| WindowLoad
| VisibilityChange (visible : bool)
| StorageChanged (changes : list string) (areaName : string)
| TimerFires (id : nat)
| Click (target : nat)
| MessageArrives (message : Message).

(** The listeners of one kind run one after the other. *)
Definition dispatch (ev : Event) (pg : Page) : Page :=
  match ev with
  | Mutations records =>
      match observer pg with
      | Some (Some _) => onMutations records pg
      | _ => pg
      end
  | WindowLoad =>
      (* added with [once: true] *)
      let n := loadListeners pg in
      let pg :=
        mkPage (content pg) (applyTimer pg) (timers pg) (nextTimer pg)
          (observer pg) (listenersAttached pg) (clickListeners pg) 0
          (visibilityListeners pg) (storageListeners pg)
          (messageListeners pg) (errors pg) in
      Nat.iter n (scheduleApply TIMING.loadApplyMs) pg
  | VisibilityChange visible =>
      Nat.iter (visibilityListeners pg)
        (λ pg, if visible then scheduleApply TIMING.visibleApplyMs pg else pg) pg
  | StorageChanged changes areaName =>
      Nat.iter (storageListeners pg) (onStorageChanged changes areaName) pg
  | TimerFires id => timerFires id pg
  | Click target =>
      Nat.iter (clickListeners pg)
        (λ pg, observed (treeWrites (content pg))
                 (withContent
                    (finalState (onDocumentClick target (content pg))) pg)) pg
  | MessageArrives message =>
      Nat.iter (messageListeners pg) (onMessageIn message) pg
  end.

(** At most the timeout that [applyTimer] names is pending. *)
Definition debounced (pg : Page) : Prop :=
  ∀ id, is_Some (timers pg !! id) → applyTimer pg = Some id.

(** The page after a sequence of events. *)
Definition run (events : list Event) (pg : Page) : Page :=
  foldl (λ pg ev, dispatch ev pg) pg events.

(** The delays that the script passes to [scheduleApply]. *)
Definition delays : list Z :=
  [TIMING.applyDebounceMs; TIMING.initialApplyMs; TIMING.loadApplyMs;
   TIMING.visibleApplyMs; TIMING.storageApplyMs].

(** What [init] has installed once it has returned: one listener of each
    kind, the load listener until it has run, and the observer. *)
Definition installed (pg : Page) : Prop :=
  listenersAttached pg = true
  ∧ clickListeners pg = 1%nat
  ∧ visibilityListeners pg = 1%nat
  ∧ storageListeners pg = 1%nat
  ∧ messageListeners pg = 1%nat
  ∧ (loadListeners pg ≤ 1)%nat
  ∧ is_Some (observer pg).

(* ===================================================================== *)
(** * The popup *)
(* ===================================================================== *)

Module Popup.

(** The form: the value of the number input and the three check boxes. *)
Record Form : Type := mkForm {
  keepLastNInput : string;
  minimalUiInput : bool;
  collapseOwnMessagesInput : bool;
  collapseCodeBlocksInput : bool
}.

(** Where a message of the popup ends: there is no active tab (or it has
    no numeric id), the active tab has no listener, so that [sendMessage]
    sets [lastError], or the content script of the tab receives it. *)
Inductive Tab : Type := NoActiveTab | NotReachable | Reachable.

(** The popup and what it talks to.  [status] is the text and the colour
    of the status element, if the popup has one; [buttons] says that the
    three buttons are there, [handlers] that [initPopup] has added their
    click listeners; the four inputs are taken to be there.  [page] is
    the content script of the active tab (its document matters only for
    a tab that is [Reachable]) together with the synchronized storage,
    which popup and content script share. *)
Record World : Type := mkWorld {
  form : Form;
  status : option (string * string);
  buttons : bool;
  handlers : bool;
  tab : Tab;
  page : State
}.

Definition withPage (s : State) (w : World) : World :=
  mkWorld (form w) (status w) (buttons w) (handlers w) (tab w) s.

Definition withForm (f : Form) (w : World) : World :=
  mkWorld f (status w) (buttons w) (handlers w) (tab w) (page w).

(** An asynchronous function of the popup returns or throws; an
    exception is kept as the string that [String] makes of it. *)
Inductive result (A : Type) : Type :=
| Returns (a : A) (w : World)
| Throws (error : string) (w : World).
Arguments Returns {A} a w.
Arguments Throws {A} error w.

(** [String(new Error(message))] for a message that is not empty. *)
Definition newError (message : string) : string := "Error: " +:+ message.

(** [sendMessageToActiveTab(message)].  A listener that returns without
    a response leaves [lastError] set, as a tab without a listener
    does. *)
Definition sendMessageToActiveTab (message : Message) (w : World)
    : result Response :=
  match tab w with
  | NoActiveTab => Throws (newError "No active tab found.") w
  | NotReachable =>
      Throws
        (newError
           "Content script is not reachable. Open a ChatGPT tab and reload the page.")
        w
  | Reachable =>
      let handled := onMessage message (page w) in
      match h_responses handled with
      | response :: _ => Returns response (withPage (h_state handled) w)
      | [] =>
          Throws
            (newError
               "Content script is not reachable. Open a ChatGPT tab and reload the page.")
            (withPage (h_state handled) w)
      end
  end.

(** [setStatus(text, isError)]. *)
Definition setStatus (text : string) (isError : bool) (w : World) : World :=
  match status w with
  | None => w
  | Some _ =>
      mkWorld (form w) (Some (text, if isError then "#ff6b6b" else ""))
        (buttons w) (handlers w) (tab w) (page w)
  end.

(** [readForm()]. *)
Definition readForm (f : Form) : Settings :=
  {| keepLastN := clampKeepLastN (JS.JStr (keepLastNInput f));
     minimalUi := minimalUiInput f;
     collapseOwnMessages := collapseOwnMessagesInput f;
     collapseCodeBlocks := collapseCodeBlocksInput f |}.

(** [writeForm(settings)]. *)
Definition writeForm (settings : Settings) : Form :=
  {| keepLastNInput :=
       JS.String (JS.JInt (clampKeepLastN (JS.JInt (keepLastN settings))));
     minimalUiInput := minimalUi settings;
     collapseOwnMessagesInput := collapseOwnMessages settings;
     collapseCodeBlocksInput := collapseCodeBlocks settings |}.

Definition newline : string := String (ascii_of_nat 10) EmptyString.

(** A property of the response inside a template literal.  The numbers
    of a response are counts of turns and a keep count of at most 500;
    they are printed with their digits, as in [bannerText]. *)
Definition shown (property : option Z) : string :=
  match property with
  | Some z => pretty z
  | None => JS.String JS.JUndefined
  end.

(** [applyNow()]. *)
Definition applyNow (w : World) : result unit :=
  let settings := readForm (form w) in
  match saveSettings settings (page w) with
  | Throw error s => Throws error (withPage s w)
  | Ok _ s =>
      match
        sendMessageToActiveTab
          (TRIMMER_APPLY (JS.JInt (keepLastN settings))
             (JS.JBool (minimalUi settings))
             (JS.JBool (collapseOwnMessages settings))
             (JS.JBool (collapseCodeBlocks settings)))
          (withPage s w)
      with
      | Throws error w => Throws error w
      | Returns response w =>
          if negb (r_ok response)
          then Throws
                 (newError (default "Apply failed." (truthy (r_error response))))
                 w
          else Returns tt
                 (setStatus
                    ("Active." +:+ newline
                     +:+ "Hidden: " +:+ shown (r_hiddenCount response)
                     +:+ " / " +:+ shown (r_totalCount response) +:+ newline
                     +:+ "Visible turns: " +:+ shown (r_keepLastN response))
                    false w)
      end
  end.

(** [showAllNow()]. *)
Definition showAllNow (w : World) : result unit :=
  match sendMessageToActiveTab TRIMMER_SHOW_ALL w with
  | Throws error w => Throws error w
  | Returns response w =>
      if negb (r_ok response)
      then Throws
             (newError (default "Show all failed." (truthy (r_error response))))
             w
      else Returns tt
             (setStatus "All messages in the current tab are visible again."
                false w)
  end.

(** [resetDefaults()]. *)
Definition resetDefaults (w : World) : result unit :=
  applyNow (withForm (writeForm DEFAULT_SETTINGS) w).

(** The click listeners of the three buttons. *)
Definition onApplyClick (w : World) : World :=
  match applyNow (setStatus "Applying..." false w) with
  | Returns _ w => w
  | Throws error w => setStatus error true w
  end.

Definition onShowAllClick (w : World) : World :=
  match showAllNow (setStatus "Restoring..." false w) with
  | Returns _ w => w
  | Throws error w => setStatus error true w
  end.

Definition onResetClick (w : World) : World :=
  match resetDefaults (setStatus "Resetting..." false w) with
  | Returns _ w => w
  | Throws error w => setStatus error true w
  end.

(** [initPopup()]. *)
Definition initPopup (w : World) : World :=
  if negb (buttons w) then w
  else
    let w :=
      match loadSettings (page w) with
      | Ok settings s =>
          setStatus "Ready." false (withForm (writeForm settings) (withPage s w))
      | Throw error s => setStatus error true (withPage s w)
      end in
    mkWorld (form w) (status w) (buttons w) true (tab w) (page w).

(** A click on one of the buttons. *)
Inductive Button : Type := applyBtn | showAllBtn | resetBtn.

Definition click (b : Button) (w : World) : World :=
  if negb (handlers w) then w
  else match b with
       | applyBtn => onApplyClick w
       | showAllBtn => onShowAllClick w
       | resetBtn => onResetClick w
       end.

End Popup.

(** The example page as the script finds it, before [init]; the popup
    over the example page, with 2 in its number input; and a state with
    an empty document. *)
Definition examplePage : Page :=
  mkPage exampleState None ∅ 1 None false 0 0 0 0 1 [].

Definition examplePopup : Popup.World :=
  Popup.mkWorld (Popup.mkForm "2" true true true) (Some ("", "")) true true
    Popup.Reachable exampleState.

Definition emptyState : State :=
  mkState [] 0 ∅ ∅ (mkStorage None None None None None) 0.

(* ===================================================================== *)
(** * Proofs *)
(* ===================================================================== *)

(* ===================================================================== *)
(** * clampKeepLastN *)
(* ===================================================================== *)

Section Rounding.

Lemma shiftr_log2_lower m : 2 ^ 53 <= m -> 2 ^ 52 <= Z.shiftr m (Z.log2 m - 52).
Proof.
  intros Hm.
  assert (Hl : 53 <= Z.log2 m) by (apply Z.log2_le_pow2; lia).
  rewrite Z.shiftr_div_pow2 by lia.
  apply Z.div_le_lower_bound; [apply Z.pow_pos_nonneg; lia|].
  rewrite <- Z.pow_add_r by lia.
  replace (Z.log2 m - 52 + 52) with (Z.log2 m) by lia.
  apply Z.log2_spec. lia.
Qed.

Lemma roundNat_large m v :
  2 ^ 53 <= m -> JS.roundNat m = JS.Fin v -> 2 ^ 52 <= v.
Proof.
  intros Hm. unfold JS.roundNat.
  destruct (m <? 2 ^ 53) eqn:E; [apply Z.ltb_lt in E; lia|].
  cbv zeta. destruct (2 ^ 1024 <=? _) eqn:E2; [discriminate|].
  intros [= <-].
  pose proof (shiftr_log2_lower m Hm) as Hq.
  assert (Hl : 53 <= Z.log2 m) by (apply Z.log2_le_pow2; lia).
  set (e := Z.log2 m - 52) in *. set (q := Z.shiftr m e) in *.
  rewrite Z.shiftl_mul_pow2 by lia.
  assert (1 <= 2 ^ e) by (apply (Z.pow_le_mono_r 2 0 e); lia).
  destruct (_ || _); nia.
Qed.

Lemma roundNat_finite_iff m :
  0 <= m -> (JS.isFinite (JS.roundNat m) = true <-> m < doubleOverflow).
Proof.
  intros H0. unfold JS.roundNat, doubleOverflow.
  destruct (m <? 2 ^ 53) eqn:E.
  { apply Z.ltb_lt in E. simpl. split; [intros _|reflexivity].
    eapply Z.lt_le_trans; [exact E|]. vm_compute. discriminate. }
  apply Z.ltb_ge in E. cbv zeta.
  pose proof (shiftr_log2_lower m E) as Hq.
  assert (Hl : 53 <= Z.log2 m) by (apply Z.log2_le_pow2; lia).
  pose proof (Z.log2_spec m ltac:(lia)) as [Hlo Hhi].
  set (L := Z.log2 m) in *.
  set (e := L - 52) in *. set (q := Z.shiftr m e) in *.
  assert (He : 1 <= e) by lia.
  assert (Hqd : q = m / 2 ^ e) by (unfold q; apply Z.shiftr_div_pow2; lia).
  assert (Hpe : 0 < 2 ^ e) by (apply Z.pow_pos_nonneg; lia).
  assert (HL : 2 ^ L = 2 ^ 52 * 2 ^ e).
  { rewrite <- Z.pow_add_r by lia. f_equal. lia. }
  assert (HL1 : 2 ^ Z.succ L = 2 ^ 53 * 2 ^ e).
  { rewrite <- Z.pow_add_r by lia. f_equal. lia. }
  pose proof (Z.div_mod m (2 ^ e) ltac:(lia)) as Hdm.
  pose proof (Z.mod_pos_bound m (2 ^ e) Hpe) as Hr.
  rewrite <- Hqd in Hdm.
  assert (Hq53 : q < 2 ^ 53) by nia.
  rewrite (Z.shiftl_mul_pow2 q e) by lia.
  rewrite (Z.shiftl_mul_pow2 1 (e - 1)) by lia.
  set (r := m - q * 2 ^ e). assert (Hrr : r = m mod 2 ^ e) by (unfold r; lia).
  set (h := 2 ^ (e - 1)) in *.
  set (q' := if (1 * h <? r) || (1 * h =? r) && Z.odd q then q + 1 else q).
  assert (Hq' : q <= q' <= q + 1) by (unfold q'; destruct (_ || _); lia).
  rewrite (Z.shiftl_mul_pow2 q' e) by lia.
  destruct (Z.le_gt_cases e 970) as [Hc|Hc].
  { assert (2 ^ e <= 2 ^ 970) by (apply Z.pow_le_mono_r; lia).
    assert (Hv : q' * 2 ^ e < 2 ^ 1024).
    { eapply Z.le_lt_trans;
        [apply (Z.mul_le_mono_nonneg q' (2^53) (2^e) (2^970)); lia|].
      vm_compute. reflexivity. }
    destruct (2 ^ 1024 <=? q' * 2 ^ e) eqn:E2; [apply Z.leb_le in E2; lia|].
    simpl. split; [intros _|reflexivity].
    assert (m < 2 ^ 53 * 2 ^ 970) by nia.
    eapply Z.lt_le_trans; [eassumption|]. vm_compute. discriminate. }
  destruct (Z.le_gt_cases 972 e) as [Hd|Hd].
  { assert (2 ^ 972 <= 2 ^ e) by (apply Z.pow_le_mono_r; lia).
    assert (Hv : 2 ^ 1024 <= q' * 2 ^ e).
    { transitivity (2 ^ 52 * 2 ^ 972); [vm_compute; discriminate|].
      apply Z.mul_le_mono_nonneg; lia. }
    apply Z.leb_le in Hv. rewrite Hv. simpl. split; [discriminate|].
    intros Hm. exfalso.
    assert (2 ^ 52 * 2 ^ 972 <= m) by nia.
    assert (2 ^ 1024 - 2 ^ 970 < 2 ^ 52 * 2 ^ 972) by (vm_compute; reflexivity).
    lia. }
  assert (He971 : e = 971) by lia.
  assert (Hh' : h = 2 ^ 970) by (unfold h; rewrite He971; reflexivity).
  assert (Hrdef : r = m - q * 2 ^ e) by reflexivity.
  assert (Hq'def :
            q' = if (1 * h <? r) || (1 * h =? r) && Z.odd q then q + 1 else q)
    by reflexivity.
  assert (Hedge : (2 ^ 53 - 1) * 2 ^ 971 + 2 ^ 970 = 2 ^ 1024 - 2 ^ 970)
    by (vm_compute; reflexivity).
  clearbody h r q' q e L. subst e h.
  destruct (Z.lt_ge_cases m (2 ^ 1024 - 2 ^ 970)) as [Hm|Hm].
  - assert (Hv : q' * 2 ^ 971 < 2 ^ 1024).
    { destruct (Z.eq_dec q (2 ^ 53 - 1)) as [->|Hne].
      - assert (Hrh : r < 2 ^ 970) by lia.
        rewrite Hq'def.
        replace (1 * 2 ^ 970 <? r) with false by (symmetry; apply Z.ltb_ge; lia).
        replace (1 * 2 ^ 970 =? r) with false by (symmetry; apply Z.eqb_neq; lia).
        simpl. vm_compute. reflexivity.
      - assert (q' <= 2 ^ 53 - 1) by lia.
        eapply Z.le_lt_trans; [apply Z.mul_le_mono_nonneg_r; [lia|eassumption]|].
        vm_compute. reflexivity. }
    destruct (2 ^ 1024 <=? q' * 2 ^ 971) eqn:E2; [apply Z.leb_le in E2; lia|].
    simpl. tauto.
  - assert (Hq1 : q = 2 ^ 53 - 1).
    { assert (2 ^ 53 - 1 <= q); [|lia].
      apply Z.lt_succ_r.
      apply (Z.mul_lt_mono_pos_r (2 ^ 971)); [lia|]. lia. }
    assert (Hrh : 2 ^ 970 <= r) by (rewrite Hq1 in Hrdef; lia).
    assert (Hqq : q' = 2 ^ 53).
    { rewrite Hq'def, Hq1.
      destruct (Z.eq_dec (2 ^ 970) r) as [Heq|Hneq].
      - replace (1 * 2 ^ 970 =? r) with true by (symmetry; apply Z.eqb_eq; lia).
        replace (Z.odd (2 ^ 53 - 1)) with true by (vm_compute; reflexivity).
        rewrite orb_true_r. lia.
      - replace (1 * 2 ^ 970 <? r) with true by (symmetry; apply Z.ltb_lt; lia).
        simpl. lia. }
    rewrite Hqq.
    replace (2 ^ 1024 <=? 2 ^ 53 * 2 ^ 971) with true by (vm_compute; reflexivity).
    simpl. split; [discriminate|lia].
Qed.

(** Rounding never moves a value across the clamping bounds. *)
Lemma roundNat_clamp m v :
  0 <= m -> JS.roundNat m = JS.Fin v ->
  Z.min 500 (Z.max 1 v) = Z.min 500 (Z.max 1 m) /\
  Z.min 500 (Z.max 1 (- v)) = Z.min 500 (Z.max 1 (- m)).
Proof.
  intros H0 Hr. destruct (Z.lt_ge_cases m (2 ^ 53)) as [Hs|Hs].
  - unfold JS.roundNat in Hr. apply Z.ltb_lt in Hs. rewrite Hs in Hr.
    injection Hr as <-. auto.
  - pose proof (roundNat_large m v Hs Hr) as Hv.
    assert (500 < 2 ^ 52) by (vm_compute; reflexivity). lia.
Qed.

Lemma roundNat_not_NaN m : JS.roundNat m <> JS.NaN.
Proof. unfold JS.roundNat. destruct (m <? _); [|cbv zeta; destruct (_ <=? _)]; discriminate. Qed.

End Rounding.

Lemma clampKeepLastN_parsed (v : JS.value) (z : Z) :
  JS.parseMathInt (JS.String v) = Some z ->
  clampKeepLastN v =
    if bool_decide (Z.abs z < doubleOverflow) then Z.min 500 (Z.max 1 z) else 6.
Proof.
  intros Hp. unfold clampKeepLastN, JS.parseInt. rewrite Hp. unfold JS.toNumber.
  destruct (0 <=? z) eqn:Hs.
  - apply Z.leb_le in Hs.
    pose proof (roundNat_finite_iff z Hs) as Hf.
    pose proof (roundNat_clamp z) as Hc.
    rewrite (Z.abs_eq z Hs).
    destruct (JS.roundNat z) as [|neg|w] eqn:E; simpl in *.
    + exfalso. eapply roundNat_not_NaN; eauto.
    + rewrite bool_decide_eq_false_2; [reflexivity|]. intros Hlt.
      apply Hf in Hlt. discriminate.
    + rewrite bool_decide_eq_true_2 by (apply Hf; reflexivity).
      destruct (Hc w Hs eq_refl) as [Hc1 _]. exact Hc1.
  - apply Z.leb_gt in Hs.
    pose proof (roundNat_finite_iff (- z) ltac:(lia)) as Hf.
    pose proof (roundNat_clamp (- z)) as Hc.
    rewrite (Z.abs_neq z) by lia.
    destruct (JS.roundNat (- z)) as [|neg|w] eqn:E; simpl in *.
    + exfalso. eapply roundNat_not_NaN; eauto.
    + rewrite bool_decide_eq_false_2; [reflexivity|]. intros Hlt.
      apply Hf in Hlt. discriminate.
    + rewrite bool_decide_eq_true_2 by (apply Hf; reflexivity).
      destruct (Hc w ltac:(lia) eq_refl) as [_ Hc2].
      etransitivity; [exact Hc2|]. f_equal. f_equal. lia.
Qed.

Lemma clampKeepLastN_unparsed (v : JS.value) :
  JS.parseMathInt (JS.String v) = None -> clampKeepLastN v = 6.
Proof. intros Hp. unfold clampKeepLastN, JS.parseInt. rewrite Hp. reflexivity. Qed.

Lemma clampKeepLastN_range (v : JS.value) : 1 <= clampKeepLastN v <= 500.
Proof.
  destruct (JS.parseMathInt (JS.String v)) as [z|] eqn:Hp.
  - rewrite (clampKeepLastN_parsed v z Hp). case_bool_decide; lia.
  - rewrite (clampKeepLastN_unparsed v Hp). lia.
Qed.

(** C3 (as amended).  [clampKeepLastN] always returns a count in [1, 500].
    When an integer can be read from the value and its magnitude is below
    the overflow bound of a double, the result is that integer clamped to
    [1, 500]; when no integer can be read, or the integer read is so large
    that [parseInt] yields an infinity, the result is the default 6.  The
    inputs 0, -5, "abc" and 501 give 1, 1, 6 and 500. *)
Theorem clampKeepLastN_correct (v : JS.value) :
  1 <= clampKeepLastN v <= 500 /\
  match JS.parseMathInt (JS.String v) with
  | Some z =>
      (Z.abs z < doubleOverflow -> clampKeepLastN v = Z.min 500 (Z.max 1 z)) /\
      (doubleOverflow <= Z.abs z -> clampKeepLastN v = 6)
  | None => clampKeepLastN v = 6
  end /\
  clampKeepLastN (JS.JInt 0) = 1 /\
  clampKeepLastN (JS.JInt (-5)) = 1 /\
  clampKeepLastN (JS.JStr "abc") = 6 /\
  clampKeepLastN (JS.JInt 501) = 500 /\
  clampKeepLastN (JS.JStr "0") = 1 /\
  clampKeepLastN (JS.JStr "-5") = 1 /\
  clampKeepLastN (JS.JStr "501") = 500.
Proof.
  split; [apply clampKeepLastN_range|]. split.
  - destruct (JS.parseMathInt (JS.String v)) as [z|] eqn:Hp.
    + rewrite (clampKeepLastN_parsed v z Hp). split; intros H.
      * rewrite bool_decide_eq_true_2 by exact H. reflexivity.
      * rewrite bool_decide_eq_false_2 by lia. reflexivity.
    + apply clampKeepLastN_unparsed, Hp.
  - repeat split; vm_compute; reflexivity.
Qed.

(** C3 (as stated) fails: a string of 310 digits is read as an integer, yet
    the result is the default 6 and not the upper bound 500. *)
Lemma clampKeepLastN_overflow_counterexample :
  let v := JS.JStr (pretty (10 ^ 309)) in
  JS.parseMathInt (JS.String v) = Some (10 ^ 309) /\
  spec_clampKeepLastN v = 500 /\
  clampKeepLastN v = 6 /\
  clampKeepLastN v <> spec_clampKeepLastN v.
Proof. vm_compute. repeat split; try reflexivity. discriminate. Qed.

(* ===================================================================== *)
(** * Forests *)
(* ===================================================================== *)

Section Lists.
Context {A : Type}.

Lemma head_app (l1 l2 : list A) :
  head (l1 ++ l2) = match head l1 with Some a => Some a | None => head l2 end.
Proof. by destruct l1. Qed.

Lemma filter_none (P : A → Prop) `{!∀ x, Decision (P x)} (l : list A) :
  (∀ x, x ∈ l → ¬ P x) → filter P l = [].
Proof.
  induction l as [|a l IH]; intros Hall; [done|].
  rewrite filter_cons_False by (apply Hall; left).
  apply IH. intros x Hx. apply Hall. by right.
Qed.

Lemma filter_all (P : A → Prop) `{!∀ x, Decision (P x)} (l : list A) :
  (∀ x, x ∈ l → P x) → filter P l = l.
Proof.
  induction l as [|a l IH]; intros Hall; [done|].
  rewrite filter_cons_True by (apply Hall; left).
  f_equal. apply IH. intros x Hx. apply Hall. by right.
Qed.

Lemma filter_ext_in (P Q : A → Prop) `{!∀ x, Decision (P x)}
    `{!∀ x, Decision (Q x)} (l : list A) :
  (∀ x, x ∈ l → (P x ↔ Q x)) → filter P l = filter Q l.
Proof.
  induction l as [|a l IH]; intros Hall; [done|].
  rewrite !filter_cons.
  assert (Ha : P a ↔ Q a) by (apply Hall; left).
  rewrite IH by (intros x Hx; apply Hall; by right).
  destruct (decide (P a)), (decide (Q a)); tauto.
Qed.
End Lists.

Lemma forest_ind (P : forest → Prop) :
  P [] →
  (∀ s f, P f → P (Text s :: f)) →
  (∀ e ks f, P ks → P f → P (Elem e ks :: f)) →
  ∀ f, P f.
Proof.
  intros Hnil Htext Helem.
  assert (Hn : ∀ n f, P f → P (n :: f)).
  { induction n as [s|e ks IH] using node_ind'; intros f Hf; [auto|].
    apply Helem; [|exact Hf].
    induction IH as [|k r Hk _ IHr]; [exact Hnil|]. apply Hk, IHr. }
  induction f; auto.
Qed.

Lemma elemsF_nil : elemsF [] = [].
Proof. reflexivity. Qed.

Lemma elemsF_cons_text s f : elemsF (Text s :: f) = elemsF f.
Proof. reflexivity. Qed.

Lemma elemsF_cons_elem e ks f :
  elemsF (Elem e ks :: f) = (e, ks) :: elemsF ks ++ elemsF f.
Proof. reflexivity. Qed.

Lemma elemsF_app f g : elemsF (f ++ g) = elemsF f ++ elemsF g.
Proof. unfold elemsF. apply flat_map_app. Qed.

Lemma ids_cons_text s f : ids (Text s :: f) = ids f.
Proof. reflexivity. Qed.

Lemma ids_cons_elem e ks f : ids (Elem e ks :: f) = nid e :: ids ks ++ ids f.
Proof. unfold ids. rewrite elemsF_cons_elem. simpl. by rewrite fmap_app. Qed.

Lemma ids_app f g : ids (f ++ g) = ids f ++ ids g.
Proof. unfold ids. by rewrite elemsF_app, fmap_app. Qed.

Lemma elem_of_ids x f : x ∈ ids f ↔ ∃ p, p ∈ elemsF f ∧ nid p.1 = x.
Proof.
  unfold ids. rewrite list_elem_of_fmap. split; intros (p & H1 & H2); eauto.
Qed.

Lemma allElems_nil Q : allElems Q [].
Proof. intros e ks H. rewrite elemsF_nil in H. by apply elem_of_nil in H. Qed.

Lemma allElems_cons_text Q s f : allElems Q (Text s :: f) ↔ allElems Q f.
Proof. reflexivity. Qed.

Lemma allElems_cons_elem Q e ks f :
  allElems Q (Elem e ks :: f) ↔ Q e ks ∧ allElems Q ks ∧ allElems Q f.
Proof.
  unfold allElems. setoid_rewrite elemsF_cons_elem.
  setoid_rewrite elem_of_cons. setoid_rewrite elem_of_app. split.
  - intros H. repeat split; intros; apply H; eauto.
  - intros (H1 & H2 & H3) e' ks' [[= -> ->]|[H|H]]; eauto.
Qed.

Lemma allElems_app Q f g : allElems Q (f ++ g) ↔ allElems Q f ∧ allElems Q g.
Proof.
  unfold allElems. setoid_rewrite elemsF_app. setoid_rewrite elem_of_app.
  split; [intros H; split; intros; apply H; eauto|].
  intros [H1 H2] e ks [H|H]; eauto.
Qed.

Lemma allElems_impl (Q R : edata → list node → Prop) f :
  (∀ e ks, Q e ks → R e ks) → allElems Q f → allElems R f.
Proof. intros H HQ e ks Hin. apply H, HQ, Hin. Qed.

(** An element's children are elements of the forest too. *)
Lemma elemsF_kids e ks f : (e, ks) ∈ elemsF f → ∀ p, p ∈ elemsF ks → p ∈ elemsF f.
Proof.
  induction f as [|s f IH|e' ks' f IHk IHf] using forest_ind; intros Hin p Hp.
  - by apply elem_of_nil in Hin.
  - rewrite elemsF_cons_text in *. eauto.
  - rewrite elemsF_cons_elem in *.
    apply elem_of_cons in Hin as [[= -> ->]|Hin].
    + apply elem_of_cons. right. apply elem_of_app. by left.
    + apply elem_of_cons. right. apply elem_of_app.
      apply elem_of_app in Hin as [Hin|Hin]; [left|right]; eauto.
Qed.

Lemma allElems_kids Q e ks f : allElems Q f → (e, ks) ∈ elemsF f → allElems Q ks.
Proof. intros H Hin e' ks' Hin'. apply H. eapply elemsF_kids; eauto. Qed.

(** ** Lookup *)

Lemma lookup_nil x : lookup x [] = None.
Proof. reflexivity. Qed.

Lemma lookup_cons_text x s f : lookup x (Text s :: f) = lookup x f.
Proof. reflexivity. Qed.

Lemma lookup_app x f g :
  lookup x (f ++ g) =
    match lookup x f with Some p => Some p | None => lookup x g end.
Proof. unfold lookup. by rewrite elemsF_app, filter_app, head_app. Qed.

Lemma lookup_cons_elem x e ks f :
  lookup x (Elem e ks :: f) =
    if decide (nid e = x) then Some (e, ks)
    else match lookup x ks with Some p => Some p | None => lookup x f end.
Proof.
  unfold lookup. rewrite elemsF_cons_elem, filter_cons. simpl.
  destruct (decide (nid e = x)); [done|].
  by rewrite filter_app, head_app.
Qed.

Lemma lookup_Some x f p : lookup x f = Some p → p ∈ elemsF f ∧ nid p.1 = x.
Proof.
  unfold lookup. intros H. apply head_Some in H as [l H].
  assert (Hin : p ∈ filter (λ p, nid p.1 = x) (elemsF f)) by (rewrite H; left).
  by apply list_elem_of_filter in Hin as [? ?].
Qed.

Lemma lookup_None x f : lookup x f = None ↔ x ∉ ids f.
Proof.
  unfold lookup. rewrite head_None, elem_of_ids. split.
  - intros H (p & Hin & Hp).
    assert (Hin' : p ∈ filter (λ p, nid p.1 = x) (elemsF f))
      by (apply list_elem_of_filter; auto).
    rewrite H in Hin'. by apply elem_of_nil in Hin'.
  - intros H. apply filter_none. intros p Hin Hp. apply H. eauto.
Qed.

Lemma lookup_is_Some x f : is_Some (lookup x f) ↔ x ∈ ids f.
Proof.
  rewrite <- not_eq_None_Some, lookup_None. split; [|tauto].
  intros H. by destruct (decide (x ∈ ids f)).
Qed.

Lemma lookup_NoDup f p :
  NoDup (ids f) → p ∈ elemsF f → lookup (nid p.1) f = Some p.
Proof.
  induction f as [|s f IH|e ks f IHk IHf] using forest_ind; intros Hnd Hin.
  - by apply elem_of_nil in Hin.
  - rewrite lookup_cons_text. rewrite ids_cons_text, elemsF_cons_text in *. auto.
  - rewrite lookup_cons_elem. rewrite ids_cons_elem in Hnd.
    rewrite elemsF_cons_elem in Hin.
    apply NoDup_cons in Hnd as [Hne Hnd].
    apply NoDup_app in Hnd as (Hk & Hdis & Hf).
    apply elem_of_cons in Hin as [->|Hin]; simpl.
    + by rewrite decide_True.
    + assert (Hp : nid p.1 ∈ ids ks ++ ids f).
      { rewrite <- ids_app. apply elem_of_ids. exists p. by rewrite elemsF_app. }
      rewrite decide_False by (intros Heq; apply Hne; by rewrite Heq).
      apply elem_of_app in Hin as [Hin|Hin].
      * by rewrite (IHk Hk Hin).
      * assert (Hnk : lookup (nid p.1) ks = None).
        { apply lookup_None. intros Hc. apply (Hdis _ Hc).
          apply elem_of_ids. eauto. }
        rewrite Hnk. auto.
Qed.

(** ** Rewrites in general *)

Section RewriteFacts.
Variable gd : edata → edata.
Variable gk : option nat → list node → list node.
Hypothesis gd_nid : ∀ e, nid (gd e) = nid e.

Let rw := rewrite gd gk.

Lemma map_rewrite_cons_text s f : map rw (Text s :: f) = Text s :: map rw f.
Proof. reflexivity. Qed.

Lemma map_rewrite_cons_elem e ks f :
  map rw (Elem e ks :: f) =
    Elem (gd e) (gk (Some (nid e)) (map rw ks)) :: map rw f.
Proof. reflexivity. Qed.

(** A rewrite whose child-list part keeps the elements of every child
    list keeps the elements of the forest, each rewritten. *)
Lemma elemsF_rewrite f :
  allElems (λ e ks, elemsF (gk (Some (nid e)) (map rw ks)) = elemsF (map rw ks)) f →
  elemsF (map rw f) = rewriteP gd gk <$> elemsF f.
Proof.
  induction f as [|s f IH|e ks f IHk IHf] using forest_ind; intros H.
  - done.
  - rewrite map_rewrite_cons_text, !elemsF_cons_text. by apply IH.
  - apply allElems_cons_elem in H as (H1 & H2 & H3).
    rewrite map_rewrite_cons_elem, !elemsF_cons_elem, fmap_cons, fmap_app.
    rewrite H1, (IHk H2), (IHf H3). done.
Qed.

Lemma lookup_rewrite y f :
  allElems (λ e ks, lookup y (gk (Some (nid e)) (map rw ks)) = lookup y (map rw ks)) f →
  lookup y (map rw f) = rewriteP gd gk <$> lookup y f.
Proof.
  induction f as [|s f IH|e ks f IHk IHf] using forest_ind; intros H.
  - done.
  - rewrite map_rewrite_cons_text, !lookup_cons_text. by apply IH.
  - apply allElems_cons_elem in H as (H1 & H2 & H3).
    rewrite map_rewrite_cons_elem, !lookup_cons_elem, gd_nid.
    destruct (decide (nid e = y)); [done|].
    rewrite H1, (IHk H2), (IHf H3). by destruct (lookup y ks).
Qed.

Lemma querySelectorAll_cons_text sel s f :
  querySelectorAll sel (Text s :: f) = querySelectorAll sel f.
Proof. reflexivity. Qed.

Lemma querySelectorAll_app sel f g :
  querySelectorAll sel (f ++ g) = querySelectorAll sel f ++ querySelectorAll sel g.
Proof. unfold querySelectorAll. by rewrite elemsF_app, filter_app, fmap_app. Qed.

Lemma querySelectorAll_cons_elem sel e ks f :
  querySelectorAll sel (Elem e ks :: f) =
    (if sel e then [nid e] else []) ++
    querySelectorAll sel ks ++ querySelectorAll sel f.
Proof.
  unfold querySelectorAll. rewrite elemsF_cons_elem, filter_cons, filter_app.
  cbn [fst]. destruct (decide (sel e = true)) as [->|Hn].
  - by rewrite fmap_cons, fmap_app.
  - rewrite fmap_app. by destruct (sel e).
Qed.

Lemma querySelectorAll_rewrite sel f :
  (∀ e, sel (gd e) = sel e) →
  allElems (λ e ks, querySelectorAll sel (gk (Some (nid e)) (map rw ks))
                    = querySelectorAll sel (map rw ks)) f →
  querySelectorAll sel (map rw f) = querySelectorAll sel f.
Proof.
  intros Hsel.
  induction f as [|s f IH|e ks f IHk IHf] using forest_ind; intros H.
  - done.
  - rewrite map_rewrite_cons_text, !querySelectorAll_cons_text. by apply IH.
  - apply allElems_cons_elem in H as (H1 & H2 & H3).
    rewrite map_rewrite_cons_elem, !querySelectorAll_cons_elem, gd_nid, Hsel.
    by rewrite H1, (IHk H2), (IHf H3).
Qed.

(** A rewrite that does nothing at any element of a forest leaves the
    forest as it is. *)
Lemma rewrite_id f :
  allElems (λ e ks, gd e = e ∧ gk (Some (nid e)) ks = ks) f → map rw f = f.
Proof.
  induction f as [|s f IH|e ks f IHk IHf] using forest_ind; intros H.
  - done.
  - rewrite map_rewrite_cons_text. f_equal. by apply IH.
  - apply allElems_cons_elem in H as ((H1 & H1') & H2 & H3).
    rewrite map_rewrite_cons_elem, (IHk H2), (IHf H3), H1, H1'. done.
Qed.
End RewriteFacts.

(** ** Identities *)

Lemma NoDup_ids_cons_elem e ks f :
  NoDup (ids (Elem e ks :: f)) ↔
  (nid e ∉ ids ks) ∧ (nid e ∉ ids f) ∧ NoDup (ids ks) ∧ NoDup (ids f) ∧
  (∀ x, x ∈ ids ks → x ∉ ids f).
Proof.
  rewrite ids_cons_elem, NoDup_cons, NoDup_app, not_elem_of_app. tauto.
Qed.

Lemma ids_kids f e ks : (e, ks) ∈ elemsF f → ∀ x, x ∈ ids ks → x ∈ ids f.
Proof.
  intros Hin x Hx. apply elem_of_ids in Hx as (p & Hp & <-).
  apply elem_of_ids. exists p. split; [|done]. eapply elemsF_kids; eauto.
Qed.

Lemma NoDup_ids_kids f e ks :
  NoDup (ids f) → (e, ks) ∈ elemsF f → NoDup (ids ks) ∧ nid e ∉ ids ks.
Proof.
  induction f as [|s f IH|e' ks' f IHk IHf] using forest_ind; intros Hnd Hin.
  - by apply elem_of_nil in Hin.
  - rewrite ids_cons_text, elemsF_cons_text in *. auto.
  - apply NoDup_ids_cons_elem in Hnd as (H1 & H2 & H3 & H4 & H5).
    rewrite elemsF_cons_elem in Hin.
    apply elem_of_cons in Hin as [[= -> ->]|Hin]; [done|].
    apply elem_of_app in Hin as [Hin|Hin]; auto.
Qed.

Lemma elem_of_elemsF_ids f p : p ∈ elemsF f → nid p.1 ∈ ids f.
Proof. intros H. apply elem_of_ids. eauto. Qed.

Lemma lookup_unique f h eh kh :
  NoDup (ids f) → lookup h f = Some (eh, kh) →
  allElems (λ e ks, nid e = h → e = eh ∧ ks = kh) f.
Proof.
  intros Hnd Hl e ks Hin Hh.
  pose proof (lookup_NoDup f (e, ks) Hnd Hin) as Hl'. simpl in Hl'.
  rewrite Hh, Hl in Hl'. by injection Hl' as -> ->.
Qed.

(** ** Changing the data of an element *)

Section Update.
Variable x : nat.
Variable g : edata → edata.
Hypothesis g_nid : ∀ e, nid (g e) = nid e.

Let gd := λ e, if decide (nid e = x) then g e else e.

Lemma update_gd_nid e : nid (gd e) = nid e.
Proof. unfold gd. destruct (decide _); auto. Qed.

Lemma update_cons_text s f : update x g (Text s :: f) = Text s :: update x g f.
Proof. reflexivity. Qed.

Lemma update_cons_elem e ks f :
  update x g (Elem e ks :: f) = Elem (gd e) (update x g ks) :: update x g f.
Proof. reflexivity. Qed.

Lemma updateP_eq p : updateP x g p = (gd p.1, update x g p.2).
Proof. reflexivity. Qed.

Lemma elemsF_update f : elemsF (update x g f) = updateP x g <$> elemsF f.
Proof. apply (elemsF_rewrite gd (λ _ ks, ks)). by intros e ks _. Qed.

Lemma ids_update f : ids (update x g f) = ids f.
Proof.
  unfold ids. rewrite elemsF_update, <- list_fmap_compose.
  apply list_fmap_ext. intros _ p _. simpl. apply update_gd_nid.
Qed.

Lemma lookup_update y f : lookup y (update x g f) = updateP x g <$> lookup y f.
Proof.
  apply (lookup_rewrite gd (λ _ ks, ks) update_gd_nid). by intros e ks _.
Qed.

Lemma update_absent f : x ∉ ids f → update x g f = f.
Proof.
  intros Hx. apply (rewrite_id gd (λ _ ks, ks)). intros e ks Hin. split; [|done].
  unfold gd. rewrite decide_False; [done|]. intros <-. apply Hx.
  by apply (elem_of_elemsF_ids f (e, ks)).
Qed.

Lemma querySelectorAll_update sel f :
  (∀ e, nid e = x → sel (g e) = sel e) →
  querySelectorAll sel (update x g f) = querySelectorAll sel f.
Proof.
  intros Hsel.
  apply (querySelectorAll_rewrite gd (λ _ ks, ks) update_gd_nid).
  - intros e. unfold gd. destruct (decide _); auto.
  - by intros e ks _.
Qed.
End Update.

(** ** Changing the child list of an element *)

Section AtKids.
Variable h : nat.
Variable K : list node → list node.

Let gk := λ (p : option nat) (ks : list node),
            if decide (p = Some h) then K ks else ks.

Lemma atKids_map f : atKids h K f = map (rewrite (λ e, e) gk) f.
Proof. unfold atKids, rewriteF. by rewrite decide_False. Qed.

Lemma atKids_cons_text s f : atKids h K (Text s :: f) = Text s :: atKids h K f.
Proof. reflexivity. Qed.

Lemma atKids_cons_elem e ks f :
  atKids h K (Elem e ks :: f) =
    Elem e (if decide (nid e = h) then K (atKids h K ks) else atKids h K ks)
      :: atKids h K f.
Proof.
  unfold atKids, rewriteF. simpl.
  destruct (decide (Some (nid e) = Some h)) as [[= Hh]|Hn],
           (decide (nid e = h)); congruence.
Qed.

Lemma atKidsP_eq p :
  atKidsP h K p =
    (p.1, if decide (nid p.1 = h) then K (atKids h K p.2) else atKids h K p.2).
Proof.
  unfold atKidsP, rewriteP, atKids, rewriteF. simpl.
  destruct (decide (Some (nid p.1) = Some h)) as [[= Hh]|Hn],
           (decide (nid p.1 = h)); congruence.
Qed.

Lemma atKids_absent f : h ∉ ids f → atKids h K f = f.
Proof.
  intros Hh. rewrite atKids_map.
  apply rewrite_id. intros e ks Hin. split; [done|]. unfold gk.
  rewrite decide_False; [done|]. intros [= <-]. apply Hh.
  by apply (elem_of_elemsF_ids f (e, ks)).
Qed.

Lemma atKidsP_absent f p : h ∉ ids f → p ∈ elemsF f → atKidsP h K p = p.
Proof.
  intros Hh Hin. rewrite atKidsP_eq. destruct p as [e ks]. simpl.
  rewrite decide_False.
  - rewrite atKids_absent; [done|]. intros Hc. apply Hh. eapply ids_kids; eauto.
  - intros <-. apply Hh. by apply (elem_of_elemsF_ids f (e, ks)).
Qed.

Lemma atKidsP_here f eh kh :
  NoDup (ids f) → lookup h f = Some (eh, kh) → atKidsP h K (eh, kh) = (eh, K kh).
Proof.
  intros Hnd Hl. apply lookup_Some in Hl as [Hin Hh]. simpl in Hh.
  rewrite atKidsP_eq. simpl. rewrite decide_True by done.
  rewrite atKids_absent; [done|].
  destruct (NoDup_ids_kids f eh kh Hnd Hin) as [_ Hn]. by rewrite <- Hh.
Qed.

(** The subtree at [h] after the change. *)
Lemma atKids_kids_unchanged f :
  NoDup (ids f) →
  allElems (λ e ks, nid e = h → atKids h K ks = ks) f.
Proof.
  intros Hnd e ks Hin Hh. apply atKids_absent.
  destruct (NoDup_ids_kids f e ks Hnd Hin) as [_ Hn]. by rewrite <- Hh.
Qed.

Lemma lookup_atKids y f :
  NoDup (ids f) →
  (∀ eh kh, lookup h f = Some (eh, kh) → lookup y (K kh) = lookup y kh) →
  lookup y (atKids h K f) = atKidsP h K <$> lookup y f.
Proof.
  intros Hnd HK. rewrite atKids_map.
  apply (lookup_rewrite (λ e, e) gk); [done|].
  intros e ks Hin. rewrite <- atKids_map. unfold gk.
  destruct (decide (Some (nid e) = Some h)) as [[= Hh]|]; [|done].
  rewrite (atKids_kids_unchanged f Hnd e ks Hin Hh). apply (HK e).
  rewrite <- Hh. by apply (lookup_NoDup f (e, ks)).
Qed.

Lemma querySelectorAll_atKids sel f :
  NoDup (ids f) →
  (∀ eh kh, lookup h f = Some (eh, kh) →
            querySelectorAll sel (K kh) = querySelectorAll sel kh) →
  querySelectorAll sel (atKids h K f) = querySelectorAll sel f.
Proof.
  intros Hnd HK. rewrite atKids_map.
  apply (querySelectorAll_rewrite (λ e, e) gk); [done|done|].
  intros e ks Hin. rewrite <- atKids_map. unfold gk.
  destruct (decide (Some (nid e) = Some h)) as [[= Hh]|]; [|done].
  rewrite (atKids_kids_unchanged f Hnd e ks Hin Hh). apply (HK e).
  rewrite <- Hh. by apply (lookup_NoDup f (e, ks)).
Qed.

Lemma atKidsP_fmap_absent f :
  h ∉ ids f → atKidsP h K <$> elemsF f = elemsF f.
Proof.
  intros Hh. rewrite <- (list_fmap_id (elemsF f)) at 2.
  apply list_fmap_ext. intros i p Hp. simpl.
  eapply atKidsP_absent; eauto. eapply list_elem_of_lookup_2; eauto.
Qed.

Lemma elemsF_atKids f eh kh extra :
  NoDup (ids f) → lookup h f = Some (eh, kh) →
  elemsF (K kh) ≡ₚ elemsF kh ++ extra →
  elemsF (atKids h K f) ≡ₚ (atKidsP h K <$> elemsF f) ++ extra.
Proof.
  intros Hnd Hl HK. revert Hnd Hl.
  induction f as [|s f IH|e ks f IHk IHf] using forest_ind; intros Hnd Hl.
  - done.
  - rewrite atKids_cons_text, !elemsF_cons_text. apply IH; auto.
  - pose proof Hnd as Hnd'.
    apply NoDup_ids_cons_elem in Hnd as (H1 & H2 & H3 & H4 & H5).
    rewrite atKids_cons_elem, !elemsF_cons_elem, fmap_cons, fmap_app.
    rewrite lookup_cons_elem in Hl.
    rewrite atKidsP_eq. simpl.
    destruct (decide (nid e = h)) as [Hh|Hh].
    + injection Hl as -> ->. rewrite Hh in H1, H2.
      rewrite !atKidsP_fmap_absent, !atKids_absent by done.
      rewrite HK. apply Permutation_skip.
      rewrite <- !(assoc (++)). apply Permutation_app_head, Permutation_app_comm.
    + destruct (lookup h ks) as [p|] eqn:Hk.
      * assert (Hf : h ∉ ids f).
        { apply H5. apply lookup_is_Some. eauto. }
        rewrite (atKidsP_fmap_absent f), (atKids_absent f) by done.
        rewrite (IHk H3 Hl). apply Permutation_skip.
        rewrite <- !(assoc (++)). apply Permutation_app_head, Permutation_app_comm.
      * assert (Hks : h ∉ ids ks) by (by apply lookup_None).
        rewrite (atKidsP_fmap_absent ks), (atKids_absent ks) by done.
        rewrite (IHf H4 Hl). by rewrite <- !(assoc (++)).
Qed.
End AtKids.

(** ** Removing an element *)

Section Remove.
Variable b : nat.

Lemma isNode_elem x e ks : isNode x (Elem e ks) = bool_decide (nid e = x).
Proof.
  unfold isNode. simpl. apply bool_decide_ext. split; [by intros [= ?]|by intros ->].
Qed.

Lemma isNode_text x s : isNode x (Text s) = false.
Proof. reflexivity. Qed.

Lemma remove_cons_text s f : remove b (Text s :: f) = Text s :: remove b f.
Proof. reflexivity. Qed.

Lemma remove_cons_elem e ks f :
  remove b (Elem e ks :: f) =
    if decide (nid e = b) then remove b f else Elem e (remove b ks) :: remove b f.
Proof.
  unfold remove, rewriteF. simpl. rewrite filter_cons, isNode_elem.
  destruct (decide (nid e = b)) as [Hb|Hb].
  - by rewrite bool_decide_eq_true_2, decide_False.
  - by rewrite bool_decide_eq_false_2, decide_True.
Qed.

Lemma removeP_eq p : removeP b p = (p.1, remove b p.2).
Proof. reflexivity. Qed.

Lemma remove_absent f : b ∉ ids f → remove b f = f.
Proof.
  induction f as [|s f IH|e ks f IHk IHf] using forest_ind; intros Hb.
  - done.
  - rewrite remove_cons_text. f_equal. auto.
  - rewrite ids_cons_elem in Hb.
    apply not_elem_of_cons in Hb as [Hb1 Hb2].
    apply not_elem_of_app in Hb2 as [Hb2 Hb3].
    rewrite remove_cons_elem, decide_False by done.
    by rewrite IHk, IHf.
Qed.

(** Whatever is left was there before, and is not [b]. *)
Lemma elemsF_remove_sub f p' :
  p' ∈ elemsF (remove b f) →
  ∃ p, p ∈ elemsF f ∧ p' = removeP b p ∧ nid p.1 ≠ b.
Proof.
  induction f as [|s f IH|e ks f IHk IHf] using forest_ind; intros Hin.
  - by apply elem_of_nil in Hin.
  - rewrite remove_cons_text, elemsF_cons_text in Hin.
    rewrite elemsF_cons_text. auto.
  - rewrite remove_cons_elem in Hin. setoid_rewrite elemsF_cons_elem.
    destruct (decide (nid e = b)) as [Hb|Hb].
    + destruct (IHf Hin) as (p & Hp & ? & ?). exists p.
      split; [|done]. apply elem_of_cons. right. apply elem_of_app. by right.
    + rewrite elemsF_cons_elem in Hin.
      apply elem_of_cons in Hin as [->|Hin].
      * exists (e, ks). split; [by left|done].
      * apply elem_of_app in Hin as [Hin|Hin].
        -- destruct (IHk Hin) as (p & Hp & ? & ?). exists p.
           split; [|done]. apply elem_of_cons. right. apply elem_of_app. by left.
        -- destruct (IHf Hin) as (p & Hp & ? & ?). exists p.
           split; [|done]. apply elem_of_cons. right. apply elem_of_app. by right.
Qed.

Lemma ids_remove_sub f x : x ∈ ids (remove b f) → x ∈ ids f ∧ x ≠ b.
Proof.
  intros Hx. apply elem_of_ids in Hx as (p' & Hp' & <-).
  apply elemsF_remove_sub in Hp' as (p & Hp & -> & Hb). simpl.
  split; [|done]. by apply elem_of_elemsF_ids.
Qed.

Lemma lookup_remove_self f : lookup b (remove b f) = None.
Proof. apply lookup_None. intros H. by apply ids_remove_sub in H as [_ ?]. Qed.

Lemma leaf_cons_elem e ks f :
  leaf b (Elem e ks :: f) ↔ (nid e = b → elemsF ks = []) ∧ leaf b ks ∧ leaf b f.
Proof. apply allElems_cons_elem. Qed.

Lemma elemsF_remove f :
  leaf b f →
  elemsF (remove b f) = removeP b <$> filter (λ p, nid p.1 ≠ b) (elemsF f).
Proof.
  induction f as [|s f IH|e ks f IHk IHf] using forest_ind; intros Hl.
  - done.
  - rewrite remove_cons_text, !elemsF_cons_text. auto.
  - apply leaf_cons_elem in Hl as (H1 & H2 & H3).
    rewrite remove_cons_elem, elemsF_cons_elem, filter_cons, filter_app. simpl.
    destruct (decide (nid e = b)) as [Hb|Hb].
    + rewrite decide_False by tauto.
      rewrite (H1 Hb), filter_nil, app_nil_l. auto.
    + rewrite decide_True by done.
      rewrite elemsF_cons_elem, fmap_cons, fmap_app, IHk, IHf by done. done.
Qed.

Lemma ids_remove f : leaf b f → ids (remove b f) = filter (λ x, x ≠ b) (ids f).
Proof.
  intros Hl. unfold ids. rewrite elemsF_remove by done.
  rewrite <- list_fmap_compose.
  induction (elemsF f) as [|p l IH]; [done|].
  rewrite filter_cons, fmap_cons, filter_cons. simpl.
  destruct (decide (nid p.1 ≠ b)); [rewrite fmap_cons; simpl|]; by rewrite IH.
Qed.

Lemma lookup_remove y f :
  leaf b f → y ≠ b → lookup y (remove b f) = removeP b <$> lookup y f.
Proof.
  intros Hl Hy. unfold lookup. rewrite elemsF_remove by done.
  induction (elemsF f) as [|p l IH]; [done|].
  rewrite !filter_cons.
  destruct (decide (nid p.1 ≠ b)) as [Hp|Hp].
  - rewrite fmap_cons, filter_cons. simpl.
    destruct (decide (nid p.1 = y)); [done|]. apply IH.
  - rewrite decide_False; [apply IH|]. intros Hc. apply Hp. by rewrite Hc.
Qed.

Lemma querySelectorAll_remove sel f :
  leaf b f →
  querySelectorAll sel (remove b f) = filter (λ x, x ≠ b) (querySelectorAll sel f).
Proof.
  intros Hl. unfold querySelectorAll. rewrite elemsF_remove by done.
  induction (elemsF f) as [|p l IH]; [done|].
  rewrite !filter_cons.
  destruct (decide (nid p.1 ≠ b)) as [Hp|Hp].
  - rewrite fmap_cons, filter_cons. simpl.
    destruct (decide (sel p.1 = true)).
    + rewrite !fmap_cons, filter_cons. simpl. rewrite decide_True by done.
      by rewrite IH.
    + apply IH.
  - destruct (decide (sel p.1 = true)).
    + rewrite fmap_cons, filter_cons, decide_False by done. apply IH.
    + apply IH.
Qed.
End Remove.

(** ** The host page's view of a document *)

Lemma hostElems_cons_text s f : hostElems (Text s :: f) = hostElems f.
Proof. reflexivity. Qed.

Lemma hostElems_cons_elem e ks f :
  hostElems (Elem e ks :: f) =
    (if reserved e then [] else [(e, ks)]) ++ hostElems ks ++ hostElems f.
Proof.
  unfold hostElems. rewrite elemsF_cons_elem, filter_cons, filter_app. simpl.
  by destruct (reserved e).
Qed.

Lemma hostElems_app f g : hostElems (f ++ g) = hostElems f ++ hostElems g.
Proof. unfold hostElems. by rewrite elemsF_app, filter_app. Qed.

Lemma hostView_cons_text s f : hostView (Text s :: f) = hostView f.
Proof. reflexivity. Qed.

Lemma hostView_cons_elem e ks f :
  hostView (Elem e ks :: f) =
    (if reserved e then [] else [(e, hostIds ks, hostChildIds ks)])
      ++ hostView ks ++ hostView f.
Proof.
  unfold hostView. rewrite hostElems_cons_elem, !fmap_app.
  by destruct (reserved e).
Qed.

Lemma hostView_app f g : hostView (f ++ g) = hostView f ++ hostView g.
Proof. unfold hostView. by rewrite hostElems_app, fmap_app. Qed.

Lemma hostIds_hostView f : hostIds f = (λ v, nid v.1.1) <$> hostView f.
Proof. unfold hostIds, hostView. by rewrite <- list_fmap_compose. Qed.

Lemma hostChildIds_cons_text s f : hostChildIds (Text s :: f) = hostChildIds f.
Proof. reflexivity. Qed.

Lemma hostChildIds_cons_elem e ks f :
  hostChildIds (Elem e ks :: f) =
    (if reserved e then [] else [nid e]) ++ hostChildIds f.
Proof. unfold hostChildIds. simpl. by destruct (reserved e). Qed.

Lemma hostChildIds_app f g : hostChildIds (f ++ g) = hostChildIds f ++ hostChildIds g.
Proof. unfold hostChildIds. apply omap_app. Qed.

Lemma elem_of_hostElems f p : p ∈ hostElems f ↔ reserved p.1 = false ∧ p ∈ elemsF f.
Proof. unfold hostElems. apply (list_elem_of_filter (λ p, reserved p.1 = false)). Qed.

Section HostRewrite.
Variable gd : edata → edata.
Variable gk : option nat → list node → list node.
Hypothesis gd_nid : ∀ e, nid (gd e) = nid e.
Hypothesis gd_reserved : ∀ e, reserved (gd e) = reserved e.

Let rw := rewrite gd gk.

Lemma hostChildIds_map_rewrite f : hostChildIds (map rw f) = hostChildIds f.
Proof.
  induction f as [|n f IH]; [done|]. destruct n as [s|e ks].
  - change (map rw (Text s :: f)) with (Text s :: map rw f).
    by rewrite !hostChildIds_cons_text.
  - change (map rw (Elem e ks :: f))
      with (Elem (gd e) (gk (Some (nid e)) (map rw ks)) :: map rw f).
    by rewrite !hostChildIds_cons_elem, gd_reserved, gd_nid, IH.
Qed.

Lemma hostView_rewrite f :
  allElems (λ e ks,
    hostView (gk (Some (nid e)) (map rw ks)) = hostView (map rw ks)
    ∧ hostChildIds (gk (Some (nid e)) (map rw ks)) = hostChildIds (map rw ks)) f →
  hostView (map rw f) = (λ v, (gd v.1.1, v.1.2, v.2)) <$> hostView f.
Proof.
  induction f as [|s f IH|e ks f IHk IHf] using forest_ind; intros H.
  - done.
  - change (map rw (Text s :: f)) with (Text s :: map rw f).
    rewrite !hostView_cons_text. by apply IH.
  - apply allElems_cons_elem in H as ((H1 & H1') & H2 & H3).
    change (map rw (Elem e ks :: f))
      with (Elem (gd e) (gk (Some (nid e)) (map rw ks)) :: map rw f).
    rewrite !hostView_cons_elem, gd_reserved, !fmap_app.
    rewrite H1, H1', (IHk H2), (IHf H3), hostChildIds_map_rewrite.
    assert (Hids : hostIds (gk (Some (nid e)) (map rw ks)) = hostIds ks).
    { rewrite !hostIds_hostView, H1, (IHk H2), <- list_fmap_compose.
      apply list_fmap_ext. intros _ v _. simpl. apply gd_nid. }
    rewrite Hids. by destruct (reserved e).
Qed.
End HostRewrite.

(** A forest without host elements shows nothing. *)
Lemma hostView_no_elems f : elemsF f = [] → hostView f = [].
Proof. unfold hostView, hostElems. by intros ->. Qed.

Lemma hostChildIds_no_elems f : elemsF f = [] → hostChildIds f = [].
Proof.
  induction f as [|n f IH]; [done|]. destruct n as [s|e ks]; [|done].
  intros H. rewrite hostChildIds_cons_text. apply IH. exact H.
Qed.

Lemma elemsF_map_rewrite_nil gd gk f :
  elemsF f = [] → elemsF (map (rewrite gd gk) f) = [].
Proof.
  induction f as [|n f IH]; [done|]. destruct n as [s|e ks]; [|done].
  intros H. apply IH. exact H.
Qed.

(** *** Updates *)

Lemma hostView_update x g f :
  (∀ e, nid (g e) = nid e) → (∀ e, reserved (g e) = reserved e) →
  hostView (update x g f) =
    (λ v, (if decide (nid v.1.1 = x) then g v.1.1 else v.1.1, v.1.2, v.2))
      <$> hostView f.
Proof.
  intros Hn Hr.
  apply (hostView_rewrite (λ e, if decide (nid e = x) then g e else e) (λ _ ks, ks)).
  - intros e. destruct (decide _); auto.
  - intros e. destruct (decide _); auto.
  - by intros e ks _.
Qed.

Lemma hostChildIds_update x g f :
  (∀ e, nid (g e) = nid e) → (∀ e, reserved (g e) = reserved e) →
  hostChildIds (update x g f) = hostChildIds f.
Proof.
  intros Hn Hr.
  apply (hostChildIds_map_rewrite (λ e, if decide (nid e = x) then g e else e)
           (λ _ ks, ks)); intros e; destruct (decide _); auto.
Qed.

(** *** Removing a reserved element *)

Lemma hostView_filter_reserved (Q : node → Prop) `{!∀ n, Decision (Q n)} l :
  (∀ e ks, Elem e ks ∈ l → ¬ Q (Elem e ks) → reserved e = true ∧ elemsF ks = []) →
  hostView (filter Q l) = hostView l ∧ hostChildIds (filter Q l) = hostChildIds l.
Proof.
  induction l as [|n l IH]; intros Hall; [done|].
  destruct IH as [IH1 IH2]; [intros e ks Hin; apply Hall; by right|].
  rewrite filter_cons. destruct (decide (Q n)) as [Hq|Hq].
  - destruct n as [s|e ks].
    + by rewrite !hostView_cons_text, !hostChildIds_cons_text.
    + by rewrite !hostView_cons_elem, !hostChildIds_cons_elem, IH1, IH2.
  - destruct n as [s|e ks].
    + by rewrite !hostView_cons_text, !hostChildIds_cons_text.
    + destruct (Hall e ks) as [Hr Hk]; [by left|done|].
      rewrite !hostView_cons_elem, !hostChildIds_cons_elem, Hr.
      by rewrite (hostView_no_elems ks Hk).
Qed.

Lemma hostView_remove b f :
  allElems (λ e ks, nid e = b → reserved e = true ∧ elemsF ks = []) f →
  hostView (remove b f) = hostView f ∧ hostChildIds (remove b f) = hostChildIds f.
Proof.
  intros Hb. unfold remove, rewriteF.
  set (gk := λ (_ : option nat) (ks : list node), filter (λ n, isNode b n = false) ks).
  set (rw := rewrite (λ e, e) gk).
  assert (Hnodes : ∀ l, allElems (λ e ks, nid e = b → reserved e = true ∧ elemsF ks = []) l →
            ∀ e ks, Elem e ks ∈ map rw l → ¬ isNode b (Elem e ks) = false →
                    reserved e = true ∧ elemsF ks = []).
  { intros l Hl e ks Hin Hq. apply list_elem_of_fmap in Hin as (n & Hn & Hin).
    destruct n as [s|e0 ks0]; [done|]. simpl in Hn. injection Hn as -> ->.
    rewrite isNode_elem in Hq. apply not_false_iff_true, bool_decide_eq_true in Hq.
    destruct (Hl e0 ks0) as [Hr Hk]; [|done|].
    { apply list_elem_of_split in Hin as (l1 & l2 & ->).
      rewrite elemsF_app, elemsF_cons_elem. apply elem_of_app. right. by left. }
    split; [done|]. unfold gk.
    assert (Hnil : elemsF (map rw ks0) = []) by (by apply elemsF_map_rewrite_nil).
    destruct (filter _ (map rw ks0)) as [|n l'] eqn:Hf; [done|].
    assert (Hsub : elemsF (filter (λ n, isNode b n = false) (map rw ks0)) = []).
    { clear Hf. induction (map rw ks0) as [|n0 l0 IHl]; [done|].
      destruct n0 as [s|e1 ks1]; [|done].
      rewrite filter_cons. rewrite elemsF_cons_text in Hnil.
      destruct (decide _); [rewrite elemsF_cons_text|]; auto. }
    by rewrite Hf in Hsub. }
  assert (Hview : hostView (map rw f) = (λ v, (v.1.1, v.1.2, v.2)) <$> hostView f).
  { apply (hostView_rewrite (λ e, e) gk); [done|done|].
    intros e ks Hin. apply hostView_filter_reserved.
    apply Hnodes. eapply allElems_kids; eauto. }
  destruct (hostView_filter_reserved (λ n, isNode b n = false) (map rw f)) as [H1 H2].
  { by apply Hnodes. }
  split.
  - fold gk rw. etransitivity; [exact H1|]. rewrite Hview.
    rewrite <- (list_fmap_id (hostView f)) at 2. apply list_fmap_ext.
    by intros _ [[? ?] ?] _.
  - fold gk rw. etransitivity; [exact H2|].
    by apply (hostChildIds_map_rewrite (λ e, e) gk).
Qed.

(** *** Changing a child list *)

Lemma hostView_atKids h K f :
  NoDup (ids f) →
  (∀ eh kh, lookup h f = Some (eh, kh) →
     hostView (K kh) = hostView kh ∧ hostChildIds (K kh) = hostChildIds kh) →
  hostView (atKids h K f) = hostView f ∧
  hostChildIds (atKids h K f) = hostChildIds f.
Proof.
  intros Hnd HK. rewrite atKids_map.
  split.
  - etransitivity.
    + apply (hostView_rewrite (λ e, e)
               (λ p ks, if decide (p = Some h) then K ks else ks)); [done|done|].
      intros e ks Hin. rewrite <- (atKids_map h K ks).
      destruct (decide (Some (nid e) = Some h)) as [[= Hh]|]; [|done].
      rewrite (atKids_kids_unchanged h K f Hnd e ks Hin Hh). apply (HK e).
      rewrite <- Hh. by apply (lookup_NoDup f (e, ks)).
    + rewrite <- (list_fmap_id (hostView f)) at 2. apply list_fmap_ext.
      by intros _ [[? ?] ?] _.
  - by apply (hostChildIds_map_rewrite (λ e, e)
                (λ p ks, if decide (p = Some h) then K ks else ks)).
Qed.

Lemma hostView_insertAt ref e ks l :
  reserved e = true → elemsF ks = [] →
  hostView (insertAt ref (Elem e ks) l) = hostView l ∧
  hostChildIds (insertAt ref (Elem e ks) l) = hostChildIds l.
Proof.
  intros Hr Hk. induction l as [|n l [IH1 IH2]]; [done|].
  cbn [insertAt]. destruct (isNode ref n).
  - rewrite hostView_cons_elem, hostChildIds_cons_elem, Hr.
    by rewrite (hostView_no_elems ks Hk).
  - destruct n as [s|e0 ks0].
    + by rewrite !hostView_cons_text, !hostChildIds_cons_text.
    + by rewrite !hostView_cons_elem, !hostChildIds_cons_elem, IH1, IH2.
Qed.

Lemma hostView_place host ref e ks f :
  NoDup (ids f) → reserved e = true → elemsF ks = [] →
  hostView (place host ref (Elem e ks) f) = hostView f ∧
  hostChildIds (place host ref (Elem e ks) f) = hostChildIds f.
Proof.
  intros Hnd Hr Hk. apply hostView_atKids; [done|].
  intros _ kh _. by apply hostView_insertAt.
Qed.

Lemma hostView_appendChild host e ks f :
  NoDup (ids f) → reserved e = true → elemsF ks = [] →
  hostView (appendChild host (Elem e ks) f) = hostView f ∧
  hostChildIds (appendChild host (Elem e ks) f) = hostChildIds f.
Proof.
  intros Hnd Hr Hk. apply hostView_atKids; [done|].
  intros _ kh _. rewrite hostView_app, hostChildIds_app.
  rewrite hostView_cons_elem, hostChildIds_cons_elem, Hr.
  rewrite (hostView_no_elems ks Hk). simpl. by rewrite !app_nil_r.
Qed.

Lemma elemsF_textNodes s : elemsF (textNodes s) = [].
Proof. unfold textNodes. by destruct (decide _). Qed.

Lemma hostView_set_textContent b s f :
  NoDup (ids f) → leaf b f →
  hostView (set_textContent b s f) = hostView f ∧
  hostChildIds (set_textContent b s f) = hostChildIds f.
Proof.
  intros Hnd Hl. apply hostView_atKids; [done|].
  intros eh kh Hlk. apply lookup_Some in Hlk as [Hin Hb].
  pose proof (Hl eh kh Hin Hb) as Hk.
  rewrite (hostView_no_elems _ (elemsF_textNodes s)), (hostView_no_elems kh Hk).
  by rewrite (hostChildIds_no_elems _ (elemsF_textNodes s)), (hostChildIds_no_elems kh Hk).
Qed.

(** ** Reading the host view *)

Section View.
Implicit Types v : list (edata * list nat * list nat).

Lemma lookupV_hostView y f e ks :
  lookup y f = Some (e, ks) → reserved e = false →
  lookupV y (hostView f) = Some (e, hostIds ks, hostChildIds ks).
Proof.
  unfold lookup, lookupV, hostView, hostElems.
  induction (elemsF f) as [|p l IH]; [done|].
  rewrite !filter_cons. intros Hl Hr.
  destruct (decide (nid p.1 = y)) as [Hy|Hy].
  - injection Hl as ->. simpl. rewrite decide_True by done.
    rewrite fmap_cons, filter_cons. simpl. by rewrite decide_True.
  - destruct (decide (reserved p.1 = false)); [|by apply IH].
    rewrite fmap_cons, filter_cons. simpl. rewrite decide_False by done.
    by apply IH.
Qed.

Lemma lookupV_Some y v a : lookupV y v = Some a → a ∈ v ∧ nid a.1.1 = y.
Proof.
  unfold lookupV. intros H. apply head_Some in H as [l H].
  assert (Hin : a ∈ filter (λ a, nid a.1.1 = y) v) by (rewrite H; left).
  by apply list_elem_of_filter in Hin as [? ?].
Qed.

Lemma lookup_of_hostView y f e ds cs :
  NoDup (ids f) → lookupV y (hostView f) = Some (e, ds, cs) →
  ∃ ks, lookup y f = Some (e, ks) ∧ reserved e = false
        ∧ ds = hostIds ks ∧ cs = hostChildIds ks.
Proof.
  intros Hnd Hl. apply lookupV_Some in Hl as [Hin Hy]. simpl in Hy.
  unfold hostView in Hin. apply list_elem_of_fmap in Hin as ([e' ks] & Heq & Hin).
  simpl in Heq. injection Heq as <- -> ->.
  apply elem_of_hostElems in Hin as [Hr Hin]. simpl in Hr.
  exists ks. repeat split; auto. rewrite <- Hy.
  by apply (lookup_NoDup f (e, ks)).
Qed.

Lemma lookupV_Forall2 (R : edata → edata → Prop) y v v' a :
  (∀ e e', R e e' → nid e' = nid e) →
  Forall2 (λ a a', R a.1.1 a'.1.1 ∧ a.1.2 = a'.1.2 ∧ a.2 = a'.2) v v' →
  lookupV y v = Some a →
  ∃ a', lookupV y v' = Some a' ∧ R a.1.1 a'.1.1 ∧ a.1.2 = a'.1.2 ∧ a.2 = a'.2.
Proof.
  intros HR H. unfold lookupV. induction H as [|b b' l l' Hb _ IH]; [done|].
  rewrite !filter_cons. destruct Hb as (Hb1 & Hb2 & Hb3).
  rewrite <- (HR _ _ Hb1).
  destruct (decide (nid b'.1.1 = y)); [|exact IH].
  simpl. intros [= <-]. eauto.
Qed.
End View.

(** A host element is found again in a document that shows the same host
    page. *)
Lemma sameHost_lookup R f f' y e ks :
  R_nid R → sameHost R f f' → NoDup (ids f') →
  lookup y f = Some (e, ks) → reserved e = false →
  ∃ e' ks', lookup y f' = Some (e', ks') ∧ reserved e' = false ∧ R e e'
            ∧ hostIds ks' = hostIds ks ∧ hostChildIds ks' = hostChildIds ks.
Proof.
  intros HR [Hv _] Hnd Hl Hr.
  pose proof (lookupV_hostView y f e ks Hl Hr) as HlV.
  destruct (lookupV_Forall2 R y _ _ _ HR Hv HlV) as ([[e' ds] cs] & HlV' & HRe & Hds & Hcs).
  simpl in *. subst ds cs.
  destruct (lookup_of_hostView y f' e' _ _ Hnd HlV') as (ks' & Hl' & Hr' & Hd & Hc).
  exists e', ks'. auto.
Qed.

(** ** What a tidy document tells about the host page *)

Lemma tidy_artefact f e ks :
  tidy f → (e, ks) ∈ elemsF f → reserved e = true → artefact e ks.
Proof. intros [H _] Hin Hr. by apply (H e ks). Qed.

Lemma childIds_cons_text s l : childIds (Text s :: l) = childIds l.
Proof. reflexivity. Qed.

Lemma childIds_cons_elem e ks l : childIds (Elem e ks :: l) = nid e :: childIds l.
Proof. reflexivity. Qed.

Lemma childIds_app l1 l2 : childIds (l1 ++ l2) = childIds l1 ++ childIds l2.
Proof. unfold childIds. apply omap_app. Qed.

Lemma elem_of_childIds x l :
  x ∈ childIds l ↔ ∃ e ks, Elem e ks ∈ l ∧ nid e = x.
Proof.
  unfold childIds. rewrite list_elem_of_omap. split.
  - intros ([s|e ks] & Hin & Hn); [done|]. injection Hn as <-. eauto.
  - intros (e & ks & Hin & <-). exists (Elem e ks). auto.
Qed.

Lemma elem_of_hostChildIds x l :
  x ∈ hostChildIds l ↔ ∃ e ks, Elem e ks ∈ l ∧ nid e = x ∧ reserved e = false.
Proof.
  unfold hostChildIds. rewrite list_elem_of_omap. split.
  - intros ([s|e ks] & Hin & Hn); [done|]. simpl in Hn.
    destruct (reserved e) eqn:Hr; [done|]. injection Hn as <-. eauto.
  - intros (e & ks & Hin & <- & Hr). exists (Elem e ks). split; [done|].
    simpl. by rewrite Hr.
Qed.

Lemma elem_top_elemsF e ks l : Elem e ks ∈ l → (e, ks) ∈ elemsF l.
Proof.
  intros Hin. apply list_elem_of_split in Hin as (l1 & l2 & ->).
  rewrite elemsF_app, elemsF_cons_elem. apply elem_of_app. right. by left.
Qed.

Lemma childIds_ids x l : x ∈ childIds l → x ∈ ids l.
Proof.
  intros H. apply elem_of_childIds in H as (e & ks & Hin & <-).
  apply (elem_of_elemsF_ids l (e, ks)). by apply elem_top_elemsF.
Qed.

Lemma childIds_no_elems l : elemsF l = [] → childIds l = [].
Proof.
  induction l as [|n l IH]; [done|]. destruct n as [s|e ks]; [|done].
  intros H. rewrite childIds_cons_text. by apply IH.
Qed.

Lemma ids_no_elems l : elemsF l = [] → ids l = [].
Proof. unfold ids. by intros ->. Qed.

(** An element with an element child belongs to the host page. *)
Lemma tidy_parent_host f e ks x :
  tidy f → (e, ks) ∈ elemsF f → x ∈ childIds ks → reserved e = false.
Proof.
  intros Ht Hin Hx. destruct (reserved e) eqn:Hr; [|done].
  destruct (tidy_artefact f e ks Ht Hin Hr) as (Hk & _).
  rewrite (childIds_no_elems ks Hk) in Hx. by apply elem_of_nil in Hx.
Qed.

Lemma isHost_elem f x p :
  NoDup (ids f) → isHost f x → p ∈ elemsF f → nid p.1 = x → reserved p.1 = false.
Proof.
  intros Hnd (e & ks & Hl & Hr) Hin Hx.
  pose proof (lookup_NoDup f p Hnd Hin) as Hl'. rewrite Hx, Hl in Hl'.
  by injection Hl' as <-.
Qed.

(** Below an element of the document, a host element is among the host
    elements. *)
Lemma ids_hostIds f ks x :
  NoDup (ids f) → (∀ p, p ∈ elemsF ks → p ∈ elemsF f) → isHost f x →
  x ∈ ids ks ↔ x ∈ hostIds ks.
Proof.
  intros Hnd Hsub Hx. unfold hostIds. rewrite elem_of_ids, list_elem_of_fmap.
  split.
  - intros (p & Hp & Hn). exists p. split; [done|].
    apply elem_of_hostElems. split; [|done].
    eapply isHost_elem; eauto.
  - intros (p & -> & Hp). apply elem_of_hostElems in Hp as [_ Hp]. eauto.
Qed.

Lemma childIds_hostChildIds f ks x :
  NoDup (ids f) → (∀ p, p ∈ elemsF ks → p ∈ elemsF f) → isHost f x →
  x ∈ childIds ks ↔ x ∈ hostChildIds ks.
Proof.
  intros Hnd Hsub Hx. rewrite elem_of_childIds, elem_of_hostChildIds.
  split.
  - intros (e & l & Hin & Hn). exists e, l. repeat split; auto.
    apply (isHost_elem f x (e, l)); auto. by apply Hsub, elem_top_elemsF.
  - intros (e & l & Hin & Hn & _). eauto.
Qed.

Lemma querySelectorAll_elem_of sel f x :
  x ∈ querySelectorAll sel f ↔ ∃ p, p ∈ elemsF f ∧ sel p.1 = true ∧ nid p.1 = x.
Proof.
  unfold querySelectorAll. rewrite list_elem_of_fmap. split.
  - intros (p & -> & Hp). apply list_elem_of_filter in Hp as [? ?]. eauto.
  - intros (p & Hin & Hs & <-). exists p. split; [done|].
    by apply list_elem_of_filter.
Qed.

Lemma querySelectorAll_ids sel f x : x ∈ querySelectorAll sel f → x ∈ ids f.
Proof.
  intros H. apply querySelectorAll_elem_of in H as (p & Hin & _ & <-).
  by apply elem_of_elemsF_ids.
Qed.

Lemma querySelectorAll_NoDup sel f : NoDup (ids f) → NoDup (querySelectorAll sel f).
Proof.
  unfold querySelectorAll, ids. induction (elemsF f) as [|p l IH]; intros Hnd.
  - constructor.
  - rewrite fmap_cons in Hnd. apply NoDup_cons in Hnd as [Hp Hnd].
    rewrite filter_cons. destruct (decide _); [|auto].
    rewrite fmap_cons. apply NoDup_cons. split; [|auto].
    intros Hc. apply Hp. apply list_elem_of_fmap in Hc as (q & Hq & Hin).
    apply list_elem_of_filter in Hin as [_ Hin].
    apply list_elem_of_fmap. eauto.
Qed.

Lemma querySelectorAll_isHost sel f x :
  structural sel → tidy f → NoDup (ids f) →
  x ∈ querySelectorAll sel f → isHost f x.
Proof.
  intros [Hs _] Ht Hnd Hx.
  apply querySelectorAll_elem_of in Hx as ([e ks] & Hin & Hsel & <-).
  exists e, ks. split; [by apply (lookup_NoDup f (e, ks))|].
  destruct (reserved e) eqn:Hr; [|done]. simpl in Hsel.
  rewrite (Hs e ks Hr (tidy_artefact f e ks Ht Hin Hr)) in Hsel. done.
Qed.

Lemma querySelectorAll_host sel f :
  structural sel → tidy f →
  querySelectorAll sel f = qsaV sel (hostView f).
Proof.
  intros [Hs _] Ht. unfold querySelectorAll, qsaV, hostView, hostElems.
  assert (Hall : ∀ p, p ∈ elemsF f → sel p.1 = true → reserved p.1 = false).
  { intros [e ks] Hin Hsel. destruct (reserved e) eqn:Hr; [|done]. simpl in *.
    rewrite (Hs e ks Hr (tidy_artefact f e ks Ht Hin Hr)) in Hsel. done. }
  induction (elemsF f) as [|p l IH]; [done|].
  rewrite !filter_cons.
  destruct (decide (sel p.1 = true)) as [Hp|Hp].
  - rewrite decide_True by (apply Hall; [left|done]).
    rewrite !fmap_cons, filter_cons. simpl. rewrite decide_True by done.
    rewrite fmap_cons. simpl. f_equal. apply IH. intros q Hq. apply Hall. by right.
  - destruct (decide (reserved p.1 = false)).
    + rewrite fmap_cons, filter_cons. simpl. rewrite decide_False by done.
      apply IH. intros q Hq. apply Hall. by right.
    + apply IH. intros q Hq. apply Hall. by right.
Qed.

Lemma qsaV_Forall2 R sel v v' :
  R_nid R → (∀ e e', R e e' → sel e' = sel e) →
  Forall2 (λ a a', R a.1.1 a'.1.1 ∧ a.1.2 = a'.1.2 ∧ a.2 = a'.2) v v' →
  qsaV sel v' = qsaV sel v.
Proof.
  intros Hn Hs H. unfold qsaV. induction H as [|a a' l l' (Ha & _) _ IH]; [done|].
  rewrite !filter_cons, (Hs _ _ Ha).
  destruct (decide (sel a.1.1 = true)); [|done].
  by rewrite !fmap_cons, IH, (Hn _ _ Ha).
Qed.

Lemma sameCore_nid : R_nid sameCore.
Proof. by intros e e' (? & _). Qed.

Lemma sameHidden_nid : R_nid sameHidden.
Proof. by intros e e' ((? & _) & _). Qed.

Lemma sameHost_querySelectorAll R sel f f' :
  R_nid R → (∀ e e', R e e' → sameCore e e') →
  structural sel → tidy f → tidy f' → sameHost R f f' →
  querySelectorAll sel f' = querySelectorAll sel f.
Proof.
  intros Hn HR Hs Ht Ht' [Hv _].
  rewrite !querySelectorAll_host by done.
  apply (qsaV_Forall2 R); auto. intros e e' He. apply Hs. by apply HR.
Qed.

(** ** Selectors that read the host page only *)

Lemma sameCore_attr e e' name :
  sameCore e e' → name ≠ ATTRS.hidden → name ≠ "aria-expanded" →
  attrs e' !! name = attrs e !! name.
Proof. intros (_ & _ & _ & H & _). apply H. Qed.

Lemma sameCore_class e e' c :
  sameCore e e' → c ∉ engineClasses → c ∈ classes e' ↔ c ∈ classes e.
Proof. intros (_ & _ & _ & _ & H). apply H. Qed.

Lemma sameCore_refl e : sameCore e e.
Proof. repeat split; auto. Qed.

Lemma sameCore_trans e1 e2 e3 : sameCore e1 e2 → sameCore e2 e3 → sameCore e1 e3.
Proof.
  intros (A1 & A2 & A3 & A4 & A5) (B1 & B2 & B3 & B4 & B5).
  split; [congruence|]. split; [congruence|]. split; [congruence|]. split.
  - intros name H1 H2. rewrite B4, A4; auto.
  - intros c Hc. rewrite B5, A5; auto.
Qed.

Lemma sameHidden_refl e : sameHidden e e.
Proof. split; [apply sameCore_refl|done]. Qed.

Lemma sameHidden_trans e1 e2 e3 : sameHidden e1 e2 → sameHidden e2 e3 → sameHidden e1 e3.
Proof.
  intros (A & A1 & A2) (B & B1 & B2). split; [by eapply sameCore_trans|].
  split; [tauto|congruence].
Qed.

Lemma sameCore_isToggle e e' : sameCore e e' → isToggle e' = isToggle e.
Proof.
  intros H. pose proof H as (_ & Ht & _). unfold isToggle. rewrite Ht.
  f_equal. f_equal; apply bool_decide_ext; apply (sameCore_class _ _ _ H);
    vm_compute; set_solver.
Qed.

Lemma sameCore_reserved e e' : sameCore e e' → reserved e' = reserved e.
Proof.
  intros H. unfold reserved. rewrite (sameCore_isToggle _ _ H).
  rewrite !(sameCore_attr _ _ "id" H) by done. done.
Qed.

Ltac structural_tac :=
  split;
  [ intros e ks Hr (Hk & Ha & Hp & Hrole & Hid)
  | intros e e' H; pose proof H as (_ & Ht & _) ].

Lemma structural_primary : structural SELECTORS.conversationTurnsPrimary.
Proof.
  structural_tac; unfold SELECTORS.conversationTurnsPrimary.
  - by rewrite bool_decide_eq_false_2.
  - by rewrite Ht, (sameCore_attr _ _ "data-testid" H).
Qed.

Lemma structural_fallback : structural SELECTORS.conversationTurnsFallback.
Proof.
  structural_tac; unfold SELECTORS.conversationTurnsFallback.
  - by rewrite bool_decide_eq_false_2.
  - by rewrite Ht, (sameCore_attr _ _ "data-turn-id" H),
       (sameCore_attr _ _ "data-turn" H).
Qed.

Lemma reserved_id e :
  reserved e = true → (isToggle e = true → attrs e !! "id" = None) →
  attrs e !! "id" ≠ Some "thread".
Proof.
  unfold reserved. intros Hr Hid.
  destruct (isToggle e); [by rewrite Hid|]. simpl in Hr.
  apply orb_true_iff in Hr as [Hr|Hr]; apply bool_decide_eq_true in Hr;
    rewrite Hr; intros [=].
Qed.

Lemma structural_threadRoot : structural SELECTORS.threadRoot.
Proof.
  structural_tac; unfold SELECTORS.threadRoot, byId.
  - apply bool_decide_eq_false_2. by apply reserved_id.
  - by rewrite (sameCore_attr _ _ "id" H).
Qed.

Lemma structural_userRole : structural SELECTORS.userRoleContainer.
Proof.
  structural_tac; unfold SELECTORS.userRoleContainer.
  - by rewrite Hrole, bool_decide_eq_false_2.
  - by rewrite (sameCore_attr _ _ "data-message-author-role" H).
Qed.

Lemma structural_codeBlocks : structural SELECTORS.codeBlocks.
Proof.
  structural_tac; unfold SELECTORS.codeBlocks.
  - by rewrite bool_decide_eq_false_2.
  - by rewrite Ht.
Qed.

(** ** Host elements across documents that show the same host page *)

Section SameHost.
Variable R : edata → edata → Prop.
Hypothesis R_n : R_nid R.
Hypothesis R_core : ∀ e e', R e e' → sameCore e e'.
Variables f f' : forest.
Hypothesis Hsame : sameHost R f f'.
Hypothesis Hnd : NoDup (ids f).
Hypothesis Hnd' : NoDup (ids f').
Hypothesis Ht : tidy f.
Hypothesis Ht' : tidy f'.

Lemma sameHost_isHost x : isHost f x → isHost f' x.
Proof.
  intros (e & ks & Hl & Hr).
  destruct (sameHost_lookup R f f' x e ks R_n Hsame Hnd' Hl Hr)
    as (e' & ks' & Hl' & Hr' & _).
  by exists e', ks'.
Qed.

Lemma sameHost_isHTMLElement x :
  isHost f x → isHTMLElement f' x = isHTMLElement f x.
Proof.
  intros (e & ks & Hl & Hr).
  destruct (sameHost_lookup R f f' x e ks R_n Hsame Hnd' Hl Hr)
    as (e' & ks' & Hl' & Hr' & HR & _).
  unfold isHTMLElement. rewrite Hl, Hl'. simpl.
  by destruct (R_core _ _ HR) as (_ & _ & ? & _).
Qed.

Lemma sameHost_contains a x :
  isHost f a → isHost f x → contains f' a x = contains f a x.
Proof.
  intros Ha Hx. pose proof Ha as (e & ks & Hl & Hr).
  destruct (sameHost_lookup R f f' a e ks R_n Hsame Hnd' Hl Hr)
    as (e' & ks' & Hl' & Hr' & HR & Hids & _).
  unfold contains. rewrite Hl, Hl'. simpl. apply bool_decide_ext.
  rewrite !elem_of_cons, (R_n _ _ HR).
  pose proof (lookup_Some _ _ _ Hl) as [Hin _].
  pose proof (lookup_Some _ _ _ Hl') as [Hin' _].
  rewrite (ids_hostIds f ks x Hnd (elemsF_kids e ks f Hin) Hx).
  rewrite (ids_hostIds f' ks' x Hnd' (elemsF_kids e' ks' f' Hin')
             (sameHost_isHost x Hx)).
  by rewrite Hids.
Qed.

Lemma sameHost_getConversationTurns :
  getConversationTurns f' = getConversationTurns f.
Proof.
  unfold getConversationTurns, querySelector.
  rewrite !(sameHost_querySelectorAll R _ f f' R_n R_core) by
    (auto using structural_primary, structural_fallback, structural_threadRoot).
  set (turns := if decide (length _ = 0%nat) then _ else _).
  assert (Hturns : ∀ x, x ∈ turns → isHost f x).
  { intros x Hx. unfold turns in Hx. destruct (decide _).
    - eapply querySelectorAll_isHost; eauto using structural_fallback.
    - eapply querySelectorAll_isHost; eauto using structural_primary. }
  destruct (head (querySelectorAll SELECTORS.threadRoot f)) as [root|] eqn:Hroot.
  - assert (Hr : isHost f root).
    { eapply querySelectorAll_isHost; eauto using structural_threadRoot.
      apply head_Some in Hroot as [l ->]. left. }
    rewrite (filter_ext_in (λ x, contains f' root x = true)
                           (λ x, contains f root x = true) turns)
      by (intros x Hx; by rewrite sameHost_contains by auto).
    apply filter_ext_in. intros x Hx.
    apply list_elem_of_filter in Hx as [_ Hx].
    by rewrite sameHost_isHTMLElement by auto.
  - apply filter_ext_in. intros x Hx.
    by rewrite sameHost_isHTMLElement by auto.
Qed.

Lemma parentOf_host g x :
  NoDup (ids g) → tidy g → isHost g x →
  parentElement g x =
    (λ a, nid a.1.1) <$> head (filter (λ a, x ∈ a.2) (hostView g)).
Proof.
  intros Hg Htg Hx. unfold parentElement, parentOf, hostView, hostElems.
  assert (Hall : ∀ p, p ∈ elemsF g →
            (x ∈ childIds p.2 → reserved p.1 = false) ∧
            (x ∈ childIds p.2 ↔ x ∈ hostChildIds p.2)).
  { intros [e ks] Hin. simpl. split.
    - intros Hc. eapply tidy_parent_host; eauto.
    - apply (childIds_hostChildIds g); auto. by apply (elemsF_kids e). }
  induction (elemsF g) as [|p l IH]; [done|].
  rewrite !filter_cons.
  destruct (Hall p) as [H1 H2]; [by left|].
  assert (IH' := IH (λ q Hq, Hall q (list_elem_of_further _ _ _ Hq))).
  destruct (decide (x ∈ childIds p.2)) as [Hc|Hc].
  - rewrite decide_True by auto.
    rewrite fmap_cons, filter_cons. simpl. rewrite decide_True by (by apply H2).
    done.
  - destruct (decide (reserved p.1 = false)); [|exact IH'].
    rewrite fmap_cons, filter_cons. simpl.
    rewrite decide_False by (by rewrite <- H2). exact IH'.
Qed.

Lemma sameHost_parentElement x :
  isHost f x → parentElement f' x = parentElement f x.
Proof.
  intros Hx.
  rewrite (parentOf_host f x Hnd Ht Hx).
  rewrite (parentOf_host f' x Hnd' Ht' (sameHost_isHost x Hx)).
  destruct Hsame as [Hv _].
  induction Hv as [|a a' l l' (Ha & _ & Hc) _ IH]; [done|].
  rewrite !filter_cons, <- Hc.
  destruct (decide (x ∈ a.2)); [|exact IH].
  simpl. f_equal. apply R_n, Ha.
Qed.
End SameHost.

(** ** Steps that keep a document tidy *)

Lemma sameHost_refl R f : (∀ e, R e e) → sameHost R f f.
Proof.
  intros HR. split; [|done]. apply Forall2_same_length_lookup. split; [done|].
  intros i a a' H1 H2. rewrite H1 in H2. by injection H2 as <-.
Qed.

Lemma sameHost_trans R f1 f2 f3 :
  (∀ e1 e2 e3, R e1 e2 → R e2 e3 → R e1 e3) →
  sameHost R f1 f2 → sameHost R f2 f3 → sameHost R f1 f3.
Proof.
  intros HR [H1 H1'] [H2 H2']. split; [|congruence].
  revert H2. generalize (hostView f3). induction H1 as [|a b l l' (A1 & A2 & A3) _ IH];
    intros l3 H2.
  - by apply Forall2_nil_inv_l in H2 as ->.
  - apply Forall2_cons_inv_l in H2 as (c & l3' & (B1 & B2 & B3) & H2 & ->).
    constructor; [|by apply IH]. split; [eauto|]. split; congruence.
Qed.

Lemma sameHost_of_eq R f f' :
  (∀ e, R e e) → hostView f' = hostView f → hostChildIds f' = hostChildIds f →
  sameHost R f f'.
Proof.
  intros HR Hv Hc. split; [|done]. rewrite Hv.
  by destruct (sameHost_refl R f HR).
Qed.

Lemma sameHost_weaken (R R' : edata → edata → Prop) f f' :
  (∀ e e', R e e' → R' e e') → sameHost R f f' → sameHost R' f f'.
Proof.
  intros HR [H1 H2]. split; [|done].
  eapply Forall2_impl; [exact H1|]. intros a a' (? & ? & ?). auto.
Qed.

Lemma tidy_top f : tidy f → Forall (λ n, hostNode n = nodeId n) f.
Proof. by intros [_ ?]. Qed.

Lemma hostNode_rewrite gd gk n :
  (∀ e, nid (gd e) = nid e) → (∀ e, reserved (gd e) = reserved e) →
  hostNode (rewrite gd gk n) = hostNode n ∧ nodeId (rewrite gd gk n) = nodeId n.
Proof. intros Hn Hr. destruct n as [s|e ks]; [done|]. simpl. by rewrite Hr, Hn. Qed.

Lemma top_map_rewrite gd gk f :
  (∀ e, nid (gd e) = nid e) → (∀ e, reserved (gd e) = reserved e) →
  Forall (λ n, hostNode n = nodeId n) f →
  Forall (λ n, hostNode n = nodeId n) (map (rewrite gd gk) f).
Proof.
  intros Hn Hr H. apply Forall_fmap. eapply Forall_impl; [exact H|].
  intros n Hh. simpl. destruct (hostNode_rewrite gd gk n Hn Hr) as [-> ->]. done.
Qed.

(** *** Updates *)

Section UpdateStep.
Variable R : edata → edata → Prop.
Variable x : nat.
Variable g : edata → edata.
Hypothesis R_refl : ∀ e, R e e.
Hypothesis R_g : ∀ e, R e (g e).
Hypothesis R_core : ∀ e e', R e e' → sameCore e e'.

Lemma benign_nid e : nid (g e) = nid e.
Proof. by destruct (R_core _ _ (R_g e)) as (? & _). Qed.

Lemma benign_reserved e : reserved (g e) = reserved e.
Proof. apply sameCore_reserved, R_core, R_g. Qed.

Lemma NoDup_update f : NoDup (ids f) → NoDup (ids (update x g f)).
Proof. by rewrite (ids_update x g benign_nid). Qed.

Lemma sameHost_update f : sameHost R f (update x g f).
Proof.
  split.
  - rewrite (hostView_update x g f benign_nid benign_reserved).
    apply Forall2_fmap_r, Forall_Forall2_diag, Forall_forall.
    intros a _. simpl. destruct (decide _); auto.
  - apply hostChildIds_update; [apply benign_nid|apply benign_reserved].
Qed.

Lemma artefact_sameCore e e' ks ks' :
  sameCore e e' → elemsF ks' = [] → artefact e ks → artefact e' ks'.
Proof.
  intros H Hk (_ & A2 & A3 & A4 & A5). pose proof H as (_ & Ht & _).
  split; [done|]. rewrite Ht. split; [done|]. split; [done|].
  rewrite (sameCore_attr _ _ _ H), (sameCore_attr _ _ "id" H) by done.
  split; [done|]. by rewrite (sameCore_isToggle _ _ H).
Qed.

Lemma tidy_update f : tidy f → tidy (update x g f).
Proof.
  intros [Ha Htop]. split.
  - intros e' ks' Hin Hr.
    rewrite (elemsF_update x g) in Hin.
    apply list_elem_of_fmap in Hin as ([e ks] & Heq & Hin).
    rewrite updateP_eq in Heq. simpl in Heq. injection Heq as -> ->.
    assert (Hc : sameCore e (if decide (nid e = x) then g e else e)).
    { destruct (decide _); [apply R_core, R_g|apply sameCore_refl]. }
    rewrite (sameCore_reserved _ _ Hc) in Hr.
    pose proof (Ha e ks Hin Hr) as Hart.
    eapply artefact_sameCore; eauto.
    rewrite (elemsF_update x g). destruct Hart as [-> _]. done.
  - apply top_map_rewrite; auto; intros e; destruct (decide _);
      auto using benign_nid, benign_reserved.
Qed.

Lemma querySelectorAll_update_core sel f :
  (∀ e e', sameCore e e' → sel e' = sel e) →
  querySelectorAll sel (update x g f) = querySelectorAll sel f.
Proof.
  intros Hs. apply (querySelectorAll_update x g benign_nid).
  intros e _. apply Hs, R_core, R_g.
Qed.
End UpdateStep.

(** *** Removing a reserved element *)

Section RemoveStep.
Variable b : nat.
Variable f : forest.
Hypothesis Hnd : NoDup (ids f).
Hypothesis Ht : tidy f.
Hypothesis Hb : ∀ e ks, lookup b f = Some (e, ks) → reserved e = true.

Lemma remove_reserved_all :
  allElems (λ e ks, nid e = b → reserved e = true ∧ elemsF ks = []) f.
Proof.
  intros e ks Hin Hn.
  assert (Hr : reserved e = true).
  { apply (Hb e ks). rewrite <- Hn. by apply (lookup_NoDup f (e, ks)). }
  split; [done|]. by destruct (tidy_artefact f e ks Ht Hin Hr).
Qed.

Lemma remove_reserved_leaf : leaf b f.
Proof. intros e ks Hin Hn. by destruct (remove_reserved_all e ks Hin Hn). Qed.

Lemma NoDup_remove : NoDup (ids (remove b f)).
Proof. rewrite (ids_remove b f remove_reserved_leaf). by apply NoDup_filter. Qed.

Lemma ids_remove_elem x : x ∈ ids (remove b f) ↔ x ∈ ids f ∧ x ≠ b.
Proof.
  rewrite (ids_remove b f remove_reserved_leaf), list_elem_of_filter. tauto.
Qed.

Lemma sameHost_remove R : (∀ e, R e e) → sameHost R f (remove b f).
Proof.
  intros HR. destruct (hostView_remove b f remove_reserved_all) as [H1 H2].
  by apply sameHost_of_eq.
Qed.

Lemma remove_no_elems l : elemsF l = [] → elemsF (remove b l) = [].
Proof.
  intros H. rewrite remove_absent; [done|].
  rewrite (ids_no_elems l H). apply not_elem_of_nil.
Qed.

Lemma tidy_remove : tidy (remove b f).
Proof.
  destruct Ht as [Ha Htop]. split.
  - intros e' ks' Hin Hr.
    apply elemsF_remove_sub in Hin as ([e ks] & Hin & Heq & _).
    rewrite removeP_eq in Heq. simpl in Heq. injection Heq as -> ->.
    destruct (Ha e ks Hin Hr) as (A1 & A2). split; [|done].
    by apply remove_no_elems.
  - unfold remove, rewriteF. apply Forall_forall. intros n Hn.
    apply list_elem_of_filter in Hn as [_ Hn]. revert n Hn.
    apply Forall_forall. by apply top_map_rewrite.
Qed.
End RemoveStep.

(** *** Changing the child list of one element *)

Section AtKidsStep.
Variable h : nat.
Variable K : list node → list node.
Variable f : forest.
Variables (eh : edata) (kh : list node) (extra : list (edata * list node)).
Hypothesis Hnd : NoDup (ids f).
Hypothesis Hl : lookup h f = Some (eh, kh).
Hypothesis HK : elemsF (K kh) ≡ₚ elemsF kh ++ extra.

Lemma elemsF_atKids_elem p' :
  p' ∈ elemsF (atKids h K f) ↔
  (∃ p, p ∈ elemsF f ∧ p' = atKidsP h K p) ∨ p' ∈ extra.
Proof.
  rewrite (elemsF_atKids h K f eh kh extra Hnd Hl HK).
  rewrite elem_of_app, list_elem_of_fmap. split.
  - intros [(p & -> & Hp)|?]; eauto.
  - intros [(p & Hp & ->)|?]; eauto.
Qed.

Lemma ids_atKids : ids (atKids h K f) ≡ₚ ids f ++ ((λ p, nid p.1) <$> extra).
Proof.
  unfold ids. rewrite (elemsF_atKids h K f eh kh extra Hnd Hl HK).
  rewrite fmap_app, <- list_fmap_compose.
  apply Permutation_app; [|done].
  assert (Heq : (λ p, nid p.1) ∘ atKidsP h K <$> elemsF f = (λ p, nid p.1) <$> elemsF f).
  { apply list_fmap_ext. intros _ p _. reflexivity. }
  by rewrite Heq.
Qed.

Lemma ids_atKids_elem x :
  x ∈ ids (atKids h K f) ↔ x ∈ ids f ∨ x ∈ (λ p, nid p.1) <$> extra.
Proof. by rewrite ids_atKids, elem_of_app. Qed.

Lemma NoDup_atKids :
  NoDup ((λ p : edata * list node, nid p.1) <$> extra) →
  (∀ p, p ∈ extra → nid p.1 ∉ ids f) →
  NoDup (ids (atKids h K f)).
Proof.
  intros He Hf. rewrite ids_atKids. apply NoDup_app. split; [done|].
  split; [|done]. intros x Hx Hc.
  apply list_elem_of_fmap in Hc as (p & -> & Hp). by apply (Hf p).
Qed.

Lemma tidy_atKids :
  tidy f →
  (reserved eh = true → elemsF (K kh) = []) →
  (∀ p, p ∈ extra → reserved p.1 = true → artefact p.1 p.2) →
  tidy (atKids h K f).
Proof.
  intros Ht Hres Hex. split.
  - intros e' ks' Hin Hr. apply elemsF_atKids_elem in Hin as [([e ks] & Hin & Heq)|Hin].
    + rewrite atKidsP_eq in Heq. simpl in Heq. injection Heq as -> Hks.
      destruct (tidy_artefact f e ks Ht Hin Hr) as (A1 & A2).
      split; [|done]. subst ks'.
      assert (Hid : atKids h K ks = ks).
      { apply atKids_absent. rewrite (ids_no_elems ks A1). apply not_elem_of_nil. }
      rewrite Hid. destruct (decide (nid e = h)) as [Hh|Hh]; [|done].
      destruct (lookup_unique f h eh kh Hnd Hl e ks Hin Hh) as [-> ->]. auto.
    + by apply (Hex (e', ks')).
  - rewrite atKids_map. apply top_map_rewrite; auto. by apply tidy_top.
Qed.

Lemma sameHost_atKids R :
  (∀ e, R e e) →
  hostView (K kh) = hostView kh → hostChildIds (K kh) = hostChildIds kh →
  sameHost R f (atKids h K f).
Proof.
  intros HR H1 H2. destruct (hostView_atKids h K f Hnd) as [A B].
  { intros eh' kh' Hl'. rewrite Hl in Hl'. by injection Hl' as <- <-. }
  by apply sameHost_of_eq.
Qed.

(** The element [h] itself afterwards. *)
Lemma lookup_atKids_here :
  lookup h (K kh) = None → lookup h (atKids h K f) = Some (eh, K kh).
Proof.
  intros Hn. rewrite (lookup_atKids h K h f Hnd).
  - rewrite Hl. simpl. f_equal. by apply (atKidsP_here h K f).
  - intros eh' kh' Hl'. rewrite Hl in Hl'. injection Hl' as <- <-.
    rewrite Hn. symmetry. apply lookup_None.
    apply lookup_Some in Hl as [Hin Hh]. simpl in Hh.
    destruct (NoDup_ids_kids f eh kh Hnd Hin) as [_ Hni]. by rewrite <- Hh.
Qed.

(** An element that the change brings in. *)
Lemma lookup_atKids_new y :
  y ∉ ids f → lookup y (atKids h K f) = lookup y (K kh).
Proof.
  intros Hy. clear HK. revert Hnd Hl Hy.
  induction f as [|s f0 IH|e ks f0 IHk IHf] using forest_ind; intros Hnd' Hl' Hy.
  - done.
  - rewrite atKids_cons_text, lookup_cons_text. apply IH; auto.
  - apply NoDup_ids_cons_elem in Hnd' as (H1 & H2 & H3 & H4 & H5).
    rewrite ids_cons_elem in Hy.
    apply not_elem_of_cons in Hy as [Hy1 Hy2].
    apply not_elem_of_app in Hy2 as [Hy2 Hy3].
    rewrite atKids_cons_elem, lookup_cons_elem, decide_False by done.
    rewrite lookup_cons_elem in Hl'.
    destruct (decide (nid e = h)) as [Hh|Hh].
    + injection Hl' as -> ->. rewrite Hh in H1, H2.
      rewrite !atKids_absent by done.
      destruct (lookup y (K kh)); [done|]. by apply lookup_None.
    + destruct (lookup h ks) as [p|] eqn:Hk.
      * rewrite (IHk H3 Hl' Hy2).
        destruct (lookup y (K kh)); [done|].
        rewrite atKids_absent; [by apply lookup_None|].
        apply H5. apply lookup_is_Some. eauto.
      * rewrite (atKids_absent h K ks) by (by apply lookup_None).
        rewrite (proj2 (lookup_None y ks) Hy2). by apply IHf.
Qed.
End AtKidsStep.

(** *** Instances *)

Lemma elemsF_insertAt ref new l :
  elemsF (insertAt ref new l) ≡ₚ
    elemsF l ++ (if bool_decide (ref ∈ childIds l) then elems new else []).
Proof.
  induction l as [|n l IH]; [done|].
  cbn [insertAt]. destruct n as [s|e ks].
  - rewrite isNode_text, !elemsF_cons_text, childIds_cons_text. exact IH.
  - rewrite isNode_elem, childIds_cons_elem.
    destruct (decide (nid e = ref)) as [He|He].
    + rewrite bool_decide_eq_true_2 by done.
      rewrite (bool_decide_eq_true_2 (ref ∈ _)) by (rewrite He; left).
      change (elemsF (new :: Elem e ks :: l)) with (elems new ++ elemsF (Elem e ks :: l)).
      apply Permutation_app_comm.
    + rewrite bool_decide_eq_false_2 by done.
      rewrite !elemsF_cons_elem.
      rewrite (bool_decide_ext (ref ∈ nid e :: childIds l) (ref ∈ childIds l)).
      * rewrite IH. simpl. apply Permutation_skip. by rewrite (assoc (++)).
      * rewrite elem_of_cons. split; [intros [?|?]; [congruence|done]|auto].
Qed.

Lemma lookup_insertAt_other y ref e ks l :
  y ≠ nid e → elemsF ks = [] →
  lookup y (insertAt ref (Elem e ks) l) = lookup y l.
Proof.
  intros Hy Hk. induction l as [|n l IH]; [done|].
  cbn [insertAt]. destruct (isNode ref n).
  - rewrite lookup_cons_elem, decide_False by done.
    rewrite (proj2 (lookup_None y ks)); [done|].
    rewrite (ids_no_elems ks Hk). apply not_elem_of_nil.
  - destruct n as [s|e0 ks0].
    + by rewrite !lookup_cons_text.
    + rewrite !lookup_cons_elem. destruct (decide _); [done|]. by rewrite IH.
Qed.

Lemma lookup_insertAt_new ref e ks l :
  ref ∈ childIds l → nid e ∉ ids l →
  lookup (nid e) (insertAt ref (Elem e ks) l) = Some (e, ks).
Proof.
  induction l as [|n l IH]; intros Hr Hn; [by apply elem_of_nil in Hr|].
  cbn [insertAt]. destruct n as [s|e0 ks0].
  - rewrite isNode_text, lookup_cons_text. apply IH; [done|].
    by rewrite ids_cons_text in Hn.
  - rewrite isNode_elem. rewrite childIds_cons_elem in Hr.
    rewrite ids_cons_elem in Hn.
    apply not_elem_of_cons in Hn as [Hn1 Hn2].
    apply not_elem_of_app in Hn2 as [Hn2 Hn3].
    destruct (decide (nid e0 = ref)) as [He|He].
    + rewrite bool_decide_eq_true_2 by done.
      by rewrite lookup_cons_elem, decide_True.
    + rewrite bool_decide_eq_false_2 by done.
      rewrite lookup_cons_elem, decide_False by done.
      rewrite (proj2 (lookup_None (nid e) ks0) Hn2). apply IH; [|done].
      apply elem_of_cons in Hr as [?|?]; [congruence|done].
Qed.

Lemma querySelectorAll_insertAt sel ref e ks l :
  sel e = false → elemsF ks = [] →
  querySelectorAll sel (insertAt ref (Elem e ks) l) = querySelectorAll sel l.
Proof.
  intros Hs Hk. induction l as [|n l IH]; [done|].
  cbn [insertAt]. destruct (isNode ref n).
  - rewrite querySelectorAll_cons_elem, Hs. unfold querySelectorAll at 1.
    by rewrite Hk.
  - destruct n as [s|e0 ks0].
    + by rewrite !querySelectorAll_cons_text.
    + by rewrite !querySelectorAll_cons_elem, IH.
Qed.

(** ** Steps of the script *)

Lemma sameHost_flip R f f' :
  sameHost R f f' → sameHost (λ e e', R e' e) f' f.
Proof.
  intros [H1 H2]. split; [|done]. apply Forall2_flip.
  eapply Forall2_impl; [exact H1|]. intros a a' (? & ? & ?). auto.
Qed.

Lemma sameHost_isHost_inv R f f' x :
  R_nid R → sameHost R f f' → NoDup (ids f) → isHost f' x → isHost f x.
Proof.
  intros Hn Hs Hnd. apply (sameHost_isHost (λ e e', R e' e)); [|by apply sameHost_flip|done].
  intros e e' H. symmetry. by apply Hn.
Qed.

Lemma isHost_ids f x : isHost f x → x ∈ ids f.
Proof. intros (e & ks & Hl & _). apply lookup_is_Some. eauto. Qed.

Section Steps.
Variable R : edata → edata → Prop.
Hypothesis R_refl : ∀ e, R e e.
Hypothesis R_trans : ∀ e1 e2 e3, R e1 e2 → R e2 e3 → R e1 e3.
Hypothesis R_core : ∀ e e', R e e' → sameCore e e'.

Lemma R_n : R_nid R.
Proof. intros e e' H. by destruct (R_core _ _ H) as (? & _). Qed.

Lemma step_refl s : Good s → step R s s.
Proof.
  intros H. split; [done|]. split; [by apply sameHost_refl|]. done.
Qed.

Lemma step_trans s1 s2 s3 : step R s1 s2 → step R s2 s3 → step R s1 s3.
Proof.
  intros (A1 & A2 & A3 & A4 & A5) (B1 & B2 & B3 & B4 & B5).
  split; [done|]. split; [by eapply sameHost_trans|].
  split; [lia|]. split; congruence.
Qed.

Lemma step_isHost s s' x :
  Good s → step R s s' → isHost (document s) x → isHost (document s') x.
Proof.
  intros [[Hnd _] Ht] ([[Hnd' _] Ht'] & Hs & _).
  by apply (sameHost_isHost R R_n _ _ Hs Hnd').
Qed.

Lemma step_notHost s s' x :
  Good s → step R s s' → ¬ isHost (document s) x → ¬ isHost (document s') x.
Proof.
  intros [[Hnd _] Ht] (_ & Hs & _) Hx Hc. apply Hx.
  by apply (sameHost_isHost_inv R _ _ x R_n Hs).
Qed.

Lemma step_getConversationTurns s s' :
  Good s → step R s s' →
  getConversationTurns (document s') = getConversationTurns (document s).
Proof.
  intros [[Hnd _] Ht] ([[Hnd' _] Ht'] & Hs & _).
  by apply (sameHost_getConversationTurns R R_n R_core _ _ Hs).
Qed.

Lemma step_parentElement s s' x :
  Good s → step R s s' → isHost (document s) x →
  parentElement (document s') x = parentElement (document s) x.
Proof.
  intros [[Hnd _] Ht] ([[Hnd' _] Ht'] & Hs & _).
  by apply (sameHost_parentElement R R_n _ _ Hs).
Qed.

Lemma step_lookup s s' x e ks :
  Good s → step R s s' → lookup x (document s) = Some (e, ks) →
  reserved e = false →
  ∃ e' ks', lookup x (document s') = Some (e', ks') ∧ reserved e' = false
            ∧ R e e'.
Proof.
  intros [[Hnd _] Ht] ([[Hnd' _] Ht'] & Hs & _) Hl Hr.
  destruct (sameHost_lookup R _ _ x e ks R_n Hs Hnd' Hl Hr)
    as (e' & ks' & ? & ? & ? & _).
  eauto.
Qed.

(** Changing data. *)
Lemma step_update x g s :
  Good s → (∀ e, R e (g e)) →
  step R s (setDocument (update x g (document s)) s).
Proof.
  intros [[Hnd Hb] Ht] Hg.
  assert (Hn : ∀ e, nid (g e) = nid e) by (intros e; apply R_n, Hg).
  split; [split; [split|]|]; simpl.
  - by apply (NoDup_update R x g Hg R_core).
  - intros y. rewrite (ids_update x g Hn). apply Hb.
  - by apply (tidy_update R x g Hg R_core).
  - split; [by apply sameHost_update|]. split; [done|]. split; [done|].
    apply (querySelectorAll_update_core R x g Hg R_core).
    intros e e' H. unfold byId. by rewrite (sameCore_attr _ _ "id" H).
Qed.

(** Removing an element that is not the host page's. *)
Lemma forest_remove_step b f :
  NoDup (ids f) → tidy f → ¬ isHost f b →
  NoDup (ids (remove b f)) ∧ tidy (remove b f) ∧ sameHost R f (remove b f)
  ∧ (∀ x, x ∈ ids (remove b f) ↔ x ∈ ids f ∧ x ≠ b)
  ∧ (∀ sel, querySelectorAll sel (remove b f)
            = filter (λ x, x ≠ b) (querySelectorAll sel f)).
Proof.
  intros Hnd Ht Hb.
  assert (Hres : ∀ e ks, lookup b f = Some (e, ks) → reserved e = true).
  { intros e ks Hl. destruct (reserved e) eqn:Hr; [done|].
    exfalso. apply Hb. by exists e, ks. }
  split; [by apply NoDup_remove|]. split; [by apply tidy_remove|].
  split; [by apply sameHost_remove|]. split; [by apply ids_remove_elem|].
  intros sel. apply querySelectorAll_remove. by apply remove_reserved_leaf.
Qed.

(** Retexting an element that is not the host page's. *)
Lemma forest_text_step b t f :
  NoDup (ids f) → tidy f → ¬ isHost f b →
  NoDup (ids (set_textContent b t f)) ∧ tidy (set_textContent b t f)
  ∧ sameHost R f (set_textContent b t f)
  ∧ (∀ x, x ∈ ids (set_textContent b t f) ↔ x ∈ ids f)
  ∧ (∀ sel, querySelectorAll sel (set_textContent b t f)
            = querySelectorAll sel f).
Proof.
  intros Hnd Ht Hb. unfold set_textContent.
  destruct (lookup b f) as [[e ks]|] eqn:Hl.
  - assert (Hr : reserved e = true).
    { destruct (reserved e) eqn:Hr; [done|]. exfalso. apply Hb. by exists e, ks. }
    pose proof (lookup_Some _ _ _ Hl) as [Hin _].
    destruct (tidy_artefact f e ks Ht Hin Hr) as (Hk & _).
    assert (HK : elemsF (textNodes t) ≡ₚ elemsF ks ++ []).
    { by rewrite elemsF_textNodes, Hk. }
    split; [|split; [|split; [|split]]].
    + apply (NoDup_atKids b _ f e ks [] Hnd Hl HK); [constructor|].
      intros p Hp. by apply elem_of_nil in Hp.
    + apply (tidy_atKids b _ f e ks [] Hnd Hl HK Ht).
      * intros _. apply elemsF_textNodes.
      * intros p Hp. by apply elem_of_nil in Hp.
    + apply (sameHost_atKids b _ f e ks Hnd Hl R R_refl).
      * by rewrite (hostView_no_elems _ (elemsF_textNodes t)), (hostView_no_elems ks Hk).
      * by rewrite (hostChildIds_no_elems _ (elemsF_textNodes t)),
                   (hostChildIds_no_elems ks Hk).
    + intros x. rewrite (ids_atKids_elem b _ f e ks [] Hnd Hl HK).
      rewrite fmap_nil, elem_of_nil. tauto.
    + intros sel. apply querySelectorAll_atKids; [done|].
      intros eh kh Hl'. rewrite Hl in Hl'. injection Hl' as <- <-.
      unfold querySelectorAll. by rewrite elemsF_textNodes, Hk.
  - rewrite atKids_absent by (by apply lookup_None).
    split; [done|]. split; [done|]. split; [by apply sameHost_refl|]. done.
Qed.

(** Putting a new reserved element before a child of a host element. *)
Lemma forest_place_step host ref e ks f :
  NoDup (ids f) → tidy f →
  parentElement f ref = Some host →
  reserved e = true → artefact e ks → nid e ∉ ids f →
  NoDup (ids (place host ref (Elem e ks) f))
  ∧ tidy (place host ref (Elem e ks) f)
  ∧ sameHost R f (place host ref (Elem e ks) f)
  ∧ (∀ x, x ∈ ids (place host ref (Elem e ks) f) ↔ x ∈ ids f ∨ x = nid e)
  ∧ lookup (nid e) (place host ref (Elem e ks) f) = Some (e, ks)
  ∧ (∀ sel, sel e = false →
       querySelectorAll sel (place host ref (Elem e ks) f)
       = querySelectorAll sel f)
  ∧ (∀ sel x, x ∈ querySelectorAll sel (place host ref (Elem e ks) f) ↔
              x ∈ querySelectorAll sel f ∨ (x = nid e ∧ sel e = true)).
Proof.
  intros Hnd Ht Hp Hr Ha Hfresh. unfold place.
  pose proof Ha as (Hks & _).
  unfold parentElement, parentOf in Hp.
  destruct (head _) as [[eh kh]|] eqn:Hh; [|done]. simpl in Hp.
  injection Hp as Hhost.
  apply head_Some in Hh as [rest Hh].
  assert (Hin : (eh, kh) ∈ filter (λ p, ref ∈ childIds p.2) (elemsF f))
    by (rewrite Hh; left).
  apply list_elem_of_filter in Hin as [Hc Hin]. simpl in Hc.
  assert (Hl : lookup host f = Some (eh, kh)).
  { rewrite <- Hhost. by apply (lookup_NoDup f (eh, kh)). }
  assert (Hreh : reserved eh = false) by (by eapply tidy_parent_host).
  assert (HK : elemsF (insertAt ref (Elem e ks) kh) ≡ₚ elemsF kh ++ [(e, ks)]).
  { rewrite elemsF_insertAt, bool_decide_eq_true_2 by done.
    change (elems (Elem e ks)) with ((e, ks) :: elemsF ks). by rewrite Hks. }
  split; [|split; [|split; [|split; [|split; [|split]]]]].
  - apply (NoDup_atKids host _ f eh kh _ Hnd Hl HK).
    + apply NoDup_singleton.
    + intros p Hp. apply list_elem_of_singleton in Hp as ->. done.
  - apply (tidy_atKids host _ f eh kh _ Hnd Hl HK Ht).
    + by rewrite Hreh.
    + intros p Hp _. apply list_elem_of_singleton in Hp as ->. done.
  - apply (sameHost_atKids host _ f eh kh Hnd Hl R R_refl);
      by apply hostView_insertAt.
  - intros x. rewrite (ids_atKids_elem host _ f eh kh _ Hnd Hl HK).
    simpl. rewrite list_elem_of_singleton. tauto.
  - rewrite (lookup_atKids_new host _ f eh kh Hnd Hl) by done.
    apply lookup_insertAt_new; [done|].
    intros Hc'. apply Hfresh. eapply ids_kids; eauto.
  - intros sel Hsel. apply querySelectorAll_atKids; [done|].
    intros eh' kh' Hl'. by apply querySelectorAll_insertAt.
  - intros sel x. rewrite !querySelectorAll_elem_of.
    setoid_rewrite (elemsF_atKids_elem host _ f eh kh _ Hnd Hl HK).
    setoid_rewrite list_elem_of_singleton. split.
    + intros (p' & [(p & Hp & ->)| ->] & Hs & Hn).
      * left. exists p. split; [done|]. split; [exact Hs|exact Hn].
      * right. auto.
    + intros [(p & Hp & Hs & Hn)|[-> Hs]].
      * exists (atKidsP host (insertAt ref (Elem e ks)) p).
        split; [left; by exists p|]. split; [exact Hs|exact Hn].
      * exists (e, ks). auto.
Qed.

(** [insertBefore] of a reserved element, new or already in the
    document, before a host element: no exception, and a step. *)
Lemma forest_insertBefore_step host ref e ks f :
  NoDup (ids f) → tidy f →
  parentElement f ref = Some host → isHost f ref →
  reserved e = true → artefact e ks →
  nid e ∉ ids f ∨ lookup (nid e) f = Some (e, ks) →
  ∃ f', insertBefore host (e, ks) ref f = Done f'
    ∧ NoDup (ids f') ∧ tidy f' ∧ sameHost R f f'
    ∧ (∀ x, x ∈ ids f' ↔ x ∈ ids f ∨ x = nid e)
    ∧ lookup (nid e) f' = Some (e, ks)
    ∧ (∀ sel, sel e = false → querySelectorAll sel f' = querySelectorAll sel f)
    ∧ (∀ sel x, x ∈ querySelectorAll sel f' →
                x ∈ querySelectorAll sel f ∨ (x = nid e ∧ sel e = true)).
Proof.
  intros Hnd Ht Hp Href Hr Ha Hwhere.
  pose proof Ha as (Hks & _).
  assert (Hnot : ¬ isHost f (nid e)).
  { intros (e0 & ks0 & Hl0 & Hr0). destruct Hwhere as [Hw|Hw].
    - apply Hw. apply lookup_is_Some. eauto.
    - rewrite Hw in Hl0. injection Hl0 as <- <-. congruence. }
  assert (Hhost : isHost f host).
  { unfold parentElement, parentOf in Hp.
    destruct (head _) as [[eh kh]|] eqn:Hh; [|done]. simpl in Hp.
    injection Hp as Hhost.
    apply head_Some in Hh as [rest Hh].
    assert (Hin : (eh, kh) ∈ filter (λ p, ref ∈ childIds p.2) (elemsF f))
      by (rewrite Hh; left).
    apply list_elem_of_filter in Hin as [Hc Hin]. simpl in Hc.
    exists eh, kh. split.
    - rewrite <- Hhost. by apply (lookup_NoDup f (eh, kh)).
    - by eapply tidy_parent_host. }
  unfold insertBefore. cbn [fst snd].
  rewrite (ids_no_elems ks Hks).
  rewrite bool_decide_eq_false_2.
  2:{ rewrite list_elem_of_singleton. intros ->. by apply Hnot. }
  rewrite bool_decide_eq_true_2 by done. cbn [negb].
  rewrite decide_False by (intros Heq; apply Hnot; by rewrite Heq).
  destruct (forest_remove_step (nid e) f Hnd Ht Hnot)
    as (Hnd1 & Ht1 & Hs1 & Hids1 & Hq1).
  assert (Hp1 : parentElement (remove (nid e) f) ref = Some host).
  { rewrite <- Hp. by apply (sameHost_parentElement R R_n _ _ Hs1). }
  assert (Hfresh : nid e ∉ ids (remove (nid e) f)).
  { rewrite Hids1. tauto. }
  destruct (forest_place_step host ref e ks _ Hnd1 Ht1 Hp1 Hr Ha Hfresh)
    as (Hnd2 & Ht2 & Hs2 & Hids2 & Hl2 & Hq2 & Hq3).
  eexists. split; [reflexivity|].
  split; [done|]. split; [done|].
  split; [by eapply sameHost_trans|].
  split; [|split; [done|split]].
  - intros x. rewrite Hids2, Hids1.
    destruct (decide (x = nid e)); tauto.
  - intros sel Hsel. rewrite (Hq2 sel Hsel), Hq1.
    apply filter_all. intros x Hx ->.
    apply querySelectorAll_elem_of in Hx as (p & Hin & Hsp & Hn).
    destruct Hwhere as [Hw|Hw].
    + apply Hw. rewrite <- Hn. by apply elem_of_elemsF_ids.
    + pose proof (lookup_NoDup f p Hnd Hin) as Hlp. rewrite Hn, Hw in Hlp.
      injection Hlp as <-. simpl in Hsp. congruence.
  - intros sel x Hx. apply Hq3 in Hx as [Hx|Hx]; [left|by right].
    rewrite Hq1 in Hx. by apply list_elem_of_filter in Hx as [_ ?].
Qed.
End Steps.

(** ** Running the script *)

Section Runs.
Context {A B : Type}.

Lemma runs_ret (a : A) s (Q : A → State → Prop) : Q a s → runs (ret a) s Q.
Proof. intros H. by exists a, s. Qed.

Lemma runs_bind (m : M A) (k : A → M B) s (Q : B → State → Prop) :
  runs m s (λ a s', runs (k a) s' Q) → runs (bind m k) s Q.
Proof.
  intros (a & s' & Hm & b & s'' & Hk & HQ). exists b, s''. split; [|done].
  unfold bind. by rewrite Hm.
Qed.

Lemma runs_impl (m : M A) s (Q Q' : A → State → Prop) :
  runs m s Q → (∀ a s', Q a s' → Q' a s') → runs m s Q'.
Proof. intros (a & s' & Hm & HQ) H. exists a, s'. auto. Qed.
End Runs.

Lemma runs_getDocument s (Q : forest → State → Prop) :
  Q (document s) s → runs getDocument s Q.
Proof. intros H. by exists (document s), s. Qed.

Lemma runs_getMessages s (Q : gmap string bool → State → Prop) :
  Q (messages s) s → runs getMessages s Q.
Proof. intros H. by exists (messages s), s. Qed.

Lemma runs_getCodeBlocks s (Q : gmap string bool → State → Prop) :
  Q (codeBlocks s) s → runs getCodeBlocks s Q.
Proof. intros H. by exists (codeBlocks s), s. Qed.

Lemma runs_dom g s (Q : unit → State → Prop) :
  Q tt (setDocument (g (document s)) s) → runs (dom g) s Q.
Proof. intros H. by eexists _, _. Qed.

Lemma runs_domTree g s (Q : unit → State → Prop) :
  Q tt (written (setDocument (g (document s)) s)) → runs (domTree g) s Q.
Proof. intros H. by eexists _, _. Qed.

Lemma runs_domTry g s f' (Q : unit → State → Prop) :
  g (document s) = Done f' → Q tt (written (setDocument f' s)) →
  runs (domTry g) s Q.
Proof.
  intros Hg H. exists tt, (written (setDocument f' s)). unfold domTry.
  by rewrite Hg.
Qed.

Lemma Good_written s : Good s → Good (written s).
Proof. by intros [[? ?] ?]. Qed.

Lemma step_written R s s' : step R s s' → step R s (written s').
Proof.
  intros (Hg & Hs & Hn & Hst & Hq).
  split; [by apply Good_written|]. split; [done|].
  split; [cbn [written nextId treeWrites]; lia|]. by split.
Qed.

Lemma hostStep_written R s s' : hostStep R s s' → hostStep R s (written s').
Proof.
  intros (Hg & Hs & Hn & Hst).
  split; [by apply Good_written|]. split; [done|].
  split; [cbn [written nextId treeWrites]; lia|]. done.
Qed.

Lemma runs_forEach {A} (I : State → Prop) (l : list A) (body : A → M unit) s :
  I s →
  (∀ a s, a ∈ l → I s → runs (body a) s (λ _ s', I s')) →
  runs (forEach l body) s (λ _ s', I s').
Proof.
  revert s. induction l as [|a l IH]; intros s Hs Hbody.
  - by apply runs_ret.
  - simpl. apply runs_bind. eapply runs_impl; [apply Hbody; [left|done]|].
    intros [] s' Hs'. apply IH; [done|]. intros b s0 Hb. apply Hbody. by right.
Qed.

Lemma runs_forIndex {A} (I : nat → State → Prop) (l : list A)
    (body : nat → A → M unit) start s :
  I 0%nat s →
  (∀ i a s, l !! i = Some a → I i s →
            runs (body (start + i)%nat a) s (λ _ s', I (S i) s')) →
  runs (forIndex start l body) s (λ _ s', I (length l) s').
Proof.
  revert I start s. induction l as [|a l IH]; intros I start s Hs Hbody.
  - by apply runs_ret.
  - simpl. apply runs_bind.
    pose proof (Hbody 0%nat a s eq_refl Hs) as H0.
    rewrite Nat.add_0_r in H0.
    apply (runs_impl _ _ _ _ H0). intros [] s' Hs'.
    apply (IH (λ i, I (S i)) (S start) s' Hs').
    intros i b s0 Hb Hi. specialize (Hbody (S i) b s0 Hb Hi).
    by rewrite Nat.add_succ_r in Hbody.
Qed.

(** ** Data changes that the host page does not see *)

Lemma sameCore_withClasses h e :
  (∀ cs c, c ∉ engineClasses → c ∈ h cs ↔ c ∈ cs) → sameCore e (withClasses h e).
Proof.
  intros Hh. split; [done|]. split; [done|]. split; [done|]. split; [done|].
  intros c Hc. simpl. by apply Hh.
Qed.

Lemma toggle_other (c c' : string) (force : bool) (cs : gset string) :
  c' ≠ c →
  c' ∈ (if force then ({[c]} ∪ cs : gset string) else cs ∖ {[c]}) ↔ c' ∈ cs.
Proof.
  intros Hc. destruct force.
  - rewrite elem_of_union, elem_of_singleton. tauto.
  - rewrite elem_of_difference, elem_of_singleton. tauto.
Qed.

Lemma sameCore_toggle (c : string) (force : bool) (e : edata) :
  c ∈ engineClasses →
  sameCore e (withClasses (λ cs : gset string, if force then {[c]} ∪ cs else cs ∖ {[c]}) e).
Proof.
  intros Hc. apply sameCore_withClasses. intros cs c' Hc'.
  apply toggle_other. intros ->. done.
Qed.

Lemma sameHidden_toggle (c : string) (force : bool) (e : edata) :
  c ∈ engineClasses → c ≠ CLASSES.hiddenTurn →
  sameHidden e (withClasses (λ cs : gset string, if force then {[c]} ∪ cs else cs ∖ {[c]}) e).
Proof.
  intros Hc Hh. split; [by apply sameCore_toggle|]. split; [|done].
  simpl. apply toggle_other. congruence.
Qed.

Lemma sameCore_withAttrs h e :
  (∀ m name, name ≠ ATTRS.hidden → name ≠ "aria-expanded" → h m !! name = m !! name) →
  sameCore e (withAttrs h e).
Proof.
  intros Hh. split; [done|]. split; [done|]. split; [done|]. split; [|done].
  intros name H1 H2. simpl. by apply Hh.
Qed.

Lemma sameHidden_aria v e :
  sameHidden e (withAttrs (insert "aria-expanded" v) e).
Proof.
  split; [|split; [done|]].
  - apply sameCore_withAttrs. intros m name _ Hn. by rewrite lookup_insert_ne.
  - simpl. by rewrite lookup_insert_ne.
Qed.

Lemma sameCore_hidden_set v e : sameCore e (withAttrs (insert ATTRS.hidden v) e).
Proof.
  apply sameCore_withAttrs. intros m name Hn _. by rewrite lookup_insert_ne.
Qed.

Lemma sameCore_hidden_del e : sameCore e (withAttrs (delete ATTRS.hidden) e).
Proof.
  apply sameCore_withAttrs. intros m name Hn _. by rewrite lookup_delete_ne.
Qed.

Lemma engine_collapsedUser : CLASSES.collapsedUserMessage ∈ engineClasses.
Proof. vm_compute. set_solver. Qed.
Lemma engine_collapsedCode : CLASSES.collapsedCodeBlock ∈ engineClasses.
Proof. vm_compute. set_solver. Qed.
Lemma engine_minimalUi : CLASSES.minimalUi ∈ engineClasses.
Proof. vm_compute. set_solver. Qed.
Lemma engine_hiddenTurn : CLASSES.hiddenTurn ∈ engineClasses.
Proof. vm_compute. set_solver. Qed.

(** ** Steps at the level of states *)

Section StateSteps.
Variable R : edata → edata → Prop.
Hypothesis R_refl : ∀ e, R e e.
Hypothesis R_trans : ∀ e1 e2 e3, R e1 e2 → R e2 e3 → R e1 e3.
Hypothesis R_core : ∀ e e', R e e' → sameCore e e'.

Lemma step_doc s f' :
  Good s → NoDup (ids f') → tidy f' → sameHost R (document s) f' →
  (∀ x, x ∈ ids f' → x ∈ ids (document s)) →
  querySelectorAll (byId IDS.banner) f'
    = querySelectorAll (byId IDS.banner) (document s) →
  step R s (setDocument f' s).
Proof.
  intros [[Hnd Hb] Ht] Hnd' Ht' Hs Hids Hq.
  split; [split; [split|]|]; simpl; auto.
Qed.

Lemma step_remove b s :
  Good s → ¬ isHost (document s) b →
  sameHost R (document s) (remove b (document s)) ∧
  Good (setDocument (remove b (document s)) s).
Proof.
  intros [[Hnd Hb] Ht] Hn.
  destruct (forest_remove_step R R_refl b _ Hnd Ht Hn)
    as (H1 & H2 & H3 & H4 & H5).
  split; [done|]. split; [split|]; simpl; auto.
  intros x Hx. apply Hb. by apply H4 in Hx as [? _].
Qed.

Lemma step_text b t s :
  Good s → ¬ isHost (document s) b →
  step R s (written (setDocument (set_textContent b t (document s)) s)).
Proof.
  intros Hg Hn. pose proof Hg as [[Hnd Hb] Ht].
  destruct (forest_text_step R R_refl b t _ Hnd Ht Hn)
    as (H1 & H2 & H3 & H4 & H5).
  apply step_written, step_doc; auto. intros x. by rewrite H4.
Qed.
End StateSteps.

(** ** The collapse toggles keep the host page as it is *)

Lemma sameHidden_core e e' : sameHidden e e' → sameCore e e'.
Proof. by intros [? _]. Qed.

(** Two string constants differ. *)
Ltac str_ne := let H := fresh in intros H; vm_compute in H; discriminate H.

Lemma stepH_refl s : Good s → stepH s s.
Proof. apply step_refl. apply sameHidden_refl. Qed.

Lemma stepH_trans s1 s2 s3 : stepH s1 s2 → stepH s2 s3 → stepH s1 s3.
Proof. apply step_trans. apply sameHidden_trans. Qed.

Lemma step_Good R s s' : step R s s' → Good s'.
Proof. by intros [? _]. Qed.

Lemma stepH_update x g s :
  Good s → (∀ e, sameHidden e (g e)) →
  stepH s (setDocument (update x g (document s)) s).
Proof.
  intros Hg Hgg.
  apply step_update; auto using sameHidden_refl, sameHidden_core.
Qed.

Lemma stepH_text b t s :
  Good s → ¬ isHost (document s) b →
  stepH s (written (setDocument (set_textContent b t (document s)) s)).
Proof.
  intros. apply step_text; auto using sameHidden_refl, sameHidden_core.
Qed.

Lemma stepH_notHost s s' x :
  Good s → stepH s s' → ¬ isHost (document s) x → ¬ isHost (document s') x.
Proof. apply step_notHost. apply sameHidden_core. Qed.

Lemma stepH_isHost s s' x :
  Good s → stepH s s' → isHost (document s) x → isHost (document s') x.
Proof. apply step_isHost. apply sameHidden_core. Qed.

(** A state that differs in the map fields or the allocation counter
    only. *)
Lemma stepH_fields s n m c :
  Good s → (nextId s ≤ n)%nat →
  stepH s (mkState (document s) n m c (storage s) (treeWrites s)).
Proof.
  intros [[Hnd Hb] Ht] Hn. split; [split; [split|]|]; simpl; auto.
  - intros x Hx. specialize (Hb x Hx). lia.
  - split; [apply sameHost_refl, sameHidden_refl|]. done.
Qed.

Lemma not_isHost_reserved f p :
  NoDup (ids f) → p ∈ elemsF f → reserved p.1 = true → ¬ isHost f (nid p.1).
Proof.
  intros Hnd Hin Hr (e & ks & Hl & Hre).
  rewrite (lookup_NoDup f p Hnd Hin) in Hl. injection Hl as ->. simpl in Hr.
  congruence.
Qed.

Lemma not_isHost_fresh f x : x ∉ ids f → ¬ isHost f x.
Proof. intros Hx Hh. by apply Hx, isHost_ids. Qed.

Lemma setMessageCollapsed_runs m b v s :
  Good s → ¬ isHost (document s) b →
  runs (setMessageCollapsed m b v) s (λ _ s', stepH s s').
Proof.
  intros Hg Hb. unfold setMessageCollapsed.
  apply runs_bind, runs_dom, runs_bind, runs_dom, runs_domTree.
  set (s1 := setDocument _ s).
  assert (H1 : stepH s s1).
  { apply stepH_update; [done|]. intros e.
    apply sameHidden_toggle; [apply engine_collapsedUser|done]. }
  set (s2 := setDocument _ s1).
  assert (H2 : stepH s1 s2).
  { apply stepH_update; [by eapply step_Good|]. intros e. apply sameHidden_aria. }
  pose proof (stepH_trans _ _ _ H1 H2) as H12.
  eapply stepH_trans; [exact H12|].
  apply stepH_text; [by eapply step_Good|]. by eapply stepH_notHost.
Qed.

Lemma setCodeCollapsed_runs p b v s :
  Good s → ¬ isHost (document s) b →
  runs (setCodeCollapsed p b v) s (λ _ s', stepH s s').
Proof.
  intros Hg Hb. unfold setCodeCollapsed.
  apply runs_bind, runs_dom, runs_bind, runs_dom, runs_domTree.
  set (s1 := setDocument _ s).
  assert (H1 : stepH s s1).
  { apply stepH_update; [done|]. intros e.
    apply sameHidden_toggle; [apply engine_collapsedCode|done]. }
  set (s2 := setDocument _ s1).
  assert (H2 : stepH s1 s2).
  { apply stepH_update; [by eapply step_Good|]. intros e. apply sameHidden_aria. }
  pose proof (stepH_trans _ _ _ H1 H2) as H12.
  eapply stepH_trans; [exact H12|].
  apply stepH_text; [by eapply step_Good|]. by eapply stepH_notHost.
Qed.

Lemma elementsIn_elem f x sel b :
  b ∈ elementsIn f x sel →
  ∃ e ks, lookup x f = Some (e, ks) ∧ b ∈ elemsF ks ∧ sel b.1 = true ∧ b ∈ elemsF f.
Proof.
  unfold elementsIn. destruct (lookup x f) as [[e ks]|] eqn:Hl.
  - intros Hb. apply list_elem_of_filter in Hb as [Hs Hb].
    exists e, ks. repeat split; auto.
    apply lookup_Some in Hl as [Hin _]. eapply elemsF_kids; eauto.
  - intros Hb. by apply elem_of_nil in Hb.
Qed.

Lemma findChildButtonByKey_Some f root c a k b :
  findChildButtonByKey f root c a k = Some b →
  b ∈ elemsF f ∧ SELECTORS.buttonWithClass c b.1 = true
  ∧ html b.1 = true ∧ attrs b.1 !! a = Some k.
Proof.
  unfold findChildButtonByKey. intros H. apply head_Some in H as [l H].
  assert (Hin : b ∈ filter (λ button, html button.1 = true ∧ attrs button.1 !! a = Some k)
                      (elementsIn f root (SELECTORS.buttonWithClass c)))
    by (rewrite H; left).
  apply list_elem_of_filter in Hin as [[H1 H2] Hin].
  apply elementsIn_elem in Hin as (e & ks & _ & _ & Hs & Hin). auto.
Qed.

Lemma buttonWithClass_reserved c e :
  c = CLASSES.messageToggle ∨ c = CLASSES.codeToggle →
  SELECTORS.buttonWithClass c e = true → reserved e = true.
Proof.
  unfold SELECTORS.buttonWithClass, reserved, isToggle.
  intros Hc H. apply andb_true_iff in H as [H1 H2]. rewrite H1.
  destruct Hc as [-> | ->]; rewrite H2; simpl; by rewrite ?orb_true_r.
Qed.

Lemma newToggle_reserved n c a k :
  c = CLASSES.messageToggle ∨ c = CLASSES.codeToggle →
  reserved (newToggle n c a k) = true.
Proof.
  intros Hc. apply (buttonWithClass_reserved c); [done|].
  unfold SELECTORS.buttonWithClass, newToggle. simpl.
  apply bool_decide_eq_true_2. by apply elem_of_singleton.
Qed.

Lemma newToggle_artefact n c a k :
  a = ATTRS.messageKey ∨ a = ATTRS.codeKey →
  artefact (newToggle n c a k) [].
Proof.
  intros Ha. unfold artefact, newToggle. simpl.
  split; [done|]. split; [done|]. split; [done|].
  destruct Ha as [-> | ->]; split; try intros _;
    rewrite lookup_insert_ne by str_ne; by rewrite lookup_insert_ne.
Qed.

Lemma newToggle_not_banner n c a k :
  a = ATTRS.messageKey ∨ a = ATTRS.codeKey →
  byId IDS.banner (newToggle n c a k) = false.
Proof.
  intros Ha. destruct (newToggle_artefact n c a k Ha) as (_ & _ & _ & _ & Hid).
  unfold byId. apply bool_decide_eq_false_2.
  destruct Ha as [-> | ->]; unfold newToggle; simpl;
    rewrite lookup_insert_ne by str_ne; by rewrite lookup_insert_ne.
Qed.

Lemma toggle_not_banner f e ks :
  tidy f → (e, ks) ∈ elemsF f → isToggle e = true → byId IDS.banner e = false.
Proof.
  intros Ht Hin Hb.
  assert (Hr : reserved e = true) by (unfold reserved; by rewrite Hb).
  destruct (tidy_artefact f e ks Ht Hin Hr) as (_ & _ & _ & _ & Hid).
  unfold byId. apply bool_decide_eq_false_2. by rewrite (Hid Hb).
Qed.

Lemma buttonWithClass_isToggle c e :
  c = CLASSES.messageToggle ∨ c = CLASSES.codeToggle →
  SELECTORS.buttonWithClass c e = true → isToggle e = true.
Proof.
  unfold SELECTORS.buttonWithClass, isToggle.
  intros Hc H. apply andb_true_iff in H as [H1 H2]. rewrite H1.
  destruct Hc as [-> | ->]; rewrite H2; simpl; by rewrite ?orb_true_r.
Qed.

(** Ensuring a toggle before the host element [ref], whose parent is
    [host]: the part that [ensureMessageToggle] and [ensureCodeToggle]
    share. *)
Section EnsureButton.
Variables (c a k : string) (host ref scope : nat).
Hypothesis Hc : c = CLASSES.messageToggle ∧ a = ATTRS.messageKey
                ∨ c = CLASSES.codeToggle ∧ a = ATTRS.codeKey.

Lemma Hc' : c = CLASSES.messageToggle ∨ c = CLASSES.codeToggle.
Proof. destruct Hc as [[? _]|[? _]]; auto. Qed.

Lemma Ha' : a = ATTRS.messageKey ∨ a = ATTRS.codeKey.
Proof. destruct Hc as [[_ ?]|[_ ?]]; auto. Qed.

Lemma ensureButton_runs s :
  Good s → isHost (document s) ref →
  parentElement (document s) ref = Some host →
  runs (ensureButton c a k host ref scope) s
    (λ b s', stepH s s' ∧ ¬ isHost (document s') b
             ∧ messages s' = messages s ∧ codeBlocks s' = codeBlocks s).
Proof.
  intros Hg Href Hp. pose proof Hg as [[Hnd Hb] Ht].
  unfold ensureButton. apply runs_bind, runs_getDocument.
  destruct (findChildButtonByKey _ _ _ _ _) as [[eb kb]|] eqn:Hfind.
  - apply findChildButtonByKey_Some in Hfind as (Hin & Hsel & _ & _).
    simpl in Hsel.
    assert (Hr : reserved eb = true).
    { apply (buttonWithClass_reserved c); [apply Hc'|exact Hsel]. }
    pose proof (tidy_artefact _ eb kb Ht Hin Hr) as Hart.
    pose proof (not_isHost_reserved _ (eb, kb) Hnd Hin Hr) as Hnot.
    simpl in Hnot. cbn [fst].
    apply runs_bind.
    destruct (negb _ || negb _).
    + destruct (forest_insertBefore_step sameHidden sameHidden_refl
                  sameHidden_trans sameHidden_core host ref eb kb _ Hnd Ht Hp Href Hr Hart)
        as (f' & Hins & Hnd' & Ht' & Hs' & Hids & Hl' & Hq & _).
      { right. by apply (lookup_NoDup _ (eb, kb)). }
      eapply runs_domTry; [exact Hins|]. apply runs_ret.
      assert (Hstep : stepH s (setDocument f' s)).
      { apply step_doc; auto.
        - intros x Hx. apply Hids in Hx as [?| ->]; [done|].
          by apply (elem_of_elemsF_ids _ (eb, kb)).
        - apply Hq. apply (toggle_not_banner (document s) eb kb Ht Hin).
          apply (buttonWithClass_isToggle c); [apply Hc'|exact Hsel]. }
      apply step_written in Hstep.
      split; [done|]. split; [|done]. by eapply stepH_notHost.
    + apply runs_ret, runs_ret. split; [by apply stepH_refl|]. done.
  - apply runs_bind. eexists _, _. split; [reflexivity|].
    set (n := nextId s).
    set (s1 := mkState (document s) (S n) (messages s) (codeBlocks s) (storage s) (treeWrites s)).
    fold (newToggle n c a k).
    assert (Hfresh : n ∉ ids (document s)).
    { intros Hc0. specialize (Hb n Hc0). unfold n in Hb. lia. }
    destruct (forest_insertBefore_step sameHidden sameHidden_refl
                sameHidden_trans sameHidden_core host ref (newToggle n c a k) [] (document s)
                Hnd Ht Hp Href)
      as (f' & Hins & Hnd' & Ht' & Hs' & Hids & Hl' & Hq & _).
    { apply newToggle_reserved, Hc'. }
    { apply newToggle_artefact, Ha'. }
    { left. exact Hfresh. }
    apply runs_bind. eapply (runs_domTry _ s1); [exact Hins|]. apply runs_ret.
    assert (Hstep : stepH s (setDocument f' s1)).
    { split; [split; [split|]|]; simpl; auto.
      - intros x Hx. apply Hids in Hx as [Hx|Hx].
        + specialize (Hb x Hx). fold n in Hb. lia.
        + simpl in Hx. lia.
      - split; [done|]. split; [lia|]. split; [done|].
        apply Hq. apply newToggle_not_banner, Ha'. }
    apply step_written in Hstep.
    split; [done|]. split; [|done].
    eapply stepH_notHost; [exact Hg|exact Hstep|].
    by apply not_isHost_fresh.
Qed.
End EnsureButton.

Lemma ensureMessageToggle_eq turn m k s :
  ensureMessageToggle turn m k s =
    (let* button :=
       ensureButton CLASSES.messageToggle ATTRS.messageKey k
         (default turn (parentElement (document s) m)) m turn in
     let* mm := getMessages in
     (if negb (bool_decide (is_Some (mm !! k)))
      then setMessages (<[k := true]> mm) else ret tt) ;;
     let* mm := getMessages in
     setMessageCollapsed m button (bool_decide (mm !! k = Some true))) s.
Proof.
  unfold ensureMessageToggle, ensureButton, bind, getDocument.
  destruct (findChildButtonByKey _ _ _ _ _); reflexivity.
Qed.

Lemma ensureCodeToggle_eq pre k s host :
  parentElement (document s) pre = Some host →
  ensureCodeToggle pre k s =
    (let* button :=
       ensureButton CLASSES.codeToggle ATTRS.codeKey k host pre host in
     let* mm := getCodeBlocks in
     (if negb (bool_decide (is_Some (mm !! k)))
      then setCodeBlocks (<[k := true]> mm) else ret tt) ;;
     let* mm := getCodeBlocks in
     setCodeCollapsed pre button (bool_decide (mm !! k = Some true))) s.
Proof.
  intros Hp. unfold ensureCodeToggle, ensureButton, bind, getDocument.
  rewrite Hp. destruct (findChildButtonByKey _ _ _ _ _); reflexivity.
Qed.

Lemma ensureMessageToggle_runs turn m k s :
  Good s → isHost (document s) m → is_Some (parentElement (document s) m) →
  runs (ensureMessageToggle turn m k) s (λ _ s', stepH s s').
Proof.
  intros Hg Hm [host Hp].
  unfold runs. rewrite ensureMessageToggle_eq. rewrite Hp. simpl default.
  apply runs_bind.
  eapply runs_impl.
  { apply (ensureButton_runs CLASSES.messageToggle ATTRS.messageKey k host m turn);
      auto. }
  intros b s1 (H1 & Hb & _).
  pose proof (step_Good _ _ _ H1) as Hg1.
  apply runs_bind, runs_getMessages, runs_bind.
  set (mm := messages s1).
  assert (Hmid : ∃ s2, (if negb (bool_decide (is_Some (mm !! k)))
                        then setMessages (<[k := true]> mm) else ret tt) s1
                       = Ok tt s2
                       ∧ stepH s1 s2 ∧ document s2 = document s1).
  { destruct (negb _).
    - eexists. split; [reflexivity|]. split; [|done].
      by apply stepH_fields.
    - eexists. split; [reflexivity|]. split; [by apply stepH_refl|done]. }
  destruct Hmid as (s2 & Hrun & H2 & Hdoc).
  exists tt, s2. split; [exact Hrun|].
  apply runs_bind, runs_getMessages.
  eapply runs_impl.
  { apply setMessageCollapsed_runs; [by eapply step_Good|]. by rewrite Hdoc. }
  intros [] s3 H3. simpl.
  eapply stepH_trans; [exact H1|]. eapply stepH_trans; eauto.
Qed.

Lemma ensureCodeToggle_runs pre k s :
  Good s → isHost (document s) pre →
  runs (ensureCodeToggle pre k) s (λ _ s', stepH s s').
Proof.
  intros Hg Hm.
  destruct (parentElement (document s) pre) as [host|] eqn:Hp.
  2:{ unfold ensureCodeToggle, runs, bind, getDocument. rewrite Hp.
      exists tt, s. split; [done|]. by apply stepH_refl. }
  unfold runs. rewrite (ensureCodeToggle_eq pre k s host Hp).
  apply runs_bind.
  eapply runs_impl.
  { apply (ensureButton_runs CLASSES.codeToggle ATTRS.codeKey k host pre host);
      auto. }
  intros b s1 (H1 & Hb & _).
  pose proof (step_Good _ _ _ H1) as Hg1.
  apply runs_bind, runs_getCodeBlocks, runs_bind.
  set (mm := codeBlocks s1).
  assert (Hmid : ∃ s2, (if negb (bool_decide (is_Some (mm !! k)))
                        then setCodeBlocks (<[k := true]> mm) else ret tt) s1
                       = Ok tt s2
                       ∧ stepH s1 s2 ∧ document s2 = document s1).
  { destruct (negb _).
    - eexists. split; [reflexivity|]. split; [|done].
      by apply stepH_fields.
    - eexists. split; [reflexivity|]. split; [by apply stepH_refl|done]. }
  destruct Hmid as (s2 & Hrun & H2 & Hdoc).
  exists tt, s2. split; [exact Hrun|].
  apply runs_bind, runs_getCodeBlocks.
  eapply runs_impl.
  { apply setCodeCollapsed_runs; [by eapply step_Good|]. by rewrite Hdoc. }
  intros [] s3 H3. simpl.
  eapply stepH_trans; [exact H1|]. eapply stepH_trans; eauto.
Qed.

(** A host element below another has a parent element. *)
Lemma ids_parentOf l x :
  x ∈ ids l → x ∈ childIds l ∨ ∃ p, p ∈ elemsF l ∧ x ∈ childIds p.2.
Proof.
  induction l as [|s l IH|e ks l IHk IHl] using forest_ind; intros Hx.
  - by apply elem_of_nil in Hx.
  - rewrite ids_cons_text in Hx. rewrite childIds_cons_text, elemsF_cons_text. auto.
  - rewrite ids_cons_elem in Hx. rewrite childIds_cons_elem.
    setoid_rewrite elemsF_cons_elem.
    apply elem_of_cons in Hx as [->|Hx]; [left; left|].
    apply elem_of_app in Hx as [Hx|Hx].
    + right. destruct (IHk Hx) as [Hc|(p & Hp & Hc)].
      * exists (e, ks). split; [left|done].
      * exists p. split; [|done]. right. apply elem_of_app. by left.
    + destruct (IHl Hx) as [Hc|(p & Hp & Hc)].
      * left. by right.
      * right. exists p. split; [|done]. right. apply elem_of_app. by right.
Qed.

Lemma below_has_parent f e ks x :
  (e, ks) ∈ elemsF f → x ∈ ids ks → is_Some (parentElement f x).
Proof.
  intros Hin Hx. unfold parentElement, parentOf.
  assert (Hex : ∃ p, p ∈ elemsF f ∧ x ∈ childIds p.2).
  { destruct (ids_parentOf ks x Hx) as [Hc|(p & Hp & Hc)].
    - by exists (e, ks).
    - exists p. split; [|done]. eapply elemsF_kids; eauto. }
  destruct Hex as (p & Hp & Hc).
  destruct (filter _ (elemsF f)) as [|q l] eqn:Hf.
  - exfalso. assert (Hpf : p ∈ filter (λ p, x ∈ childIds p.2) (elemsF f))
      by (by apply list_elem_of_filter).
    rewrite Hf in Hpf. by apply elem_of_nil in Hpf.
  - simpl. eauto.
Qed.

Lemma elementsIn_isHost f x sel b :
  NoDup (ids f) → tidy f → structural sel →
  b ∈ elementsIn f x sel →
  isHost f (nid b.1) ∧ is_Some (parentElement f (nid b.1)).
Proof.
  intros Hnd Ht [Hs _] Hb.
  apply elementsIn_elem in Hb as (e & ks & Hl & Hbk & Hsel & Hbf).
  split.
  - exists b.1, b.2. split; [rewrite <- surjective_pairing; by apply lookup_NoDup|].
    destruct (reserved b.1) eqn:Hr; [|done].
    rewrite (Hs b.1 b.2 Hr) in Hsel; [done|].
    apply (tidy_artefact f); auto. by rewrite <- surjective_pairing.
  - apply lookup_Some in Hl as [Hin _].
    apply (below_has_parent f e ks); [done|]. by apply elem_of_elemsF_ids.
Qed.

Lemma findUserMessageNode_Some f turn m :
  NoDup (ids f) → tidy f → findUserMessageNode f turn = Some m →
  isHost f m ∧ is_Some (parentElement f m).
Proof.
  intros Hnd Ht. unfold findUserMessageNode, querySelectorIn, querySelectorAllIn.
  destruct (elementsIn f turn SELECTORS.userRoleContainer) as [|b l] eqn:He; [done|].
  simpl. destruct (isHTMLElement f (nid b.1)); [|done]. intros [= <-].
  apply (elementsIn_isHost f turn SELECTORS.userRoleContainer b); auto.
  - apply structural_userRole.
  - rewrite He. left.
Qed.

Lemma stepH_remove b s :
  Good s → ¬ isHost (document s) b →
  b ∉ querySelectorAll (byId IDS.banner) (document s) →
  stepH s (written (setDocument (remove b (document s)) s)).
Proof.
  intros Hg Hn Hb. pose proof Hg as [[Hnd Hbd] Ht].
  destruct (forest_remove_step sameHidden sameHidden_refl b _ Hnd Ht Hn)
    as (H1 & H2 & H3 & H4 & H5).
  apply step_written, step_doc; auto.
  - intros x Hx. by apply H4 in Hx as [? _].
  - rewrite H5. apply filter_all. intros x Hx ->. done.
Qed.

Lemma toggle_query_facts f c b :
  NoDup (ids f) → tidy f →
  c = CLASSES.messageToggle ∨ c = CLASSES.codeToggle →
  b ∈ querySelectorAll (SELECTORS.buttonWithClass c) f →
  ¬ isHost f b ∧ b ∉ querySelectorAll (byId IDS.banner) f.
Proof.
  intros Hnd Ht Hc Hb.
  apply querySelectorAll_elem_of in Hb as ([e ks] & Hin & Hs & <-). simpl in *.
  split.
  - apply (not_isHost_reserved f (e, ks)); auto.
    by apply (buttonWithClass_reserved c).
  - intros Hq. apply querySelectorAll_elem_of in Hq as (q & Hq & Hsq & Hnq).
    pose proof (lookup_NoDup f q Hnd Hq) as Hl. rewrite Hnq in Hl.
    pose proof (lookup_NoDup f (e, ks) Hnd Hin) as Hl'. simpl in Hl'.
    rewrite Hl' in Hl. injection Hl as <-.
    simpl in Hsq.
    rewrite (toggle_not_banner f e ks Ht Hin) in Hsq; [done|].
    by apply (buttonWithClass_isToggle c).
Qed.

Section Cleanup.
Variables (c cc : string).
Hypothesis Hc : c = CLASSES.messageToggle ∨ c = CLASSES.codeToggle.
Hypothesis Hcc : cc ∈ engineClasses ∧ cc ≠ CLASSES.hiddenTurn.

Lemma cleanupOf_runs s : Good s → runs (cleanupOf c cc) s (λ _ s', stepH s s').
Proof.
  intros Hg. pose proof Hg as [[Hnd _] Ht].
  unfold cleanupOf. apply runs_bind, runs_getDocument, runs_bind.
  set (L := querySelectorAll _ _).
  eapply runs_impl.
  { apply (runs_forEach
             (λ s', stepH s s' ∧
                    ∀ b, b ∈ L → ¬ isHost (document s') b ∧
                      b ∉ querySelectorAll (byId IDS.banner) (document s'))).
    - split; [by apply stepH_refl|]. intros b Hb.
      by apply (toggle_query_facts _ c).
    - intros b s1 Hb [H1 HL]. apply runs_domTree.
      destruct (HL b Hb) as [Hn Hq].
      pose proof (step_Good _ _ _ H1) as Hg1.
      assert (H2 := stepH_remove b s1 Hg1 Hn Hq).
      split; [by eapply stepH_trans|].
      intros b' Hb'. destruct (HL b' Hb') as [Hn' Hq']. split.
      + by eapply stepH_notHost.
      + destruct H2 as (_ & _ & _ & _ & ->). done. }
  intros [] s1 [H1 _]. apply runs_bind, runs_getDocument.
  eapply runs_impl.
  { apply (runs_forEach (λ s', stepH s s')); [done|].
    intros x s2 _ H2. apply runs_dom.
    eapply stepH_trans; [exact H2|].
    apply stepH_update; [by eapply step_Good|]. intros e.
    destruct Hcc. by apply (sameHidden_toggle cc false). }
  auto.
Qed.
End Cleanup.

Lemma cleanupMessageCollapsers_runs s :
  Good s → runs cleanupMessageCollapsers s (λ _ s', stepH s s').
Proof.
  apply (cleanupOf_runs CLASSES.messageToggle CLASSES.collapsedUserMessage);
    [by left|]. split; [apply engine_collapsedUser|done].
Qed.

Lemma cleanupCodeCollapsers_runs s :
  Good s → runs cleanupCodeCollapsers s (λ _ s', stepH s s').
Proof.
  apply (cleanupOf_runs CLASSES.codeToggle CLASSES.collapsedCodeBlock);
    [by right|]. split; [apply engine_collapsedCode|done].
Qed.

Lemma applyMessageCollapsers_runs turns enabled s :
  Good s → runs (applyMessageCollapsers turns enabled) s (λ _ s', stepH s s').
Proof.
  intros Hg. unfold applyMessageCollapsers. destruct enabled; simpl.
  - eapply runs_impl.
    { apply (runs_forIndex (λ _ s', stepH s s')); [by apply stepH_refl|].
      intros i turn s1 _ H1. pose proof (step_Good _ _ _ H1) as Hg1.
      apply runs_bind, runs_getDocument.
      destruct (findUserMessageNode _ _) as [m|] eqn:Hm.
      - destruct Hg1 as [[Hnd1 Hb1] Ht1].
        destruct (findUserMessageNode_Some _ _ _ Hnd1 Ht1 Hm) as [Hh Hp].
        eapply runs_impl; [by apply ensureMessageToggle_runs|].
        intros [] s2 H2. by eapply stepH_trans.
      - by apply runs_ret. }
    auto.
  - by apply cleanupMessageCollapsers_runs.
Qed.

Lemma forPreBlocks_runs turnKey preBlocks : ∀ codeIndex s,
  Good s → (∀ p, p ∈ preBlocks → isHost (document s) p) →
  runs (forPreBlocks turnKey codeIndex preBlocks) s (λ _ s', stepH s s').
Proof.
  induction preBlocks as [|p l IH]; intros idx s Hg Hl.
  - apply runs_ret. by apply stepH_refl.
  - simpl. apply runs_bind, runs_getDocument.
    destruct (negb _).
    + apply IH; [done|]. intros q Hq. apply Hl. by right.
    + apply runs_bind. eapply runs_impl.
      { apply ensureCodeToggle_runs; [done|]. apply Hl. left. }
      intros [] s1 H1. eapply runs_impl.
      { apply IH; [by eapply step_Good|]. intros q Hq.
        eapply stepH_isHost; eauto. apply Hl. by right. }
      intros [] s2 H2. by eapply stepH_trans.
Qed.

Lemma applyCodeCollapsers_runs turns enabled s :
  Good s → runs (applyCodeCollapsers turns enabled) s (λ _ s', stepH s s').
Proof.
  intros Hg. unfold applyCodeCollapsers. destruct enabled; simpl.
  - eapply runs_impl.
    { apply (runs_forIndex (λ _ s', stepH s s')); [by apply stepH_refl|].
      intros i turn s1 _ H1. pose proof (step_Good _ _ _ H1) as Hg1.
      apply runs_bind, runs_getDocument.
      eapply runs_impl.
      { apply forPreBlocks_runs; [done|]. intros p Hp.
        unfold querySelectorAllIn in Hp.
        apply list_elem_of_fmap in Hp as (b & -> & Hb).
        destruct Hg1 as [[Hnd1 _] Ht1].
        by destruct (elementsIn_isHost _ _ _ b Hnd1 Ht1 structural_codeBlocks Hb). }
      intros [] s2 H2. by eapply stepH_trans. }
    auto.
  - by apply cleanupCodeCollapsers_runs.
Qed.

Lemma applyCollapsibleFeatures_runs turns settings s :
  Good s → runs (applyCollapsibleFeatures turns settings) s (λ _ s', stepH s s').
Proof.
  intros Hg. unfold applyCollapsibleFeatures. apply runs_bind.
  eapply runs_impl; [by apply applyMessageCollapsers_runs|].
  intros [] s1 H1. eapply runs_impl.
  { apply applyCodeCollapsers_runs. by eapply step_Good. }
  intros [] s2 H2. by eapply stepH_trans.
Qed.

(** ** Steps that may touch the banner *)

Lemma step_hostStep R s s' : step R s s' → hostStep R s s'.
Proof. intros (A1 & A2 & A3 & A4 & _). by split; [|split; [|split]]. Qed.

Section HostSteps.
Variable R : edata → edata → Prop.
Hypothesis R_refl : ∀ e, R e e.
Hypothesis R_trans : ∀ e1 e2 e3, R e1 e2 → R e2 e3 → R e1 e3.
Hypothesis R_core : ∀ e e', R e e' → sameCore e e'.

Lemma hostStep_refl s : Good s → hostStep R s s.
Proof. intros H. split; [done|]. split; [by apply sameHost_refl|]. done. Qed.

Lemma hostStep_trans s1 s2 s3 :
  hostStep R s1 s2 → hostStep R s2 s3 → hostStep R s1 s3.
Proof.
  intros (A1 & A2 & A3 & A4) (B1 & B2 & B3 & B4).
  split; [done|]. split; [by eapply sameHost_trans|].
  split; [lia|congruence].
Qed.

Lemma hostStep_isHost s s' x :
  Good s → hostStep R s s' → isHost (document s) x → isHost (document s') x.
Proof.
  intros [[Hnd _] Ht] ([[Hnd' _] Ht'] & Hs & _).
  by apply (sameHost_isHost R (R_n R R_core) _ _ Hs Hnd').
Qed.

Lemma hostStep_getConversationTurns s s' :
  Good s → hostStep R s s' →
  getConversationTurns (document s') = getConversationTurns (document s).
Proof.
  intros [[Hnd _] Ht] ([[Hnd' _] Ht'] & Hs & _).
  by apply (sameHost_getConversationTurns R (R_n R R_core) R_core _ _ Hs).
Qed.

Lemma hostStep_parentElement s s' x :
  Good s → hostStep R s s' → isHost (document s) x →
  parentElement (document s') x = parentElement (document s) x.
Proof.
  intros [[Hnd _] Ht] ([[Hnd' _] Ht'] & Hs & _).
  by apply (sameHost_parentElement R (R_n R R_core) _ _ Hs).
Qed.

Lemma hostStep_lookup s s' x e ks :
  Good s → hostStep R s s' → lookup x (document s) = Some (e, ks) →
  reserved e = false →
  ∃ e' ks', lookup x (document s') = Some (e', ks') ∧ reserved e' = false
            ∧ R e e'.
Proof.
  intros [[Hnd _] Ht] ([[Hnd' _] Ht'] & Hs & _) Hl Hr.
  destruct (sameHost_lookup R _ _ x e ks (R_n R R_core) Hs Hnd' Hl Hr)
    as (e' & ks' & ? & ? & ? & _).
  eauto.
Qed.
End HostSteps.

Lemma tidy_childIds f : tidy f → hostChildIds f = childIds f.
Proof.
  intros [_ Htop]. unfold hostChildIds, childIds.
  induction Htop as [|n l Hn _ IH]; [done|]. cbn [omap list_omap].
  fold (omap hostNode l). fold (omap nodeId l). by rewrite Hn, IH.
Qed.

Lemma hostStep_documentElement R s s' :
  Good s → hostStep R s s' →
  documentElement (document s') = documentElement (document s).
Proof.
  intros [_ Ht] ([_ Ht'] & [_ Hs] & _). unfold documentElement.
  by rewrite <- (tidy_childIds _ Ht), <- (tidy_childIds _ Ht'), Hs.
Qed.

(** ** The hidden markers *)

Lemma lookup_update_other x g y f e ks :
  y ≠ x → (∀ e, nid (g e) = nid e) →
  lookup y (update x g f) = Some (e, ks) → ∃ ks0, lookup y f = Some (e, ks0).
Proof.
  intros Hy Hn. rewrite (lookup_update x g Hn).
  destruct (lookup y f) as [[e0 ks0]|] eqn:Hl; [|done].
  intros H. apply (inj Some) in H. rewrite updateP_eq in H.
  apply lookup_Some in Hl as [_ Hl]. cbn [fst snd] in *.
  rewrite decide_False in H by congruence. injection H as <- <-. eauto.
Qed.

Lemma lookup_update_same x g f e ks :
  (∀ e, nid (g e) = nid e) →
  lookup x (update x g f) = Some (e, ks) →
  ∃ e0 ks0, lookup x f = Some (e0, ks0) ∧ e = g e0.
Proof.
  intros Hn. rewrite (lookup_update x g Hn).
  destruct (lookup x f) as [[e0 ks0]|] eqn:Hl; [|done].
  intros H. apply (inj Some) in H. rewrite updateP_eq in H.
  pose proof Hl as Hl'. apply lookup_Some in Hl' as [_ Hl']. cbn [fst snd] in *.
  rewrite decide_True in H by done. injection H as <- <-. eauto.
Qed.

(** ** Toggle buttons are left alone *)

Lemma sameToggles_refl f : sameToggles f f.
Proof. by intros x e ks _. Qed.

Lemma sameToggles_trans f1 f2 f3 :
  sameToggles f1 f2 → sameToggles f2 f3 → sameToggles f1 f3.
Proof.
  intros H1 H2 x e ks Ht. rewrite (H1 x e ks Ht). by apply H2.
Qed.

Lemma isToggle_reserved e : isToggle e = true → reserved e = true.
Proof. unfold reserved. by intros ->. Qed.

Lemma toggle_no_kids f e ks :
  tidy f → (e, ks) ∈ elemsF f → isToggle e = true → ids ks = [].
Proof.
  intros Ht Hin Htog. apply ids_no_elems.
  by destruct (tidy_artefact f e ks Ht Hin (isToggle_reserved e Htog)).
Qed.

Lemma sameToggles_update t g f :
  NoDup (ids f) → tidy f → isHost f t → (∀ e, sameCore e (g e)) →
  sameToggles f (update t g f).
Proof.
  intros Hnd Ht (et & kt & Hlt & Hrt) Hg x e ks Htog.
  assert (Hn : ∀ e, nid (g e) = nid e) by (intros e0; apply Hg).
  rewrite (lookup_update t g Hn). split.
  - intros Hl. rewrite Hl. simpl. f_equal. rewrite updateP_eq. cbn [fst snd].
    pose proof (lookup_Some _ _ _ Hl) as [Hin Hx]. simpl in Hx.
    rewrite decide_False.
    + f_equal. apply update_absent.
      rewrite (toggle_no_kids f e ks Ht Hin Htog). apply not_elem_of_nil.
    + intros Hc. rewrite Hx in Hc. rewrite Hc, Hlt in Hl.
      injection Hl as -> ->. rewrite (isToggle_reserved e Htog) in Hrt. done.
  - destruct (lookup x f) as [[e0 ks0]|] eqn:Hl; [|done].
    intros H. apply (inj Some) in H. rewrite updateP_eq in H. cbn [fst snd] in H.
    pose proof (lookup_Some _ _ _ Hl) as [Hin Hx]. simpl in Hx.
    destruct (decide (nid e0 = t)) as [Hc|Hc].
    + exfalso. injection H as H1 H2. subst e.
      rewrite (sameCore_isToggle e0 (g e0) (Hg e0)) in Htog.
      rewrite Hx in Hc. rewrite Hc, Hlt in Hl. injection Hl as -> ->.
      rewrite (isToggle_reserved e0 Htog) in Hrt. done.
    + injection H as H1 H2. subst e. f_equal. f_equal. rewrite <- H2.
      symmetry. apply update_absent.
      rewrite (toggle_no_kids f e0 ks0 Ht Hin Htog). apply not_elem_of_nil.
Qed.

Lemma sameToggles_remove b f eb kb :
  NoDup (ids f) → tidy f → lookup b f = Some (eb, kb) →
  byId IDS.banner eb = true → sameToggles f (remove b f).
Proof.
  intros Hnd Ht Hlb Hban x e ks Htog.
  assert (Hres : ∀ e ks, lookup b f = Some (e, ks) → reserved e = true).
  { intros e0 ks0 Hl0. rewrite Hlb in Hl0. injection Hl0 as <- <-.
    unfold reserved. unfold byId in Hban. rewrite Hban. by rewrite orb_true_r. }
  pose proof (remove_reserved_leaf b f Hnd Ht Hres) as Hleaf.
  assert (Hnot : isToggle eb = false).
  { destruct (isToggle eb) eqn:Hb; [|done].
    pose proof (lookup_Some _ _ _ Hlb) as [Hin _].
    destruct (tidy_artefact f eb kb Ht Hin (isToggle_reserved eb Hb))
      as (_ & _ & _ & _ & Hid).
    unfold byId in Hban. apply bool_decide_eq_true in Hban.
    rewrite (Hid Hb) in Hban. done. }
  destruct (decide (x = b)) as [->|Hx].
  - rewrite lookup_remove_self, Hlb. split; [|done].
    intros [= <- <-]. congruence.
  - rewrite (lookup_remove b x f Hleaf Hx). split.
    + intros Hl. rewrite Hl. simpl. f_equal. rewrite removeP_eq. cbn [fst snd].
      f_equal. apply remove_absent.
      pose proof (lookup_Some _ _ _ Hl) as [Hin _].
      rewrite (toggle_no_kids f e ks Ht Hin Htog). apply not_elem_of_nil.
    + destruct (lookup x f) as [[e0 ks0]|] eqn:Hl; [|done].
      intros H. apply (inj Some) in H. rewrite removeP_eq in H. cbn [fst snd] in H.
      injection H as H1 H2. subst e. f_equal. f_equal. rewrite <- H2.
      symmetry. apply remove_absent.
      pose proof (lookup_Some _ _ _ Hl) as [Hin _].
      rewrite (toggle_no_kids f e0 ks0 Ht Hin Htog). apply not_elem_of_nil.
Qed.

Lemma sameCore_core : ∀ e e', sameCore e e' → sameCore e e'.
Proof. auto. Qed.

Lemma stepC_update x g s :
  Good s → (∀ e, sameCore e (g e)) →
  stepC s (setDocument (update x g (document s)) s).
Proof.
  intros Hg Hgg. apply step_update; auto using sameCore_refl.
Qed.

Lemma setTurnHidden_runs turn h s :
  Good s →
  runs (setTurnHidden turn h) s
    (λ _ s', stepC s s'
       ∧ (∀ e ks, lookup turn (document s') = Some (e, ks) → marked h e)
       ∧ (∀ y e ks, y ≠ turn → lookup y (document s') = Some (e, ks) →
            ∃ ks0, lookup y (document s) = Some (e, ks0))
       ∧ (isHost (document s) turn → sameToggles (document s) (document s'))).
Proof.
  intros Hg. unfold setTurnHidden. apply runs_bind, runs_dom.
  set (g1 := withClasses (λ cs : gset string,
                if h then {[CLASSES.hiddenTurn]} ∪ cs else cs ∖ {[CLASSES.hiddenTurn]})).
  set (s1 := setDocument _ s).
  assert (H1 : stepC s s1).
  { apply stepC_update; [done|]. intros e. apply sameCore_toggle, engine_hiddenTurn. }
  pose proof (step_Good _ _ _ H1) as Hg1.
  assert (Hcls : ∀ e ks, lookup turn (document s1) = Some (e, ks) →
                         CLASSES.hiddenTurn ∈ classes e ↔ h = true).
  { intros e ks Hl. apply lookup_update_same in Hl as (e0 & ks0 & _ & ->); [|done].
    simpl. destruct h.
    - rewrite elem_of_union, elem_of_singleton. tauto.
    - rewrite elem_of_difference, elem_of_singleton. split; [tauto|done]. }
  assert (Hoth1 : ∀ y e ks, y ≠ turn → lookup y (document s1) = Some (e, ks) →
                            ∃ ks0, lookup y (document s) = Some (e, ks0)).
  { intros y e ks Hy Hl. by apply lookup_update_other in Hl. }
  assert (Htog1 : isHost (document s) turn → sameToggles (document s) (document s1)).
  { intros Hh. destruct Hg as [[Hnd _] Ht]. apply sameToggles_update; auto.
    intros e. apply sameCore_toggle, engine_hiddenTurn. }
  assert (Htog2 : ∀ g, (∀ e, sameCore e (g e)) → isHost (document s) turn →
            sameToggles (document s) (update turn g (document s1))).
  { intros g Hgg Hh. eapply sameToggles_trans; [by apply Htog1|].
    destruct Hg1 as [[Hnd1 _] Ht1]. apply sameToggles_update; auto.
    by apply (step_isHost sameCore sameCore_core s s1). }
  destruct h.
  - apply runs_dom. set (s2 := setDocument _ s1).
    split; [eapply step_trans; [apply sameCore_trans|exact H1|]|split; [|split]].
    + apply stepC_update; [done|]. intros e. apply sameCore_hidden_set.
    + intros e ks Hl. apply lookup_update_same in Hl as (e0 & ks0 & Hl0 & ->); [|done].
      split; simpl; [by apply (Hcls e0 ks0)|]. by rewrite lookup_insert_eq.
    + intros y e ks Hy Hl. apply lookup_update_other in Hl as (ks1 & Hl); [|done..].
      by apply (Hoth1 y e ks1).
    + apply Htog2. intros e. apply sameCore_hidden_set.
  - apply runs_dom. set (s2 := setDocument _ s1).
    split; [eapply step_trans; [apply sameCore_trans|exact H1|]|split; [|split]].
    + apply stepC_update; [done|]. intros e. apply sameCore_hidden_del.
    + intros e ks Hl. apply lookup_update_same in Hl as (e0 & ks0 & Hl0 & ->); [|done].
      split; simpl; [by apply (Hcls e0 ks0)|]. by rewrite lookup_delete_eq.
    + intros y e ks Hy Hl. apply lookup_update_other in Hl as (ks1 & Hl); [|done..].
      by apply (Hoth1 y e ks1).
    + apply Htog2. intros e. apply sameCore_hidden_del.
Qed.

Lemma markTurns_runs turns (hide : nat → bool) s :
  Good s → NoDup turns →
  runs (forIndex 0 turns (λ index turn, setTurnHidden turn (hide index))) s
    (λ _ s', stepC s s'
       ∧ (∀ i t e ks, turns !! i = Some t →
            lookup t (document s') = Some (e, ks) → marked (hide i) e)
       ∧ ((∀ t, t ∈ turns → isHost (document s) t) →
          sameToggles (document s) (document s'))).
Proof.
  intros Hg Hnd.
  eapply runs_impl.
  { apply (runs_forIndex
             (λ j s', stepC s s'
                ∧ (∀ i t e ks, (i < j)%nat → turns !! i = Some t →
                     lookup t (document s') = Some (e, ks) → marked (hide i) e)
                ∧ ((∀ t, t ∈ turns → isHost (document s) t) →
                   sameToggles (document s) (document s')))).
    - split; [apply step_refl; auto using sameCore_refl|].
      split; [intros; lia|]. intros _. apply sameToggles_refl.
    - intros j t s1 Hj (H1 & Hm & Htog). simpl.
      eapply runs_impl; [apply setTurnHidden_runs; by eapply step_Good|].
      intros [] s2 (H2 & Hnew & Hold & Htog2). split; [|split].
      + eapply step_trans; [apply sameCore_trans|exact H1|exact H2].
      + intros i t' e ks Hi Hi' Hl.
        destruct (decide (i = j)) as [->|Hij].
        * rewrite Hj in Hi'. injection Hi' as <-. by apply (Hnew e ks).
        * assert (Hne : t' ≠ t).
          { intros ->. apply Hij. eapply NoDup_lookup; eauto. }
          destruct (Hold t' e ks Hne Hl) as (ks0 & Hl0).
          apply (Hm i t' e ks0); [lia|done|done].
      + intros Hall. eapply sameToggles_trans; [by apply Htog|].
        apply Htog2. apply (step_isHost sameCore sameCore_core s s1); auto.
        apply Hall. by eapply list_elem_of_lookup_2. }
  intros [] s' (H1 & Hm & Htog). split; [done|]. split; [|done].
  intros i t e ks Hi Hl. apply (Hm i t e ks); [|done|done].
  by apply lookup_lt_Some in Hi.
Qed.

(** ** Appending a new element *)

Lemma querySelectorAll_no_elems sel ks : elemsF ks = [] → querySelectorAll sel ks = [].
Proof. unfold querySelectorAll. by intros ->. Qed.

Section AppendStep.
Variable R : edata → edata → Prop.
Hypothesis R_refl : ∀ e, R e e.

Lemma forest_appendChild_step host e ks f eh kh :
  NoDup (ids f) → tidy f →
  lookup host f = Some (eh, kh) → reserved eh = false →
  reserved e = true → artefact e ks → nid e ∉ ids f →
  NoDup (ids (appendChild host (Elem e ks) f))
  ∧ tidy (appendChild host (Elem e ks) f)
  ∧ sameHost R f (appendChild host (Elem e ks) f)
  ∧ (∀ x, x ∈ ids (appendChild host (Elem e ks) f) ↔ x ∈ ids f ∨ x = nid e)
  ∧ (∀ sel, sel e = false →
       querySelectorAll sel (appendChild host (Elem e ks) f)
       = querySelectorAll sel f).
Proof.
  intros Hnd Ht Hl Hreh Hr Ha Hfresh. unfold appendChild.
  pose proof Ha as (Hks & _).
  assert (HK : elemsF (kh ++ [Elem e ks]) ≡ₚ elemsF kh ++ [(e, ks)]).
  { rewrite elemsF_app, elemsF_cons_elem, Hks. done. }
  split; [|split; [|split; [|split]]].
  - apply (NoDup_atKids host _ f eh kh _ Hnd Hl HK).
    + apply NoDup_singleton.
    + intros p Hp. apply list_elem_of_singleton in Hp as ->. done.
  - apply (tidy_atKids host _ f eh kh _ Hnd Hl HK Ht).
    + by rewrite Hreh.
    + intros p Hp _. apply list_elem_of_singleton in Hp as ->. done.
  - apply (sameHost_atKids host _ f eh kh Hnd Hl R R_refl).
    + rewrite hostView_app, hostView_cons_elem, Hr, (hostView_no_elems ks Hks).
      simpl. by rewrite app_nil_r.
    + rewrite hostChildIds_app, hostChildIds_cons_elem, Hr. simpl.
      by rewrite app_nil_r.
  - intros x. rewrite (ids_atKids_elem host _ f eh kh _ Hnd Hl HK).
    simpl. rewrite list_elem_of_singleton. tauto.
  - intros sel Hsel. apply querySelectorAll_atKids; [done|].
    intros eh' kh' _.
    rewrite querySelectorAll_app, querySelectorAll_cons_elem, Hsel.
    rewrite (querySelectorAll_no_elems sel ks Hks). simpl. by rewrite app_nil_r.
Qed.
End AppendStep.

Lemma documentElement_isHost f r :
  NoDup (ids f) → tidy f → documentElement f = Some r → isHost f r.
Proof.
  intros Hnd Ht Hr. unfold documentElement in Hr.
  assert (Hin : r ∈ childIds f).
  { destruct (childIds f) as [|x l]; [done|]. injection Hr as ->. left. }
  apply elem_of_childIds in Hin as (e & ks & Hin & <-).
  exists e, ks. split.
  - apply (lookup_NoDup f (e, ks) Hnd). by apply elem_top_elemsF.
  - pose proof (tidy_top f Ht) as Htop.
    rewrite Forall_forall in Htop. specialize (Htop _ Hin). simpl in Htop.
    by destruct (reserved e).
Qed.

Lemma newStyle_reserved n : reserved (newStyle n) = true.
Proof.
  unfold reserved, newStyle. simpl. rewrite lookup_insert_eq.
  rewrite (bool_decide_eq_true_2 (Some IDS.styleTag = Some IDS.styleTag)) by done.
  by rewrite orb_true_r.
Qed.

Lemma newStyle_artefact n ks : elemsF ks = [] → artefact (newStyle n) ks.
Proof.
  intros Hks. unfold artefact, newStyle. simpl.
  split; [done|]. split; [done|]. split; [done|].
  split; [by rewrite lookup_insert_ne|]. intros H. by vm_compute in H.
Qed.

Lemma newStyle_not_banner n : byId IDS.banner (newStyle n) = false.
Proof.
  unfold byId, newStyle. simpl. rewrite lookup_insert_eq.
  apply bool_decide_eq_false_2. intros H. by vm_compute in H.
Qed.

Lemma ensureStyleTag_runs s :
  Good s → is_Some (documentElement (document s)) →
  runs ensureStyleTag s (λ _ s', stepH s s').
Proof.
  intros Hg [root Hroot]. pose proof Hg as [[Hnd Hb] Ht].
  unfold ensureStyleTag. apply runs_bind, runs_getDocument.
  destruct (getElementById _ _); [by apply runs_ret, stepH_refl|].
  apply runs_bind. eexists _, _. split; [reflexivity|].
  set (n := nextId s).
  set (s1 := mkState (document s) (S n) (messages s) (codeBlocks s) (storage s) (treeWrites s)).
  fold (newStyle n). rewrite Hroot.
  assert (Hfresh : n ∉ ids (document s)).
  { intros Hc0. specialize (Hb n Hc0). unfold n in Hb. lia. }
  destruct (documentElement_isHost _ _ Hnd Ht Hroot) as (er & kr & Hl & Hrr).
  destruct (forest_appendChild_step sameHidden sameHidden_refl root
              (newStyle n) (textNodes styleText) (document s) er kr Hnd Ht Hl Hrr)
    as (Hnd' & Ht' & Hs' & Hids & Hq).
  { apply newStyle_reserved. }
  { apply newStyle_artefact, elemsF_textNodes. }
  { exact Hfresh. }
  apply (runs_domTree _ s1).
  split; [split; [split|]|]; simpl; auto.
  - intros x Hx. apply Hids in Hx as [Hx|Hx].
    + specialize (Hb x Hx). fold n in Hb. lia.
    + simpl in Hx. lia.
Qed.

Lemma applyMinimalUi_runs enabled s :
  Good s → is_Some (documentElement (document s)) →
  runs (applyMinimalUi enabled) s (λ _ s', stepH s s').
Proof.
  intros Hg [root Hroot]. unfold applyMinimalUi.
  apply runs_bind, runs_getDocument. rewrite Hroot. apply runs_dom.
  apply stepH_update; [done|]. intros e.
  apply sameHidden_toggle; [apply engine_minimalUi|]. intros H. by vm_compute in H.
Qed.

(** ** The located turns *)

Lemma getConversationTurns_sub f x :
  x ∈ getConversationTurns f →
  x ∈ querySelectorAll SELECTORS.conversationTurnsPrimary f
  ∨ x ∈ querySelectorAll SELECTORS.conversationTurnsFallback f.
Proof.
  unfold getConversationTurns. intros H.
  apply list_elem_of_filter in H as [_ H].
  assert (H' : x ∈ (if decide (length (querySelectorAll SELECTORS.conversationTurnsPrimary f) = 0%nat)
                    then querySelectorAll SELECTORS.conversationTurnsFallback f
                    else querySelectorAll SELECTORS.conversationTurnsPrimary f)).
  { destruct (querySelector SELECTORS.threadRoot f); [|done].
    by apply list_elem_of_filter in H as [_ H]. }
  destruct (decide _); auto.
Qed.

Lemma getConversationTurns_isHost f x :
  NoDup (ids f) → tidy f → x ∈ getConversationTurns f → isHost f x.
Proof.
  intros Hnd Ht H. apply getConversationTurns_sub in H as [H|H].
  - by apply (querySelectorAll_isHost _ f x structural_primary).
  - by apply (querySelectorAll_isHost _ f x structural_fallback).
Qed.

Lemma getConversationTurns_NoDup f : NoDup (ids f) → NoDup (getConversationTurns f).
Proof.
  intros Hnd. unfold getConversationTurns. apply NoDup_filter.
  assert (H : NoDup (if decide (length (querySelectorAll SELECTORS.conversationTurnsPrimary f) = 0%nat)
                    then querySelectorAll SELECTORS.conversationTurnsFallback f
                    else querySelectorAll SELECTORS.conversationTurnsPrimary f)).
  { destruct (decide _); by apply querySelectorAll_NoDup. }
  destruct (querySelector SELECTORS.threadRoot f); [by apply NoDup_filter|done].
Qed.

(** ** The banner *)

Lemma banner_reserved e : byId IDS.banner e = true → reserved e = true.
Proof.
  unfold byId, reserved. intros ->. by rewrite orb_true_r.
Qed.

Lemma getElementById_Some i f b :
  getElementById i f = Some b →
  ∃ p, p ∈ elemsF f ∧ byId i p.1 = true ∧ nid p.1 = b.
Proof.
  unfold getElementById, querySelector. intros H.
  apply querySelectorAll_elem_of. apply head_Some in H as [l ->]. left.
Qed.

Lemma singleBanner_head f b :
  singleBanner f → getElementById IDS.banner f = Some b →
  querySelectorAll (byId IDS.banner) f = [b].
Proof.
  unfold singleBanner, getElementById, querySelector.
  destruct (querySelectorAll _ f) as [|x [|y l]]; simpl; intros Hs H.
  - done.
  - by injection H as ->.
  - lia.
Qed.

Lemma marked_sameHidden h e e' : sameHidden e e' → marked h e → marked h e'.
Proof. intros (_ & Hc & Ha) [H1 H2]. split; [by rewrite Hc|by rewrite Ha]. Qed.

Lemma removeBanner_runs s :
  Good s → singleBanner (document s) →
  runs removeBanner s
    (λ _ s', hostStep sameHidden s s'
             ∧ querySelectorAll (byId IDS.banner) (document s') = []
             ∧ messages s' = messages s ∧ codeBlocks s' = codeBlocks s).
Proof.
  intros Hg Hsb. pose proof Hg as [[Hnd Hb] Ht].
  unfold removeBanner. apply runs_bind, runs_getDocument.
  destruct (getElementById _ _) as [b|] eqn:Hget.
  - apply runs_domTree.
    destruct (getElementById_Some _ _ _ Hget) as (p & Hin & Hsel & Hp).
    assert (Hnot : ¬ isHost (document s) b).
    { rewrite <- Hp. apply not_isHost_reserved; auto using banner_reserved. }
    destruct (step_remove sameHidden sameHidden_refl b s Hg Hnot) as [Hs' Hg'].
    destruct (forest_remove_step sameHidden sameHidden_refl b _ Hnd Ht Hnot)
      as (_ & _ & _ & _ & Hq).
    split; [|split; [|done]].
    + split; [by apply Good_written|]. split; [done|]. split; [simpl; lia|done].
    + simpl. rewrite Hq, (singleBanner_head _ _ Hsb Hget).
      rewrite filter_cons, decide_False by (intros H; by apply H). done.
  - apply runs_ret. split; [apply hostStep_refl; [apply sameHidden_refl|done]|].
    split; [|done]. unfold getElementById, querySelector in Hget.
    by apply head_None in Hget.
Qed.

Lemma newBanner_reserved n : reserved (newBanner n) = true.
Proof.
  apply banner_reserved. unfold byId, newBanner. simpl.
  rewrite !lookup_insert_ne by (intros H; by vm_compute in H).
  rewrite lookup_insert_eq. by apply bool_decide_eq_true_2.
Qed.

Lemma newBanner_byId n : byId IDS.banner (newBanner n) = true.
Proof.
  unfold byId, newBanner. simpl.
  rewrite !lookup_insert_ne by (intros H; by vm_compute in H).
  rewrite lookup_insert_eq. by apply bool_decide_eq_true_2.
Qed.

Lemma newBanner_artefact n : artefact (newBanner n) [].
Proof.
  unfold artefact, newBanner. simpl.
  split; [done|]. split; [done|]. split; [done|]. split.
  - by rewrite !lookup_insert_ne by (intros H; by vm_compute in H).
  - intros H. by vm_compute in H.
Qed.

Lemma textContent_textNodes f b e t :
  lookup b f = Some (e, textNodes t) → textContent f b = Some t.
Proof.
  unfold textContent. intros ->. simpl. unfold textNodes.
  destruct (decide (t = "")) as [->|_]; [done|]. simpl. done.
Qed.

Lemma NoDup_only {A} (l : list A) (a : A) :
  NoDup l → a ∈ l → (∀ x, x ∈ l → x = a) → l = [a].
Proof.
  intros Hnd Ha Hall. destruct l as [|x l]; [by apply elem_of_nil in Ha|].
  assert (x = a) as -> by (apply Hall; left).
  destruct l as [|y l]; [done|].
  assert (y = a) as -> by (apply Hall; right; left).
  apply NoDup_cons in Hnd as [Hn _]. exfalso. apply Hn. left.
Qed.

Lemma set_textContent_lookup b t f e ks :
  NoDup (ids f) → lookup b f = Some (e, ks) →
  lookup b (set_textContent b t f) = Some (e, textNodes t).
Proof.
  intros Hnd Hl. unfold set_textContent.
  apply (lookup_atKids_here b _ f e ks Hnd Hl).
  apply lookup_None. rewrite (ids_no_elems _ (elemsF_textNodes t)). apply not_elem_of_nil.
Qed.

Lemma insertAt_shape ref new l :
  ref ∈ childIds l →
  ∃ l1 e ks l2, l = l1 ++ Elem e ks :: l2 ∧ nid e = ref
    ∧ insertAt ref new l = l1 ++ new :: Elem e ks :: l2.
Proof.
  induction l as [|n l IH]; intros Hr; [by apply elem_of_nil in Hr|].
  cbn [insertAt]. destruct n as [t|e ks].
  - rewrite isNode_text. rewrite childIds_cons_text in Hr.
    destruct (IH Hr) as (l1 & e & ks & l2 & -> & He & Hi).
    exists (Text t :: l1), e, ks, l2. by rewrite Hi.
  - rewrite isNode_elem. rewrite childIds_cons_elem in Hr.
    destruct (decide (nid e = ref)) as [He|He].
    + rewrite bool_decide_eq_true_2 by done. by exists [], e, ks, l.
    + rewrite bool_decide_eq_false_2 by done.
      apply elem_of_cons in Hr as [Hr|Hr]; [congruence|].
      destruct (IH Hr) as (l1 & e' & ks' & l2 & -> & He' & Hi).
      exists (Elem e ks :: l1), e', ks', l2. by rewrite Hi.
Qed.

Lemma insertBefore_fresh host e ref f eh kh :
  NoDup (ids f) → parentOf f ref = Some (eh, kh) → nid eh = host →
  nid e ∉ ids f →
  insertBefore host (e, []) ref f = Done (place host ref (Elem e []) f)
  ∧ lookup host (place host ref (Elem e []) f)
    = Some (eh, insertAt ref (Elem e []) kh)
  ∧ ref ∈ childIds kh.
Proof.
  intros Hnd Hp Hh Hfresh. unfold parentOf in Hp.
  apply head_Some in Hp as [rest Hp].
  assert (Hin : (eh, kh) ∈ filter (λ p, ref ∈ childIds p.2) (elemsF f))
    by (rewrite Hp; left).
  apply list_elem_of_filter in Hin as [Hc Hin]. cbn [snd] in Hc.
  assert (Hhost : host ∈ ids f).
  { rewrite <- Hh. by apply (elem_of_elemsF_ids f (eh, kh)). }
  assert (Href : ref ∈ ids f).
  { apply (ids_kids f eh kh Hin). by apply childIds_ids. }
  assert (Hl : lookup host f = Some (eh, kh)).
  { rewrite <- Hh. by apply (lookup_NoDup f (eh, kh)). }
  split; [|split; [|done]].
  - unfold insertBefore. cbn [fst snd].
    rewrite bool_decide_eq_false_2.
    2: { change (ids []) with (@nil nat). rewrite list_elem_of_singleton.
         intros ->. by apply Hfresh. }
    assert (Hpe : parentElement f ref = Some host).
    { unfold parentElement, parentOf. rewrite Hp. cbn. by rewrite Hh. }
    rewrite Hpe, bool_decide_eq_true_2 by done. cbn [negb].
    rewrite decide_False by (intros <-; by apply Hfresh).
    by rewrite (remove_absent _ _ Hfresh).
  - unfold place. apply (lookup_atKids_here host _ f eh kh Hnd Hl).
    rewrite lookup_insertAt_other; [|intros ->; by apply Hfresh|done].
    apply lookup_None. destruct (NoDup_ids_kids f eh kh Hnd Hin) as [_ Hni].
    by rewrite <- Hh.
Qed.

Lemma updateBanner_runs hc T K turns s :
  Good s → singleBanner (document s) →
  (0 < hc → ∃ first host, head turns = Some first ∧ isHost (document s) first
                          ∧ parentElement (document s) first = Some host) →
  runs (updateBanner hc T K turns) s
    (λ _ s', hostStep sameHidden s s'
       ∧ singleBanner (document s')
       ∧ (is_Some (getElementById IDS.banner (document s')) ↔ 0 < hc)
       ∧ (∀ b, getElementById IDS.banner (document s') = Some b →
               textContent (document s') b = Some (bannerText hc T K))
       ∧ messages s' = messages s ∧ codeBlocks s' = codeBlocks s
       ∧ (0 < hc → ∀ b, getElementById IDS.banner (document s) = Some b →
                        getElementById IDS.banner (document s') = Some b)
       ∧ (0 < hc → getElementById IDS.banner (document s) = None →
          ∀ first host, head turns = Some first →
            parentElement (document s) first = Some host →
            ∃ b eh l1 eb kb ef kf l2,
              getElementById IDS.banner (document s') = Some b
              ∧ lookup host (document s')
                = Some (eh, l1 ++ Elem eb kb :: Elem ef kf :: l2)
              ∧ nid eb = b ∧ nid ef = first)
       ∧ (0 < hc → (treeWrites s < treeWrites s')%nat)).
Proof.
  intros Hg Hsb Hfirst. pose proof Hg as [[Hnd Hb] Ht].
  unfold updateBanner. destruct (bool_decide (hc ≤ 0)) eqn:Hhc.
  - apply bool_decide_eq_true in Hhc.
    eapply runs_impl; [by apply removeBanner_runs|].
    intros [] s' (H1 & H2 & H3 & H4). split; [done|].
    unfold singleBanner, getElementById, querySelector. rewrite H2. simpl.
    split; [lia|]. split; [|split; [done|split; [done|split; [done|split; [|split]]]]].
    + split; [intros [? [=]]|lia].
    + intros; lia.
    + intros; lia.
    + intros; lia.
  - apply bool_decide_eq_false in Hhc.
    destruct Hfirst as (first & host & Hhead & Href & Hp); [lia|].
    apply runs_bind, runs_getDocument.
    unfold getBannerHost. rewrite Hhead. simpl. rewrite Hp.
    set (txt := bannerText hc T K).
    destruct (getElementById IDS.banner (document s)) as [b|] eqn:Hget.
    + apply runs_bind, runs_ret, runs_domTree.
      destruct (getElementById_Some _ _ _ Hget) as ([eb kb] & Hin & Hsel & Hpb).
      simpl in Hsel, Hpb.
      assert (Hnot : ¬ isHost (document s) b).
      { rewrite <- Hpb. apply (not_isHost_reserved _ (eb, kb)); auto using banner_reserved. }
      pose proof (step_text sameHidden sameHidden_refl b txt s Hg Hnot) as Hstep.
      pose proof Hstep as (_ & _ & _ & _ & Hq). simpl in Hq.
      assert (Hl : lookup b (document s) = Some (eb, kb)).
      { rewrite <- Hpb. by apply (lookup_NoDup _ (eb, kb)). }
      split; [by apply step_hostStep|].
      unfold singleBanner, getElementById, querySelector. simpl. rewrite Hq.
      split; [done|]. fold (querySelector (byId IDS.banner) (document s)).
      fold (getElementById IDS.banner (document s)). rewrite Hget.
      split; [split; [lia|eauto]|]. split; [|split; [done|split; [done|split; [|split]]]].
      * intros b' [= <-]. eapply textContent_textNodes.
        apply (set_textContent_lookup b txt _ eb kb Hnd Hl).
      * intros _ b' Hb'. exact Hb'.
      * intros _ [=].
      * intros _. cbn [written treeWrites setDocument]. lia.
    + apply runs_bind, runs_bind. eexists _, _. split; [reflexivity|].
      set (n := nextId s).
      set (s1 := mkState (document s) (S n) (messages s) (codeBlocks s) (storage s) (treeWrites s)).
      fold (newBanner n).
      assert (Hfresh : n ∉ ids (document s)).
      { intros Hc0. specialize (Hb n Hc0). unfold n in Hb. lia. }
      destruct (forest_insertBefore_step sameHidden sameHidden_refl
                  sameHidden_trans sameHidden_core host first (newBanner n) []
                  (document s) Hnd Ht Hp Href)
        as (f' & Hins & Hnd' & Ht' & Hs' & Hids & Hl' & _ & Hq).
      { apply newBanner_reserved. }
      { apply newBanner_artefact. }
      { left. exact Hfresh. }
      apply runs_bind. eapply (runs_domTry _ s1); [exact Hins|]. apply runs_ret.
      set (s2 := written (setDocument f' s1)).
      assert (Hg2 : Good s2).
      { split; [split|]; simpl; auto.
        intros x Hx. apply Hids in Hx as [Hx|Hx].
        - specialize (Hb x Hx). fold n in Hb. lia.
        - simpl in Hx. lia. }
      assert (Hq2 : querySelectorAll (byId IDS.banner) f' = [n]).
      { apply NoDup_only.
        - by apply querySelectorAll_NoDup.
        - apply querySelectorAll_elem_of. exists (newBanner n, []).
          split; [|split; [apply newBanner_byId|done]].
          by apply lookup_Some in Hl' as [? _].
        - intros x Hx. apply Hq in Hx as [Hx|[-> _]]; [|done].
          unfold getElementById, querySelector in Hget.
          apply head_None in Hget. rewrite Hget in Hx. by apply elem_of_nil in Hx. }
      assert (Hnot : ¬ isHost f' n).
      { apply (not_isHost_reserved f' (newBanner n, [])); [done| |apply newBanner_reserved].
        by apply lookup_Some in Hl' as [? _]. }
      apply runs_domTree.
      pose proof (step_text sameHidden sameHidden_refl n txt s2 Hg2 Hnot) as Hstep.
      pose proof Hstep as (_ & _ & _ & _ & Hq3). simpl in Hq3.
      split.
      { eapply hostStep_trans; [apply sameHidden_trans| |apply step_hostStep, Hstep].
        split; [done|]. split; [done|]. simpl. split; [lia|done]. }
      unfold singleBanner, getElementById, querySelector. simpl.
      change (nid (newBanner n)) with n. rewrite Hq3, Hq2. simpl.
      split; [lia|]. split; [split; [lia|eauto]|].
      split; [|split; [done|split; [done|split; [|split]]]].
      2: { intros _ b' [=]. }
      3: { intros _. unfold s2, s1. cbn [written treeWrites setDocument]. lia. }
      * intros b' [= <-]. eapply textContent_textNodes.
        apply (set_textContent_lookup n txt f' _ _ Hnd' Hl').
      * intros _ _ first' host' Hhead' Hp'.
        try rewrite Hhead in Hhead'. injection Hhead' as <-.
        rewrite Hp in Hp'. injection Hp' as <-.
        pose proof Hp as Hpo. unfold parentElement in Hpo.
        destruct (parentOf (document s) first) as [[eh kh]|] eqn:Hpar; [|done].
        cbn in Hpo. injection Hpo as Hh.
        destruct (insertBefore_fresh host (newBanner n) first (document s) eh kh
                    Hnd Hpar Hh Hfresh) as (Hins' & Hlh & Hc).
        change (document s1) with (document s) in Hins.
        rewrite Hins' in Hins. injection Hins as <-.
        destruct (insertAt_shape first (Elem (newBanner n) []) kh Hc)
          as (l1 & ef & kf & l2 & _ & Hef & Hshape).
        assert (Hhn : host ≠ n).
        { intros ->. apply Hfresh. rewrite <- Hh.
          apply head_Some in Hpar as [rest Hpar].
          assert (Hin : (eh, kh) ∈ filter (λ p, first ∈ childIds p.2)
                                      (elemsF (document s)))
            by (unfold parentOf in Hpar; rewrite Hpar; left).
          apply list_elem_of_filter in Hin as [_ Hin].
          by apply (elem_of_elemsF_ids _ (eh, kh)). }
        eexists n, eh, _, (newBanner n), _, ef, _, _.
        split; [done|]. split; [|done].
        unfold set_textContent.
        rewrite (lookup_atKids n _ host _ Hnd').
        -- rewrite Hlh. cbn [fmap option_fmap option_map]. rewrite atKidsP_eq.
           cbn [fst snd]. rewrite decide_False by (by rewrite Hh).
           rewrite Hshape, atKids_map, map_app. cbn [map rewrite]. reflexivity.
        -- intros eh' kh' Hl''. change (nid (newBanner n)) with n in Hl'.
           rewrite Hl' in Hl''. injection Hl'' as <- <-.
           rewrite (proj2 (lookup_None host (textNodes txt))); [done|].
           rewrite (ids_no_elems _ (elemsF_textNodes txt)). apply not_elem_of_nil.
Qed.

(** ** One reconciliation pass *)

Lemma step_mono (R R' : edata → edata → Prop) s s' :
  (∀ e e', R e e' → R' e e') → step R s s' → step R' s s'.
Proof.
  intros HR (A1 & A2 & A3). split; [done|]. split; [|done].
  by apply (sameHost_weaken R R').
Qed.

Lemma hostStep_mono (R R' : edata → edata → Prop) s s' :
  (∀ e e', R e e' → R' e e') → hostStep R s s' → hostStep R' s s'.
Proof.
  intros HR (A1 & A2 & A3). split; [done|]. split; [|done].
  by apply (sameHost_weaken R R').
Qed.

Lemma stepH_stepC s s' : stepH s s' → stepC s s'.
Proof. apply step_mono, sameHidden_core. Qed.

Lemma step_banner R s s' :
  step R s s' →
  querySelectorAll (byId IDS.banner) (document s')
  = querySelectorAll (byId IDS.banner) (document s).
Proof. by intros (_ & _ & _ & _ & ?). Qed.

Lemma step_storage R s s' : step R s s' → storage s' = storage s.
Proof. by intros (_ & _ & _ & ? & _). Qed.

Lemma step_singleBanner R s s' :
  step R s s' → singleBanner (document s) → singleBanner (document s').
Proof. intros H. unfold singleBanner. by rewrite (step_banner R s s' H). Qed.

Lemma loadSettings_runs s (Q : Settings → State → Prop) :
  st_fault (storage s) = None →
  (∀ settings, keepLastN settings
               = clampKeepLastN (storedOr (JS.JInt (keepLastN DEFAULT_SETTINGS))
                                          (st_keepLastN (storage s))) →
               Q settings s) →
  runs loadSettings s Q.
Proof.
  intros Hf HQ. unfold runs, loadSettings. rewrite Hf.
  eexists _, _. split; [reflexivity|]. by apply HQ.
Qed.

Lemma applyTrimming_pass s :
  Good s → singleBanner (document s) →
  is_Some (documentElement (document s)) →
  st_fault (storage s) = None →
  firstTurnPlaced (document s) →
  let turns := getConversationTurns (document s) in
  let T := Z.of_nat (length turns) in
  let K := clampKeepLastN (storedOr (JS.JInt (keepLastN DEFAULT_SETTINGS))
                                    (st_keepLastN (storage s))) in
  let hc := Z.max 0 (T - K) in
  runs applyTrimming s
    (λ r s', r = mkApplyResult hc T K
       ∧ hostStep sameCore s s'
       ∧ singleBanner (document s')
       ∧ (∀ i t, turns !! i = Some t →
            ∃ e ks, lookup t (document s') = Some (e, ks)
                    ∧ marked (bool_decide (Z.of_nat i < hc)) e)
       ∧ (is_Some (getElementById IDS.banner (document s')) ↔ 0 < hc)
       ∧ (∀ b, getElementById IDS.banner (document s') = Some b →
               textContent (document s') b = Some (bannerText hc T K))
       ∧ (0 < hc → ∀ b, getElementById IDS.banner (document s) = Some b →
                        getElementById IDS.banner (document s') = Some b)
       ∧ (0 < hc → getElementById IDS.banner (document s) = None →
          ∀ first host, head turns = Some first →
            parentElement (document s) first = Some host →
            ∃ b eh l1 eb kb ef kf l2,
              getElementById IDS.banner (document s') = Some b
              ∧ lookup host (document s')
                = Some (eh, l1 ++ Elem eb kb :: Elem ef kf :: l2)
              ∧ nid eb = b ∧ nid ef = first)
       ∧ (0 < hc → (treeWrites s < treeWrites s')%nat)).
Proof.
  intros Hg Hsb Hroot Hfault Hplaced turns T K hc.
  pose proof Hg as [[Hnd Hb] Ht].
  assert (HK : 1 ≤ K ≤ 500) by apply clampKeepLastN_range.
  unfold applyTrimming, applyTrimmingResumed.
  apply runs_bind. eapply runs_impl; [by apply ensureStyleTag_runs|].
  intros [] s1 H1. pose proof (step_Good _ _ _ H1) as Hg1.
  apply runs_bind. apply loadSettings_runs.
  { by rewrite (step_storage _ _ _ H1). }
  intros settings Hkeep. rewrite (step_storage _ _ _ H1) in Hkeep. fold K in Hkeep.
  apply runs_bind, runs_getDocument.
  rewrite (step_getConversationTurns sameHidden sameHidden_core s s1 Hg H1).
  fold turns. fold T. rewrite Hkeep. fold hc.
  apply runs_bind. eapply runs_impl.
  { apply applyMinimalUi_runs; [done|].
    by rewrite (hostStep_documentElement sameHidden s s1 Hg (step_hostStep _ _ _ H1)). }
  intros [] s2 H2. pose proof (step_Good _ _ _ H2) as Hg2.
  pose proof (stepH_trans _ _ _ H1 H2) as H12.
  destruct (decide (length turns = 0%nat)) as [Hlen|Hlen].
  - apply runs_bind. eapply runs_impl.
    { apply removeBanner_runs; [done|]. by apply (step_singleBanner _ s s2 H12). }
    intros [] s3 (H3 & Hq3 & _). apply runs_ret.
    assert (Hhc : hc = 0) by (unfold hc, T; rewrite Hlen; simpl; lia).
    assert (HT : T = 0) by (unfold T; by rewrite Hlen).
    rewrite Hhc, HT.
    split; [done|]. split; [|split; [|split; [|split; [|split; [|split; [|split]]]]]].
    8: { intros; lia. }
    + eapply hostStep_trans; [apply sameCore_trans| |].
      * apply step_hostStep, stepH_stepC, H12.
      * apply (hostStep_mono sameHidden sameCore); [apply sameHidden_core|exact H3].
    + unfold singleBanner. rewrite Hq3. simpl. lia.
    + intros i t Hi. apply length_zero_iff_nil in Hlen. by rewrite Hlen in Hi.
    + unfold getElementById, querySelector. rewrite Hq3. simpl.
      split; [intros [? [=]]|lia].
    + unfold getElementById, querySelector. rewrite Hq3. by intros b [=].
    + intros; lia.
    + intros; lia.
  - assert (Hturns : ∀ t, t ∈ turns → isHost (document s) t).
    { intros t. by apply getConversationTurns_isHost. }
    apply runs_bind. eapply runs_impl.
    { apply (markTurns_runs turns (λ i, bool_decide (Z.of_nat i < hc))); [done|].
      by apply getConversationTurns_NoDup. }
    intros [] s3 (H3 & Hmarks & _). pose proof (step_Good _ _ _ H3) as Hg3.
    apply runs_bind. eapply runs_impl; [by apply applyCollapsibleFeatures_runs|].
    intros [] s4 H4. pose proof (step_Good _ _ _ H4) as Hg4.
    pose proof (step_trans sameCore sameCore_trans _ _ _
                  (step_trans sameCore sameCore_trans _ _ _ (stepH_stepC _ _ H12) H3)
                  (stepH_stepC _ _ H4)) as H04.
    apply runs_bind. eapply runs_impl.
    { apply (updateBanner_runs hc T K turns s4 Hg4).
      - by apply (step_singleBanner _ s s4 H04).
      - intros _. destruct turns as [|first rest] eqn:Hturns'; [done|].
        destruct (Hplaced first) as [host Hhost]; [by fold turns; rewrite Hturns'|].
        exists first, host. split; [done|].
        assert (Hf : isHost (document s) first) by (apply Hturns; left).
        split; [by apply (step_isHost sameCore sameCore_core s s4)|].
        by rewrite (step_parentElement sameCore sameCore_core s s4 first Hg H04 Hf). }
    intros [] s5 (H5 & Hsb5 & Hiff & Htxt & _ & _ & Hreuse & Hplace & Hgrow).
    apply runs_ret.
    split; [done|]. split; [|split; [done|split; [|split; [done|split; [done|split; [|split]]]]]].
    5: { intros Hpos. specialize (Hgrow Hpos).
         destruct H04 as (_ & _ & [_ Hw] & _). lia. }
    + eapply hostStep_trans; [apply sameCore_trans|apply step_hostStep, H04|].
      apply (hostStep_mono sameHidden sameCore); [apply sameHidden_core|exact H5].
    + intros i t Hi.
      assert (Hin : t ∈ turns) by (by eapply list_elem_of_lookup_2).
      assert (Hh3 : isHost (document s3) t).
      { apply (step_isHost sameCore sameCore_core s s3); auto.
        eapply step_trans; [apply sameCore_trans|apply stepH_stepC, H12|exact H3]. }
      destruct Hh3 as (e & ks & Hl & Hr).
      pose proof (Hmarks i t e ks Hi Hl) as Hm.
      assert (H35 : hostStep sameHidden s3 s5).
      { eapply hostStep_trans; [apply sameHidden_trans|apply step_hostStep, H4|exact H5]. }
      destruct (hostStep_lookup sameHidden sameHidden_core s3 s5 t e ks Hg3 H35 Hl Hr)
        as (e' & ks' & Hl' & _ & HR).
      exists e', ks'. split; [done|]. by apply (marked_sameHidden _ e e').
    + intros Hpos b Hb0. apply (Hreuse Hpos).
      unfold getElementById, querySelector.
      rewrite (step_banner _ s s4 H04). exact Hb0.
    + intros Hpos Hnone first host Hhead Hpar.
      assert (Hf : isHost (document s) first).
      { apply Hturns. destruct turns as [|t0 rest]; [done|].
        injection Hhead as ->. left. }
      apply (Hplace Hpos); [|exact Hhead|].
      * unfold getElementById, querySelector.
        rewrite (step_banner _ s s4 H04). exact Hnone.
      * by rewrite (step_parentElement sameCore sameCore_core s s4 first Hg H04 Hf).
Qed.

(** C1. One reconciliation pass over a tidy, well-formed document whose
    storage answers and whose first turn has a parent element: with [T]
    located turns and the stored keep count clamped to [K >= 1],
    [applyTrimming] returns [hiddenCount = max 0 (T - K)] together with [T]
    and [K]; the located turns are the same afterwards, the turn at index
    [i] carries both hidden markers when [i < hiddenCount] and neither
    otherwise; the banner exists exactly when [hiddenCount > 0], and then
    its text is the literal sentence built from [hiddenCount], [K] and
    [T]. *)
Theorem applyTrimming_correct s :
  Good s → singleBanner (document s) →
  is_Some (documentElement (document s)) →
  st_fault (storage s) = None →
  firstTurnPlaced (document s) →
  let turns := getConversationTurns (document s) in
  let T := Z.of_nat (length turns) in
  let K := clampKeepLastN (storedOr (JS.JInt (keepLastN DEFAULT_SETTINGS))
                                    (st_keepLastN (storage s))) in
  let hc := Z.max 0 (T - K) in
  ∃ s', applyTrimming s = Ok (mkApplyResult hc T K) s'
    ∧ 1 ≤ K
    ∧ getConversationTurns (document s') = turns
    ∧ (∀ i t, turns !! i = Some t →
         ∃ e ks, lookup t (document s') = Some (e, ks)
                 ∧ marked (bool_decide (Z.of_nat i < hc)) e)
    ∧ (is_Some (getElementById IDS.banner (document s')) ↔ 0 < hc)
    ∧ (∀ b, getElementById IDS.banner (document s') = Some b →
            textContent (document s') b
            = Some (pretty hc +:+ " older messages hidden. Showing the last "
                      +:+ pretty K +:+ " turns (" +:+ pretty T +:+ " total).")).
Proof.
  intros Hg Hsb Hroot Hfault Hplaced turns T K hc.
  destruct (applyTrimming_pass s Hg Hsb Hroot Hfault Hplaced)
    as (r & s' & Hrun & -> & Hstep & _ & Hmarks & Hiff & Htxt & _).
  exists s'. split; [exact Hrun|]. split; [apply clampKeepLastN_range|].
  split; [|split; [exact Hmarks|split; [exact Hiff|exact Htxt]]].
  by apply (hostStep_getConversationTurns sameCore sameCore_core).
Qed.

(** ** What a computation leaves alone *)

Section Keeps.
Variable Rel : State → State → Prop.
Hypothesis Rel_refl : ∀ s, Rel s s.
Hypothesis Rel_trans : ∀ s1 s2 s3, Rel s1 s2 → Rel s2 s3 → Rel s1 s3.
Hypothesis Rel_doc :
  ∀ s f n w, Rel s (mkState f n (messages s) (codeBlocks s) (storage s) w).

Lemma keeps_ret {A} (a : A) s : keeps Rel (ret a) s.
Proof. apply Rel_refl. Qed.


Lemma keeps_bind {A B} (m : M A) (k : A → M B) s :
  keeps Rel m s → (∀ a s', m s = Ok a s' → keeps Rel (k a) s') →
  keeps Rel (bind m k) s.
Proof.
  unfold keeps, bind. intros H1 H2. destruct (m s) as [a s'|err s'] eqn:Hm.
  - eapply Rel_trans; [exact H1|]. by apply H2.
  - exact H1.
Qed.

Lemma keeps_forEach {A} (l : list A) (body : A → M unit) s :
  (∀ a s, keeps Rel (body a) s) → keeps Rel (forEach l body) s.
Proof.
  intros Hb. revert s. induction l as [|a l IH]; intros s.
  - apply keeps_ret.
  - simpl. apply keeps_bind; [apply Hb|]. intros _ s' _. apply IH.
Qed.


Lemma keeps_dom g s : keeps Rel (dom g) s.
Proof. exact (Rel_doc s _ _ _). Qed.

Lemma keeps_domTree g s : keeps Rel (domTree g) s.
Proof. exact (Rel_doc s _ _ _). Qed.

Ltac keeps_write := first [apply keeps_dom | apply keeps_domTree].



Lemma keeps_getDocument s : keeps Rel getDocument s.
Proof. apply Rel_refl. Qed.




Lemma keeps_setTurnHidden t h s : keeps Rel (setTurnHidden t h) s.
Proof.
  unfold setTurnHidden. apply keeps_bind; [keeps_write|]. intros _ s' _.
  destruct h; keeps_write.
Qed.

Lemma keeps_removeBanner s : keeps Rel removeBanner s.
Proof.
  unfold removeBanner. apply keeps_bind; [apply keeps_getDocument|].
  intros f s' _. destruct (getElementById _ _); [keeps_write|apply keeps_ret].
Qed.

Lemma keeps_showAllTurns s : keeps Rel showAllTurns s.
Proof.
  unfold showAllTurns. apply keeps_bind; [apply keeps_getDocument|].
  intros f s' _. apply keeps_bind.
  - apply keeps_forEach. intros t s0. apply keeps_setTurnHidden.
  - intros _ s0 _. apply keeps_removeBanner.
Qed.

Lemma keeps_cleanupOf c cc s : keeps Rel (cleanupOf c cc) s.
Proof.
  unfold cleanupOf. apply keeps_bind; [apply keeps_getDocument|].
  intros f s1 _. apply keeps_bind.
  - apply keeps_forEach. intros b s0. keeps_write.
  - intros _ s2 _. apply keeps_bind; [apply keeps_getDocument|].
    intros f2 s3 _. apply keeps_forEach. intros b s0. keeps_write.
Qed.






End Keeps.

Lemma sameMaps_refl s : sameMaps s s.
Proof. done. Qed.

Lemma sameMaps_trans s1 s2 s3 : sameMaps s1 s2 → sameMaps s2 s3 → sameMaps s1 s3.
Proof. intros (A1 & A2 & A3) (B1 & B2 & B3). repeat split; congruence. Qed.

Lemma sameMaps_doc s f n w :
  sameMaps s (mkState f n (messages s) (codeBlocks s) (storage s) w).
Proof. done. Qed.




Lemma sameMaps_mapsGrow s s' : sameMaps s s' → mapsGrow s s'.
Proof. intros (A & B & C). split; [by rewrite A|]. split; [by rewrite B|done]. Qed.









(** ** Show all *)

Lemma marked_consistent h e : marked h e → consistent e.
Proof.
  intros [H1 H2]. unfold consistent. rewrite H1, H2. destruct h; split; done.
Qed.

(** [setTurnHidden] on any document: every element with the identity of
    [turn] ends up with both markers, or with neither. *)
Lemma setTurnHidden_marks turn h s :
  ∃ s', setTurnHidden turn h s = Ok tt s'
    ∧ ∀ p, p ∈ elemsF (document s') → nid p.1 = turn → marked h p.1.
Proof.
  unfold setTurnHidden, bind, dom, classList_toggle, setAttribute, removeAttribute.
  destruct h; eexists; (split; [reflexivity|]); simpl; intros p Hp Hn;
    rewrite !elemsF_update in Hp;
    apply list_elem_of_fmap in Hp as (p1 & -> & Hp);
    apply list_elem_of_fmap in Hp as (p0 & -> & Hp);
    rewrite !updateP_eq in *; cbn [fst snd] in *.
  - destruct (decide (nid p0.1 = turn)) as [H0|H0].
    + rewrite decide_True by done. split; simpl.
      * rewrite elem_of_union, elem_of_singleton. tauto.
      * by rewrite lookup_insert_eq.
    + rewrite decide_False in Hn by done. done.
  - destruct (decide (nid p0.1 = turn)) as [H0|H0].
    + rewrite decide_True by done. split; simpl.
      * rewrite elem_of_difference, elem_of_singleton. split; [tauto|done].
      * by rewrite lookup_delete_eq.
    + rewrite decide_False in Hn by done. done.
Qed.

Lemma removeBanner_toggles s :
  Good s →
  runs removeBanner s
    (λ _ s', hostStep sameHidden s s'
             ∧ sameToggles (document s) (document s')
             ∧ (singleBanner (document s) →
                getElementById IDS.banner (document s') = None)).
Proof.
  intros Hg. pose proof Hg as [[Hnd Hb] Ht].
  unfold removeBanner. apply runs_bind, runs_getDocument.
  destruct (getElementById _ _) as [b|] eqn:Hget.
  - apply runs_domTree.
    destruct (getElementById_Some _ _ _ Hget) as ([eb kb] & Hin & Hsel & Hp).
    simpl in Hsel, Hp.
    assert (Hnot : ¬ isHost (document s) b).
    { rewrite <- Hp. apply (not_isHost_reserved _ (eb, kb)); auto using banner_reserved. }
    destruct (step_remove sameHidden sameHidden_refl b s Hg Hnot) as [Hs' Hg'].
    destruct (forest_remove_step sameHidden sameHidden_refl b _ Hnd Ht Hnot)
      as (_ & _ & _ & _ & Hq).
    split; [|split].
    + split; [by apply Good_written|]. split; [done|]. split; [simpl; lia|done].
    + apply (sameToggles_remove b _ eb kb); auto.
      rewrite <- Hp. by apply (lookup_NoDup _ (eb, kb)).
    + intros Hsb. unfold getElementById, querySelector. simpl.
      rewrite Hq, (singleBanner_head _ _ Hsb Hget).
      rewrite filter_cons, decide_False by (intros H; by apply H). done.
  - apply runs_ret. split; [apply hostStep_refl; [apply sameHidden_refl|done]|].
    split; [apply sameToggles_refl|]. done.
Qed.

Lemma forEach_forIndex {A} (l : list A) (body : A → M unit) i :
  forEach l body = forIndex i l (λ _, body).
Proof. revert i. induction l as [|a l IH]; intros i; [done|]. simpl. by rewrite <- IH. Qed.

Lemma showAllTurns_pass s :
  Good s →
  runs showAllTurns s
    (λ _ s', hostStep sameCore s s'
       ∧ sameToggles (document s) (document s')
       ∧ (singleBanner (document s) →
          getElementById IDS.banner (document s') = None)
       ∧ (∀ t, t ∈ getConversationTurns (document s) →
            ∃ e ks, lookup t (document s') = Some (e, ks) ∧ marked false e)).
Proof.
  intros Hg. pose proof Hg as [[Hnd Hb] Ht].
  unfold showAllTurns. apply runs_bind, runs_getDocument.
  set (turns := getConversationTurns (document s)).
  assert (Hturns : ∀ t, t ∈ turns → isHost (document s) t).
  { intros t. by apply getConversationTurns_isHost. }
  apply runs_bind. rewrite (forEach_forIndex turns _ 0). eapply runs_impl.
  { apply (markTurns_runs turns (λ _, false)); [done|].
    by apply getConversationTurns_NoDup. }
  intros [] s1 (H1 & Hmarks & Htog). pose proof (step_Good _ _ _ H1) as Hg1.
  eapply runs_impl; [by apply removeBanner_toggles|].
  intros [] s2 (H2 & Htog2 & Hban).
  split; [|split; [|split]].
  - eapply hostStep_trans; [apply sameCore_trans|apply step_hostStep, H1|].
    apply (hostStep_mono sameHidden sameCore); [apply sameHidden_core|exact H2].
  - eapply sameToggles_trans; [by apply Htog|exact Htog2].
  - intros Hsb. apply Hban. by apply (step_singleBanner _ s s1 H1).
  - intros t Hin.
    destruct (list_elem_of_lookup_1 _ _ Hin) as [i Hi].
    assert (Hh1 : isHost (document s1) t).
    { apply (step_isHost sameCore sameCore_core s s1); auto. }
    destruct Hh1 as (e & ks & Hl & Hr).
    pose proof (Hmarks i t e ks Hi Hl) as Hm.
    destruct (hostStep_lookup sameHidden sameHidden_core s1 s2 t e ks Hg1 H2 Hl Hr)
      as (e' & ks' & Hl' & _ & HR).
    exists e', ks'. split; [done|]. by apply (marked_sameHidden _ e e').
Qed.

Lemma showAllTurns_returns s : ∃ s', showAllTurns s = Ok tt s'.
Proof.
  assert (H : runs showAllTurns s (λ _ _, True)).
  { unfold showAllTurns. apply runs_bind, runs_getDocument, runs_bind.
    eapply runs_impl.
    - apply (runs_forEach (λ _, True)); [done|]. intros t s0 _ _.
      unfold setTurnHidden. apply runs_bind, runs_dom. destruct false; by apply runs_dom.
    - intros [] s1 _. unfold removeBanner. apply runs_bind, runs_getDocument.
      destruct (getElementById _ _); [by apply runs_domTree|by apply runs_ret]. }
  destruct H as ([] & s' & Hrun & _). eauto.
Qed.

(** C10. The two hidden markers agree.  [setTurnHidden turn hidden], run
    on any document, leaves every element with the identity of [turn] with
    the hidden class exactly when [hidden], and with the attribute
    [data-cgpt-trimmer-hidden] equal to 1 exactly when it has the class.
    After a show-all pass, and after a reconciliation pass, over a tidy,
    well-formed document, every located turn is an element whose class and
    attribute agree in this way. *)
Theorem hidden_markers_agree :
  (∀ turn hidden s,
     ∃ s', setTurnHidden turn hidden s = Ok tt s'
       ∧ ∀ p, p ∈ elemsF (document s') → nid p.1 = turn →
              (CLASSES.hiddenTurn ∈ classes p.1 ↔ hidden = true)
              ∧ consistent p.1)
  ∧ (∀ s, Good s →
       ∃ s', showAllTurns s = Ok tt s'
         ∧ ∀ t, t ∈ getConversationTurns (document s') →
                ∃ e ks, lookup t (document s') = Some (e, ks) ∧ consistent e)
  ∧ (∀ s, Good s → singleBanner (document s) →
       is_Some (documentElement (document s)) →
       st_fault (storage s) = None →
       firstTurnPlaced (document s) →
       ∃ r s', applyTrimming s = Ok r s'
         ∧ ∀ t, t ∈ getConversationTurns (document s') →
                ∃ e ks, lookup t (document s') = Some (e, ks) ∧ consistent e).
Proof.
  split; [|split].
  - intros turn hidden s.
    destruct (setTurnHidden_marks turn hidden s) as (s' & Hrun & Hm).
    exists s'. split; [done|]. intros p Hp Hn.
    pose proof (Hm p Hp Hn) as Hmp. split; [apply Hmp|].
    by apply (marked_consistent hidden).
  - intros s Hg.
    destruct (showAllTurns_pass s Hg) as ([] & s' & Hrun & Hstep & _ & _ & Hm).
    exists s'. split; [done|]. intros t Hin.
    rewrite (hostStep_getConversationTurns sameCore sameCore_core s s' Hg Hstep) in Hin.
    destruct (Hm t Hin) as (e & ks & Hl & Hmk).
    exists e, ks. split; [done|]. by apply (marked_consistent false).
  - intros s Hg Hsb Hroot Hfault Hplaced.
    destruct (applyTrimming_pass s Hg Hsb Hroot Hfault Hplaced)
      as (r & s' & Hrun & _ & Hstep & _ & Hm & _).
    exists r, s'. split; [done|]. intros t Hin.
    rewrite (hostStep_getConversationTurns sameCore sameCore_core s s' Hg Hstep) in Hin.
    destruct (list_elem_of_lookup_1 _ _ Hin) as [i Hi].
    destruct (Hm i t Hi) as (e & ks & Hl & Hmk).
    exists e, ks. split; [done|]. by eapply marked_consistent.
Qed.

(** C5. A [TRIMMER_SHOW_ALL] request, on any state: the listener calls
    back once, with [ok: true] and [hiddenCount: 0] and nothing else, and no
    exception leaves it; the storage and the two collapse-state maps are
    as before.  On a tidy, well-formed document the located turns are the
    same afterwards and each is an element without the hidden class and
    without the hidden attribute, every toggle button is in the document
    as before with the same data and children, and, if at most one element
    had the banner's id, no element has it afterwards. *)
Theorem show_all_correct s :
  ∃ s', onMessage TRIMMER_SHOW_ALL s
        = mkHandled s' [mkResponse true (Some 0) None None None] None
    ∧ storage s' = storage s
    ∧ messages s' = messages s
    ∧ codeBlocks s' = codeBlocks s
    ∧ (Good s →
       getConversationTurns (document s') = getConversationTurns (document s)
       ∧ (∀ t, t ∈ getConversationTurns (document s') →
            ∃ e ks, lookup t (document s') = Some (e, ks)
                    ∧ (CLASSES.hiddenTurn ∉ classes e)
                    ∧ attrs e !! ATTRS.hidden = None)
       ∧ sameToggles (document s) (document s')
       ∧ (singleBanner (document s) →
          getElementById IDS.banner (document s') = None)).
Proof.
  destruct (showAllTurns_returns s) as (s' & Hrun).
  pose proof (keeps_showAllTurns sameMaps sameMaps_refl sameMaps_trans sameMaps_doc s)
    as Hkeep.
  unfold keeps in Hkeep. rewrite Hrun in Hkeep. simpl in Hkeep.
  destruct Hkeep as (Hm & Hc & Hst).
  exists s'. split; [simpl; by rewrite Hrun|].
  split; [done|]. split; [done|]. split; [done|].
  intros Hg.
  destruct (showAllTurns_pass s Hg) as ([] & s2 & Hrun2 & Hstep & Htog & Hban & Hmk).
  rewrite Hrun in Hrun2. injection Hrun2 as <-.
  pose proof (hostStep_getConversationTurns sameCore sameCore_core s s' Hg Hstep) as Ht.
  split; [done|]. split; [|split; [done|done]].
  intros t Hin. rewrite Ht in Hin.
  destruct (Hmk t Hin) as (e & ks & Hl & [H1 H2]).
  exists e, ks. split; [done|]. split; [|done].
  intros Hc'. by apply H1 in Hc'.
Qed.

(** ** Switching a collapse feature off *)

Lemma datas_update x g f :
  (elemsF (update x g f)).*1
  = (λ e, if decide (nid e = x) then g e else e) <$> (elemsF f).*1.
Proof.
  rewrite elemsF_update, <- !list_fmap_compose. apply list_fmap_ext.
  intros i p _. reflexivity.
Qed.

Lemma querySelectorAll_none sel f :
  (∀ p, p ∈ elemsF f → sel p.1 = true → False) → querySelectorAll sel f = [].
Proof.
  intros H. unfold querySelectorAll. rewrite filter_none; [done|]. exact H.
Qed.

Lemma datas_remove_sub b f e :
  e ∈ (elemsF (remove b f)).*1 → e ∈ (elemsF f).*1 ∧ nid e ≠ b.
Proof.
  intros H. apply list_elem_of_fmap in H as (p' & -> & Hp').
  apply elemsF_remove_sub in Hp' as (p & Hp & -> & Hn).
  rewrite removeP_eq. simpl. split; [|done].
  apply list_elem_of_fmap. eauto.
Qed.

Lemma removeAll_runs l s :
  ∃ s', forEach l (λ button, domTree (remove button)) s = Ok tt s'
    ∧ ∀ e, e ∈ (elemsF (document s')).*1 →
           e ∈ (elemsF (document s)).*1 ∧ nid e ∉ l.
Proof.
  revert s. induction l as [|b l IH]; intros s.
  - exists s. split; [done|]. intros e He. split; [done|]. apply not_elem_of_nil.
  - destruct (IH (written (setDocument (remove b (document s)) s)))
      as (s' & Hrun & Hs').
    exists s'. split; [exact Hrun|]. intros e He.
    destruct (Hs' e He) as [H1 H2]. simpl in H1.
    apply datas_remove_sub in H1 as [H1 H3]. split; [done|].
    rewrite not_elem_of_cons. auto.
Qed.

Lemma unclassAll_runs (cc : string) l s :
  ∃ s', forEach l (λ node, dom (classList_remove node cc)) s = Ok tt s'
    ∧ ∀ e', e' ∈ (elemsF (document s')).*1 →
        ∃ e, e ∈ (elemsF (document s)).*1
             ∧ tag e' = tag e ∧ classes e' ⊆ classes e
             ∧ (nid e ∈ l → cc ∉ classes e')
             ∧ (nid e ∉ l → e' = e).
Proof.
  revert s. induction l as [|x l IH]; intros s.
  - exists s. split; [done|]. intros e He. exists e. split; [done|].
    split; [done|]. split; [done|]. split; [|done].
    intros H. by apply elem_of_nil in H.
  - destruct (IH (setDocument (classList_remove x cc (document s)) s))
      as (s' & Hrun & Hs').
    exists s'. split; [exact Hrun|]. intros e' He'.
    destruct (Hs' e' He') as (e1 & H1 & Htag & Hcls & Hin & Hout).
    simpl in H1. unfold classList_remove in H1. rewrite datas_update in H1.
    apply list_elem_of_fmap in H1 as (e0 & -> & H0).
    exists e0. split; [done|].
    destruct (decide (nid e0 = x)) as [Hx|Hx]; simpl in *.
    + split; [done|]. split; [|split].
      * intros c Hc. apply Hcls in Hc. cbn [classes withClasses] in Hc.
        by apply elem_of_difference in Hc as [? _].
      * intros _ Hc. apply Hcls in Hc. cbn [classes withClasses] in Hc.
        apply elem_of_difference in Hc as [_ Hc]. apply Hc.
        by apply elem_of_singleton.
      * intros Hn. exfalso. apply Hn. rewrite Hx. left.
    + split; [done|]. split; [done|]. split.
      * intros Hl. apply Hin. apply elem_of_cons in Hl as [Hl|Hl]; [done|done].
      * intros Hn. apply Hout. intros Hl. apply Hn. by right.
Qed.

Lemma cleanupOf_clears c cc s :
  ∃ s', cleanupOf c cc s = Ok tt s'
    ∧ querySelectorAll (SELECTORS.buttonWithClass c) (document s') = []
    ∧ querySelectorAll (SELECTORS.withClass cc) (document s') = []
    ∧ sameMaps s s'.
Proof.
  pose proof (keeps_cleanupOf sameMaps sameMaps_refl sameMaps_trans sameMaps_doc c cc s)
    as Hkeep.
  unfold keeps in Hkeep. unfold cleanupOf in *. unfold bind at 1, getDocument at 1 in Hkeep.
  unfold bind at 1, getDocument at 1.
  set (l1 := querySelectorAll (SELECTORS.buttonWithClass c) (document s)) in *.
  destruct (removeAll_runs l1 s) as (s1 & Hrun1 & H1).
  unfold bind at 1 in Hkeep. unfold bind at 1. rewrite Hrun1 in *.
  unfold bind at 1, getDocument at 1 in Hkeep. unfold bind at 1, getDocument at 1.
  set (l2 := querySelectorAll (SELECTORS.withClass cc) (document s1)) in *.
  destruct (unclassAll_runs cc l2 s1) as (s2 & Hrun2 & H2).
  rewrite Hrun2 in *. simpl in Hkeep.
  exists s2. split; [done|]. split; [|split; [|done]].
  - apply querySelectorAll_none. intros p Hp Hsel.
    destruct (H2 p.1) as (e1 & He1 & Htag & Hcls & _).
    { apply list_elem_of_fmap. eauto. }
    destruct (H1 e1 He1) as [He0 Hn]. apply Hn.
    apply list_elem_of_fmap in He0 as (p0 & -> & Hp0).
    apply querySelectorAll_elem_of. exists p0. split; [done|]. split; [|done].
    unfold SELECTORS.buttonWithClass in *.
    apply andb_true_iff in Hsel as [Ht Hc].
    apply bool_decide_eq_true in Ht. apply bool_decide_eq_true in Hc.
    apply andb_true_iff. split; apply bool_decide_eq_true.
    + by rewrite <- Htag.
    + by apply Hcls.
  - apply querySelectorAll_none. intros p Hp Hsel.
    unfold SELECTORS.withClass in Hsel. apply bool_decide_eq_true in Hsel.
    destruct (H2 p.1) as (e1 & He1 & Htag & Hcls & Hin & Hout).
    { apply list_elem_of_fmap. eauto. }
    destruct (decide (nid e1 ∈ l2)) as [Hl|Hl]; [by apply (Hin Hl)|].
    apply Hl. rewrite (Hout Hl) in Hsel.
    apply list_elem_of_fmap in He1 as (p1 & -> & Hp1).
    apply querySelectorAll_elem_of. exists p1. split; [done|]. split; [|done].
    unfold SELECTORS.withClass. by apply bool_decide_eq_true.
Qed.

(** C8. Switching a collapse feature off, on any state and for any turn
    list: [applyMessageCollapsers turns false] returns and leaves no
    [button] with the message-toggle class and no element with the
    collapsed-user-message class in the document;
    [applyCodeCollapsers turns false] returns and leaves no [button] with
    the code-toggle class and no element with the collapsed-code-block
    class.  Either way the two collapse-state maps, whatever they hold, and
    the storage are as before. *)
Theorem disabling_collapse_clears turns s :
  (∃ s', applyMessageCollapsers turns false s = Ok tt s'
     ∧ querySelectorAll (SELECTORS.buttonWithClass CLASSES.messageToggle)
         (document s') = []
     ∧ querySelectorAll (SELECTORS.withClass CLASSES.collapsedUserMessage)
         (document s') = []
     ∧ messages s' = messages s ∧ codeBlocks s' = codeBlocks s
     ∧ storage s' = storage s)
  ∧ (∃ s', applyCodeCollapsers turns false s = Ok tt s'
     ∧ querySelectorAll (SELECTORS.buttonWithClass CLASSES.codeToggle)
         (document s') = []
     ∧ querySelectorAll (SELECTORS.withClass CLASSES.collapsedCodeBlock)
         (document s') = []
     ∧ messages s' = messages s ∧ codeBlocks s' = codeBlocks s
     ∧ storage s' = storage s).
Proof.
  split.
  - destruct (cleanupOf_clears CLASSES.messageToggle CLASSES.collapsedUserMessage s)
      as (s' & Hrun & H1 & H2 & H3 & H4 & H5).
    exists s'. by repeat split.
  - destruct (cleanupOf_clears CLASSES.codeToggle CLASSES.collapsedCodeBlock s)
      as (s' & Hrun & H1 & H2 & H3 & H4 & H5).
    exists s'. by repeat split.
Qed.

(** ** Locating the turns *)

Lemma filter_filter_and {A} (P Q : A → Prop) `{∀ x, Decision (P x)}
    `{∀ x, Decision (Q x)} (l : list A) :
  filter P (filter Q l) = filter (λ x, Q x ∧ P x) l.
Proof.
  induction l as [|a l IH]; [done|].
  rewrite (filter_cons Q), (filter_cons (λ x, Q x ∧ P x)).
  destruct (decide (Q a)) as [Hq|Hq].
  - rewrite filter_cons. destruct (decide (P a)) as [Hp|Hp].
    + rewrite decide_True by done. by rewrite IH.
    + rewrite decide_False by tauto. done.
  - rewrite decide_False by tauto. done.
Qed.

(** C9. The turn locator, on any document.  The candidates are the
    matches of the primary selector, or, when there is none, those of the
    fallback selector; of the candidates, in document order, exactly those
    are returned that are HTML elements and, when an element has the id
    [thread], lie inside the first such element.  When neither selector
    matches anything the result is the empty list. *)
Theorem getConversationTurns_spec f :
  let primary := querySelectorAll SELECTORS.conversationTurnsPrimary f in
  let fallback := querySelectorAll SELECTORS.conversationTurnsFallback f in
  let candidates := match primary with [] => fallback | _ => primary end in
  let inRoot x :=
    match querySelector SELECTORS.threadRoot f with
    | Some root => contains f root x = true
    | None => True
    end in
  (∀ x, x ∈ getConversationTurns f ↔
        x ∈ candidates ∧ inRoot x ∧ isHTMLElement f x = true)
  ∧ getConversationTurns f `sublist_of` candidates
  ∧ (primary = [] ∧ fallback = [] → getConversationTurns f = []).
Proof.
  intros primary fallback candidates inRoot.
  assert (Hc : (if decide (length primary = 0%nat) then fallback else primary)
               = candidates).
  { unfold candidates. destruct primary; done. }
  unfold getConversationTurns. fold primary. fold fallback. rewrite Hc.
  split; [|split].
  - intros x. unfold inRoot.
    destruct (querySelector SELECTORS.threadRoot f) as [root|].
    + rewrite !list_elem_of_filter. tauto.
    + rewrite list_elem_of_filter. tauto.
  - destruct (querySelector SELECTORS.threadRoot f) as [root|].
    + etrans; apply sublist_filter.
    + apply sublist_filter.
  - intros [Hp Hf]. unfold candidates. rewrite Hp, Hf.
    by destruct (querySelector SELECTORS.threadRoot f).
Qed.

(** ** Rendering a collapse state *)

Lemma lookup_update_fwd x g y f e ks :
  (∀ e, nid (g e) = nid e) → lookup y f = Some (e, ks) →
  lookup y (update x g f)
  = Some (if decide (y = x) then g e else e, update x g ks).
Proof.
  intros Hn Hl. rewrite (lookup_update x g Hn), Hl. simpl. f_equal.
  rewrite updateP_eq. cbn [fst snd].
  apply lookup_Some in Hl as [_ Hy]. simpl in Hy. rewrite Hy.
  by destruct (decide (y = x)).
Qed.

Lemma lookup_set_textContent_other b t y f e ks :
  NoDup (ids f) → tidy f → ¬ isHost f b → lookup y f = Some (e, ks) →
  reserved e = false →
  ∃ ks', lookup y (set_textContent b t f) = Some (e, ks').
Proof.
  intros Hnd Ht Hb Hl Hr. unfold set_textContent.
  rewrite (lookup_atKids b _ y f Hnd).
  - rewrite Hl. simpl. rewrite atKidsP_eq. cbn [fst snd]. eauto.
  - intros eh kh Hlb.
    assert (Hrb : reserved eh = true).
    { destruct (reserved eh) eqn:E; [done|]. exfalso. apply Hb. by exists eh, kh. }
    pose proof (lookup_Some _ _ _ Hlb) as [Hin _].
    destruct (tidy_artefact f eh kh Ht Hin Hrb) as (Hk & _).
    transitivity (@None (edata * list node)).
    + apply lookup_None. rewrite (ids_no_elems _ (elemsF_textNodes t)).
      apply not_elem_of_nil.
    + symmetry. apply lookup_None. rewrite (ids_no_elems _ Hk).
      apply not_elem_of_nil.
Qed.

Section Renders.
Variables (cc showLabel hideLabel : string).
Hypothesis Hcc : cc ∈ engineClasses.
Hypothesis Hcc' : cc ≠ CLASSES.hiddenTurn.

(** What [setMessageCollapsed] and [setCodeCollapsed] have in common. *)
Lemma setCollapsed_renders m b v s :
  Good s → isHost (document s) m → ¬ isHost (document s) b →
  runs (dom (classList_toggle m cc v) ;;
        dom (setAttribute b "aria-expanded" (String_bool (negb v))) ;;
        domTree (set_textContent b (if v then showLabel else hideLabel))) s
    (λ _ s', stepH s s'
       ∧ messages s' = messages s ∧ codeBlocks s' = codeBlocks s
       ∧ ∃ e ks, lookup m (document s') = Some (e, ks)
                 ∧ (cc ∈ classes e ↔ v = true)).
Proof.
  intros Hg (e0 & ks0 & Hl0 & Hr0) Hb.
  apply runs_bind, runs_dom, runs_bind, runs_dom, runs_domTree.
  set (s1 := setDocument (classList_toggle m cc v (document s)) s).
  assert (H1 : stepH s s1).
  { apply stepH_update; [done|]. intros e. by apply sameHidden_toggle. }
  pose proof (step_Good _ _ _ H1) as Hg1.
  set (s2 := setDocument (setAttribute b "aria-expanded" _ (document s1)) s1).
  assert (H2 : stepH s1 s2).
  { apply stepH_update; [done|]. intros e. apply sameHidden_aria. }
  pose proof (step_Good _ _ _ H2) as Hg2.
  pose proof (stepH_trans _ _ _ H1 H2) as H12.
  assert (Hb2 : ¬ isHost (document s2) b) by apply (stepH_notHost s s2 b Hg H12 Hb).
  split; [|split; [done|split; [done|]]].
  { eapply stepH_trans; [exact H12|]. by apply stepH_text. }
  assert (Hbm : m ≠ b).
  { intros ->. apply Hb. by exists e0, ks0. }
  set (g := withClasses (λ cs : gset string, if v then {[cc]} ∪ cs else cs ∖ {[cc]})).
  assert (Hl1 : lookup m (document s1) = Some (g e0, update m g ks0)).
  { unfold s1, classList_toggle. simpl.
    rewrite (lookup_update_fwd m g m _ e0 ks0); [|done|done].
    by rewrite decide_True. }
  assert (Hl2 : ∃ ks2, lookup m (document s2) = Some (g e0, ks2)).
  { unfold s2, setAttribute. simpl.
    rewrite (lookup_update_fwd b (withAttrs (insert "aria-expanded" (String_bool (negb v))))
               m _ _ _ (λ _, eq_refl) Hl1).
    rewrite decide_False by done. eauto. }
  destruct Hl2 as (ks2 & Hl2).
  destruct Hg2 as [[Hnd2 _] Ht2].
  destruct (lookup_set_textContent_other b (if v then showLabel else hideLabel)
              m (document s2) (g e0) ks2 Hnd2 Ht2 Hb2 Hl2) as (ks3 & Hl3).
  { rewrite <- Hr0. apply sameCore_reserved. apply sameCore_toggle, Hcc. }
  exists (g e0), ks3. split; [exact Hl3|].
  unfold g. simpl. destruct v.
  - rewrite elem_of_union, elem_of_singleton. tauto.
  - rewrite elem_of_difference, elem_of_singleton. split; [tauto|done].
Qed.
End Renders.

Lemma setMessageCollapsed_renders m b v s :
  Good s → isHost (document s) m → ¬ isHost (document s) b →
  runs (setMessageCollapsed m b v) s
    (λ _ s', stepH s s'
       ∧ messages s' = messages s ∧ codeBlocks s' = codeBlocks s
       ∧ ∃ e ks, lookup m (document s') = Some (e, ks)
                 ∧ (CLASSES.collapsedUserMessage ∈ classes e ↔ v = true)).
Proof.
  apply (setCollapsed_renders CLASSES.collapsedUserMessage
           LABELS.showMyMessage LABELS.hideMyMessage engine_collapsedUser).
  intros H. by vm_compute in H.
Qed.

Lemma setCodeCollapsed_renders p b v s :
  Good s → isHost (document s) p → ¬ isHost (document s) b →
  runs (setCodeCollapsed p b v) s
    (λ _ s', stepH s s'
       ∧ messages s' = messages s ∧ codeBlocks s' = codeBlocks s
       ∧ ∃ e ks, lookup p (document s') = Some (e, ks)
                 ∧ (CLASSES.collapsedCodeBlock ∈ classes e ↔ v = true)).
Proof.
  apply (setCollapsed_renders CLASSES.collapsedCodeBlock
           LABELS.showCode LABELS.hideCode engine_collapsedCode).
  intros H. by vm_compute in H.
Qed.




(** ** Messages from the popup *)

Lemma clampKeepLastN_fix z : 1 ≤ z ≤ 500 → clampKeepLastN (JS.JInt z) = z.
Proof.
  intros Hz.
  assert (H : Forall (λ z, clampKeepLastN (JS.JInt z) = z) (seqZ 1 500)).
  { apply (bool_decide_unpack _). vm_compute. exact I. }
  rewrite Forall_forall in H. apply H. apply elem_of_seqZ. lia.
Qed.

Lemma clampKeepLastN_idem v :
  clampKeepLastN (JS.JInt (clampKeepLastN v)) = clampKeepLastN v.
Proof. apply clampKeepLastN_fix, clampKeepLastN_range. Qed.

Lemma Good_fields s f n m c st w :
  f = document s → n = nextId s → Good s → Good (mkState f n m c st w).
Proof. intros -> -> [[H1 H2] H3]. by split; [split|]. Qed.

(** A [TRIMMER_APPLY] request on a good page whose storage answers: the
    settings are saved, then one pass runs on the page as it is, and its
    result is the response. *)
Lemma onMessage_apply_runs kN mUi cOwn cCode s :
  st_fault (storage s) = None →
  Good s → singleBanner (document s) →
  is_Some (documentElement (document s)) →
  firstTurnPlaced (document s) →
  let K := clampKeepLastN kN in
  let normalised :=
    mkSettings K (JS.Boolean mUi) (JS.Boolean cOwn) (JS.Boolean cCode) in
  let turns := getConversationTurns (document s) in
  let T := Z.of_nat (length turns) in
  let hc := Z.max 0 (T - K) in
  ∃ s0 s',
    saveSettings normalised s = Ok tt s0
    ∧ document s0 = document s
    ∧ storage s0 = mkStorage (Some (JS.JInt K))
                     (Some (JS.JBool (JS.Boolean mUi)))
                     (Some (JS.JBool (JS.Boolean cOwn)))
                     (Some (JS.JBool (JS.Boolean cCode))) None
    ∧ applyTrimming s0 = Ok (mkApplyResult hc T K) s'
    ∧ onMessage (TRIMMER_APPLY kN mUi cOwn cCode) s
      = mkHandled s' [mkResponse true (Some hc) (Some T) (Some K) None] None
    ∧ storage s' = storage s0
    ∧ getConversationTurns (document s') = turns
    ∧ (∀ i t, turns !! i = Some t →
         ∃ e ks, lookup t (document s') = Some (e, ks)
                 ∧ marked (bool_decide (Z.of_nat i < hc)) e)
    ∧ (is_Some (getElementById IDS.banner (document s')) ↔ 0 < hc)
    ∧ (∀ b, getElementById IDS.banner (document s') = Some b →
            textContent (document s') b = Some (bannerText hc T K))
    ∧ (0 < hc → (treeWrites s < treeWrites s')%nat).
Proof.
  intros Hf Hg Hsb Hroot Hplaced K normalised turns T hc.
  set (s0 := mkState (document s) (nextId s) (messages s) (codeBlocks s)
               (mkStorage (Some (JS.JInt K))
                  (Some (JS.JBool (JS.Boolean mUi)))
                  (Some (JS.JBool (JS.Boolean cOwn)))
                  (Some (JS.JBool (JS.Boolean cCode))) None)
               (treeWrites s)).
  assert (Hsave : saveSettings normalised s = Ok tt s0).
  { unfold saveSettings. by rewrite Hf. }
  assert (Hg0 : Good s0) by (by apply (Good_fields s)).
  destruct (applyTrimming_pass s0 Hg0 Hsb Hroot eq_refl Hplaced)
    as (r & s' & Hrun & Hr & Hstep & _ & Hm & Hb & Htxt & _ & _ & Hgrow).
  assert (HK0 : clampKeepLastN (storedOr (JS.JInt (keepLastN DEFAULT_SETTINGS))
                                (st_keepLastN (storage s0))) = K).
  { apply clampKeepLastN_idem. }
  rewrite HK0 in Hr, Hm, Hb, Htxt, Hgrow. subst r.
  exists s0, s'. split; [exact Hsave|]. split; [reflexivity|].
  split; [reflexivity|]. split; [exact Hrun|]. split.
  { cbn [onMessage]. fold K. fold normalised. unfold bind at 1.
    by rewrite Hsave, Hrun. }
  split; [by destruct Hstep as (_ & _ & _ & ?)|].
  split; [by apply (hostStep_getConversationTurns sameCore sameCore_core s0 s')|].
  split; [exact Hm|]. split; [exact Hb|]. split; [exact Htxt|exact Hgrow].
Qed.

Lemma onMessage_apply_pass kN mUi cOwn cCode s :
  st_fault (storage s) = None →
  Good s → singleBanner (document s) →
  is_Some (documentElement (document s)) →
  firstTurnPlaced (document s) →
  let K := clampKeepLastN kN in
  let turns := getConversationTurns (document s) in
  let T := Z.of_nat (length turns) in
  let hc := Z.max 0 (T - K) in
  ∃ s', onMessage (TRIMMER_APPLY kN mUi cOwn cCode) s
        = mkHandled s' [mkResponse true (Some hc) (Some T) (Some K) None] None
    ∧ storage s' = mkStorage (Some (JS.JInt K))
                     (Some (JS.JBool (JS.Boolean mUi)))
                     (Some (JS.JBool (JS.Boolean cOwn)))
                     (Some (JS.JBool (JS.Boolean cCode))) None
    ∧ (∀ i t, turns !! i = Some t →
         ∃ e ks, lookup t (document s') = Some (e, ks)
                 ∧ marked (bool_decide (Z.of_nat i < hc)) e)
    ∧ (is_Some (getElementById IDS.banner (document s')) ↔ 0 < hc).
Proof.
  intros Hf Hg Hsb Hroot Hplaced K turns T hc.
  destruct (onMessage_apply_runs kN mUi cOwn cCode s Hf Hg Hsb Hroot Hplaced)
    as (s0 & s' & _ & _ & Hst0 & _ & Hrun & Hst & _ & Hm & Hb & _).
  exists s'. split; [exact Hrun|]. split; [by rewrite Hst|]. done.
Qed.

(** C6. A [TRIMMER_APPLY] request, on any state and with any payload: the
    listener calls back exactly once and no exception leaves it; the
    response has [ok: true] and the three counts and no error, or
    [ok: false] and an error and no counts; and the state that the
    listener leaves is the one that saving the normalised settings and
    then one run of [applyTrimming] leave.  When the storage call throws,
    the response is [ok: false] with that error and the state is as
    before.  When the settings are saved and the pass throws, the
    response is [ok: false] with the error of the pass.  When the storage
    answers and the document is tidy and well formed with a root element
    and a parent for the first turn, the handler saves the normalised
    settings, which changes the storage alone, and then runs one pass on
    that state, which returns [hiddenCount = max 0 (T - K)],
    [totalCount = T] and [keepLastN = K], for [T] the number of located
    turns and [K] the clamped keep count of the payload; the response is
    [ok: true] with these three; and in the state that the handler
    leaves the storage holds the normalised settings, the located turns
    are the same, the turn at index [i] has both hidden markers if
    [i < hiddenCount] and neither otherwise, and the banner is there
    exactly if [hiddenCount > 0], with the sentence built from the three
    numbers as its text. *)
Theorem trimmer_apply_correct kN mUi cOwn cCode s :
  let request := TRIMMER_APPLY kN mUi cOwn cCode in
  let K := clampKeepLastN kN in
  let normalised :=
    mkSettings K (JS.Boolean mUi) (JS.Boolean cOwn) (JS.Boolean cCode) in
  let turns := getConversationTurns (document s) in
  let T := Z.of_nat (length turns) in
  let hc := Z.max 0 (T - K) in
  (∃ response,
     h_responses (onMessage request s) = [response]
     ∧ h_escaped (onMessage request s) = None
     ∧ (r_ok response = true ∧ is_Some (r_hiddenCount response)
          ∧ is_Some (r_totalCount response) ∧ is_Some (r_keepLastN response)
          ∧ r_error response = None
        ∨ r_ok response = false ∧ is_Some (r_error response)
          ∧ r_hiddenCount response = None ∧ r_totalCount response = None
          ∧ r_keepLastN response = None))
  ∧ h_state (onMessage request s)
    = finalState ((saveSettings normalised ;; applyTrimming) s)
  ∧ (∀ err, st_fault (storage s) = Some err →
       onMessage request s
       = mkHandled s [mkResponse false None None None (Some err)] None)
  ∧ (∀ s0 err s1,
       saveSettings normalised s = Ok tt s0 → applyTrimming s0 = Throw err s1 →
       onMessage request s
       = mkHandled s1 [mkResponse false None None None (Some err)] None)
  ∧ (st_fault (storage s) = None →
     Good s → singleBanner (document s) →
     is_Some (documentElement (document s)) →
     firstTurnPlaced (document s) →
     ∃ s0 s',
       saveSettings normalised s = Ok tt s0
       ∧ document s0 = document s
       ∧ storage s0 = mkStorage (Some (JS.JInt K))
                        (Some (JS.JBool (JS.Boolean mUi)))
                        (Some (JS.JBool (JS.Boolean cOwn)))
                        (Some (JS.JBool (JS.Boolean cCode))) None
       ∧ applyTrimming s0 = Ok (mkApplyResult hc T K) s'
       ∧ onMessage request s
         = mkHandled s'
             [mkResponse true (Some (Z.max 0 (T - K))) (Some T) (Some K) None]
             None
       ∧ storage s' = storage s0
       ∧ getConversationTurns (document s') = turns
       ∧ (∀ i t, turns !! i = Some t →
            ∃ e ks, lookup t (document s') = Some (e, ks)
                    ∧ marked (bool_decide (Z.of_nat i < hc)) e)
       ∧ (is_Some (getElementById IDS.banner (document s')) ↔ 0 < hc)
       ∧ (∀ b, getElementById IDS.banner (document s') = Some b →
               textContent (document s') b = Some (bannerText hc T K))).
Proof.
  intros request K normalised turns T hc.
  split; [|split; [|split; [|split]]].
  - unfold request. cbn [onMessage].
    destruct ((saveSettings _ ;; applyTrimming) s) as [r s'|err s'];
      eexists; (split; [reflexivity|]); (split; [reflexivity|]); simpl.
    + left. repeat split; eauto.
    + right. repeat split; eauto.
  - unfold request. cbn [onMessage]. fold K. fold normalised.
    by destruct ((saveSettings normalised ;; applyTrimming) s).
  - intros err Hf. unfold request. cbn [onMessage].
    unfold bind, saveSettings. by rewrite Hf.
  - intros s0 err s1 Hsave Hthrow. unfold request. cbn [onMessage].
    fold K. fold normalised. unfold bind at 1. by rewrite Hsave, Hthrow.
  - intros Hf Hg Hsb Hroot Hplaced.
    destruct (onMessage_apply_runs kN mUi cOwn cCode s Hf Hg Hsb Hroot Hplaced)
      as (s0 & s' & H1 & H2 & H3 & H4 & H5 & H6 & H7 & H8 & H9 & H10 & _).
    exists s0, s'. done.
Qed.

(** ** The escape hatch *)



(** ** The checkers are sound *)

Lemma artefactb_sound e ks : artefactb e ks = true → artefact e ks.
Proof.
  unfold artefactb, artefact. intros H.
  apply andb_true_iff in H as [H H5]. apply andb_true_iff in H as [H H4].
  apply andb_true_iff in H as [H H3]. apply andb_true_iff in H as [H1 H2].
  apply bool_decide_eq_true in H2. apply bool_decide_eq_true in H3.
  apply bool_decide_eq_true in H4.
  split; [by destruct (elemsF ks)|]. split; [done|]. split; [done|].
  split; [done|]. intros Ht. rewrite Ht in H5. simpl in H5.
  by apply bool_decide_eq_true in H5.
Qed.

Lemma tidyb_sound f : tidyb f = true → tidy f.
Proof.
  unfold tidyb, tidy. intros H. apply andb_true_iff in H as [H1 H2]. split.
  - intros e ks Hin Hr. rewrite forallb_forall in H1.
    apply list_elem_of_In in Hin. specialize (H1 _ Hin). simpl in H1.
    rewrite Hr in H1. by apply artefactb_sound.
  - apply Forall_forall. intros n Hn. rewrite forallb_forall in H2.
    apply list_elem_of_In in Hn. specialize (H2 _ Hn).
    by apply bool_decide_eq_true in H2.
Qed.

Lemma goodb_sound s : goodb s = true → Good s.
Proof.
  unfold goodb. intros H. apply andb_true_iff in H as [H H3].
  apply andb_true_iff in H as [H1 H2]. apply bool_decide_eq_true in H1.
  split; [split; [done|]|by apply tidyb_sound].
  intros x Hx. rewrite forallb_forall in H2.
  apply list_elem_of_In in Hx. specialize (H2 _ Hx).
  by apply bool_decide_eq_true in H2.
Qed.

Lemma exampleState_good : Good exampleState.
Proof. apply goodb_sound. vm_compute. reflexivity. Qed.

Lemma exampleTrimmed_good : Good exampleTrimmed.
Proof. apply goodb_sound. vm_compute. reflexivity. Qed.

(** ** The theorems on the example page *)

Lemma exampleState_placed : firstTurnPlaced (document exampleState).
Proof.
  intros first H. vm_compute in H. injection H as <-.
  exists 5%nat. vm_compute. reflexivity.
Qed.

Lemma exampleState_banner : singleBanner (document exampleState).
Proof. vm_compute. lia. Qed.

Lemma exampleState_root : is_Some (documentElement (document exampleState)).
Proof. exists 1%nat. reflexivity. Qed.

Lemma applyTrimming_correct_witness :
  ∃ s', applyTrimming exampleState = Ok (mkApplyResult 1 3 2) s'
    ∧ is_Some (getElementById IDS.banner (document s')).
Proof.
  destruct (applyTrimming_correct exampleState)
    as (s' & Hrun & _ & _ & _ & Hb & _).
  - apply goodb_sound. vm_compute. reflexivity.
  - vm_compute. lia.
  - exists 1%nat. reflexivity.
  - reflexivity.
  - intros first H. vm_compute in H. injection H as <-.
    exists 5%nat. vm_compute. reflexivity.
  - exists s'. split; [exact Hrun|]. apply Hb. vm_compute. reflexivity.
Defined.

Lemma clampKeepLastN_correct_witness : clampKeepLastN (JS.JInt 42) = 42.
Proof.
  pose proof (clampKeepLastN_correct (JS.JInt 42)) as (_ & H & _).
  assert (Hp : JS.parseMathInt (JS.String (JS.JInt 42)) = Some 42) by reflexivity.
  rewrite Hp in H. destruct H as [H _]. apply H. vm_compute. reflexivity.
Defined.


Lemma show_all_correct_witness :
  ∃ s', onMessage TRIMMER_SHOW_ALL exampleTrimmed
        = mkHandled s' [mkResponse true (Some 0) None None None] None
    ∧ getElementById IDS.banner (document s') = None.
Proof.
  destruct (show_all_correct exampleTrimmed) as (s' & Hrun & _ & _ & _ & H).
  destruct H as (_ & _ & _ & Hb).
  - apply goodb_sound. vm_compute. reflexivity.
  - exists s'. split; [exact Hrun|]. apply Hb. vm_compute. lia.
Defined.

Lemma trimmer_apply_correct_witness :
  ∃ s0 s', saveSettings (mkSettings 1 false true true) exampleState = Ok tt s0
    ∧ applyTrimming s0 = Ok (mkApplyResult 2 3 1) s'
    ∧ onMessage (TRIMMER_APPLY (JS.JStr "1") (JS.JBool false) (JS.JBool true)
                   (JS.JBool true)) exampleState
      = mkHandled s' [mkResponse true (Some 2) (Some 3) (Some 1) None] None
    ∧ is_Some (getElementById IDS.banner (document s')).
Proof.
  destruct (trimmer_apply_correct (JS.JStr "1") (JS.JBool false) (JS.JBool true)
              (JS.JBool true) exampleState) as (_ & _ & _ & _ & H).
  destruct H as (s0 & s' & Hsave & _ & _ & Hpass & Hrun & _ & _ & _ & Hb & _).
  - reflexivity.
  - apply goodb_sound. vm_compute. reflexivity.
  - vm_compute. lia.
  - exists 1%nat. reflexivity.
  - intros first H. vm_compute in H. injection H as <-.
    exists 5%nat. vm_compute. reflexivity.
  - exists s0, s'. split; [exact Hsave|]. split; [exact Hpass|].
    split; [exact Hrun|]. apply Hb. vm_compute. reflexivity.
Defined.


(** C7, as the claim has it, does not hold.  On the example page after a
    pass, when the host page has dropped the toggle of the first user
    message: a click on the element 11 inside the first turn is not on a
    message toggle, its article is the turn 10, and the user message
    node 12 of that turn is collapsed, with its entry [true]; the
    listener returns and has changed nothing, so that the message is
    still collapsed and its entry is still [true].  And on the example
    page whose third turn the host page has renumbered before another
    pass: a click on the element 31 inside that turn expands its user
    message node 32, but the entry that is set to [false] is the one of
    the old key, which the first toggle in the turn still carries; the
    entry of the message, under the key of its turn now, stays [true],
    and the next pass collapses the message again. *)
Lemma escape_hatch_counterexample :
  (let s := exampleUntoggled in
   closest (document s) 11 (SELECTORS.buttonWithClass CLASSES.messageToggle)
   = None
   ∧ closest (document s) 11 SELECTORS.article = Some 10%nat
   ∧ isHTMLElement (document s) 10 = true
   ∧ findUserMessageNode (document s) 10 = Some 12%nat
   ∧ hasClass (document s) 12 CLASSES.collapsedUserMessage = true
   ∧ getTurnKey (document s) 10 0 = "conversation-turn-1"
   ∧ messages s !! "conversation-turn-1::user-message" = Some true
   ∧ onDocumentClick 11 s = Ok tt s)
  ∧ (let s := exampleRenumbered in
     let s' := finalState (onDocumentClick 31 s) in
     closest (document s) 31 (SELECTORS.buttonWithClass CLASSES.messageToggle)
     = None
     ∧ closest (document s) 31 SELECTORS.article = Some 30%nat
     ∧ isHTMLElement (document s) 30 = true
     ∧ findUserMessageNode (document s) 30 = Some 32%nat
     ∧ hasClass (document s) 32 CLASSES.collapsedUserMessage = true
     ∧ getTurnKey (document s) 30 2 = "conversation-turn-4"
     ∧ messages s !! "conversation-turn-4::user-message" = Some true
     ∧ onDocumentClick 31 s = Ok tt s'
     ∧ hasClass (document s') 32 CLASSES.collapsedUserMessage = false
     ∧ messages s'
       = <["conversation-turn-3::user-message" := false]> (messages s)
     ∧ messages s' !! "conversation-turn-4::user-message" = Some true
     ∧ hasClass (document (finalState (applyTrimming s'))) 32
         CLASSES.collapsedUserMessage = true).
Proof.
  cbv zeta. split.
  - repeat (split; [vm_compute; reflexivity|]). vm_compute. reflexivity.
  - repeat (split; [vm_compute; reflexivity|]). vm_compute. reflexivity.
Qed.

Lemma getConversationTurns_spec_witness : getConversationTurns [] = [].
Proof.
  destruct (getConversationTurns_spec []) as (_ & _ & H).
  apply H. split; reflexivity.
Defined.

Lemma hidden_markers_agree_witness :
  ∃ s', showAllTurns exampleTrimmed = Ok tt s'
    ∧ ∀ t, t ∈ getConversationTurns (document s') →
           ∃ e ks, lookup t (document s') = Some (e, ks) ∧ consistent e.
Proof.
  destruct hidden_markers_agree as (_ & H & _).
  apply (H exampleTrimmed). apply goodb_sound. vm_compute. reflexivity.
Defined.

(* ===================================================================== *)
(** * Further properties of the content script *)
(* ===================================================================== *)

(** ** The status request *)

Lemma filter_prefix_length {A} (P : A → Prop) `{!∀ x, Decision (P x)}
    (l : list A) (n : nat) :
  (n ≤ length l)%nat →
  (∀ i a, l !! i = Some a → (P a ↔ (i < n)%nat)) →
  length (filter P l) = n.
Proof.
  revert n. induction l as [|a l IH]; intros n Hn Hall.
  - simpl in Hn. by replace n with 0%nat by lia.
  - rewrite filter_cons. destruct n as [|n].
    + rewrite decide_False.
      * apply IH; [lia|]. intros i b Hi. rewrite (Hall (S i) b Hi). lia.
      * rewrite (Hall 0%nat a eq_refl). lia.
    + rewrite decide_True by (rewrite (Hall 0%nat a eq_refl); lia).
      simpl. f_equal. apply IH; [simpl in Hn; lia|].
      intros i b Hi. rewrite (Hall (S i) b Hi). lia.
Qed.

Lemma hasClass_lookup f x e ks c :
  lookup x f = Some (e, ks) → (hasClass f x c = true ↔ c ∈ classes e).
Proof. unfold hasClass. intros ->. simpl. apply bool_decide_eq_true. Qed.

(** X1. After a reconciliation pass that returns, a [TRIMMER_STATUS]
    request is answered with the counts that the pass returned: [ok], the
    same number of hidden turns and the same total; and answering it
    changes nothing. *)
Theorem status_after_apply s :
  Good s → singleBanner (document s) →
  is_Some (documentElement (document s)) →
  st_fault (storage s) = None →
  firstTurnPlaced (document s) →
  ∃ r s', applyTrimming s = Ok r s'
    ∧ onMessage TRIMMER_STATUS s'
      = mkHandled s' [mkResponse true (Some (hiddenCount r))
                        (Some (totalCount r)) None None] None.
Proof.
  intros Hg Hsb Hroot Hfault Hplaced.
  destruct (applyTrimming_pass s Hg Hsb Hroot Hfault Hplaced)
    as (r & s' & Hrun & Hr & Hstep & _ & Hm & _).
  exists r, s'. split; [exact Hrun|]. rewrite Hr.
  cbn [onMessage hiddenCount totalCount].
  rewrite (hostStep_getConversationTurns sameCore sameCore_core s s' Hg Hstep).
  set (turns := getConversationTurns (document s)) in *.
  set (K := clampKeepLastN _) in *.
  set (hc := Z.max 0 (Z.of_nat (length turns) - K)) in *.
  assert (HK : 1 ≤ K ≤ 500) by apply clampKeepLastN_range.
  rewrite (filter_prefix_length _ turns (Z.to_nat hc)).
  - rewrite Z2Nat.id by lia. reflexivity.
  - lia.
  - intros i t Hi. destruct (Hm i t Hi) as (e & ks & Hl & [Hc _]).
    rewrite (hasClass_lookup _ _ e ks _ Hl), Hc, bool_decide_eq_true. lia.
Qed.

(** X2. After a show-all pass over a tidy, well-formed document, a
    [TRIMMER_STATUS] request reports no hidden turn, and as total the
    number of turns located before the pass. *)
Theorem status_after_show_all s :
  Good s →
  ∃ s', showAllTurns s = Ok tt s'
    ∧ onMessage TRIMMER_STATUS s'
      = mkHandled s'
          [mkResponse true (Some 0)
             (Some (Z.of_nat (length (getConversationTurns (document s)))))
             None None] None.
Proof.
  intros Hg.
  destruct (showAllTurns_pass s Hg) as ([] & s' & Hrun & Hstep & _ & _ & Hm).
  exists s'. split; [exact Hrun|]. cbn [onMessage].
  rewrite (hostStep_getConversationTurns sameCore sameCore_core s s' Hg Hstep).
  rewrite (filter_prefix_length _ _ 0%nat); [reflexivity|lia|].
  intros i t Hi.
  destruct (Hm t (list_elem_of_lookup_2 _ _ _ Hi)) as (e & ks & Hl & [Hc _]).
  rewrite (hasClass_lookup _ _ e ks _ Hl), Hc. split; [done|lia].
Qed.

(** ** Settings in the storage *)

(** X3. Settings survive the storage: when the storage call does not
    throw and the keep count of [v] is in [1, 500], [saveSettings v]
    returns, leaves the document and the collapse-state maps alone, and
    [loadSettings] then returns [v].  With nothing stored, [loadSettings]
    returns the defaults 6, true, true, true.  When the storage call
    throws, both throw and change nothing. *)
Theorem settings_round_trip s v :
  (st_fault (storage s) = None → 1 ≤ keepLastN v ≤ 500 →
   ∃ s1, saveSettings v s = Ok tt s1
     ∧ document s1 = document s
     ∧ messages s1 = messages s ∧ codeBlocks s1 = codeBlocks s
     ∧ loadSettings s1 = Ok v s1)
  ∧ (st_fault (storage s) = None →
     st_keepLastN (storage s) = None → st_minimalUi (storage s) = None →
     st_collapseOwnMessages (storage s) = None →
     st_collapseCodeBlocks (storage s) = None →
     loadSettings s = Ok (mkSettings 6 true true true) s)
  ∧ (∀ err, st_fault (storage s) = Some err →
       saveSettings v s = Throw err s ∧ loadSettings s = Throw err s).
Proof.
  split; [|split].
  - intros Hf Hv. eexists. unfold saveSettings. rewrite Hf.
    split; [reflexivity|]. split; [done|]. split; [done|]. split; [done|].
    unfold loadSettings. simpl.
    rewrite (clampKeepLastN_fix _ Hv). by destruct v.
  - intros Hf H1 H2 H3 H4. unfold loadSettings. rewrite Hf, H1, H2, H3, H4.
    reflexivity.
  - intros err Hf. unfold saveSettings, loadSettings. by rewrite Hf.
Qed.

(** ** Keys *)

Lemma truthy_Some o v : truthy o = Some v → o = Some v ∧ v ≠ "".
Proof.
  unfold truthy. destruct o as [w|]; [|done].
  destruct (decide (w = "")); [done|]. by intros [= ->].
Qed.

Lemma app_not_empty (a b : string) : a ≠ "" → a +:+ b ≠ "".
Proof. by destruct a. Qed.

(** X4. Turn keys.  [getTurnKey] never returns the empty string; it
    returns the turn's [data-testid] whenever that is present and not
    empty, whatever the index; and for a turn with none of the three
    identifying attributes set to a non-empty value, different indices
    give different keys. *)
Theorem getTurnKey_facts f turn :
  (∀ index, getTurnKey f turn index ≠ "")
  ∧ (∀ testId index,
       getAttribute f turn "data-testid" = Some testId → testId ≠ "" →
       getTurnKey f turn index = testId)
  ∧ (truthy (getAttribute f turn "data-testid") = None →
     truthy (getAttribute f turn "data-turn-id") = None →
     truthy (getAttribute f turn "data-turn") = None →
     ∀ i j, getTurnKey f turn i = getTurnKey f turn j → i = j).
Proof.
  split; [|split].
  - intros index. unfold getTurnKey.
    destruct (truthy (getAttribute f turn "data-testid")) as [v|] eqn:H1.
    { by apply truthy_Some in H1 as [_ ?]. }
    destruct (truthy (getAttribute f turn "data-turn-id")) as [v|] eqn:H2;
      [by apply app_not_empty|].
    destruct (truthy (getAttribute f turn "data-turn")) as [v|] eqn:H3;
      by apply app_not_empty.
  - intros testId index Ha Hne. unfold getTurnKey. rewrite Ha. simpl.
    by rewrite decide_False.
  - intros H1 H2 H3 i j. unfold getTurnKey. rewrite H1, H2, H3.
    intros H. apply (inj (String.app "turn-index:")) in H.
    by apply (inj pretty) in H.
Qed.

(** ** Reading back a printed integer *)

Lemma digitValue_pretty_N_char d :
  (d < 10)%N → JS.digitValue (pretty_N_char d) = Some (Z.of_N d).
Proof.
  intros Hd. destruct d as [|p]; [reflexivity|].
  do 4 (destruct p as [p|p|]; try reflexivity; try lia).
Qed.

Lemma digits_pretty_N_go x s :
  (0 < x)%N →
  JS.digits None (pretty_N_go x s) = JS.digits (Some (Z.of_N x)) s.
Proof.
  revert s. induction (N.lt_wf_0 x) as [x _ IH]. intros s Hx.
  rewrite pretty_N_go_step by done.
  assert (Hd : (x `mod` 10 < 10)%N) by (apply N.mod_lt; lia).
  assert (Hv : 10 * Z.of_N (x `div` 10) + Z.of_N (x `mod` 10) = Z.of_N x).
  { pose proof (N.div_mod x 10 ltac:(lia)) as E.
    rewrite E at 3. rewrite N2Z.inj_add, N2Z.inj_mul. reflexivity. }
  destruct (decide (x `div` 10 = 0)%N) as [H0|H0].
  - rewrite H0 in *. rewrite pretty_N_go_0. cbn [JS.digits].
    rewrite (digitValue_pretty_N_char _ Hd). cbn [default]. do 2 f_equal. exact Hv.
  - rewrite IH; [|apply N.div_lt; lia|by apply N.neq_0_lt_0]. cbn [JS.digits].
    rewrite (digitValue_pretty_N_char _ Hd). cbn [default]. do 2 f_equal. exact Hv.
Qed.

Lemma pretty_N_go_head x s :
  (0 < x)%N → ∃ d rest, (d < 10)%N ∧ pretty_N_go x s = String (pretty_N_char d) rest.
Proof.
  revert s. induction (N.lt_wf_0 x) as [x _ IH]. intros s Hx.
  rewrite pretty_N_go_step by done.
  destruct (decide (x `div` 10 = 0)%N) as [H0|H0].
  - rewrite H0, pretty_N_go_0. eexists _, _. split; [|reflexivity].
    apply N.mod_lt. lia.
  - apply IH; [apply N.div_lt; lia|by apply N.neq_0_lt_0].
Qed.

Lemma parse_digit_head d rest :
  (d < 10)%N →
  JS.parseMathInt (String (pretty_N_char d) rest)
  = JS.digits None (String (pretty_N_char d) rest).
Proof.
  intros Hd. destruct d as [|p]; [reflexivity|].
  do 4 (destruct p as [p|p|]; try reflexivity; try lia).
Qed.

Lemma pretty_pos_go (p : positive) : pretty p = pretty_N_go (N.pos p) "".
Proof.
  change (pretty p) with (pretty_N (N.pos p)). unfold pretty_N.
  by rewrite decide_False.
Qed.

Lemma parseMathInt_pretty z : JS.parseMathInt (pretty z) = Some z.
Proof.
  destruct z as [|p|p].
  - reflexivity.
  - change (pretty (Z.pos p)) with (pretty p). rewrite pretty_pos_go.
    destruct (pretty_N_go_head (N.pos p) "") as (d & rest & Hd & Heq); [lia|].
    rewrite Heq, (parse_digit_head d rest Hd), <- Heq.
    rewrite digits_pretty_N_go by lia. reflexivity.
  - change (pretty (Z.neg p)) with ("-" +:+ pretty p). rewrite pretty_pos_go.
    change (JS.parseMathInt ("-" +:+ pretty_N_go (N.pos p) ""))
      with (Z.opp <$> JS.digits None (pretty_N_go (N.pos p) "")).
    rewrite digits_pretty_N_go by lia. reflexivity.
Qed.

Lemma toNumber_small z : Z.abs z < 2 ^ 53 → JS.toNumber z = JS.Fin z.
Proof.
  intros Hz. unfold JS.toNumber, JS.roundNat.
  destruct (0 <=? z) eqn:H0.
  - apply Z.leb_le in H0. rewrite (proj2 (Z.ltb_lt z (2 ^ 53))) by lia. done.
  - apply Z.leb_gt in H0. rewrite (proj2 (Z.ltb_lt (- z) (2 ^ 53))) by lia.
    by rewrite Z.opp_involutive.
Qed.

Lemma String_JInt_small z :
  Z.abs z < 2 ^ 53 → JS.String (JS.JInt z) = pretty z.
Proof.
  intros Hz. cbn [JS.String]. rewrite (toNumber_small z Hz).
  unfold JS.numberToString. by rewrite (proj2 (Z.ltb_lt _ _) Hz).
Qed.


(** ** Clicks on a toggle *)

Lemma messageToggleClick_renders m b k s :
  Good s → isHost (document s) m → ¬ isHost (document s) b →
  runs (messageToggleClick m b k) s
    (λ _ s', stepH s s'
       ∧ messages s'
         = <[k := negb (bool_decide (messages s !! k = Some true))]> (messages s)
       ∧ codeBlocks s' = codeBlocks s
       ∧ ∃ e ks, lookup m (document s') = Some (e, ks)
                 ∧ (CLASSES.collapsedUserMessage ∈ classes e
                    ↔ messages s' !! k = Some true)).
Proof.
  intros Hg Hm Hb. unfold messageToggleClick.
  apply runs_bind, runs_getMessages, runs_bind.
  set (next := negb (bool_decide (messages s !! k = Some true))).
  eexists tt, _. split; [reflexivity|].
  set (s1 := mkState (document s) (nextId s) (<[k:=next]> (messages s))
               (codeBlocks s) (storage s) (treeWrites s)).
  assert (H1 : stepH s s1) by (by apply stepH_fields).
  pose proof (step_Good _ _ _ H1) as Hg1.
  eapply runs_impl; [by apply (setMessageCollapsed_renders m b next s1)|].
  intros [] s2 (H2 & Hm2 & Hc2 & e & ks & Hl & Hcls). cbn beta.
  split; [exact (stepH_trans _ _ _ H1 H2)|]. split; [done|]. split; [done|].
  exists e, ks. split; [done|]. rewrite Hm2, Hcls. simpl.
  rewrite lookup_insert_eq. split; [by intros ->|by intros [= ->]].
Qed.

Lemma codeToggleClick_renders p b k s :
  Good s → isHost (document s) p → ¬ isHost (document s) b →
  runs (codeToggleClick p b k) s
    (λ _ s', stepH s s'
       ∧ codeBlocks s'
         = <[k := negb (bool_decide (codeBlocks s !! k = Some true))]> (codeBlocks s)
       ∧ messages s' = messages s
       ∧ ∃ e ks, lookup p (document s') = Some (e, ks)
                 ∧ (CLASSES.collapsedCodeBlock ∈ classes e
                    ↔ codeBlocks s' !! k = Some true)).
Proof.
  intros Hg Hm Hb. unfold codeToggleClick.
  apply runs_bind, runs_getCodeBlocks, runs_bind.
  set (next := negb (bool_decide (codeBlocks s !! k = Some true))).
  eexists tt, _. split; [reflexivity|].
  set (s1 := mkState (document s) (nextId s) (messages s)
               (<[k:=next]> (codeBlocks s)) (storage s) (treeWrites s)).
  assert (H1 : stepH s s1) by (by apply stepH_fields).
  pose proof (step_Good _ _ _ H1) as Hg1.
  eapply runs_impl; [by apply (setCodeCollapsed_renders p b next s1)|].
  intros [] s2 (H2 & Hm2 & Hc2 & e & ks & Hl & Hcls). cbn beta.
  split; [exact (stepH_trans _ _ _ H1 H2)|]. split; [done|]. split; [done|].
  exists e, ks. split; [done|]. rewrite Hc2, Hcls. simpl.
  rewrite lookup_insert_eq. split; [by intros ->|by intros [= ->]].
Qed.

(** X6. A click on the toggle of a user message, for a message node of
    the host page and a toggle button of the script in a tidy,
    well-formed document: the listener returns; the entry of the key
    becomes [false] if it was [true] and [true] otherwise (also when
    there was none), no other entry of either map changes, and the
    message node has the collapsed class exactly when the new entry is
    [true].  A second click sets the entry to the opposite again, so an
    entry that was there is back at its value. *)
Theorem message_toggle_click s m b k :
  Good s → isHost (document s) m → ¬ isHost (document s) b →
  let next := negb (bool_decide (messages s !! k = Some true)) in
  ∃ s1, messageToggleClick m b k s = Ok tt s1
    ∧ messages s1 = <[k := next]> (messages s)
    ∧ codeBlocks s1 = codeBlocks s
    ∧ (∃ e ks, lookup m (document s1) = Some (e, ks)
               ∧ (CLASSES.collapsedUserMessage ∈ classes e ↔ next = true))
    ∧ ∃ s2, messageToggleClick m b k s1 = Ok tt s2
        ∧ messages s2 = <[k := negb next]> (messages s)
        ∧ (∀ v, messages s !! k = Some v → messages s2 = messages s)
        ∧ ∃ e ks, lookup m (document s2) = Some (e, ks)
                  ∧ (CLASSES.collapsedUserMessage ∈ classes e ↔ next = false).
Proof.
  intros Hg Hm Hb next.
  destruct (messageToggleClick_renders m b k s Hg Hm Hb)
    as ([] & s1 & Hrun1 & H1 & Hm1 & Hc1 & e1 & ks1 & Hl1 & He1).
  fold next in Hm1.
  exists s1. split; [done|]. split; [done|]. split; [done|]. split.
  { exists e1, ks1. split; [done|]. rewrite He1, Hm1, lookup_insert_eq.
    split; [by intros [= ->]|by intros ->]. }
  pose proof (step_Good _ _ _ H1) as Hg1.
  destruct (messageToggleClick_renders m b k s1 Hg1)
    as ([] & s2 & Hrun2 & H2 & Hm2 & Hc2 & e2 & ks2 & Hl2 & He2).
  { by apply (stepH_isHost s s1). }
  { by apply (stepH_notHost s s1). }
  assert (Hn : negb (bool_decide (messages s1 !! k = Some true)) = negb next).
  { rewrite Hm1, lookup_insert_eq. destruct next; [by rewrite bool_decide_eq_true_2|].
    by rewrite bool_decide_eq_false_2. }
  rewrite Hn, Hm1, insert_insert_eq in Hm2.
  exists s2. split; [done|]. split; [done|]. split.
  { intros v Hv. rewrite Hm2. apply insert_id. rewrite Hv. f_equal.
    unfold next. rewrite Hv. destruct v.
    - by rewrite bool_decide_eq_true_2.
    - by rewrite bool_decide_eq_false_2. }
  exists e2, ks2. split; [done|]. rewrite He2, Hm2, lookup_insert_eq.
  destruct next; split; intros H; try done; by injection H.
Qed.

(** X7. The same for a click on the toggle of a code block, with the
    map and the class of code blocks. *)
Theorem code_toggle_click s p b k :
  Good s → isHost (document s) p → ¬ isHost (document s) b →
  let next := negb (bool_decide (codeBlocks s !! k = Some true)) in
  ∃ s1, codeToggleClick p b k s = Ok tt s1
    ∧ codeBlocks s1 = <[k := next]> (codeBlocks s)
    ∧ messages s1 = messages s
    ∧ (∃ e ks, lookup p (document s1) = Some (e, ks)
               ∧ (CLASSES.collapsedCodeBlock ∈ classes e ↔ next = true))
    ∧ ∃ s2, codeToggleClick p b k s1 = Ok tt s2
        ∧ codeBlocks s2 = <[k := negb next]> (codeBlocks s)
        ∧ (∀ v, codeBlocks s !! k = Some v → codeBlocks s2 = codeBlocks s)
        ∧ ∃ e ks, lookup p (document s2) = Some (e, ks)
                  ∧ (CLASSES.collapsedCodeBlock ∈ classes e ↔ next = false).
Proof.
  intros Hg Hm Hb next.
  destruct (codeToggleClick_renders p b k s Hg Hm Hb)
    as ([] & s1 & Hrun1 & H1 & Hm1 & Hc1 & e1 & ks1 & Hl1 & He1).
  fold next in Hm1.
  exists s1. split; [done|]. split; [done|]. split; [done|]. split.
  { exists e1, ks1. split; [done|]. rewrite He1, Hm1, lookup_insert_eq.
    split; [by intros [= ->]|by intros ->]. }
  pose proof (step_Good _ _ _ H1) as Hg1.
  destruct (codeToggleClick_renders p b k s1 Hg1)
    as ([] & s2 & Hrun2 & H2 & Hm2 & Hc2 & e2 & ks2 & Hl2 & He2).
  { by apply (stepH_isHost s s1). }
  { by apply (stepH_notHost s s1). }
  assert (Hn : negb (bool_decide (codeBlocks s1 !! k = Some true)) = negb next).
  { rewrite Hm1, lookup_insert_eq. destruct next; [by rewrite bool_decide_eq_true_2|].
    by rewrite bool_decide_eq_false_2. }
  rewrite Hn, Hm1, insert_insert_eq in Hm2.
  exists s2. split; [done|]. split; [done|]. split.
  { intros v Hv. rewrite Hm2. apply insert_id. rewrite Hv. f_equal.
    unfold next. rewrite Hv. destruct v.
    - by rewrite bool_decide_eq_true_2.
    - by rewrite bool_decide_eq_false_2. }
  exists e2, ks2. split; [done|]. rewrite He2, Hm2, lookup_insert_eq.
  destruct next; split; intros H; try done; by injection H.
Qed.

(** ** Clicks that the escape hatch ignores *)

Lemma onDocumentClick_frame target s :
  ∃ s', onDocumentClick target s = Ok tt s'
    ∧ codeBlocks s' = codeBlocks s ∧ storage s' = storage s
    ∧ nextId s' = nextId s.
Proof.
  unfold onDocumentClick, bind at 1, getDocument at 1.
  destruct (closest _ _ (SELECTORS.buttonWithClass _)); [by exists s|].
  destruct (closest _ _ SELECTORS.article) as [turn|]; [|by exists s].
  destruct (negb (isHTMLElement (document s) turn)); [by exists s|].
  destruct (findUserMessageNode _ _) as [m|]; [|by exists s].
  destruct (negb (hasClass _ _ _)); [by exists s|].
  destruct (querySelectorIn _ _ _) as [b|]; [|by exists s].
  destruct (negb (isHTMLElement (document s) b)); [by exists s|].
  unfold bind at 1, getMessages at 1.
  destruct (truthy _); unfold bind, setMessages, ret, setMessageCollapsed, dom;
    cbn beta iota; (eexists; split; [reflexivity|done]).
Qed.

(** X8. What the escape hatch leaves alone.  On any state and for any
    click target the listener returns, and it never creates an element
    and never changes the map of code blocks or the storage.  It changes
    nothing at all when the target is on or inside a message toggle, when
    the target is in no [article], and when the user message of the
    closest [article] is not collapsed. *)
Theorem escape_hatch_ignores target s :
  (∃ s', onDocumentClick target s = Ok tt s'
     ∧ codeBlocks s' = codeBlocks s ∧ storage s' = storage s
     ∧ nextId s' = nextId s)
  ∧ (is_Some (closest (document s) target
                (SELECTORS.buttonWithClass CLASSES.messageToggle)) →
     onDocumentClick target s = Ok tt s)
  ∧ (closest (document s) target SELECTORS.article = None →
     onDocumentClick target s = Ok tt s)
  ∧ (∀ turn m,
       closest (document s) target SELECTORS.article = Some turn →
       findUserMessageNode (document s) turn = Some m →
       hasClass (document s) m CLASSES.collapsedUserMessage = false →
       onDocumentClick target s = Ok tt s).
Proof.
  split; [apply onDocumentClick_frame|]. split; [|split].
  - intros [b Hb]. unfold onDocumentClick, bind, getDocument. rewrite Hb.
    reflexivity.
  - intros Ha. unfold onDocumentClick, bind, getDocument. rewrite Ha.
    destruct (closest _ _ (SELECTORS.buttonWithClass _)); reflexivity.
  - intros turn m Ha Hm Hc. unfold onDocumentClick, bind, getDocument.
    rewrite Ha, Hm, Hc.
    destruct (closest _ _ (SELECTORS.buttonWithClass _)); [reflexivity|].
    destruct (negb (isHTMLElement (document s) turn)); reflexivity.
Qed.

(** ** The style element, once *)

Lemma appendChild_new f host e ks eh kh :
  NoDup (ids f) → lookup host f = Some (eh, kh) → elemsF ks = [] →
  nid e ∉ ids f →
  lookup (nid e) (appendChild host (Elem e ks) f) = Some (e, ks)
  ∧ ∀ sel x, x ∈ querySelectorAll sel (appendChild host (Elem e ks) f) →
             x ∈ querySelectorAll sel f ∨ x = nid e.
Proof.
  intros Hnd Hl Hks Hfresh. unfold appendChild.
  assert (HK : elemsF (kh ++ [Elem e ks]) ≡ₚ elemsF kh ++ [(e, ks)]).
  { rewrite elemsF_app, elemsF_cons_elem, Hks. done. }
  split.
  - rewrite (lookup_atKids_new host _ f eh kh Hnd Hl) by done.
    rewrite lookup_app.
    assert (Hn : lookup (nid e) kh = None).
    { apply lookup_None. intros Hc. apply Hfresh.
      apply lookup_Some in Hl as [Hin _]. eapply ids_kids; eauto. }
    rewrite Hn, lookup_cons_elem. by rewrite decide_True.
  - intros sel x. rewrite !querySelectorAll_elem_of.
    intros (p' & Hp' & Hs & Hn).
    apply (elemsF_atKids_elem host _ f eh kh _ Hnd Hl HK) in Hp'
      as [(p & Hp & ->)|Hp'].
    + left. exists p. split; [done|]. split; [exact Hs|exact Hn].
    + apply list_elem_of_singleton in Hp' as ->. by right.
Qed.

Lemma ensureStyleTag_makes s :
  Good s → is_Some (documentElement (document s)) →
  ∃ s1, ensureStyleTag s = Ok tt s1
    ∧ is_Some (getElementById IDS.styleTag (document s1))
    ∧ ensureStyleTag s1 = Ok tt s1
    ∧ (is_Some (getElementById IDS.styleTag (document s)) → s1 = s)
    ∧ (getElementById IDS.styleTag (document s) = None →
       ∃ b, getElementById IDS.styleTag (document s1) = Some b
            ∧ textContent (document s1) b = Some styleText).
Proof.
  intros Hg [root Hroot]. pose proof Hg as [[Hnd Hb] Ht].
  destruct (getElementById IDS.styleTag (document s)) as [b0|] eqn:Hget.
  + exists s.
    assert (Hrun : ensureStyleTag s = Ok tt s).
    { unfold ensureStyleTag, bind, getDocument. by rewrite Hget. }
    split; [done|]. rewrite Hget. split; [eauto|]. split; [done|].
    split; [done|]. by intros [=].
  + set (n := nextId s).
    set (s1 := mkState (appendChild root (Elem (newStyle n) (textNodes styleText))
                          (document s))
                 (S n) (messages s) (codeBlocks s) (storage s) (S (treeWrites s))).
    assert (Hrun : ensureStyleTag s = Ok tt s1).
    { unfold ensureStyleTag, bind, getDocument. rewrite Hget.
      unfold createElement. cbn [document]. by rewrite Hroot. }
    assert (Hfresh : n ∉ ids (document s)).
    { intros Hc0. specialize (Hb n Hc0). unfold n in Hb. lia. }
    destruct (documentElement_isHost _ _ Hnd Ht Hroot) as (er & kr & Hl & Hrr).
    destruct (appendChild_new (document s) root (newStyle n)
                (textNodes styleText) er kr Hnd Hl (elemsF_textNodes _) Hfresh)
      as [Hl1 Hq1].
    destruct (forest_appendChild_step sameHidden sameHidden_refl root
                (newStyle n) (textNodes styleText) (document s) er kr Hnd Ht Hl Hrr)
      as (Hnd' & _).
    { apply newStyle_reserved. }
    { apply newStyle_artefact, elemsF_textNodes. }
    { exact Hfresh. }
    assert (Hq : querySelectorAll (byId IDS.styleTag) (document s1) = [n]).
    { apply NoDup_only.
      - by apply querySelectorAll_NoDup.
      - apply querySelectorAll_elem_of. exists (newStyle n, textNodes styleText).
        split; [by apply lookup_Some in Hl1 as [? _]|]. split; [|done].
        unfold byId, newStyle. simpl. rewrite lookup_insert_eq.
        by apply bool_decide_eq_true_2.
      - intros x Hx. apply Hq1 in Hx as [Hx|Hx]; [|done].
        unfold getElementById, querySelector in Hget.
        apply head_None in Hget. rewrite Hget in Hx. by apply elem_of_nil in Hx. }
    assert (Hget1 : getElementById IDS.styleTag (document s1) = Some n).
    { unfold getElementById, querySelector. by rewrite Hq. }
    exists s1. split; [done|]. rewrite Hget1. split; [eauto|].
    split; [|split; [by intros [? [=]]|]].
    * unfold ensureStyleTag, bind, getDocument. by rewrite Hget1.
    * intros _. exists n. split; [done|].
      by apply (textContent_textNodes _ _ (newStyle n)).
Qed.

(** X9. The style element is injected once.  On a tidy, well-formed
    document with a root element [ensureStyleTag] returns, and afterwards
    an element with the style id exists; a second call changes nothing
    at all.  If such an element was there already, the first call changes
    nothing either; if not, the element found afterwards holds the style
    sheet as its text.  With no root element and no style element the
    call throws a type error and leaves the document as it was. *)
Theorem ensureStyleTag_once s :
  (Good s → is_Some (documentElement (document s)) →
   ∃ s1, ensureStyleTag s = Ok tt s1
     ∧ is_Some (getElementById IDS.styleTag (document s1))
     ∧ ensureStyleTag s1 = Ok tt s1
     ∧ (is_Some (getElementById IDS.styleTag (document s)) → s1 = s)
     ∧ (getElementById IDS.styleTag (document s) = None →
        ∃ b, getElementById IDS.styleTag (document s1) = Some b
             ∧ textContent (document s1) b = Some styleText))
  ∧ (documentElement (document s) = None →
     getElementById IDS.styleTag (document s) = None →
     ∃ s', ensureStyleTag s
           = Throw "TypeError: Cannot read properties of null (reading 'appendChild')" s'
       ∧ document s' = document s).
Proof.
  split; [apply ensureStyleTag_makes|].
  intros Hroot Hget. eexists.
  unfold ensureStyleTag, bind, getDocument. rewrite Hget.
  unfold createElement. cbn [document]. rewrite Hroot.
  split; [reflexivity|done].
Qed.

(** ** A second pass *)

Lemma firstTurnPlaced_step R s s' :
  (∀ e e', R e e' → sameCore e e') →
  Good s → hostStep R s s' →
  firstTurnPlaced (document s) → firstTurnPlaced (document s').
Proof.
  intros HR Hg Hstep Hp first Hfirst. pose proof Hg as [[Hnd _] Ht].
  rewrite (hostStep_getConversationTurns R HR s s' Hg Hstep) in Hfirst.
  rewrite (hostStep_parentElement R HR s s' first Hg Hstep); [by apply Hp|].
  apply getConversationTurns_isHost; [done|done|].
  destruct (getConversationTurns (document s)); [done|].
  injection Hfirst as ->. left.
Qed.

(** X10. A second reconciliation pass right after the first, over a
    tidy, well-formed document whose storage answers: it returns the same
    counts, locates the same turns, leaves on every turn the hidden class
    and the hidden attribute as the first pass left them, and finds the
    banner of the first pass again: the banner is the same element with
    the same text, or absent both times, and there is at most one. *)
Theorem second_pass_same s :
  Good s → singleBanner (document s) →
  is_Some (documentElement (document s)) →
  st_fault (storage s) = None →
  firstTurnPlaced (document s) →
  ∃ r s1 s2,
    applyTrimming s = Ok r s1 ∧ applyTrimming s1 = Ok r s2
    ∧ getConversationTurns (document s2) = getConversationTurns (document s1)
    ∧ (∀ t, t ∈ getConversationTurns (document s1) →
         ∃ e1 ks1 e2 ks2,
           lookup t (document s1) = Some (e1, ks1)
           ∧ lookup t (document s2) = Some (e2, ks2)
           ∧ (CLASSES.hiddenTurn ∈ classes e2 ↔ CLASSES.hiddenTurn ∈ classes e1)
           ∧ attrs e2 !! ATTRS.hidden = attrs e1 !! ATTRS.hidden)
    ∧ getElementById IDS.banner (document s2)
      = getElementById IDS.banner (document s1)
    ∧ (∀ b, getElementById IDS.banner (document s1) = Some b →
            textContent (document s2) b = textContent (document s1) b)
    ∧ singleBanner (document s2).
Proof.
  intros Hg Hsb Hroot Hfault Hplaced.
  destruct (applyTrimming_pass s Hg Hsb Hroot Hfault Hplaced)
    as (r & s1 & Hrun1 & Hr1 & Hstep1 & Hsb1 & Hm1 & Hiff1 & Htxt1 & _).
  pose proof Hstep1 as (Hg1 & _ & _ & Hst1).
  pose proof (hostStep_getConversationTurns sameCore sameCore_core s s1 Hg Hstep1)
    as Ht1.
  assert (Hroot1 : is_Some (documentElement (document s1))).
  { by rewrite (hostStep_documentElement sameCore s s1 Hg Hstep1). }
  assert (Hfault1 : st_fault (storage s1) = None) by (by rewrite Hst1).
  assert (Hplaced1 : firstTurnPlaced (document s1)).
  { by apply (firstTurnPlaced_step sameCore s s1 sameCore_core). }
  destruct (applyTrimming_pass s1 Hg1 Hsb1 Hroot1 Hfault1 Hplaced1)
    as (r2 & s2 & Hrun2 & Hr2 & Hstep2 & Hsb2 & Hm2 & Hiff2 & Htxt2 & Hreuse & _).
  rewrite Ht1, Hst1 in Hr2, Hm2, Hiff2, Htxt2, Hreuse.
  rewrite <- Hr1 in Hr2. subst r2.
  exists r, s1, s2. split; [done|]. split; [done|].
  split; [by apply (hostStep_getConversationTurns sameCore sameCore_core)|].
  split; [|split; [|split; [|done]]].
  - intros t Hin. rewrite Ht1 in Hin.
    destruct (list_elem_of_lookup_1 _ _ Hin) as [i Hi].
    destruct (Hm1 i t Hi) as (e1 & ks1 & Hl1 & [Hc1 Ha1]).
    destruct (Hm2 i t Hi) as (e2 & ks2 & Hl2 & [Hc2 Ha2]).
    exists e1, ks1, e2, ks2. split; [done|]. split; [done|].
    split; [by rewrite Hc1, Hc2|by rewrite Ha1, Ha2].
  - destruct (getElementById IDS.banner (document s1)) as [b|] eqn:Hb1.
    + apply Hreuse; [|done]. apply Hiff1. eauto.
    + destruct (getElementById IDS.banner (document s2)) as [b2|] eqn:Hb2; [|done].
      exfalso. assert (H : is_Some (@None nat)); [|by destruct H].
      apply Hiff1, Hiff2. eauto.
  - intros b Hb1. rewrite (Htxt1 b Hb1). apply Htxt2.
    apply Hreuse; [|done]. apply Hiff1. eauto.
Qed.

(** ** The further properties on the example page *)

Lemma status_after_apply_witness :
  ∃ r s', applyTrimming exampleState = Ok r s'
    ∧ onMessage TRIMMER_STATUS s'
      = mkHandled s' [mkResponse true (Some (hiddenCount r))
                        (Some (totalCount r)) None None] None.
Proof.
  apply (status_after_apply exampleState).
  - apply goodb_sound. vm_compute. reflexivity.
  - vm_compute. lia.
  - exists 1%nat. reflexivity.
  - reflexivity.
  - intros first H. vm_compute in H. injection H as <-.
    exists 5%nat. vm_compute. reflexivity.
Defined.

Lemma status_after_show_all_witness :
  ∃ s', showAllTurns exampleTrimmed = Ok tt s'
    ∧ onMessage TRIMMER_STATUS s'
      = mkHandled s' [mkResponse true (Some 0) (Some 3) None None] None.
Proof.
  apply (status_after_show_all exampleTrimmed).
  apply goodb_sound. vm_compute. reflexivity.
Defined.

Lemma settings_round_trip_witness :
  (∃ s1, saveSettings (mkSettings 2 true false true) exampleState = Ok tt s1
     ∧ loadSettings s1 = Ok (mkSettings 2 true false true) s1)
  ∧ loadSettings (mkState [] 0 ∅ ∅ (mkStorage None None None None None) 0)
    = Ok (mkSettings 6 true true true)
         (mkState [] 0 ∅ ∅ (mkStorage None None None None None) 0)
  ∧ loadSettings
      (mkState [] 0 ∅ ∅ (mkStorage None None None None (Some "Error: quota")) 0)
    = Throw "Error: quota"
        (mkState [] 0 ∅ ∅ (mkStorage None None None None (Some "Error: quota")) 0).
Proof.
  split; [|split].
  - destruct (settings_round_trip exampleState (mkSettings 2 true false true))
      as (H & _ & _).
    destruct H as (s1 & Hs & _ & _ & _ & Hl).
    + reflexivity.
    + cbn [keepLastN]. lia.
    + exists s1. split; [exact Hs|exact Hl].
  - destruct (settings_round_trip
                (mkState [] 0 ∅ ∅ (mkStorage None None None None None) 0)
                (mkSettings 2 true false true)) as (_ & H & _).
    apply H; reflexivity.
  - destruct (settings_round_trip
                (mkState [] 0 ∅ ∅
                   (mkStorage None None None None (Some "Error: quota")) 0)
                (mkSettings 2 true false true)) as (_ & _ & H).
    apply (H "Error: quota"). reflexivity.
Defined.

Lemma getTurnKey_facts_witness :
  getTurnKey exampleDocument 10 7 = "conversation-turn-1"
  ∧ ∀ i j, getTurnKey exampleDocument 11 i = getTurnKey exampleDocument 11 j →
           i = j.
Proof.
  split.
  - destruct (getTurnKey_facts exampleDocument 10) as (_ & H & _).
    apply H; [vm_compute; reflexivity|discriminate].
  - destruct (getTurnKey_facts exampleDocument 11) as (_ & _ & H).
    apply H; vm_compute; reflexivity.
Defined.


Lemma message_toggle_click_witness :
  ∃ s1, messageToggleClick 12 101 "conversation-turn-1::user-message"
          exampleTrimmed = Ok tt s1
    ∧ messages s1 !! "conversation-turn-1::user-message" = Some false.
Proof.
  destruct (message_toggle_click exampleTrimmed 12 101
              "conversation-turn-1::user-message") as (s1 & Hrun & Hm & _).
  - apply goodb_sound. vm_compute. reflexivity.
  - eexists _, _. split; vm_compute; reflexivity.
  - intros (e & ks & Hl & Hr). vm_compute in Hl. injection Hl as <- <-.
    vm_compute in Hr. discriminate.
  - exists s1. split; [exact Hrun|]. rewrite Hm. apply lookup_insert_eq.
Defined.

Lemma code_toggle_click_witness :
  ∃ s1, codeToggleClick 23 104 "conversation-turn-2::code-block:0"
          exampleTrimmed = Ok tt s1
    ∧ codeBlocks s1 !! "conversation-turn-2::code-block:0" = Some false.
Proof.
  destruct (code_toggle_click exampleTrimmed 23 104
              "conversation-turn-2::code-block:0") as (s1 & Hrun & Hm & _).
  - apply goodb_sound. vm_compute. reflexivity.
  - eexists _, _. split; vm_compute; reflexivity.
  - intros (e & ks & Hl & Hr). vm_compute in Hl. injection Hl as <- <-.
    vm_compute in Hr. discriminate.
  - exists s1. split; [exact Hrun|]. rewrite Hm. apply lookup_insert_eq.
Defined.

Lemma escape_hatch_ignores_witness :
  onDocumentClick 101 exampleTrimmed = Ok tt exampleTrimmed
  ∧ onDocumentClick 4 exampleTrimmed = Ok tt exampleTrimmed
  ∧ onDocumentClick 13 exampleState = Ok tt exampleState.
Proof.
  split; [|split].
  - destruct (escape_hatch_ignores 101 exampleTrimmed) as (_ & H & _).
    apply H. exists 101%nat. vm_compute. reflexivity.
  - destruct (escape_hatch_ignores 4 exampleTrimmed) as (_ & _ & H & _).
    apply H. vm_compute. reflexivity.
  - destruct (escape_hatch_ignores 13 exampleState) as (_ & _ & _ & H).
    apply (H 10%nat 12%nat); vm_compute; reflexivity.
Defined.

Lemma ensureStyleTag_once_witness :
  (∃ s1, ensureStyleTag exampleState = Ok tt s1
     ∧ ensureStyleTag s1 = Ok tt s1
     ∧ ∃ b, getElementById IDS.styleTag (document s1) = Some b
            ∧ textContent (document s1) b = Some styleText)
  ∧ ∃ s', ensureStyleTag
            (mkState [] 0 ∅ ∅ (mkStorage None None None None None) 0)
          = Throw "TypeError: Cannot read properties of null (reading 'appendChild')" s'
      ∧ document s' = [].
Proof.
  split.
  - destruct (ensureStyleTag_once exampleState) as (H & _).
    destruct H as (s1 & Hrun & _ & Hagain & _ & Hnew).
    + apply goodb_sound. vm_compute. reflexivity.
    + exists 1%nat. reflexivity.
    + exists s1. split; [exact Hrun|]. split; [exact Hagain|].
      apply Hnew. vm_compute. reflexivity.
  - destruct (ensureStyleTag_once
                (mkState [] 0 ∅ ∅ (mkStorage None None None None None) 0))
      as (_ & H).
    apply H; reflexivity.
Defined.

Lemma second_pass_same_witness :
  ∃ r s1 s2,
    applyTrimming exampleState = Ok r s1 ∧ applyTrimming s1 = Ok r s2
    ∧ getElementById IDS.banner (document s2)
      = getElementById IDS.banner (document s1).
Proof.
  destruct (second_pass_same exampleState)
    as (r & s1 & s2 & H1 & H2 & _ & _ & Hb & _).
  - apply goodb_sound. vm_compute. reflexivity.
  - vm_compute. lia.
  - exists 1%nat. reflexivity.
  - reflexivity.
  - intros first H. vm_compute in H. injection H as <-.
    exists 5%nat. vm_compute. reflexivity.
  - exists r, s1, s2. split; [exact H1|]. split; [exact H2|exact Hb].
Defined.

(* ===================================================================== *)
(** * Scheduling *)
(* ===================================================================== *)

Lemma scheduleApply_timers d pg :
  debounced pg → timers (scheduleApply d pg) = {[ nextTimer pg := d ]}.
Proof.
  intros Hd. unfold scheduleApply, clearTimeout. cbn.
  apply map_eq. intros i.
  destruct (decide (i = nextTimer pg)) as [->|Hne].
  { by rewrite lookup_insert_eq, lookup_singleton_eq. }
  rewrite lookup_insert_ne, lookup_singleton_ne by done.
  destruct (applyTimer pg) as [a|] eqn:Ha.
  - destruct (decide (i = a)) as [->|Hia]; [by rewrite lookup_delete_eq|].
    rewrite lookup_delete_ne by done.
    destruct (timers pg !! i) eqn:Hi; [|done].
    specialize (Hd i (mk_is_Some _ _ Hi)). congruence.
  - destruct (timers pg !! i) eqn:Hi; [|done].
    specialize (Hd i (mk_is_Some _ _ Hi)). congruence.
Qed.

Lemma scheduleApply_debounced d pg :
  debounced pg → debounced (scheduleApply d pg).
Proof.
  intros Hd i Hi. rewrite (scheduleApply_timers d pg Hd) in Hi.
  destruct (decide (i = nextTimer pg)) as [->|Hne]; [done|].
  rewrite lookup_singleton_ne in Hi by done. by destruct Hi.
Qed.

Lemma debounced_size pg : debounced pg → (size (timers pg) ≤ 1)%nat.
Proof.
  intros Hd.
  destruct (applyTimer pg) as [a|] eqn:Ha.
  - assert (Hsub : timers pg ⊆ {[ a := default 0 (timers pg !! a) ]}).
    { apply map_subseteq_spec. intros i d Hi.
      pose proof (Hd i (mk_is_Some _ _ Hi)) as Hia. rewrite Ha in Hia.
      injection Hia as <-. by rewrite Hi, lookup_singleton_eq. }
    apply map_subseteq_size in Hsub. by rewrite map_size_singleton in Hsub.
  - assert (He : timers pg = ∅).
    { apply map_empty. intros i. destruct (timers pg !! i) eqn:Hi; [|done].
      pose proof (Hd i (mk_is_Some _ _ Hi)). congruence. }
    rewrite He, map_size_empty. lia.
Qed.

Lemma debounced_delete id pg pg' :
  debounced pg → timers pg' = delete id (timers pg) →
  applyTimer pg' = applyTimer pg → debounced pg'.
Proof.
  intros Hd Ht Ha i Hi. rewrite Ha. apply Hd. rewrite Ht in Hi.
  destruct (decide (i = id)) as [->|Hne].
  - rewrite lookup_delete_eq in Hi. by destruct Hi.
  - by rewrite lookup_delete_ne in Hi.
Qed.

(** ** What the observer is told *)

Lemma onMutations_childList records pg :
  onMutations records pg
  = if bool_decide (childList ∈ records)
    then scheduleApply TIMING.applyDebounceMs pg else pg.
Proof.
  induction records as [|m records IH].
  { rewrite bool_decide_eq_false_2; [done|]. apply not_elem_of_nil. }
  destruct m; cbn [onMutations].
  - rewrite bool_decide_eq_true_2; [done|]. left.
  - rewrite IH. apply (f_equal (λ b : bool, if b then _ else _)).
    apply bool_decide_ext. rewrite elem_of_cons.
    split; [by right|]. by intros [?|?].
  - rewrite IH. apply (f_equal (λ b : bool, if b then _ else _)).
    apply bool_decide_ext. rewrite elem_of_cons.
    split; [by right|]. by intros [?|?].
Qed.

Lemma observed_spec before pg :
  observed before pg
  = if observing pg && bool_decide (before < treeWrites (content pg))%nat
    then scheduleApply TIMING.applyDebounceMs pg else pg.
Proof.
  unfold observed, observing. destruct (observer pg) as [[root|]|]; [|done|done].
  rewrite onMutations_childList. cbn [andb].
  apply (f_equal (λ b : bool, if b then _ else _)).
  apply bool_decide_ext. rewrite elem_of_replicate. split.
  - intros [_ Hn]. lia.
  - intros Hlt. split; [done|lia].
Qed.

(** What holds of the page at every moment after [init] has returned. *)
Lemma scheduleApply_keeps d pg :
  d ∈ delays →
  debounced pg ∧ (∀ id v, timers pg !! id = Some v → v ∈ delays) ∧ installed pg →
  debounced (scheduleApply d pg)
  ∧ (∀ id v, timers (scheduleApply d pg) !! id = Some v → v ∈ delays)
  ∧ installed (scheduleApply d pg)
  ∧ observer (scheduleApply d pg) = observer pg.
Proof.
  intros Hin (Hd & Hv & Hi). split; [by apply scheduleApply_debounced|].
  split; [|done].
  intros id v. rewrite (scheduleApply_timers d pg Hd).
  intros [_ <-]%lookup_singleton_Some. done.
Qed.

Lemma observed_keeps before pg o :
  debounced pg ∧ (∀ id v, timers pg !! id = Some v → v ∈ delays) ∧ installed pg →
  observer pg = o →
  debounced (observed before pg)
  ∧ (∀ id v, timers (observed before pg) !! id = Some v → v ∈ delays)
  ∧ installed (observed before pg)
  ∧ observer (observed before pg) = o.
Proof.
  intros Hinv <-. rewrite observed_spec. destruct (_ && _).
  - apply scheduleApply_keeps; [|done]. unfold delays. repeat constructor.
  - destruct Hinv as (? & ? & ?). done.
Qed.

Lemma observed_fields before pg :
  content (observed before pg) = content pg
  ∧ errors (observed before pg) = errors pg
  ∧ observer (observed before pg) = observer pg.
Proof. rewrite observed_spec. by destruct (_ && _). Qed.

Lemma observed_quiet before pg : observing pg = false → observed before pg = pg.
Proof. intros H. by rewrite observed_spec, H. Qed.

(** The pass in the page does to the content what [applyTrimming] does. *)
Lemma applyTrimmingIn_outcome pg :
  content (applyTrimmingIn pg).1 = finalState (applyTrimming (content pg))
  ∧ (applyTrimmingIn pg).2
    = match applyTrimming (content pg) with
      | Ok _ _ => None
      | Throw error _ => Some error
      end
  ∧ errors (applyTrimmingIn pg).1 = errors pg
  ∧ observer (applyTrimmingIn pg).1 = observer pg.
Proof.
  unfold applyTrimmingIn, applyTrimming, bind.
  destruct (ensureStyleTag (content pg)) as [[] s1|e s1]; cbn [fst snd].
  - destruct (observed_fields (treeWrites (content pg)) (withContent s1 pg))
      as (_ & He1 & Ho1).
    destruct (applyTrimmingResumed s1) as [r s'|e s']; cbn [fst snd finalState];
      (destruct (observed_fields (treeWrites s1)
                   (withContent s'
                      (observed (treeWrites (content pg)) (withContent s1 pg))))
         as (Hc & He & Ho);
       rewrite Hc, He, Ho; cbn [content errors observer withContent];
       by rewrite He1, Ho1).
  - destruct (observed_fields (treeWrites (content pg)) (withContent s1 pg))
      as (Hc & He & Ho).
    by rewrite Hc, He, Ho.
Qed.

Lemma applyTrimmingIn_quiet pg :
  observing pg = false →
  (applyTrimmingIn pg).1
  = withContent (finalState (applyTrimming (content pg))) pg.
Proof.
  intros H. unfold applyTrimmingIn, applyTrimming, bind.
  destruct (ensureStyleTag (content pg)) as [[] s1|e s1]; cbn [fst].
  - rewrite (observed_quiet _ (withContent s1 pg)) by exact H.
    destruct (applyTrimmingResumed s1) as [r s'|e s']; cbn [fst finalState];
      by rewrite observed_quiet by exact H.
  - by rewrite observed_quiet by exact H.
Qed.

Lemma applyTrimmingIn_keeps pg o :
  debounced pg ∧ (∀ id v, timers pg !! id = Some v → v ∈ delays) ∧ installed pg →
  observer pg = o →
  debounced (applyTrimmingIn pg).1
  ∧ (∀ id v, timers (applyTrimmingIn pg).1 !! id = Some v → v ∈ delays)
  ∧ installed (applyTrimmingIn pg).1
  ∧ observer (applyTrimmingIn pg).1 = o.
Proof.
  intros Hinv Ho. unfold applyTrimmingIn.
  destruct (ensureStyleTag (content pg)) as [[] s1|e s1]; cbn [fst].
  - destruct (observed_keeps (treeWrites (content pg)) (withContent s1 pg) o
                Hinv Ho) as (A & B & C & D).
    destruct (applyTrimmingResumed s1) as [r s'|e s']; cbn [fst];
      (apply observed_keeps; [exact (conj A (conj B C))|exact D]).
  - by apply observed_keeps.
Qed.



(** The message listener in the page does to the content what [onMessage]
    does. *)
Lemma onMessageIn_content message pg :
  content (onMessageIn message pg) = h_state (onMessage message (content pg))
  ∧ errors (onMessageIn message pg) = errors pg.
Proof.
  assert (Hrest : ∀ s, content (observed (treeWrites (content pg))
                                  (withContent s pg)) = s
                       ∧ errors (observed (treeWrites (content pg))
                                   (withContent s pg)) = errors pg).
  { intros s. by destruct (observed_fields (treeWrites (content pg))
                             (withContent s pg)) as (? & ? & _). }
  destruct message as [kN mUi cOwn cCode| | |]; try apply Hrest.
  cbn [onMessageIn onMessage]. unfold bind at 1.
  destruct (saveSettings _ (content pg)) as [[] s0|e s0]; [|done].
  destruct (applyTrimmingIn_outcome (withContent s0 pg)) as (Hc & _ & He & _).
  rewrite Hc, He. cbn [content errors withContent].
  by destruct (applyTrimming s0).
Qed.

Lemma onMessageIn_quiet message pg :
  observing pg = false →
  onMessageIn message pg
  = withContent (h_state (onMessage message (content pg))) pg.
Proof.
  intros H.
  destruct message as [kN mUi cOwn cCode| | |];
    try (by apply observed_quiet).
  cbn [onMessageIn onMessage]. unfold bind at 1.
  destruct (saveSettings _ (content pg)) as [[] s0|e s0]; [|done].
  rewrite applyTrimmingIn_quiet by exact H. cbn [content withContent].
  by destruct (applyTrimming s0).
Qed.

Lemma onMessageIn_keeps message pg o :
  debounced pg ∧ (∀ id v, timers pg !! id = Some v → v ∈ delays) ∧ installed pg →
  observer pg = o →
  debounced (onMessageIn message pg)
  ∧ (∀ id v, timers (onMessageIn message pg) !! id = Some v → v ∈ delays)
  ∧ installed (onMessageIn message pg)
  ∧ observer (onMessageIn message pg) = o.
Proof.
  intros Hinv Ho.
  destruct message as [kN mUi cOwn cCode| | |];
    try (by apply observed_keeps).
  cbn [onMessageIn].
  destruct (saveSettings _ (content pg)) as [[] s0|e s0].
  - by apply applyTrimmingIn_keeps.
  - destruct Hinv as (? & ? & ?). done.
Qed.

Lemma dispatch_keeps ev pg :
  debounced pg ∧ (∀ id v, timers pg !! id = Some v → v ∈ delays) ∧ installed pg →
  debounced (dispatch ev pg)
  ∧ (∀ id v, timers (dispatch ev pg) !! id = Some v → v ∈ delays)
  ∧ installed (dispatch ev pg)
  ∧ observer (dispatch ev pg) = observer pg.
Proof.
  intros Hinv. pose proof Hinv as (Hd & Hv & Hi).
  pose proof Hi as (Hla & Hcl & Hvl & Hsl & Hml & Hll & Hob).
  assert (Hsame : debounced pg
                  ∧ (∀ id v, timers pg !! id = Some v → v ∈ delays)
                  ∧ installed pg ∧ observer pg = observer pg).
  { split; [exact Hd|]. split; [exact Hv|]. split; [exact Hi|reflexivity]. }
  assert (H120 : TIMING.applyDebounceMs ∈ delays) by (unfold delays; repeat constructor).
  assert (H50 : TIMING.loadApplyMs ∈ delays) by (unfold delays; repeat constructor).
  assert (H80 : TIMING.visibleApplyMs ∈ delays) by (unfold delays; repeat constructor).
  assert (H50' : TIMING.storageApplyMs ∈ delays) by (unfold delays; repeat constructor).
  destruct ev as [records| |visible|changes areaName|id|target|message];
    cbn [dispatch].
  - assert (Hcase : ∀ o : option (option nat),
              match o with
              | Some (Some _) => onMutations records pg
              | _ => pg
              end = onMutations records pg
              ∨ match o with
                | Some (Some _) => onMutations records pg
                | _ => pg
                end = pg) by (intros [[?|]|]; auto).
    destruct (Hcase (observer pg)) as [-> | ->]; [|exact Hsame].
    clear Hcase. induction records as [|[] records IH]; cbn [onMutations];
      [exact Hsame| |exact IH|exact IH].
    by apply scheduleApply_keeps.
  - set (pg1 := mkPage _ _ _ _ _ _ _ _ _ _ _ _).
    assert (H1 : debounced pg1
                 ∧ (∀ id v, timers pg1 !! id = Some v → v ∈ delays)
                 ∧ installed pg1).
    { split; [exact Hd|]. split; [exact Hv|].
      unfold installed, pg1. cbn. repeat split; try done. lia. }
    destruct (loadListeners pg) as [|[|n]]; cbn [Nat.iter]; [| |lia].
    + destruct H1 as (? & ? & ?). done.
    + by apply (scheduleApply_keeps _ pg1).
  - rewrite Hvl. cbn [Nat.iter]. destruct visible; [|exact Hsame].
    by apply scheduleApply_keeps.
  - rewrite Hsl. cbn [Nat.iter]. unfold onStorageChanged.
    destruct (negb _); [exact Hsame|]. destruct (_ || _); [|exact Hsame].
    by apply scheduleApply_keeps.
  - unfold timerFires. destruct (timers pg !! id) eqn:Hid; [|exact Hsame].
    set (pg' := mkPage _ _ (delete id (timers pg)) _ _ _ _ _ _ _ _ _).
    assert (H' : debounced pg'
                 ∧ (∀ id v, timers pg' !! id = Some v → v ∈ delays)
                 ∧ installed pg').
    { split; [by eapply (debounced_delete id pg)|]. split; [|done].
      intros i v. cbn. intros Hl.
      apply lookup_delete_Some in Hl as [_ Hl]. by apply (Hv i). }
    pose proof (applyTrimmingIn_keeps pg' (observer pg) H' eq_refl) as Hk.
    destruct (applyTrimmingIn pg') as [pg'' [error|]]; exact Hk.
  - rewrite Hcl. cbn [Nat.iter]. apply observed_keeps; [exact Hinv|reflexivity].
  - rewrite Hml. cbn [Nat.iter]. by apply onMessageIn_keeps.
Qed.

Lemma run_keeps events pg :
  debounced pg ∧ (∀ id v, timers pg !! id = Some v → v ∈ delays) ∧ installed pg →
  debounced (run events pg)
  ∧ (∀ id v, timers (run events pg) !! id = Some v → v ∈ delays)
  ∧ installed (run events pg)
  ∧ observer (run events pg) = observer pg.
Proof.
  revert pg. induction events as [|ev events IH]; intros pg Hinv.
  { destruct Hinv as (? & ? & ?). done. }
  unfold run. cbn [foldl]. fold (run events (dispatch ev pg)).
  destruct (dispatch_keeps ev pg Hinv) as (H1 & H2 & H3 & H4).
  destruct (IH (dispatch ev pg)) as (? & ? & ? & Ho); [done|].
  rewrite Ho, H4. done.
Qed.

Lemma start_returns s pg0 :
  start s = (pg0, None) →
  ∃ s', ensureStyleTag s = Ok tt s'
    ∧ pg0 = mkPage s' (Some 1%nat) {[ 1%nat := TIMING.initialApplyMs ]} 2
              (Some (match documentElement (document s') with
                     | Some r => Some r
                     | None => body (document s')
                     end))
              true 1 1 1 1 1 [].
Proof.
  unfold start, init. cbn [content].
  destruct (ensureStyleTag s) as [[] s'|err s']; [|done].
  intros [= <-]. exists s'. split; [done|].
  unfold scheduleApply, clearTimeout, startObserver, attachGlobalListeners,
    withContent. cbn. reflexivity.
Qed.

(** X11. Debouncing.  Once the script has started without an exception,
    then after every sequence of events (mutation batches, the load
    event, visibility and storage changes, timers firing, clicks and
    messages): at most one timeout of the script is pending, it is the
    one that [applyTimer] names, and its delay is one of the delays of
    [TIMING]; there is still exactly one listener of each kind (the load
    listener at most once), and the observer is the one that [init]
    made. *)
Theorem one_pass_pending s pg0 events :
  start s = (pg0, None) →
  let pg := run events pg0 in
  debounced pg
  ∧ (size (timers pg) ≤ 1)%nat
  ∧ (∀ id d, timers pg !! id = Some d → d ∈ delays)
  ∧ installed pg
  ∧ observer pg = observer pg0.
Proof.
  intros Hs pg. destruct (start_returns s pg0 Hs) as (s' & _ & ->).
  set (pg0 := mkPage _ _ _ _ _ _ _ _ _ _ _ _) in *.
  assert (H0 : debounced pg0
               ∧ (∀ id v, timers pg0 !! id = Some v → v ∈ delays)
               ∧ installed pg0).
  { split; [|split].
    - intros i Hi. unfold pg0 in *. cbn in *.
      destruct (decide (i = 1%nat)) as [->|Hne]; [done|].
      rewrite lookup_singleton_ne in Hi by done. by destruct Hi.
    - intros i v. unfold pg0. cbn. intros [_ <-]%lookup_singleton_Some.
      unfold delays. repeat constructor.
    - unfold installed, pg0. cbn. repeat split; done. }
  destruct (run_keeps events pg0 H0) as (H1 & H2 & H3 & H4).
  split; [done|]. split; [by apply debounced_size|]. done.
Qed.

(** ** A page without a root element *)

Lemma ensureStyleTag_throws s :
  documentElement (document s) = None →
  getElementById IDS.styleTag (document s) = None →
  ensureStyleTag s
  = Throw "TypeError: Cannot read properties of null (reading 'appendChild')"
      (mkState (document s) (S (nextId s)) (messages s) (codeBlocks s)
         (storage s) (treeWrites s)).
Proof.
  intros Hroot Hget. unfold ensureStyleTag, bind, getDocument. rewrite Hget.
  unfold createElement. cbn [document]. by rewrite Hroot.
Qed.

(** X12. When the document has neither a root element nor the style
    element as the script starts, [init] throws a type error in its first
    statement, and nothing is installed: no click listener, no observer,
    no timeout.  From then on no pass is ever scheduled, nothing is
    logged, and every event other than a message from the popup leaves
    the page as it is. *)
Theorem init_without_root s events :
  documentElement (document s) = None →
  getElementById IDS.styleTag (document s) = None →
  ∃ pg0,
    start s
    = (pg0, Some "TypeError: Cannot read properties of null (reading 'appendChild')")
    ∧ document (content pg0) = document s
    ∧ let pg := run events pg0 in
      timers pg = ∅ ∧ applyTimer pg = None ∧ observer pg = None
      ∧ clickListeners pg = 0%nat ∧ messageListeners pg = 1%nat
      ∧ errors pg = []
      ∧ ∀ ev, (∀ message, ev ≠ MessageArrives message) → dispatch ev pg = pg.
Proof.
  intros Hroot Hget. eexists. unfold start, init. cbn [content].
  rewrite (ensureStyleTag_throws s Hroot Hget).
  split; [reflexivity|]. split; [reflexivity|].
  unfold withContent. cbn.
  set (pg0 := mkPage _ _ _ _ _ _ _ _ _ _ _ _).
  set (bare := λ pg : Page,
         timers pg = ∅ ∧ applyTimer pg = None ∧ observer pg = None
         ∧ listenersAttached pg = false
         ∧ clickListeners pg = 0%nat ∧ loadListeners pg = 0%nat
         ∧ visibilityListeners pg = 0%nat ∧ storageListeners pg = 0%nat
         ∧ messageListeners pg = 1%nat ∧ errors pg = []).
  assert (Hquiet : ∀ pg ev, bare pg →
            (∀ message, ev ≠ MessageArrives message) → dispatch ev pg = pg).
  { intros pg ev (Ht & Ha & Ho & Hl & Hc & Hll & Hv & Hst & Hm & He) Hev.
    destruct ev as [records| |visible|changes areaName|id|target|message];
      cbn [dispatch].
    - by rewrite Ho.
    - rewrite Hll. cbn [Nat.iter]. destruct pg; cbn in *. by subst.
    - by rewrite Hv.
    - by rewrite Hst.
    - unfold timerFires. by rewrite Ht, lookup_empty.
    - by rewrite Hc.
    - by destruct (Hev message). }
  assert (Hstep : ∀ pg ev, bare pg → bare (dispatch ev pg)).
  { intros pg ev Hb.
    assert (Hcase : (∃ message, ev = MessageArrives message)
                    ∨ ∀ message, ev ≠ MessageArrives message).
    { destruct ev; try (by right); left; eauto. }
    destruct Hcase as [[m ->]|Hn].
    - destruct Hb as (Ht & Ha & Ho & Hl & Hc & Hll & Hv & Hst & Hm & He).
      cbn [dispatch]. rewrite Hm. unfold Nat.iter. cbn [nat_rect].
      rewrite onMessageIn_quiet by (unfold observing; by rewrite Ho).
      unfold bare, withContent. cbn. done.
    - by rewrite (Hquiet pg ev Hb). }
  assert (Hrun : ∀ evs pg, bare pg → bare (run evs pg)).
  { induction evs as [|ev evs IH]; intros pg Hb; [done|].
    unfold run. cbn [foldl]. apply IH, Hstep, Hb. }
  assert (H0 : bare pg0) by (unfold bare, pg0; cbn; done).
  pose proof (Hrun events pg0 H0) as Hb.
  pose proof Hb as (Ht & Ha & Ho & Hl & Hc & Hll & Hv & Hst & Hm & He).
  repeat (split; [done|]). intros ev Hev. by apply Hquiet.
Qed.

(** ** Timeouts *)


(** ** The observer *)

(** X14. What the observer does with a batch of mutation records: it
    schedules one pass, with the debounce delay, exactly if some record
    of the batch is a child-list record, however many there are; other
    batches change nothing.  A batch never runs a pass by itself: the
    content of the page is as before.  An observer that observes nothing
    is never called. *)
Theorem observer_schedules records pg :
  onMutations records pg
  = (if bool_decide (childList ∈ records)
     then scheduleApply TIMING.applyDebounceMs pg else pg)
  ∧ content (dispatch (Mutations records) pg) = content pg
  ∧ ((∀ root, observer pg ≠ Some (Some root)) →
     dispatch (Mutations records) pg = pg)
  ∧ (∀ root, observer pg = Some (Some root) → debounced pg →
     childList ∈ records →
     timers (dispatch (Mutations records) pg)
     = {[ nextTimer pg := TIMING.applyDebounceMs ]}).
Proof.
  split; [apply onMutations_childList|]. split; [|split].
  - cbn [dispatch]. destruct (observer pg) as [[root|]|]; [|done|done].
    rewrite onMutations_childList. by destruct (bool_decide _).
  - intros Hn. cbn [dispatch]. destruct (observer pg) as [[root|]|]; [|done|done].
    by destruct (Hn root).
  - intros root Ho Hd Hin. cbn [dispatch]. rewrite Ho, onMutations_childList.
    rewrite bool_decide_eq_true_2 by done. by apply scheduleApply_timers.
Qed.

Lemma body_without_root f : documentElement f = None → body f = None.
Proof. intros H. unfold body. by rewrite H. Qed.

(** X15. Installing once.  A second call of [startObserver] or of
    [attachGlobalListeners] changes nothing, so that there is one
    observer and one click listener however often they are called.  The
    first call of [startObserver] observes the root element of the
    document; if the document has none, it has no body either, and the
    observer that was made observes nothing, then and after every later
    call, whatever the document has become, so that mutations schedule
    no pass. *)
Theorem install_once pg :
  startObserver (startObserver pg) = startObserver pg
  ∧ attachGlobalListeners (attachGlobalListeners pg) = attachGlobalListeners pg
  ∧ (listenersAttached pg = false →
     clickListeners (attachGlobalListeners pg) = S (clickListeners pg))
  ∧ (observer pg = None →
     observer (startObserver pg)
     = Some (documentElement (document (content pg))))
  ∧ (observer pg = None → documentElement (document (content pg)) = None →
     ∀ s' records,
       let pg1 := withContent s' (startObserver pg) in
       startObserver pg1 = pg1 ∧ dispatch (Mutations records) pg1 = pg1).
Proof.
  split; [|split; [|split; [|split]]].
  - unfold startObserver. destruct (observer pg) eqn:Ho; [by rewrite Ho|done].
  - unfold attachGlobalListeners.
    destruct (listenersAttached pg) eqn:Hl; [by rewrite Hl|done].
  - intros Hl. unfold attachGlobalListeners. by rewrite Hl.
  - intros Ho. unfold startObserver. rewrite Ho. cbn [observer].
    destruct (documentElement _) eqn:Hr; [done|].
    by rewrite (body_without_root _ Hr).
  - intros Ho Hr s' records pg1.
    assert (Ho1 : observer pg1 = Some None).
    { unfold pg1, withContent, startObserver. rewrite Ho. cbn [observer].
      by rewrite Hr, (body_without_root _ Hr). }
    split.
    + unfold startObserver at 1. by rewrite Ho1.
    + cbn [dispatch]. by rewrite Ho1.
Qed.

(** ** The first pass *)


(* ===================================================================== *)
(** * The popup *)
(* ===================================================================== *)

(** ** The form *)

Lemma clampKeepLastN_printed z :
  1 ≤ z ≤ 500 → clampKeepLastN (JS.JStr (JS.String (JS.JInt z))) = z.
Proof.
  intros Hz. rewrite String_JInt_small by lia.
  rewrite (clampKeepLastN_parsed (JS.JStr _) z (parseMathInt_pretty z)).
  assert (Hb : 500 < doubleOverflow) by (by vm_compute).
  rewrite bool_decide_eq_true_2; lia.
Qed.

Lemma readForm_writeForm v :
  1 ≤ keepLastN v ≤ 500 → Popup.readForm (Popup.writeForm v) = v.
Proof.
  intros Hv. unfold Popup.readForm, Popup.writeForm.
  cbn [Popup.keepLastNInput Popup.minimalUiInput Popup.collapseOwnMessagesInput
       Popup.collapseCodeBlocksInput].
  rewrite (clampKeepLastN_fix _ Hv), (clampKeepLastN_printed _ Hv).
  by destruct v.
Qed.

(** X17. The form keeps what is written to it.  Settings with a keep
    count in [1, 500] that [writeForm] puts into the form are what
    [readForm] reads back; whatever the form holds, reading it, writing
    the result back and reading again gives the same settings; and the
    keep count read from any form is in [1, 500]. *)
Theorem form_round_trip f v :
  (1 ≤ keepLastN v ≤ 500 → Popup.readForm (Popup.writeForm v) = v)
  ∧ Popup.readForm (Popup.writeForm (Popup.readForm f)) = Popup.readForm f
  ∧ 1 ≤ keepLastN (Popup.readForm f) ≤ 500.
Proof.
  split; [apply readForm_writeForm|].
  assert (Hr : 1 ≤ keepLastN (Popup.readForm f) ≤ 500)
    by apply clampKeepLastN_range.
  split; [by apply readForm_writeForm|exact Hr].
Qed.

(** ** Apply *)

Lemma applyNow_runs w :
  Popup.tab w = Popup.Reachable →
  st_fault (storage (Popup.page w)) = None →
  Good (Popup.page w) → singleBanner (document (Popup.page w)) →
  is_Some (documentElement (document (Popup.page w))) →
  firstTurnPlaced (document (Popup.page w)) →
  let v := Popup.readForm (Popup.form w) in
  let turns := getConversationTurns (document (Popup.page w)) in
  let T := Z.of_nat (length turns) in
  let K := keepLastN v in
  let hc := Z.max 0 (T - K) in
  ∃ s', Popup.applyNow w
        = Popup.Returns tt
            (Popup.setStatus
               ("Active." +:+ Popup.newline
                +:+ "Hidden: " +:+ pretty hc +:+ " / " +:+ pretty T
                +:+ Popup.newline +:+ "Visible turns: " +:+ pretty K)
               false (Popup.withPage s' w))
    ∧ storage s' = mkStorage (Some (JS.JInt K))
                     (Some (JS.JBool (minimalUi v)))
                     (Some (JS.JBool (collapseOwnMessages v)))
                     (Some (JS.JBool (collapseCodeBlocks v))) None
    ∧ (∀ i t, turns !! i = Some t →
         ∃ e ks, lookup t (document s') = Some (e, ks)
                 ∧ marked (bool_decide (Z.of_nat i < hc)) e)
    ∧ (is_Some (getElementById IDS.banner (document s')) ↔ 0 < hc).
Proof.
  intros Htab Hf Hg Hsb Hroot Hplaced v turns T K hc.
  set (s1 := mkState (document (Popup.page w)) (nextId (Popup.page w))
               (messages (Popup.page w)) (codeBlocks (Popup.page w))
               (mkStorage (Some (JS.JInt K)) (Some (JS.JBool (minimalUi v)))
                  (Some (JS.JBool (collapseOwnMessages v)))
                  (Some (JS.JBool (collapseCodeBlocks v))) None)
               (treeWrites (Popup.page w))).
  assert (Hsave : saveSettings v (Popup.page w) = Ok tt s1).
  { unfold saveSettings. by rewrite Hf. }
  assert (Hg1 : Good s1) by (by apply (Good_fields (Popup.page w))).
  destruct (onMessage_apply_pass (JS.JInt K) (JS.JBool (minimalUi v))
              (JS.JBool (collapseOwnMessages v))
              (JS.JBool (collapseCodeBlocks v)) s1 eq_refl Hg1 Hsb Hroot Hplaced)
    as (s' & Hmsg & Hst & Hm & Hb).
  assert (HK : clampKeepLastN (JS.JInt K) = K) by apply clampKeepLastN_idem.
  rewrite HK in Hmsg, Hst, Hm, Hb.
  exists s'. split; [|split; [exact Hst|split; [exact Hm|exact Hb]]].
  unfold Popup.applyNow. fold v. rewrite Hsave.
  unfold Popup.sendMessageToActiveTab.
  cbn [Popup.tab Popup.withPage Popup.page]. rewrite Htab. fold K.
  rewrite Hmsg. reflexivity.
Qed.

(** X18. A click on Apply, end to end.  With the listeners added, a
    status element, a tab whose content script answers, a storage that
    does not throw and a tidy, well-formed page: the settings read from
    the form are in the storage afterwards, turn [i] of the page has the
    hidden markers exactly if [i] is below the number [T] of turns minus
    the keep count [K] of the form, the banner is there exactly if that
    number is positive, and the status shows, in the default colour,
    [Active.], the hidden count [max 0 (T - K)] with [T], and [K].  The
    form is as it was. *)
Theorem apply_click_end_to_end w st :
  Popup.handlers w = true → Popup.status w = Some st →
  Popup.tab w = Popup.Reachable →
  st_fault (storage (Popup.page w)) = None →
  Good (Popup.page w) → singleBanner (document (Popup.page w)) →
  is_Some (documentElement (document (Popup.page w))) →
  firstTurnPlaced (document (Popup.page w)) →
  let v := Popup.readForm (Popup.form w) in
  let turns := getConversationTurns (document (Popup.page w)) in
  let T := Z.of_nat (length turns) in
  let K := keepLastN v in
  let hc := Z.max 0 (T - K) in
  ∃ s', Popup.click Popup.applyBtn w
        = Popup.mkWorld (Popup.form w)
            (Some ("Active." +:+ Popup.newline
                   +:+ "Hidden: " +:+ pretty hc +:+ " / " +:+ pretty T
                   +:+ Popup.newline +:+ "Visible turns: " +:+ pretty K, ""))
            (Popup.buttons w) true Popup.Reachable s'
    ∧ storage s' = mkStorage (Some (JS.JInt K))
                     (Some (JS.JBool (minimalUi v)))
                     (Some (JS.JBool (collapseOwnMessages v)))
                     (Some (JS.JBool (collapseCodeBlocks v))) None
    ∧ (∀ i t, turns !! i = Some t →
         ∃ e ks, lookup t (document s') = Some (e, ks)
                 ∧ marked (bool_decide (Z.of_nat i < hc)) e)
    ∧ (is_Some (getElementById IDS.banner (document s')) ↔ 0 < hc).
Proof.
  intros Hh Hs Htab Hf Hg Hsb Hroot Hplaced v turns T K hc.
  set (w1 := Popup.setStatus "Applying..." false w).
  assert (Hw1 : w1 = Popup.mkWorld (Popup.form w) (Some ("Applying...", ""))
                       (Popup.buttons w) (Popup.handlers w) (Popup.tab w)
                       (Popup.page w)).
  { unfold w1, Popup.setStatus. by rewrite Hs. }
  destruct (applyNow_runs w1) as (s' & Hrun & Hrest);
    try (rewrite Hw1; assumption).
  rewrite Hw1 in Hrun, Hrest.
  cbn [Popup.form Popup.page Popup.withPage Popup.buttons Popup.handlers
       Popup.tab Popup.status] in Hrun, Hrest.
  exists s'. split; [|exact Hrest].
  unfold Popup.click. rewrite Hh. cbn [negb]. unfold Popup.onApplyClick.
  fold w1. rewrite Hw1, Hrun. unfold Popup.setStatus.
  cbn [Popup.status Popup.form Popup.buttons Popup.handlers Popup.tab Popup.page].
  by rewrite Hh, Htab.
Qed.

(** X19. A click on Apply that fails.  The status then shows the error
    in the error colour, and the form stays as it is.  If the storage
    call throws, no message is sent and the page is untouched.  If there
    is no active tab, or its content script cannot be reached, the
    settings of the form have been saved all the same, and the document
    of the page is untouched.  If the content script answers with an
    error, as on a page without root element and style element, the
    status shows that error after the prefix of a new error. *)
Theorem apply_click_failures w st :
  Popup.handlers w = true → Popup.status w = Some st →
  let v := Popup.readForm (Popup.form w) in
  let failed text s :=
    Popup.click Popup.applyBtn w
    = Popup.mkWorld (Popup.form w) (Some (text, "#ff6b6b")) (Popup.buttons w)
        true (Popup.tab w) s in
  let saved :=
    mkState (document (Popup.page w)) (nextId (Popup.page w))
      (messages (Popup.page w)) (codeBlocks (Popup.page w))
      (mkStorage (Some (JS.JInt (keepLastN v))) (Some (JS.JBool (minimalUi v)))
         (Some (JS.JBool (collapseOwnMessages v)))
         (Some (JS.JBool (collapseCodeBlocks v))) None)
      (treeWrites (Popup.page w)) in
  (∀ err, st_fault (storage (Popup.page w)) = Some err →
          failed err (Popup.page w))
  ∧ (st_fault (storage (Popup.page w)) = None →
     (Popup.tab w = Popup.NoActiveTab →
      failed "Error: No active tab found." saved)
     ∧ (Popup.tab w = Popup.NotReachable →
        failed "Error: Content script is not reachable. Open a ChatGPT tab and reload the page."
          saved)
     ∧ (Popup.tab w = Popup.Reachable →
        documentElement (document (Popup.page w)) = None →
        getElementById IDS.styleTag (document (Popup.page w)) = None →
        ∃ s', failed "Error: TypeError: Cannot read properties of null (reading 'appendChild')" s'
          ∧ document s' = document (Popup.page w)
          ∧ storage s' = storage saved)).
Proof.
  intros Hh Hs v failed saved.
  set (w1 := Popup.setStatus "Applying..." false w).
  assert (Hw1 : w1 = Popup.mkWorld (Popup.form w) (Some ("Applying...", ""))
                       (Popup.buttons w) (Popup.handlers w) (Popup.tab w)
                       (Popup.page w)).
  { unfold w1, Popup.setStatus. by rewrite Hs. }
  assert (Hclick : Popup.click Popup.applyBtn w
                   = match Popup.applyNow w1 with
                     | Popup.Returns _ w => w
                     | Popup.Throws error w => Popup.setStatus error true w
                     end).
  { unfold Popup.click. by rewrite Hh. }
  unfold failed. rewrite Hclick. clear Hclick. rewrite Hw1.
  unfold Popup.applyNow. cbn [Popup.form Popup.page]. fold v.
  split.
  - intros err Hf. unfold saveSettings. rewrite Hf.
    unfold Popup.setStatus, Popup.withPage.
    cbn [Popup.status Popup.form Popup.buttons Popup.handlers Popup.tab Popup.page].
    by rewrite Hh.
  - intros Hf.
    assert (Hsave : saveSettings v (Popup.page w) = Ok tt saved).
    { unfold saveSettings. by rewrite Hf. }
    rewrite Hsave. unfold Popup.sendMessageToActiveTab.
    cbn [Popup.tab Popup.withPage Popup.page Popup.form Popup.status
         Popup.buttons Popup.handlers].
    split; [|split].
    + intros Ht. rewrite Ht. unfold Popup.setStatus.
      cbn [Popup.status Popup.form Popup.buttons Popup.handlers Popup.tab Popup.page].
      by rewrite Hh.
    + intros Ht. rewrite Ht. unfold Popup.setStatus.
      cbn [Popup.status Popup.form Popup.buttons Popup.handlers Popup.tab Popup.page].
      by rewrite Hh.
    + intros Ht Hroot Hget. rewrite Ht. cbn [onMessage].
      set (s2 := mkState (document (Popup.page w)) (nextId (Popup.page w))
                   (messages (Popup.page w)) (codeBlocks (Popup.page w))
                   (mkStorage
                      (Some (JS.JInt (clampKeepLastN (JS.JInt (keepLastN v)))))
                      (Some (JS.JBool (minimalUi v)))
                      (Some (JS.JBool (collapseOwnMessages v)))
                      (Some (JS.JBool (collapseCodeBlocks v))) None)
                   (treeWrites (Popup.page w))).
      assert (Hthrow :
        (saveSettings
           {| keepLastN := clampKeepLastN (JS.JInt (keepLastN v));
              minimalUi := JS.Boolean (JS.JBool (minimalUi v));
              collapseOwnMessages := JS.Boolean (JS.JBool (collapseOwnMessages v));
              collapseCodeBlocks := JS.Boolean (JS.JBool (collapseCodeBlocks v)) |}
         ;; applyTrimming) saved
        = Throw "TypeError: Cannot read properties of null (reading 'appendChild')"
            (mkState (document s2) (S (nextId s2)) (messages s2) (codeBlocks s2)
               (storage s2) (treeWrites s2))).
      { unfold saved, s2. unfold bind at 1. unfold saveSettings at 1.
        cbn [document nextId messages codeBlocks storage st_fault keepLastN
             minimalUi collapseOwnMessages collapseCodeBlocks JS.Boolean].
        unfold applyTrimming, applyTrimmingResumed, bind.
        erewrite ensureStyleTag_throws; [reflexivity|exact Hroot|exact Hget]. }
      rewrite Hthrow. eexists.
      cbn [h_responses h_state r_ok negb r_error].
      split; [|split].
      * unfold Popup.setStatus, Popup.withPage.
        cbn [Popup.status Popup.form Popup.buttons Popup.handlers Popup.tab
             Popup.page].
        rewrite Hh. reflexivity.
      * reflexivity.
      * cbn [storage s2 saved]. f_equal. f_equal. f_equal.
        apply clampKeepLastN_idem.
Qed.

(** ** Show all, reset, and the start of the popup *)

(** X20. A click on Show all.  With the listeners added, a status
    element, a reachable content script and a tidy, well-formed page: no
    turn of the page has the hidden class or the hidden attribute
    afterwards, a single banner is gone, the storage and the form are as
    they were, and the status says, in the default colour, that all
    messages are visible again.  Without an active tab the status shows
    that error in the error colour and nothing else changes. *)
Theorem show_all_click w st :
  Popup.handlers w = true → Popup.status w = Some st →
  (Popup.tab w = Popup.Reachable → Good (Popup.page w) →
   ∃ s', Popup.click Popup.showAllBtn w
         = Popup.mkWorld (Popup.form w)
             (Some ("All messages in the current tab are visible again.", ""))
             (Popup.buttons w) true Popup.Reachable s'
     ∧ storage s' = storage (Popup.page w)
     ∧ (∀ t, t ∈ getConversationTurns (document (Popup.page w)) →
          ∃ e ks, lookup t (document s') = Some (e, ks) ∧ marked false e)
     ∧ (singleBanner (document (Popup.page w)) →
        getElementById IDS.banner (document s') = None))
  ∧ (Popup.tab w = Popup.NoActiveTab →
     Popup.click Popup.showAllBtn w
     = Popup.mkWorld (Popup.form w)
         (Some ("Error: No active tab found.", "#ff6b6b"))
         (Popup.buttons w) true Popup.NoActiveTab (Popup.page w)).
Proof.
  intros Hh Hs.
  set (w1 := Popup.setStatus "Restoring..." false w).
  assert (Hw1 : w1 = Popup.mkWorld (Popup.form w) (Some ("Restoring...", ""))
                       (Popup.buttons w) (Popup.handlers w) (Popup.tab w)
                       (Popup.page w)).
  { unfold w1, Popup.setStatus. by rewrite Hs. }
  assert (Hclick : Popup.click Popup.showAllBtn w
                   = match Popup.showAllNow w1 with
                     | Popup.Returns _ w => w
                     | Popup.Throws error w => Popup.setStatus error true w
                     end).
  { unfold Popup.click. by rewrite Hh. }
  rewrite Hclick. clear Hclick. rewrite Hw1.
  unfold Popup.showAllNow, Popup.sendMessageToActiveTab.
  cbn [Popup.tab Popup.page].
  split.
  - intros Ht Hg. rewrite Ht. cbn [onMessage].
    destruct (showAllTurns_pass (Popup.page w) Hg)
      as ([] & s' & Hrun & Hstep & _ & Hb & Hm).
    rewrite Hrun. exists s'.
    cbn [h_responses h_state r_ok negb].
    split; [|split; [by destruct Hstep as (_ & _ & _ & ?)|split; [exact Hm|exact Hb]]].
    unfold Popup.setStatus, Popup.withPage.
    cbn [Popup.status Popup.form Popup.buttons Popup.handlers Popup.tab Popup.page].
    by rewrite Hh.
  - intros Ht. rewrite Ht. unfold Popup.setStatus.
    cbn [Popup.status Popup.form Popup.buttons Popup.handlers Popup.tab Popup.page].
    by rewrite Hh.
Qed.

Lemma writeForm_defaults :
  Popup.writeForm DEFAULT_SETTINGS = Popup.mkForm "6" true true true.
Proof. by vm_compute. Qed.

Lemma readForm_defaults :
  Popup.readForm (Popup.mkForm "6" true true true) = DEFAULT_SETTINGS.
Proof. by vm_compute. Qed.

(** X21. A click on Reset, under the conditions of a click on Apply
    that succeeds: the form shows 6 and three ticked boxes, whatever it
    held; the storage holds the default settings; turn [i] of the page
    has the hidden markers exactly if [i] is below the number [T] of
    turns minus 6; and the status shows [Active.] with the hidden count
    [max 0 (T - 6)], [T] and 6. *)
Theorem reset_click w st :
  Popup.handlers w = true → Popup.status w = Some st →
  Popup.tab w = Popup.Reachable →
  st_fault (storage (Popup.page w)) = None →
  Good (Popup.page w) → singleBanner (document (Popup.page w)) →
  is_Some (documentElement (document (Popup.page w))) →
  firstTurnPlaced (document (Popup.page w)) →
  let turns := getConversationTurns (document (Popup.page w)) in
  let T := Z.of_nat (length turns) in
  let hc := Z.max 0 (T - 6) in
  ∃ s', Popup.click Popup.resetBtn w
        = Popup.mkWorld (Popup.mkForm "6" true true true)
            (Some ("Active." +:+ Popup.newline
                   +:+ "Hidden: " +:+ pretty hc +:+ " / " +:+ pretty T
                   +:+ Popup.newline +:+ "Visible turns: 6", ""))
            (Popup.buttons w) true Popup.Reachable s'
    ∧ storage s' = mkStorage (Some (JS.JInt 6)) (Some (JS.JBool true))
                     (Some (JS.JBool true)) (Some (JS.JBool true)) None
    ∧ (∀ i t, turns !! i = Some t →
         ∃ e ks, lookup t (document s') = Some (e, ks)
                 ∧ marked (bool_decide (Z.of_nat i < hc)) e).
Proof.
  intros Hh Hs Htab Hf Hg Hsb Hroot Hplaced turns T hc.
  set (w2 := Popup.withForm (Popup.writeForm DEFAULT_SETTINGS)
               (Popup.setStatus "Resetting..." false w)).
  assert (Hw2 : w2 = Popup.mkWorld (Popup.mkForm "6" true true true)
                       (Some ("Resetting...", ""))
                       (Popup.buttons w) (Popup.handlers w) (Popup.tab w)
                       (Popup.page w)).
  { unfold w2, Popup.setStatus, Popup.withForm. rewrite Hs, writeForm_defaults.
    reflexivity. }
  destruct (applyNow_runs w2) as (s' & Hrun & Hst & Hm & _);
    try (rewrite Hw2; assumption).
  rewrite Hw2 in Hrun, Hst, Hm.
  cbn [Popup.form Popup.page Popup.withPage Popup.buttons Popup.handlers
       Popup.tab Popup.status] in Hrun, Hst, Hm.
  rewrite readForm_defaults in Hrun, Hst, Hm.
  exists s'. split; [|split; [exact Hst|exact Hm]].
  unfold Popup.click. rewrite Hh. cbn [negb].
  unfold Popup.onResetClick, Popup.resetDefaults.
  fold w2. rewrite Hw2, Hrun. unfold Popup.setStatus.
  cbn [Popup.status Popup.form Popup.buttons Popup.handlers Popup.tab Popup.page].
  by rewrite Hh, Htab.
Qed.

(** X22. The start of the popup.  Without one of the three buttons
    [initPopup] does nothing, and clicks do nothing afterwards.  With
    the buttons the listeners are added in every case.  If the storage
    answers, the form shows the stored settings, that is, [readForm]
    gives what [loadSettings] returned, with the defaults for what is
    not stored, and the status says [Ready.]; if the storage call
    throws, the form is left as it was and the status shows the error in
    the error colour.  The page and the storage are not changed. *)
Theorem initPopup_loads w :
  (Popup.buttons w = false → Popup.handlers w = false →
   Popup.initPopup w = w ∧ ∀ b, Popup.click b (Popup.initPopup w) = w)
  ∧ (Popup.buttons w = true →
     let w' := Popup.initPopup w in
     Popup.handlers w' = true ∧ Popup.page w' = Popup.page w
     ∧ Popup.tab w' = Popup.tab w
     ∧ (st_fault (storage (Popup.page w)) = None →
        loadSettings (Popup.page w)
        = Ok (Popup.readForm (Popup.form w')) (Popup.page w)
        ∧ (is_Some (Popup.status w) →
           Popup.status w' = Some ("Ready.", "")))
     ∧ (∀ err, st_fault (storage (Popup.page w)) = Some err →
        Popup.form w' = Popup.form w
        ∧ (is_Some (Popup.status w) →
           Popup.status w' = Some (err, "#ff6b6b")))).
Proof.
  split.
  - intros Hb Hh. unfold Popup.initPopup. rewrite Hb. cbn [negb].
    split; [done|]. intros b. unfold Popup.click. by rewrite Hh.
  - intros Hb w'. unfold w', Popup.initPopup. rewrite Hb. cbn [negb].
    destruct (st_fault (storage (Popup.page w))) as [err|] eqn:Hf.
    + assert (Hl : loadSettings (Popup.page w) = Throw err (Popup.page w)).
      { unfold loadSettings. by rewrite Hf. }
      rewrite Hl. unfold Popup.setStatus, Popup.withPage.
      cbn [Popup.status Popup.form Popup.buttons Popup.handlers Popup.tab
           Popup.page].
      destruct (Popup.status w) as [st|] eqn:Hs;
        cbn [Popup.status Popup.form Popup.buttons Popup.handlers Popup.tab
             Popup.page];
        (split; [done|]); (split; [done|]); (split; [done|]);
        (split; [done|]); intros err' [= <-]; (split; [done|]).
      * done.
      * by intros [? [=]].
    + destruct (loadSettings (Popup.page w)) as [v s|err s] eqn:Hl.
      2: { unfold loadSettings in Hl. by rewrite Hf in Hl. }
      assert (Hs' : s = Popup.page w).
      { unfold loadSettings in Hl. rewrite Hf in Hl. by injection Hl. }
      subst s.
      assert (Hv : 1 ≤ keepLastN v ≤ 500).
      { unfold loadSettings in Hl. rewrite Hf in Hl. injection Hl as <-.
        apply clampKeepLastN_range. }
      unfold Popup.setStatus, Popup.withPage, Popup.withForm.
      cbn [Popup.status Popup.form Popup.buttons Popup.handlers Popup.tab
           Popup.page].
      destruct (Popup.status w) as [st|] eqn:Hs;
        cbn [Popup.status Popup.form Popup.buttons Popup.handlers Popup.tab
             Popup.page];
        (split; [done|]); (split; [done|]); (split; [done|]);
        (split; [|done]); intros _; rewrite (readForm_writeForm v Hv);
        (split; [done|]).
      * done.
      * by intros [? [=]].
Qed.

(** ** Scheduling and the popup on the example page *)

Lemma one_pass_pending_witness :
  (size (timers (run [Mutations [attributes; childList]; WindowLoad;
                      TimerFires 1; StorageChanged ["keepLastN"] "sync"]
                   (start exampleState).1)) ≤ 1)%nat.
Proof.
  destruct (one_pass_pending exampleState (start exampleState).1
              [Mutations [attributes; childList]; WindowLoad;
               TimerFires 1; StorageChanged ["keepLastN"] "sync"])
    as (_ & H & _).
  - vm_compute. reflexivity.
  - exact H.
Defined.

Lemma init_without_root_witness :
  ∃ pg0,
    start emptyState
    = (pg0, Some "TypeError: Cannot read properties of null (reading 'appendChild')")
    ∧ timers (run [WindowLoad; Click 3; VisibilityChange true] pg0) = ∅.
Proof.
  destruct (init_without_root emptyState
              [WindowLoad; Click 3%nat; VisibilityChange true])
    as (pg0 & Hs & _ & Ht & _).
  - reflexivity.
  - reflexivity.
  - exists pg0. split; [exact Hs|exact Ht].
Defined.


Lemma observer_schedules_witness :
  timers (dispatch (Mutations [attributes; childList])
            (startObserver examplePage))
  = {[ 1%nat := 120 ]}.
Proof.
  destruct (observer_schedules [attributes; childList]
              (startObserver examplePage)) as (_ & _ & _ & H).
  apply (H 1%nat).
  - reflexivity.
  - intros id [v Hv]. vm_compute in Hv. discriminate.
  - right. left.
Defined.

Lemma install_once_witness :
  observer (startObserver examplePage) = Some (Some 1%nat)
  ∧ dispatch (Mutations [childList])
      (withContent exampleState
         (startObserver (mkPage emptyState None ∅ 1 None false 0 0 0 0 1 [])))
    = withContent exampleState
        (startObserver (mkPage emptyState None ∅ 1 None false 0 0 0 0 1 [])).
Proof.
  split.
  - destruct (install_once examplePage) as (_ & _ & _ & H & _).
    apply H. reflexivity.
  - destruct (install_once (mkPage emptyState None ∅ 1 None false 0 0 0 0 1 []))
      as (_ & _ & _ & _ & H).
    apply (H eq_refl eq_refl exampleState [childList]).
Defined.


Lemma form_round_trip_witness :
  Popup.readForm (Popup.writeForm (mkSettings 42 false true false))
  = mkSettings 42 false true false.
Proof.
  destruct (form_round_trip (Popup.mkForm "2" true true true)
              (mkSettings 42 false true false)) as (H & _).
  apply H. cbn [keepLastN]. lia.
Defined.

Lemma apply_click_end_to_end_witness :
  ∃ s', Popup.click Popup.applyBtn examplePopup
        = Popup.mkWorld (Popup.mkForm "2" true true true)
            (Some ("Active." +:+ Popup.newline +:+ "Hidden: 1 / 3"
                   +:+ Popup.newline +:+ "Visible turns: 2", ""))
            true true Popup.Reachable s'.
Proof.
  destruct (apply_click_end_to_end examplePopup ("", ""))
    as (s' & H & _).
  - reflexivity.
  - reflexivity.
  - reflexivity.
  - reflexivity.
  - apply goodb_sound. vm_compute. reflexivity.
  - vm_compute. lia.
  - exists 1%nat. reflexivity.
  - intros first H. vm_compute in H. injection H as <-.
    exists 5%nat. vm_compute. reflexivity.
  - exists s'. exact H.
Defined.

Lemma apply_click_failures_witness :
  Popup.status
    (Popup.click Popup.applyBtn
       (Popup.mkWorld (Popup.mkForm "2" true true true) (Some ("", "")) true
          true Popup.NoActiveTab exampleState))
  = Some ("Error: No active tab found.", "#ff6b6b").
Proof.
  destruct (apply_click_failures
              (Popup.mkWorld (Popup.mkForm "2" true true true) (Some ("", ""))
                 true true Popup.NoActiveTab exampleState) ("", ""))
    as (_ & H).
  - reflexivity.
  - reflexivity.
  - destruct H as (H & _); [reflexivity|].
    rewrite H; reflexivity.
Defined.

Lemma show_all_click_witness :
  ∃ s', Popup.click Popup.showAllBtn
          (Popup.mkWorld (Popup.mkForm "2" true true true) (Some ("", "")) true
             true Popup.Reachable exampleTrimmed)
        = Popup.mkWorld (Popup.mkForm "2" true true true)
            (Some ("All messages in the current tab are visible again.", ""))
            true true Popup.Reachable s'
    ∧ getElementById IDS.banner (document s') = None.
Proof.
  destruct (show_all_click
              (Popup.mkWorld (Popup.mkForm "2" true true true) (Some ("", ""))
                 true true Popup.Reachable exampleTrimmed) ("", ""))
    as (H & _).
  - reflexivity.
  - reflexivity.
  - destruct H as (s' & Hc & _ & _ & Hb).
    + reflexivity.
    + apply goodb_sound. vm_compute. reflexivity.
    + exists s'. split; [exact Hc|]. apply Hb. vm_compute. lia.
Defined.

Lemma reset_click_witness :
  ∃ s', Popup.click Popup.resetBtn examplePopup
        = Popup.mkWorld (Popup.mkForm "6" true true true)
            (Some ("Active." +:+ Popup.newline +:+ "Hidden: 0 / 3"
                   +:+ Popup.newline +:+ "Visible turns: 6", ""))
            true true Popup.Reachable s'.
Proof.
  destruct (reset_click examplePopup ("", "")) as (s' & H & _).
  - reflexivity.
  - reflexivity.
  - reflexivity.
  - reflexivity.
  - apply goodb_sound. vm_compute. reflexivity.
  - vm_compute. lia.
  - exists 1%nat. reflexivity.
  - intros first H. vm_compute in H. injection H as <-.
    exists 5%nat. vm_compute. reflexivity.
  - exists s'. exact H.
Defined.

Lemma initPopup_loads_witness :
  Popup.form (Popup.initPopup examplePopup) = Popup.mkForm "2" true true true
  ∧ Popup.status (Popup.initPopup examplePopup) = Some ("Ready.", "").
Proof.
  destruct (initPopup_loads examplePopup) as (_ & H).
  destruct H as (_ & _ & _ & H & _); [reflexivity|].
  destruct H as (_ & H); [reflexivity|].
  split; [vm_compute; reflexivity|].
  apply H. eexists. reflexivity.
Defined.

(* ===================================================================== *)
(** * The minimal-UI class *)
(* ===================================================================== *)

Lemma update_fixed x g f :
  (∀ e ks, (e, ks) ∈ elemsF f → nid e = x → g e = e) → update x g f = f.
Proof.
  intros H.
  apply (rewrite_id (λ e, if decide (nid e = x) then g e else e) (λ _ ks, ks)).
  intros e ks Hin. split; [|done]. destruct (decide _); [by apply (H e ks)|done].
Qed.

Lemma childIds_update x g f :
  (∀ e, nid (g e) = nid e) → childIds (update x g f) = childIds f.
Proof.
  intros Hn. induction f as [|[s|e ks] f IH]; [done| |].
  - by rewrite update_cons_text, !childIds_cons_text.
  - rewrite update_cons_elem, !childIds_cons_elem, IH. f_equal.
    destruct (decide _); [apply Hn|done].
Qed.

Lemma toggle_twice (c : string) (force : bool) (cs : gset string) :
  (if force then {[c]} ∪ ((if force then {[c]} ∪ cs else cs ∖ {[c]}) : gset string)
   else (if force then {[c]} ∪ cs else cs ∖ {[c]}) ∖ {[c]})
  = (if force then {[c]} ∪ cs else cs ∖ {[c]}).
Proof.
  destruct force; apply set_eq; intros y.
  - rewrite !elem_of_union. tauto.
  - rewrite !elem_of_difference. tauto.
Qed.

(** X23. [applyMinimalUi].  On a document with a root element the call
    returns; afterwards the root element has the minimal-UI class
    exactly if [enabled] is true, while its other classes, its
    attributes and its tag are as before; every other element has the
    data it had; no element is added or removed; the collapse-state
    maps, the storage and the supply of new elements are untouched; and
    a second call with the same argument changes nothing.  On a document
    without root element the call throws a type error and changes
    nothing. *)
Theorem applyMinimalUi_toggles enabled s :
  (∀ root e ks,
     documentElement (document s) = Some root →
     lookup root (document s) = Some (e, ks) →
     ∃ s', applyMinimalUi enabled s = Ok tt s'
       ∧ (∃ e' ks', lookup root (document s') = Some (e', ks')
            ∧ (CLASSES.minimalUi ∈ classes e' ↔ enabled = true)
            ∧ (∀ c, c ≠ CLASSES.minimalUi → c ∈ classes e' ↔ c ∈ classes e)
            ∧ attrs e' = attrs e ∧ tag e' = tag e)
       ∧ (∀ y e0 ks0, y ≠ root → lookup y (document s') = Some (e0, ks0) →
            ∃ ks1, lookup y (document s) = Some (e0, ks1))
       ∧ ids (document s') = ids (document s)
       ∧ messages s' = messages s ∧ codeBlocks s' = codeBlocks s
       ∧ storage s' = storage s ∧ nextId s' = nextId s
       ∧ applyMinimalUi enabled s' = Ok tt s')
  ∧ (documentElement (document s) = None →
     applyMinimalUi enabled s
     = Throw "TypeError: Cannot read properties of null (reading 'classList')" s).
Proof.
  split.
  - intros root e ks Hroot Hl.
    set (g := withClasses (λ cs : gset string,
                 if enabled then {[CLASSES.minimalUi]} ∪ cs
                 else cs ∖ {[CLASSES.minimalUi]})).
    assert (Hn : ∀ e, nid (g e) = nid e) by done.
    set (s' := setDocument (update root g (document s)) s).
    assert (Hrun : applyMinimalUi enabled s = Ok tt s').
    { unfold applyMinimalUi, bind, getDocument. by rewrite Hroot. }
    exists s'. split; [exact Hrun|]. split; [|split; [|split]].
    + exists (g e), (update root g ks). split.
      * unfold s', setDocument. cbn [document].
        rewrite (lookup_update root g Hn), Hl. cbn [fmap option_fmap option_map].
        rewrite updateP_eq. cbn [fst snd].
        apply lookup_Some in Hl as [_ Hl]. cbn [fst] in Hl.
        by rewrite decide_True.
      * unfold g, withClasses. cbn [classes attrs tag].
        split; [|split; [|done]].
        -- destruct enabled.
           ++ rewrite elem_of_union, elem_of_singleton. split; [done|by left].
           ++ rewrite elem_of_difference, elem_of_singleton.
              split; [by intros [_ []]|done].
        -- intros c Hc. destruct enabled.
           ++ rewrite elem_of_union, elem_of_singleton.
              split; [by intros [?|?]|by right].
           ++ rewrite elem_of_difference, elem_of_singleton.
              split; [by intros [? _]|done].
    + intros y e0 ks0 Hy. unfold s', setDocument. cbn [document].
      by apply lookup_update_other.
    + unfold s', setDocument. cbn [document]. by apply ids_update.
    + repeat (split; [done|]).
      unfold applyMinimalUi, bind, getDocument.
      assert (Hroot' : documentElement (document s') = Some root).
      { unfold s', setDocument, documentElement. cbn [document].
        by rewrite (childIds_update root g _ Hn). }
      rewrite Hroot'. unfold dom, classList_toggle. fold g.
      assert (Hfix : update root g (document s') = document s').
      { apply update_fixed. intros e1 ks1 Hin Hx.
        unfold s', setDocument in Hin. cbn [document] in Hin.
        rewrite (elemsF_update root g) in Hin.
        apply list_elem_of_fmap in Hin as (p & Hp & _).
        rewrite updateP_eq in Hp. injection Hp as -> _.
        destruct (decide (nid p.1 = root)) as [Hp|Hp]; [|done].
        unfold g, withClasses. cbn [nid tag html attrs classes]. f_equal.
        apply toggle_twice. }
      by rewrite Hfix.
  - intros Hroot. unfold applyMinimalUi, bind, getDocument. by rewrite Hroot.
Qed.

(* ===================================================================== *)
(** * The place of the banner *)
(* ===================================================================== *)

(** X24. Where a new banner goes.  When a pass over a tidy, well-formed
    document without banner hides at least one turn, the banner that it
    creates is a child of the parent element of the first turn, and the
    first turn is the node that follows it there; its text is the
    sentence of the pass. *)
Theorem banner_placed s first host :
  Good s →
  is_Some (documentElement (document s)) →
  st_fault (storage s) = None →
  getElementById IDS.banner (document s) = None →
  head (getConversationTurns (document s)) = Some first →
  parentElement (document s) first = Some host →
  let T := Z.of_nat (length (getConversationTurns (document s))) in
  let K := clampKeepLastN (storedOr (JS.JInt (keepLastN DEFAULT_SETTINGS))
                                    (st_keepLastN (storage s))) in
  K < T →
  ∃ s' b eh l1 eb kb ef kf l2,
    applyTrimming s = Ok (mkApplyResult (T - K) T K) s'
    ∧ getElementById IDS.banner (document s') = Some b
    ∧ lookup host (document s')
      = Some (eh, l1 ++ Elem eb kb :: Elem ef kf :: l2)
    ∧ nid eb = b ∧ nid ef = first
    ∧ textContent (document s') b = Some (bannerText (T - K) T K).
Proof.
  intros Hg Hroot Hfault Hnone Hhead Hpar T K Hlt.
  assert (Hsb : singleBanner (document s)).
  { unfold singleBanner. unfold getElementById, querySelector in Hnone.
    apply head_None in Hnone. rewrite Hnone. simpl. lia. }
  assert (Hplaced : firstTurnPlaced (document s)).
  { intros f Hf. rewrite Hhead in Hf. injection Hf as <-. by exists host. }
  destruct (applyTrimming_pass s Hg Hsb Hroot Hfault Hplaced)
    as (r & s' & Hrun & Hr & _ & _ & _ & _ & Htxt & _ & Hplace & _).
  fold T K in Hr, Htxt, Hplace.
  replace (Z.max 0 (T - K)) with (T - K) in Hr, Htxt, Hplace by lia.
  destruct (Hplace ltac:(lia) Hnone first host Hhead Hpar)
    as (b & eh & l1 & eb & kb & ef & kf & l2 & Hb & Hl & Heb & Hef).
  exists s', b, eh, l1, eb, kb, ef, kf, l2.
  split; [by rewrite Hrun, Hr|]. split; [done|]. split; [done|].
  split; [done|]. split; [done|]. by apply Htxt.
Qed.

Lemma banner_placed_witness :
  ∃ s' eh l1 eb kb ef kf l2,
    applyTrimming exampleState = Ok (mkApplyResult 1 3 2) s'
    ∧ lookup 5 (document s')
      = Some (eh, l1 ++ Elem eb kb :: Elem ef kf :: l2)
    ∧ getElementById IDS.banner (document s') = Some (nid eb)
    ∧ nid ef = 10%nat.
Proof.
  destruct (banner_placed exampleState 10 5)
    as (s' & b & eh & l1 & eb & kb & ef & kf & l2 & Hrun & Hb & Hl & Heb & Hef & _).
  - apply goodb_sound. vm_compute. reflexivity.
  - exists 1%nat. reflexivity.
  - reflexivity.
  - vm_compute. reflexivity.
  - vm_compute. reflexivity.
  - vm_compute. reflexivity.
  - vm_compute. reflexivity.
  - exists s', eh, l1, eb, kb, ef, kf, l2.
    split; [exact Hrun|]. split; [exact Hl|]. split; [by rewrite Heb|exact Hef].
Defined.

(** ** Show all, then a pass *)

(** X25. Showing all turns lasts until the next pass.  [showAllTurns]
    leaves the stored settings alone, so a reconciliation pass that runs
    after it, on a tidy, well-formed document whose storage answers,
    returns the counts that a pass without it returns, hides the same
    turns again, and brings the banner back exactly if a turn is
    hidden. *)
Theorem show_all_then_pass s :
  Good s → singleBanner (document s) →
  is_Some (documentElement (document s)) →
  st_fault (storage s) = None →
  firstTurnPlaced (document s) →
  let turns := getConversationTurns (document s) in
  let T := Z.of_nat (length turns) in
  let K := clampKeepLastN (storedOr (JS.JInt (keepLastN DEFAULT_SETTINGS))
                                    (st_keepLastN (storage s))) in
  let hc := Z.max 0 (T - K) in
  ∃ s0 s1 s2,
    applyTrimming s = Ok (mkApplyResult hc T K) s0
    ∧ showAllTurns s = Ok tt s1
    ∧ (∀ t, t ∈ turns →
         ∃ e ks, lookup t (document s1) = Some (e, ks) ∧ marked false e)
    ∧ applyTrimming s1 = Ok (mkApplyResult hc T K) s2
    ∧ (∀ i t, turns !! i = Some t →
         ∃ e ks, lookup t (document s2) = Some (e, ks)
                 ∧ marked (bool_decide (Z.of_nat i < hc)) e)
    ∧ (is_Some (getElementById IDS.banner (document s2)) ↔ 0 < hc).
Proof.
  intros Hg Hsb Hroot Hfault Hplaced turns T K hc.
  destruct (applyTrimming_pass s Hg Hsb Hroot Hfault Hplaced)
    as (r0 & s0 & Hrun0 & Hr0 & _).
  destruct (showAllTurns_pass s Hg) as ([] & s1 & Hrun1 & Hstep1 & _ & Hb1 & Hm1).
  pose proof Hstep1 as (Hg1 & _ & _ & Hst1).
  pose proof (hostStep_getConversationTurns sameCore sameCore_core s s1 Hg Hstep1)
    as Ht1.
  assert (Hsb1 : singleBanner (document s1)).
  { unfold singleBanner. specialize (Hb1 Hsb).
    unfold getElementById, querySelector in Hb1. apply head_None in Hb1.
    rewrite Hb1. simpl. lia. }
  destruct (applyTrimming_pass s1 Hg1 Hsb1)
    as (r2 & s2 & Hrun2 & Hr2 & _ & _ & Hm2 & Hiff2 & _).
  { by rewrite (hostStep_documentElement sameCore s s1 Hg Hstep1). }
  { by rewrite Hst1. }
  { by apply (firstTurnPlaced_step sameCore s s1 sameCore_core). }
  rewrite Ht1, Hst1 in Hr2, Hm2, Hiff2.
  exists s0, s1, s2.
  split; [by rewrite Hrun0, Hr0|]. split; [done|]. split; [exact Hm1|].
  split; [by rewrite Hrun2, Hr2|]. split; [exact Hm2|exact Hiff2].
Qed.

Lemma show_all_then_pass_witness :
  ∃ s1 s2,
    showAllTurns exampleTrimmed = Ok tt s1
    ∧ applyTrimming s1 = Ok (mkApplyResult 1 3 2) s2
    ∧ is_Some (getElementById IDS.banner (document s2)).
Proof.
  destruct (show_all_then_pass exampleTrimmed)
    as (s0 & s1 & s2 & _ & H1 & _ & H2 & _ & Hb).
  - apply goodb_sound. vm_compute. reflexivity.
  - vm_compute. lia.
  - exists 1%nat. vm_compute. reflexivity.
  - reflexivity.
  - intros first H. vm_compute in H. injection H as <-.
    exists 5%nat. vm_compute. reflexivity.
  - exists s1, s2. split; [exact H1|]. split; [exact H2|].
    apply Hb. vm_compute. reflexivity.
Defined.

Lemma applyMinimalUi_toggles_witness :
  ∃ s', applyMinimalUi true exampleState = Ok tt s'
    ∧ applyMinimalUi true s' = Ok tt s'.
Proof.
  destruct (applyMinimalUi_toggles true exampleState) as (H & _).
  edestruct (H 1%nat) as (s' & Hrun & _ & _ & _ & _ & _ & _ & _ & Hagain).
  - reflexivity.
  - vm_compute. reflexivity.
  - exists s'. split; [exact Hrun|exact Hagain].
Defined.
